(** * Gmail ingestion pipeline of the support inbox: a shallow embedding

    The development follows the webhook job [handleGmailWebhookEvent]
    (jobs/handleGmailWebhookEvent.ts), the message constructor
    [createConversationMessage] (lib/data/conversationMessage.ts) and the
    event dispatcher [triggerEvent] (jobs/trigger.ts).

    Asynchronous functions are written in a state-and-exception monad over a
    [World] that holds the relational tables, the job queue, the realtime
    sink and the exception log.  Everything the code obtains from outside
    the repository (the Gmail API, the mail parser, the DOM, the language
    model, Unicode normalisation) is a field of a record of capabilities. *)

From Stdlib Require Import String Ascii List ZArith Bool Lia DecimalString.
Import ListNotations.

Local Open Scope string_scope.
Local Open Scope Z_scope.

(* ================================================================= *)
(** ** JavaScript string operations *)

(** Strings are sequences of 8-bit code units (the Latin-1 range of a
    JavaScript string). *)
Module JsString.

Definition code (c : ascii) : N := N_of_ascii c.

(** [WhiteSpace] and [LineTerminator] of ECMAScript, as used by
    [String.prototype.trim] and by the regular expression class [\s]:
    TAB, LF, VT, FF, CR, SP and NBSP in this range. *)
Definition isWhiteSpace (c : ascii) : bool :=
  let n := code c in
  (((9 <=? n) && (n <=? 13)) || (n =? 32) || (n =? 160))%N.

(** [toLowerCase] on one code unit: A-Z, and the upper-case letters of
    the Latin-1 supplement (all of U+00C0..U+00DE but the multiplication
    sign U+00D7). *)
Definition lowerChar (c : ascii) : ascii :=
  let n := code c in
  if (((65 <=? n) && (n <=? 90))
      || ((192 <=? n) && (n <=? 222) && negb (n =? 215)))%N
  then ascii_of_N (n + 32) else c.

Fixpoint toLowerCase (s : string) : string :=
  match s with
  | EmptyString => EmptyString
  | String c t => String (lowerChar c) (toLowerCase t)
  end.

Fixpoint allWhiteSpace (s : string) : bool :=
  match s with
  | EmptyString => true
  | String c t => isWhiteSpace c && allWhiteSpace t
  end.

Fixpoint trimStart (s : string) : string :=
  match s with
  | EmptyString => EmptyString
  | String c t => if isWhiteSpace c then trimStart t else s
  end.

Fixpoint trimEnd (s : string) : string :=
  match s with
  | EmptyString => EmptyString
  | String c t =>
      if isWhiteSpace c && allWhiteSpace t then EmptyString
      else String c (trimEnd t)
  end.

Definition trim (s : string) : string := trimEnd (trimStart s).

(** [s.replace(/\r\n/g, by)] *)
Definition CR : ascii := ascii_of_N 13.
Definition LF : ascii := ascii_of_N 10.

Fixpoint replaceCRLF (by_ : string) (s : string) : string :=
  match s with
  | EmptyString => EmptyString
  | String c t =>
      match t with
      | String d u =>
          if Ascii.eqb c CR && Ascii.eqb d LF
          then by_ ++ replaceCRLF by_ u
          else String c (replaceCRLF by_ t)
      | EmptyString => String c EmptyString
      end
  end.

(** [s.split(sep)] for a separator of one character: the pieces between
    its occurrences. *)
Fixpoint split (sep : ascii) (s : string) : list string :=
  match s with
  | EmptyString => [EmptyString]
  | String c t =>
      if Ascii.eqb c sep then EmptyString :: split sep t
      else match split sep t with
           | piece :: rest => String c piece :: rest
           | [] => [String c EmptyString]
           end
  end.

(** JavaScript truthiness of a string. *)
Definition truthy (s : string) : bool := negb (String.eqb s "").

Definition truthyOpt (o : option string) : bool :=
  match o with Some s => truthy s | None => false end.

(** [xs.join(sep)] *)
Fixpoint join (sep : string) (xs : list string) : string :=
  match xs with
  | [] => ""
  | [x] => x
  | x :: rest => x ++ sep ++ join sep rest
  end.

End JsString.

(* ================================================================= *)
(** ** Exceptions *)

(** An [Error] object, as far as the code reads it: its [name] and its
    [message]. *)
Module JsError.

Record t := { name : string; message : string }.

(** [Error.prototype.toString], which a template literal applies to an
    interpolated exception. *)
Definition toString (e : t) : string :=
  if String.eqb (name e) "" then message e
  else if String.eqb (message e) "" then name e
  else name e ++ ": " ++ message e.

End JsError.

(** [new Error(message)] *)
Definition Error (message : string) : JsError.t :=
  {| JsError.name := "Error"; JsError.message := message |}.

(* ================================================================= *)
(** ** Trailing line-break tags: the pattern [/(<br\s*\/?>)+$/i] *)

Module BrPattern.
Import JsString.

Definition isChar (c : ascii) (n : N) : bool := (code c =? n)%N.

Definition isLt (c : ascii) := isChar c 60.      (* < *)
Definition isGt (c : ascii) := isChar c 62.      (* > *)
Definition isSlash (c : ascii) := isChar c 47.   (* / *)
Definition isB (c : ascii) := isChar c 98 || isChar c 66.    (* b, B: flag i *)
Definition isR (c : ascii) := isChar c 114 || isChar c 82.   (* r, R: flag i *)

(** Positions inside one tag [<br\s*\/?>]. *)
Inductive Position :=
| AtTagStart      (* expecting [<] *)
| AfterLt         (* expecting [b] *)
| AfterB          (* expecting [r] *)
| AfterR          (* inside [\s*], then [/] or [>] *)
| AfterSlash.     (* expecting [>] *)

(** [matchesFrom p s]: reading [s] from position [p] completes one or
    more tags and stops exactly at the end of the input (the anchor). *)
Fixpoint matchesFrom (p : Position) (s : string) : bool :=
  match s with
  | EmptyString => false
  | String c t =>
      let closeTag :=
        match t with
        | EmptyString => true
        | String _ _ => matchesFrom AtTagStart t
        end in
      match p with
      | AtTagStart => isLt c && matchesFrom AfterLt t
      | AfterLt => isB c && matchesFrom AfterB t
      | AfterB => isR c && matchesFrom AfterR t
      | AfterR =>
          if isWhiteSpace c then matchesFrom AfterR t
          else if isSlash c then matchesFrom AfterSlash t
          else isGt c && closeTag
      | AfterSlash => isGt c && closeTag
      end
  end.

(** The whole of [s] is a run of line-break tags. *)
Definition isBrRun (s : string) : bool := matchesFrom AtTagStart s.

(** [s.replace(/(<br\s*\/?>)+$/i, "")]: the match starts at the leftmost
    index from which the rest of the input is a run of tags. *)
Fixpoint stripTrailingBr (s : string) : string :=
  if isBrRun s then EmptyString
  else match s with
       | EmptyString => EmptyString
       | String c t => String c (stripTrailingBr t)
       end.

(** The language of the pattern, declaratively. *)
Inductive BrTag : string -> Prop :=
| BrTag_intro lt b r ws sl gt :
    isLt lt = true -> isB b = true -> isR r = true ->
    allWhiteSpace ws = true ->
    (sl = EmptyString \/ exists c, isSlash c = true /\ sl = String c EmptyString) ->
    isGt gt = true ->
    BrTag (String lt (String b (String r (ws ++ sl ++ String gt EmptyString)))).

Inductive BrRun : string -> Prop :=
| BrRun_one s : BrTag s -> BrRun s
| BrRun_more s rest : BrTag s -> BrRun rest -> BrRun (s ++ rest).

End BrPattern.

(* ================================================================= *)
(** ** Data model (db/schema) *)

Definition Timestamp := Z.

Inductive ConversationStatus := open | closed | spam.

Inductive MessageRole := user | staff | ai_assistant | tool.

Inductive MessageStatus := queueing | sent | failed | draft | discarded.

(** [mailboxes.preferences.autoRespondEmailToChat]:
    [z.enum(["draft", "reply"]).nullable().optional()]. *)
Inductive AutoRespondMode := draftMode | replyMode.

Definition ConversationStatus_eqb (a b : ConversationStatus) : bool :=
  match a, b with
  | open, open | closed, closed | spam, spam => true
  | _, _ => false
  end.

Definition MessageRole_eqb (a b : MessageRole) : bool :=
  match a, b with
  | user, user | staff, staff | ai_assistant, ai_assistant | tool, tool => true
  | _, _ => false
  end.

Definition MessageStatus_eqb (a b : MessageStatus) : bool :=
  match a, b with
  | queueing, queueing | sent, sent | failed, failed
  | draft, draft | discarded, discarded => true
  | _, _ => false
  end.

(** [message.status === s] where the column is nullable. *)
Definition statusIs (o : option MessageStatus) (s : MessageStatus) : bool :=
  match o with Some x => MessageStatus_eqb x s | None => false end.

Definition optString_eqb (a : option string) (b : string) : bool :=
  match a with Some x => String.eqb x b | None => false end.

Module Mailbox.
Record preferencesT := { autoRespondEmailToChat : option AutoRespondMode }.
Record t := { id : Z; preferences : option preferencesT }.
(** [mailbox.preferences?.autoRespondEmailToChat] *)
Definition autoRespond (m : t) : option AutoRespondMode :=
  match preferences m with
  | Some p => autoRespondEmailToChat p
  | None => None
  end.
End Mailbox.

Module GmailSupportEmail.
Record t := {
  id : Z;
  email : string;
  accessToken : option string;
  refreshToken : option string;
  historyId : option Z;
  mailboxes : list Mailbox.t }.
Definition with_historyId (h : option Z) (g : t) : t :=
  {| id := id g; email := email g; accessToken := accessToken g;
     refreshToken := refreshToken g; historyId := h; mailboxes := mailboxes g |}.
End GmailSupportEmail.

Module BasicUserProfile.
Record t := { id : string; displayName : option string; email : option string }.
End BasicUserProfile.

Module Conversation.
Record t := {
  id : Z;
  slug : string;
  emailFrom : option string;
  emailFromName : option string;
  subject : option string;
  status : ConversationStatus;
  closedAt : option Timestamp;
  conversationProvider : option string;
  source : option string;
  isPrompt : bool;
  isVisitor : bool;
  assignedToId : option string;
  assignedToAI : bool;
  anonymousSessionId : option Z;
  lastMessageAt : option Timestamp;
  lastUserEmailCreatedAt : option Timestamp;
  lastReadAt : option Timestamp;
  createdAt : Timestamp;
  updatedAt : Timestamp }.
End Conversation.

Module ConversationMessage.
Record t := {
  id : Z;
  conversationId : Z;
  role : MessageRole;
  status : option MessageStatus;
  userId : option string;
  gmailMessageId : option string;
  gmailThreadId : option string;
  messageId : option string;
  references : option string;
  emailFrom : option string;
  emailTo : option string;
  emailCc : option (list string);
  emailBcc : option (list string);
  body : option string;
  cleanedUpText : option string;
  isPerfect : bool;
  isPinned : bool;
  isFlaggedAsBad : bool;
  responseToId : option Z;
  slackChannel : option string;
  slackMessageTs : option string;
  createdAt : Timestamp }.
End ConversationMessage.

(** [NewConversationMessage]: the insert row; [createdAt] is optional and
    [isPinned] is defaulted by [createConversationMessage]. *)
Module NewConversationMessage.
Record t := {
  conversationId : Z;
  role : MessageRole;
  status : option MessageStatus;
  userId : option string;
  gmailMessageId : option string;
  gmailThreadId : option string;
  messageId : option string;
  references : option string;
  emailFrom : option string;
  emailTo : option string;
  emailCc : option (list string);
  emailBcc : option (list string);
  body : option string;
  cleanedUpText : option string;
  isPerfect : bool;
  isPinned : option bool;
  isFlaggedAsBad : bool;
  responseToId : option Z;
  slackChannel : option string;
  slackMessageTs : option string;
  createdAt : option Timestamp }.
End NewConversationMessage.

Module ConversationEvent.
Record changesT := {
  status : option ConversationStatus;
  assignedToId : option (option string);
  assignedToAI : option bool }.
Record t := {
  conversationId : Z;
  type : string;
  changes : changesT;
  byUserId : option string;
  reason : option string;
  createdAt : Timestamp }.
End ConversationEvent.

Module File.
Record t := {
  id : Z;
  slug : option string;
  messageId : option Z;
  name : string;
  key : string;
  mimetype : string;
  size : Z;
  isInline : bool;
  isPublic : bool }.
Definition with_messageId (m : option Z) (f : t) : t :=
  {| id := id f; slug := slug f; messageId := m; name := name f; key := key f;
     mimetype := mimetype f; size := size f; isInline := isInline f;
     isPublic := isPublic f |}.
End File.

(* ================================================================= *)
(** ** The event catalog (jobs/trigger.ts) *)

Inductive EventName :=
| files_preview_generate
| conversations_embedding_create
| conversations_message_created
| conversations_email_enqueued
| conversations_auto_response_create
| conversations_bulk_update
| conversations_update_suggested_actions
| gmail_webhook_received
| faqs_embedding_create
| gmail_import_recent_threads
| gmail_import_gmail_threads
| reports_weekly
| reports_daily
| websites_crawl_create
| messages_flagged_bad
| conversations_auto_close_check
| conversations_auto_close_process_mailbox
| conversations_human_support_requested
| slack_agent_message
| conversations_send_follower_notification.

(** [events[event].jobs] *)
Definition jobsOf (e : EventName) : list string :=
  match e with
  | files_preview_generate => ["generateFilePreview"]
  | conversations_embedding_create => ["embeddingConversation"]
  | conversations_message_created =>
      ["indexConversationMessage"; "generateConversationSummaryEmbeddings";
       "mergeSimilarConversations"; "publishNewMessageEvent";
       "notifyVipMessage"; "categorizeConversationToIssueGroup"]
  | conversations_email_enqueued => ["postEmailToGmail"]
  | conversations_auto_response_create => ["handleAutoResponse"]
  | conversations_bulk_update => ["bulkUpdateConversations"]
  | conversations_update_suggested_actions => ["updateSuggestedActions"]
  | gmail_webhook_received => ["handleGmailWebhookEvent"]
  | faqs_embedding_create => ["embeddingFaq"]
  | gmail_import_recent_threads => ["importRecentGmailThreads"]
  | gmail_import_gmail_threads => ["importGmailThreads"]
  | reports_weekly => ["generateMailboxWeeklyReport"]
  | reports_daily => ["generateMailboxDailyReport"]
  | websites_crawl_create => ["crawlWebsite"]
  | messages_flagged_bad => ["suggestKnowledgeBankChanges"]
  | conversations_auto_close_check => ["closeInactiveConversations"]
  | conversations_auto_close_process_mailbox =>
      ["closeInactiveConversationsForMailbox"]
  | conversations_human_support_requested =>
      ["autoAssignConversation"; "publishRequestHumanSupport"]
  | slack_agent_message => ["handleSlackAgentMessage"]
  | conversations_send_follower_notification => ["sendFollowerNotification"]
  end.

(** Payloads of the events this pipeline triggers. *)
Inductive EventData :=
| EmbeddingCreate (conversationSlug : string)
| MessageCreated (messageId conversationId : Z)
| EmailEnqueued (messageId : Z)
| AutoResponseCreate (messageId : Z)
| FollowerNotification (conversationId : Z) (eventType : string)
    (triggeredByUserId : string) (message : option string).

(** One record of the [jobs] queue: [{ event, job, data }] sent with a
    visibility delay of [sleepSeconds]. *)
Module Job.
Record t := {
  event : EventName;
  job : string;
  data : EventData;
  sleepSeconds : Z }.
End Job.

(** A published realtime event: [{ channel, event, data }]. *)
Module Realtime.
Inductive channelT :=
| conversationChannelId (slug : string)
| conversationsListChannelId.
Record t := {
  channel : channelT;
  event : string;
  conversationId : Z;
  status : ConversationStatus;
  previousStatus : option ConversationStatus }.
End Realtime.

(* ================================================================= *)
(** ** Parsed mail (mailparser) and the Gmail API shapes *)

Module AddressObject.
Record t := { text : string }.
End AddressObject.

(** [AddressObject | AddressObject[] | undefined] *)
Inductive AddressField :=
| NoAddress
| OneAddress (a : AddressObject.t)
| ManyAddresses (l : list AddressObject.t).

(** [string | string[] | undefined] *)
Inductive ReferencesField :=
| NoReferences
| OneReference (r : string)
| ManyReferences (l : list string).

Module Attachment.
Record t := {
  filename : option string;
  contentType : option string;
  size : Z;
  content : string }.
End Attachment.

Module ParsedMail.
Record t := {
  from : option AddressObject.t;
  to : AddressField;
  cc : AddressField;
  bcc : AddressField;
  subject : option string;
  messageId : option string;
  references : ReferencesField;
  html : option string;          (* [None] is the value [false] *)
  textAsHtml : option string;
  text : option string;
  date : option Timestamp;
  attachments : list Attachment.t }.
End ParsedMail.

Module ParsedMailbox.
Record t := { address : string; name : option string }.
End ParsedMailbox.

(** [{ message: { id, threadId, labelIds } }] of [history.messagesAdded]. *)
Module GmailMessage.
Record t := {
  id : option string;
  threadId : option string;
  labelIds : option (list string) }.
End GmailMessage.

Module MessageAdded.
Record t := { message : option GmailMessage.t }.
End MessageAdded.

Module History.
Record t := { messagesAdded : option (list MessageAdded.t) }.
End History.

(** [GaxiosResponse] of [users.history.list] and of [users.messages.get]. *)
Module HistoryResponse.
Record t := {
  status : Z;
  statusText : string;
  history : option (list History.t) }.
End HistoryResponse.

Module MessageResponse.
Record t := {
  status : Z;
  statusText : string;
  raw : option string }.
End MessageResponse.

Module GmailWebhookData.
Record t := { emailAddress : string; historyId : Z }.
End GmailWebhookData.

(** The Pub/Sub envelope that [GmailWebhookBodySchema] accepts. *)
Module PubsubMessage.
Record t := { data : string; messageId : string; publishTime : string }.
End PubsubMessage.

Module GmailWebhookBody.
Record t := { message : PubsubMessage.t; subscription : string }.
End GmailWebhookBody.

(** What [GmailWebhookHeadersSchema] accepts. *)
Module GmailWebhookHeaders.
Record t := { authorization : string }.
End GmailWebhookHeaders.

(** The payload of the identity token, [ticket.getPayload()]. *)
Module TokenPayload.
Record t := { email : option string }.
End TokenPayload.

(** The argument [{ body, headers }] of the job: the body as it arrives,
    the headers as the entries of a record of strings. *)
Module WebhookRequest.
Record t := { body : string; headers : list (string * string) }.
End WebhookRequest.

(* ================================================================= *)
(** ** The world and the monad of asynchronous functions *)

Inductive Result (A : Type) :=
| Ok (a : A)
| Throw (error : JsError.t).
Arguments Ok {A} a.
Arguments Throw {A} error.

Record World := {
  conversations : list Conversation.t;
  conversationMessages : list ConversationMessage.t;
  conversationEvents : list ConversationEvent.t;
  files : list File.t;
  gmailSupportEmails : list GmailSupportEmail.t;
  jobs : list Job.t;                 (* the pgmq queue [jobs] *)
  realtime : list Realtime.t;        (* what [publishToRealtime] received *)
  captured : list JsError.t;         (* what Sentry captured *)
  nextConversationId : Z;            (* identity sequences *)
  nextMessageId : Z;
  nextFileId : Z;
  now : Timestamp }.                 (* [new Date()] *)

Definition with_conversations (x : list Conversation.t) (w : World) : World :=
  {| conversations := x; conversationMessages := conversationMessages w;
     conversationEvents := conversationEvents w; files := files w;
     gmailSupportEmails := gmailSupportEmails w; jobs := jobs w;
     realtime := realtime w; captured := captured w;
     nextConversationId := nextConversationId w;
     nextMessageId := nextMessageId w; nextFileId := nextFileId w;
     now := now w |}.

Definition with_conversationMessages (x : list ConversationMessage.t)
    (w : World) : World :=
  {| conversations := conversations w; conversationMessages := x;
     conversationEvents := conversationEvents w; files := files w;
     gmailSupportEmails := gmailSupportEmails w; jobs := jobs w;
     realtime := realtime w; captured := captured w;
     nextConversationId := nextConversationId w;
     nextMessageId := nextMessageId w; nextFileId := nextFileId w;
     now := now w |}.

Definition with_conversationEvents (x : list ConversationEvent.t)
    (w : World) : World :=
  {| conversations := conversations w;
     conversationMessages := conversationMessages w;
     conversationEvents := x; files := files w;
     gmailSupportEmails := gmailSupportEmails w; jobs := jobs w;
     realtime := realtime w; captured := captured w;
     nextConversationId := nextConversationId w;
     nextMessageId := nextMessageId w; nextFileId := nextFileId w;
     now := now w |}.

Definition with_files (x : list File.t) (w : World) : World :=
  {| conversations := conversations w;
     conversationMessages := conversationMessages w;
     conversationEvents := conversationEvents w; files := x;
     gmailSupportEmails := gmailSupportEmails w; jobs := jobs w;
     realtime := realtime w; captured := captured w;
     nextConversationId := nextConversationId w;
     nextMessageId := nextMessageId w; nextFileId := nextFileId w;
     now := now w |}.

Definition with_gmailSupportEmails (x : list GmailSupportEmail.t)
    (w : World) : World :=
  {| conversations := conversations w;
     conversationMessages := conversationMessages w;
     conversationEvents := conversationEvents w; files := files w;
     gmailSupportEmails := x; jobs := jobs w;
     realtime := realtime w; captured := captured w;
     nextConversationId := nextConversationId w;
     nextMessageId := nextMessageId w; nextFileId := nextFileId w;
     now := now w |}.

Definition with_jobs (x : list Job.t) (w : World) : World :=
  {| conversations := conversations w;
     conversationMessages := conversationMessages w;
     conversationEvents := conversationEvents w; files := files w;
     gmailSupportEmails := gmailSupportEmails w; jobs := x;
     realtime := realtime w; captured := captured w;
     nextConversationId := nextConversationId w;
     nextMessageId := nextMessageId w; nextFileId := nextFileId w;
     now := now w |}.

Definition with_realtime (x : list Realtime.t) (w : World) : World :=
  {| conversations := conversations w;
     conversationMessages := conversationMessages w;
     conversationEvents := conversationEvents w; files := files w;
     gmailSupportEmails := gmailSupportEmails w; jobs := jobs w;
     realtime := x; captured := captured w;
     nextConversationId := nextConversationId w;
     nextMessageId := nextMessageId w; nextFileId := nextFileId w;
     now := now w |}.

Definition with_captured (x : list JsError.t) (w : World) : World :=
  {| conversations := conversations w;
     conversationMessages := conversationMessages w;
     conversationEvents := conversationEvents w; files := files w;
     gmailSupportEmails := gmailSupportEmails w; jobs := jobs w;
     realtime := realtime w; captured := x;
     nextConversationId := nextConversationId w;
     nextMessageId := nextMessageId w; nextFileId := nextFileId w;
     now := now w |}.

Definition with_nextConversationId (x : Z) (w : World) : World :=
  {| conversations := conversations w;
     conversationMessages := conversationMessages w;
     conversationEvents := conversationEvents w; files := files w;
     gmailSupportEmails := gmailSupportEmails w; jobs := jobs w;
     realtime := realtime w; captured := captured w;
     nextConversationId := x;
     nextMessageId := nextMessageId w; nextFileId := nextFileId w;
     now := now w |}.

Definition with_nextMessageId (x : Z) (w : World) : World :=
  {| conversations := conversations w;
     conversationMessages := conversationMessages w;
     conversationEvents := conversationEvents w; files := files w;
     gmailSupportEmails := gmailSupportEmails w; jobs := jobs w;
     realtime := realtime w; captured := captured w;
     nextConversationId := nextConversationId w;
     nextMessageId := x; nextFileId := nextFileId w;
     now := now w |}.

Definition with_nextFileId (x : Z) (w : World) : World :=
  {| conversations := conversations w;
     conversationMessages := conversationMessages w;
     conversationEvents := conversationEvents w; files := files w;
     gmailSupportEmails := gmailSupportEmails w; jobs := jobs w;
     realtime := realtime w; captured := captured w;
     nextConversationId := nextConversationId w;
     nextMessageId := nextMessageId w; nextFileId := x;
     now := now w |}.

(** An asynchronous function: it reads and writes the world and either
    returns or throws.  Writes made before a throw stay (the webhook job
    opens no transaction). *)
Definition M (A : Type) : Type := World -> Result A * World.

Definition ret {A} (a : A) : M A := fun w => (Ok a, w).

Definition throw {A} (error : JsError.t) : M A := fun w => (Throw error, w).

Definition bind {A B} (m : M A) (k : A -> M B) : M B :=
  fun w =>
    match m w with
    | (Ok a, w') => k a w'
    | (Throw e, w') => (Throw e, w')
    end.

Definition gets {A} (f : World -> A) : M A := fun w => (Ok (f w), w).

Definition modify (f : World -> World) : M unit := fun w => (Ok tt, f w).

(** [try { body } catch (error) { handler(error) }] *)
Definition tryCatch {A} (body : M A) (handler : JsError.t -> M A) : M A :=
  fun w =>
    match body w with
    | (Ok a, w') => (Ok a, w')
    | (Throw e, w') => handler e w'
    end.

(** Lifting the outcome of a call that leaves the world alone. *)
Definition lift {A} (r : Result A) : M A := fun w => (r, w).

Declare Scope monad_scope.
Delimit Scope monad_scope with monad.
Notation "x <- m ;; k" := (bind m (fun x => k))
  (at level 61, m at next level, right associativity) : monad_scope.
Notation "m ;;; k" := (bind m (fun _ => k))
  (at level 61, right associativity) : monad_scope.
Local Open Scope monad_scope.

Definition when (b : bool) (m : M unit) : M unit := if b then m else ret tt.

(* ================================================================= *)
(** ** Capabilities: what the pipeline consumes from outside *)

Inductive NodeEnv := development | production | test.

Record Capabilities := {
  (** [env.NODE_ENV] *)
  NODE_ENV : NodeEnv;
  (** Whether [captureExceptionAndThrowIfDevelopment] (lib/shared/sentry)
      throws the exception it is handed, as it does in development. *)
  developmentThrow : bool;
  (** [GmailWebhookBodySchema.parse(body)] and
      [GmailWebhookHeadersSchema.parse(normalizedHeaders)] (zod). *)
  parseGmailWebhookBody : string -> Result GmailWebhookBody.t;
  parseGmailWebhookHeaders : list (string * string) -> Result GmailWebhookHeaders.t;
  (** [(await new OAuth2Client().verifyIdToken({ idToken })).getPayload()] *)
  verifyIdToken : string -> Result (option TokenPayload.t);
  (** [env.GOOGLE_PUBSUB_CLAIM_EMAIL] *)
  GOOGLE_PUBSUB_CLAIM_EMAIL : string;
  (** [GmailWebhookDataSchema.parse(JSON.parse(Buffer.from(data,
      "base64").toString("utf-8")))] *)
  parseGmailWebhookData : string -> Result GmailWebhookData.t;
  (** [new NonRetriableError(message)] of jobs/utils. *)
  NonRetriableError : string -> JsError.t;
  (** lib/gmail/client *)
  getMessagesFromHistoryId : GmailSupportEmail.t -> Z -> Result HistoryResponse.t;
  getMessageById : GmailSupportEmail.t -> string -> Result MessageResponse.t;
  (** [simpleParser(Buffer.from(raw, "base64url").toString("utf-8"))] *)
  simpleParser : string -> Result ParsedMail.t;
  (** lib/emails *)
  parseEmailAddress : string -> option ParsedMailbox.t;
  extractAddresses : string -> list string;
  (** [new JSDOM(html).window.document.body?.innerHTML] *)
  bodyInnerHTML : string -> option string;
  (** [s.normalize("NFKD")] *)
  normalizeNFKD : string -> string;
  (** The rewritten HTML and the file records that [createAndUploadFile]
      stored for the inline images (their ids are assigned on insert). *)
  extractAndUploadInlineImages : string -> string * list File.t;
  htmlToText : string -> string;
  extractQuotations : string -> string;
  (** lib/data/user *)
  getBasicProfileByEmail : string -> option BasicUserProfile.t;
  matchesTransactionalEmailAddress : string -> bool;
  (** [(await runAIQuery({ ..., mailbox, messages: [content] })).text] *)
  runAIQuery : Mailbox.t -> string -> Result string;
  (** lib/data/files *)
  generateKey : list string -> string -> string;
  uploadFile : string -> Attachment.t -> Result unit;
  generateFilePreview : Z -> Result unit;
  (** The default of the [slug] column. *)
  generateSlug : Z -> string;
  (** components/constants *)
  EMAIL_UNDO_COUNTDOWN_SECONDS : Z }.

(* ================================================================= *)
(** ** lib/shared/sentry *)

(** Modelled from the spec: [captureExceptionAndLog] of lib/shared/sentry,
    whose source is not at hand (section 4.2: the failure is logged).  What
    was captured is kept in [captured]. *)
Definition captureExceptionAndLog (error : JsError.t) : M unit :=
  modify (fun w => with_captured (captured w ++ [error]) w).

(** [captureExceptionAndThrowIfDevelopment] of the same file: it throws the
    exception where the capability [developmentThrow] says so and captures
    it otherwise. *)
Definition captureExceptionAndThrowIfDevelopment (caps : Capabilities)
    (error : JsError.t) : M unit :=
  if developmentThrow caps then throw error else captureExceptionAndLog error.

(* ================================================================= *)
(** ** jobs/trigger.ts *)

(** [triggerEvent(event, data, { sleepSeconds = 0 })]: one payload per job
    of the event, sent as one batch. *)
Definition triggerEvent (event : EventName) (data : EventData)
    (sleepSeconds : Z) : M unit :=
  let payloads :=
    map (fun job => {| Job.event := event; Job.job := job; Job.data := data;
                       Job.sleepSeconds := sleepSeconds |}) (jobsOf event) in
  modify (fun w => with_jobs (jobs w ++ payloads) w).

(* ================================================================= *)
(** ** lib/data/conversation *)

Definition findConversation (id : Z) (w : World) : option Conversation.t :=
  find (fun c => Conversation.id c =? id) (conversations w).

(** The [set] argument of [updateConversation]. *)
Module ConversationUpdate.
Record t := {
  status : option ConversationStatus;
  assignedToId : option (option string);
  assignedToAI : option bool;
  lastMessageAt : option Timestamp;
  lastUserEmailCreatedAt : option Timestamp;
  lastReadAt : option Timestamp }.
End ConversationUpdate.

Definition orKeep {A} (new : option A) (old : A) : A :=
  match new with Some x => x | None => old end.

Definition orKeepOpt {A} (new : option A) (old : option A) : option A :=
  match new with Some x => Some x | None => old end.

(** The row after the update: the fields of [set], [updatedAt] stamped,
    and [closedAt] set to now when [set] puts the status to closed. *)
Definition applyUpdate (set : ConversationUpdate.t) (time : Timestamp)
    (c : Conversation.t) : Conversation.t :=
  {| Conversation.id := Conversation.id c;
     Conversation.slug := Conversation.slug c;
     Conversation.emailFrom := Conversation.emailFrom c;
     Conversation.emailFromName := Conversation.emailFromName c;
     Conversation.subject := Conversation.subject c;
     Conversation.status :=
       orKeep (ConversationUpdate.status set) (Conversation.status c);
     Conversation.closedAt :=
       match ConversationUpdate.status set with
       | Some closed => Some time
       | _ => Conversation.closedAt c
       end;
     Conversation.conversationProvider := Conversation.conversationProvider c;
     Conversation.source := Conversation.source c;
     Conversation.isPrompt := Conversation.isPrompt c;
     Conversation.isVisitor := Conversation.isVisitor c;
     Conversation.assignedToId :=
       orKeep (ConversationUpdate.assignedToId set) (Conversation.assignedToId c);
     Conversation.assignedToAI :=
       orKeep (ConversationUpdate.assignedToAI set) (Conversation.assignedToAI c);
     Conversation.anonymousSessionId := Conversation.anonymousSessionId c;
     Conversation.lastMessageAt :=
       orKeepOpt (ConversationUpdate.lastMessageAt set)
                 (Conversation.lastMessageAt c);
     Conversation.lastUserEmailCreatedAt :=
       orKeepOpt (ConversationUpdate.lastUserEmailCreatedAt set)
                 (Conversation.lastUserEmailCreatedAt c);
     Conversation.lastReadAt :=
       orKeepOpt (ConversationUpdate.lastReadAt set) (Conversation.lastReadAt c);
     Conversation.createdAt := Conversation.createdAt c;
     Conversation.updatedAt := time |}.

Definition updateRows (id : Z) (set : ConversationUpdate.t) (time : Timestamp)
    (rows : list Conversation.t) : list Conversation.t :=
  map (fun c => if Conversation.id c =? id then applyUpdate set time c else c)
      rows.

Definition publishToRealtime (e : Realtime.t) : M unit :=
  modify (fun w => with_realtime (realtime w ++ [e]) w).

(** Modelled from the spec: [updateConversation] of lib/data/conversation,
    whose source is not at hand (section 4.5, the update contract of the
    conversation state machine).  It returns null without side effects when
    the id does not exist; otherwise it writes the fields, appends a
    conversation event holding the previous values and the reason, publishes
    [conversation.updated] (and [conversation.statusChanged] when the status
    changed) unless [skipRealtimeEvents], and triggers
    [conversations/embedding.create] when the status changed to closed. *)
Definition updateConversation (id : Z) (set : ConversationUpdate.t)
    (byUserId : option string) (message : option string)
    (skipRealtimeEvents : bool) : M (option Conversation.t) :=
  current <- gets (findConversation id) ;;
  match current with
  | None => ret None
  | Some current =>
      time <- gets now ;;
      let updated := applyUpdate set time current in
      modify (fun w => with_conversations
                         (updateRows id set time (conversations w)) w) ;;;
      modify (fun w => with_conversationEvents
        (conversationEvents w ++
          [{| ConversationEvent.conversationId := id;
              ConversationEvent.type := "update";
              ConversationEvent.changes :=
                {| ConversationEvent.status := Some (Conversation.status current);
                   ConversationEvent.assignedToId :=
                     Some (Conversation.assignedToId current);
                   ConversationEvent.assignedToAI :=
                     Some (Conversation.assignedToAI current) |};
              ConversationEvent.byUserId := byUserId;
              ConversationEvent.reason := message;
              ConversationEvent.createdAt := time |}]) w) ;;;
      let statusChanged :=
        negb (ConversationStatus_eqb (Conversation.status current)
                                     (Conversation.status updated)) in
      when (negb skipRealtimeEvents)
        (publishToRealtime
           {| Realtime.channel :=
                Realtime.conversationChannelId (Conversation.slug updated);
              Realtime.event := "conversation.updated";
              Realtime.conversationId := id;
              Realtime.status := Conversation.status updated;
              Realtime.previousStatus := None |} ;;;
         when statusChanged
           (publishToRealtime
              {| Realtime.channel := Realtime.conversationsListChannelId;
                 Realtime.event := "conversation.statusChanged";
                 Realtime.conversationId := id;
                 Realtime.status := Conversation.status updated;
                 Realtime.previousStatus :=
                   Some (Conversation.status current) |})) ;;;
      when (ConversationStatus_eqb (Conversation.status updated) closed
            && statusChanged)
        (triggerEvent conversations_embedding_create
           (EmbeddingCreate (Conversation.slug updated)) 0) ;;;
      ret (Some updated)
  end.

(* ================================================================= *)
(** ** lib/data/files *)

(** Modelled from the spec: [finishFileUpload] of lib/data/files, whose
    source is not at hand (section 4.4, step 7: the previously uploaded
    inline-image file records are attached to the persisted message). *)
Definition finishFileUpload (fileSlugs : list string) (messageId : Z) : M unit :=
  modify (fun w =>
    with_files
      (map (fun f =>
              match File.slug f with
              | Some s =>
                  if existsb (String.eqb s) fileSlugs
                  then File.with_messageId (Some messageId) f
                  else f
              | None => f
              end) (files w)) w).

(* ================================================================= *)
(** ** lib/data/conversationMessage.ts *)

(** The row stored for the insert values [v]: the identity column and the
    defaults of [isPinned] and [createdAt] filled in. *)
Definition messageRow (id : Z) (time : Timestamp) (v : NewConversationMessage.t)
    : ConversationMessage.t :=
  {| ConversationMessage.id := id;
     ConversationMessage.conversationId := NewConversationMessage.conversationId v;
     ConversationMessage.role := NewConversationMessage.role v;
     ConversationMessage.status := NewConversationMessage.status v;
     ConversationMessage.userId := NewConversationMessage.userId v;
     ConversationMessage.gmailMessageId := NewConversationMessage.gmailMessageId v;
     ConversationMessage.gmailThreadId := NewConversationMessage.gmailThreadId v;
     ConversationMessage.messageId := NewConversationMessage.messageId v;
     ConversationMessage.references := NewConversationMessage.references v;
     ConversationMessage.emailFrom := NewConversationMessage.emailFrom v;
     ConversationMessage.emailTo := NewConversationMessage.emailTo v;
     ConversationMessage.emailCc := NewConversationMessage.emailCc v;
     ConversationMessage.emailBcc := NewConversationMessage.emailBcc v;
     ConversationMessage.body := NewConversationMessage.body v;
     ConversationMessage.cleanedUpText := NewConversationMessage.cleanedUpText v;
     ConversationMessage.isPerfect := NewConversationMessage.isPerfect v;
     ConversationMessage.isPinned :=
       orKeep (NewConversationMessage.isPinned v) false;
     ConversationMessage.isFlaggedAsBad := NewConversationMessage.isFlaggedAsBad v;
     ConversationMessage.responseToId := NewConversationMessage.responseToId v;
     ConversationMessage.slackChannel := NewConversationMessage.slackChannel v;
     ConversationMessage.slackMessageTs := NewConversationMessage.slackMessageTs v;
     ConversationMessage.createdAt :=
       orKeep (NewConversationMessage.createdAt v) time |}.

(** [tx.insert(conversationMessages).values(messageValues).returning()] *)
Definition insertConversationMessage (v : NewConversationMessage.t)
    : M ConversationMessage.t :=
  fun w =>
    let row := messageRow (nextMessageId w) (now w) v in
    (Ok row,
     with_nextMessageId (nextMessageId w + 1)
       (with_conversationMessages (conversationMessages w ++ [row]) w)).

(** One element of [eventsToSend]. *)
Module EventToSend.
Record t := {
  name : EventName;
  data : EventData;
  sleepSeconds : option Z }.
End EventToSend.

(** [cleanedUpText || undefined] *)
Definition orUndefined (s : option string) : option string :=
  match s with
  | Some x => if JsString.truthy x then Some x else None
  | None => None
  end.

(** The list [eventsToSend] built for a created message. *)
Definition eventsToSend (caps : Capabilities) (message : ConversationMessage.t)
    : list EventToSend.t :=
  (if negb (statusIs (ConversationMessage.status message) draft) then
     {| EventToSend.name := conversations_message_created;
        EventToSend.data :=
          MessageCreated (ConversationMessage.id message)
                         (ConversationMessage.conversationId message);
        EventToSend.sleepSeconds := None |}
     :: match ConversationMessage.userId message with
        | Some userId =>
            if JsString.truthy userId
               && (MessageRole_eqb (ConversationMessage.role message) user
                   || MessageRole_eqb (ConversationMessage.role message) staff)
            then
              [{| EventToSend.name := conversations_send_follower_notification;
                  EventToSend.data :=
                    FollowerNotification
                      (ConversationMessage.conversationId message)
                      "new_message" userId
                      (orUndefined (ConversationMessage.cleanedUpText message));
                  EventToSend.sleepSeconds := None |}]
            else []
        | None => []
        end
   else [])
  ++
  (if statusIs (ConversationMessage.status message) queueing then
     [{| EventToSend.name := conversations_email_enqueued;
         EventToSend.data := EmailEnqueued (ConversationMessage.id message);
         EventToSend.sleepSeconds := Some (EMAIL_UNDO_COUNTDOWN_SECONDS caps) |}]
   else []).

(** [triggerEvent(event.name, event.data,
       event.sleepSeconds ? { sleepSeconds: event.sleepSeconds } : {})] *)
Definition sendEvent (e : EventToSend.t) : M unit :=
  triggerEvent (EventToSend.name e) (EventToSend.data e)
    match EventToSend.sleepSeconds e with
    | Some s => if s =? 0 then 0 else s
    | None => 0
    end.

(** The calls of [Promise.all(eventsToSend.map(...))], in list order. *)
Fixpoint sendEvents (es : list EventToSend.t) : M unit :=
  match es with
  | [] => ret tt
  | e :: rest => sendEvent e ;;; sendEvents rest
  end.

Definition createConversationMessage (caps : Capabilities)
    (conversationMessage : NewConversationMessage.t)
    : M ConversationMessage.t :=
  message <- insertConversationMessage conversationMessage ;;
  time <- gets now ;;
  updateConversation (ConversationMessage.conversationId message)
    {| ConversationUpdate.status := None;
       ConversationUpdate.assignedToId := None;
       ConversationUpdate.assignedToAI := None;
       ConversationUpdate.lastMessageAt := Some time;
       ConversationUpdate.lastUserEmailCreatedAt :=
         if MessageRole_eqb (ConversationMessage.role message) user
         then Some time else None;
       ConversationUpdate.lastReadAt :=
         if MessageRole_eqb (ConversationMessage.role message) user
         then Some time else None |}
    None None true ;;;
  sendEvents (eventsToSend caps message) ;;;
  ret message.

(** [createAiDraft]: the body is the sanitised rendering of the markdown,
    supplied here already rendered. *)
Definition createAiDraft (caps : Capabilities) (conversationId : Z)
    (sanitizedBody body : string) (responseToId : Z)
    : M ConversationMessage.t :=
  if responseToId =? 0 then throw (Error "responseToId is required")
  else
    createConversationMessage caps
      {| NewConversationMessage.conversationId := conversationId;
         NewConversationMessage.role := ai_assistant;
         NewConversationMessage.status := Some draft;
         NewConversationMessage.userId := None;
         NewConversationMessage.gmailMessageId := None;
         NewConversationMessage.gmailThreadId := None;
         NewConversationMessage.messageId := None;
         NewConversationMessage.references := None;
         NewConversationMessage.emailFrom := None;
         NewConversationMessage.emailTo := None;
         NewConversationMessage.emailCc := None;
         NewConversationMessage.emailBcc := None;
         NewConversationMessage.body := Some sanitizedBody;
         NewConversationMessage.cleanedUpText := Some body;
         NewConversationMessage.isPerfect := false;
         NewConversationMessage.isPinned := None;
         NewConversationMessage.isFlaggedAsBad := false;
         NewConversationMessage.responseToId := Some responseToId;
         NewConversationMessage.slackChannel := None;
         NewConversationMessage.slackMessageTs := None;
         NewConversationMessage.createdAt := None |}.

(* ================================================================= *)
(** ** jobs/handleGmailWebhookEvent.ts *)

Definition IGNORED_GMAIL_CATEGORIES : list string :=
  ["CATEGORY_PROMOTIONS"; "CATEGORY_UPDATES"; "CATEGORY_FORUMS";
   "CATEGORY_SOCIAL"].

Definition isNewThread (gmailMessageId gmailThreadId : string) : bool :=
  String.eqb gmailMessageId gmailThreadId.

Definition isThankYouOrAutoResponse (caps : Capabilities)
    (mailbox : Mailbox.t) (emailContent : string) : M bool :=
  tryCatch
    (content <- lift (runAIQuery caps mailbox emailContent) ;;
     ret (String.eqb (JsString.trim (JsString.toLowerCase content)) "yes"))
    (fun error => captureExceptionAndLog error ;;; ret false).

(** The [for (const ccAddress of ccAddresses)] loop of [assignBasedOnCc]:
    it stops at the first address with a staff profile. *)
Fixpoint assignFirstStaff (caps : Capabilities) (conversationId : Z)
    (ccAddresses : list string) : M unit :=
  match ccAddresses with
  | [] => ret tt
  | ccAddress :: rest =>
      match getBasicProfileByEmail caps ccAddress with
      | Some ccStaffUser =>
          updateConversation conversationId
            {| ConversationUpdate.status := None;
               ConversationUpdate.assignedToId :=
                 Some (Some (BasicUserProfile.id ccStaffUser));
               ConversationUpdate.assignedToAI := Some false;
               ConversationUpdate.lastMessageAt := None;
               ConversationUpdate.lastUserEmailCreatedAt := None;
               ConversationUpdate.lastReadAt := None |}
            None (Some "Auto-assigned based on CC") true ;;;
          ret tt
      | None => assignFirstStaff caps conversationId rest
      end
  end.

Definition ccCandidates (caps : Capabilities) (emailCc : string)
    (gmailSupportEmail : GmailSupportEmail.t) : list string :=
  filter
    (fun address =>
       negb (String.eqb (JsString.toLowerCase address)
               (JsString.toLowerCase (GmailSupportEmail.email gmailSupportEmail))))
    (extractAddresses caps emailCc).

Definition assignBasedOnCc (caps : Capabilities) (conversationId : Z)
    (emailCc : string) (gmailSupportEmail : GmailSupportEmail.t) : M unit :=
  assignFirstStaff caps conversationId
    (ccCandidates caps emailCc gmailSupportEmail).

Definition addressesToString (value : AddressField) : option string :=
  match value with
  | NoAddress => None
  | OneAddress a => Some (AddressObject.text a)
  | ManyAddresses l => Some (JsString.join ", " (map AddressObject.text l))
  end.

(** [parsedEmail.references ? (Array.isArray(r) ? r.join(" ") : r) : null] *)
Definition referencesToString (r : ReferencesField) : option string :=
  match r with
  | NoReferences => None
  | OneReference s => if JsString.truthy s then Some s else None
  | ManyReferences l => Some (JsString.join " " l)
  end.

(** [db.insert(files).values({...}).returning({ id })] *)
Definition insertFile (messageId : Z) (name key mimetype : string) (size : Z)
    : M Z :=
  fun w =>
    let row :=
      {| File.id := nextFileId w; File.slug := None;
         File.messageId := Some messageId; File.name := name; File.key := key;
         File.mimetype := mimetype; File.size := size;
         File.isInline := false; File.isPublic := false |} in
    (Ok (nextFileId w),
     with_nextFileId (nextFileId w + 1) (with_files (files w ++ [row]) w)).

Definition processAttachment (caps : Capabilities) (conversationSlug : string)
    (messageId : Z) (attachment : Attachment.t) : M unit :=
  tryCatch
    (let fileName := orKeep (Attachment.filename attachment) "untitled" in
     let key := generateKey caps ["attachments"; conversationSlug] fileName in
     let contentType :=
       orKeep (Attachment.contentType attachment) "application/octet-stream" in
     fileId <- insertFile messageId fileName key contentType
                 (Attachment.size attachment) ;;
     lift (uploadFile caps key attachment) ;;;
     lift (generateFilePreview caps fileId))
    (captureExceptionAndThrowIfDevelopment caps).

(** [Promise.all]: every task runs; the whole rejects with the first
    rejection.  The tasks are taken in list order. *)
Fixpoint promiseAll (tasks : list (M unit)) : M unit :=
  match tasks with
  | [] => ret tt
  | task :: rest =>
      fun w =>
        match task w with
        | (Ok _, w') => promiseAll rest w'
        | (Throw e, w') => (Throw e, snd (promiseAll rest w'))
        end
  end.

Definition processGmailAttachments (caps : Capabilities)
    (conversationSlug : string) (messageId : Z)
    (attachments : list Attachment.t) : M unit :=
  promiseAll (map (processAttachment caps conversationSlug messageId) attachments).

(** [!conversationRecord?.assignedToId] *)
Definition hasNoAssignee (conversationRecord : option Conversation.t) : bool :=
  match conversationRecord with
  | Some c => negb (JsString.truthyOpt (Conversation.assignedToId c))
  | None => true
  end.

Definition isSome {A} (o : option A) : bool :=
  match o with Some _ => true | None => false end.

Definition createMessageAndProcessAttachments (caps : Capabilities)
    (gmailSupportEmail : GmailSupportEmail.t)
    (parsedEmail : ParsedMail.t) (parsedEmailFrom : ParsedMailbox.t)
    (processedHtml cleanedUpText : string) (fileSlugs : list string)
    (gmailMessageId gmailThreadId : string)
    (conversation : Conversation.t)
    (staffUser : option BasicUserProfile.t) : M ConversationMessage.t :=
  let references := referencesToString (ParsedMail.references parsedEmail) in
  let emailTo := addressesToString (ParsedMail.to parsedEmail) in
  let emailCc := addressesToString (ParsedMail.cc parsedEmail) in
  let emailBcc := addressesToString (ParsedMail.bcc parsedEmail) in
  let addressList (s : option string) :=
    match s with
    | Some x => if JsString.truthy x then Some (extractAddresses caps x) else None
    | None => None
    end in
  newEmail <- createConversationMessage caps
    {| NewConversationMessage.conversationId := Conversation.id conversation;
       NewConversationMessage.role := if isSome staffUser then staff else user;
       NewConversationMessage.status := if isSome staffUser then Some sent else None;
       NewConversationMessage.userId := option_map BasicUserProfile.id staffUser;
       NewConversationMessage.gmailMessageId := Some gmailMessageId;
       NewConversationMessage.gmailThreadId := Some gmailThreadId;
       NewConversationMessage.messageId :=
         match ParsedMail.messageId parsedEmail with
         | Some x => if JsString.truthy x then Some x else None
         | None => None
         end;
       NewConversationMessage.references := references;
       NewConversationMessage.emailFrom := Some (ParsedMailbox.address parsedEmailFrom);
       NewConversationMessage.emailTo := emailTo;
       NewConversationMessage.emailCc := addressList emailCc;
       NewConversationMessage.emailBcc := addressList emailBcc;
       NewConversationMessage.body := Some processedHtml;
       NewConversationMessage.cleanedUpText := Some cleanedUpText;
       NewConversationMessage.isPerfect := false;
       NewConversationMessage.isPinned := Some false;
       NewConversationMessage.isFlaggedAsBad := false;
       NewConversationMessage.responseToId := None;
       NewConversationMessage.slackChannel := None;
       NewConversationMessage.slackMessageTs := None;
       NewConversationMessage.createdAt := ParsedMail.date parsedEmail |} ;;
  finishFileUpload fileSlugs (ConversationMessage.id newEmail) ;;;
  when (JsString.truthyOpt emailCc && negb (isSome staffUser))
    (conversationRecord <- gets (findConversation (Conversation.id conversation)) ;;
     when (hasNoAssignee conversationRecord)
       (assignBasedOnCc caps (Conversation.id conversation)
          (orKeep emailCc "") gmailSupportEmail)) ;;;
  tryCatch
    (processGmailAttachments caps (Conversation.slug conversation)
       (ConversationMessage.id newEmail) (ParsedMail.attachments parsedEmail))
    (captureExceptionAndThrowIfDevelopment caps) ;;;
  ret newEmail.

Definition assertSuccessResponseOrThrow (status : Z) (statusText : string)
    : M unit :=
  if (status <? 200) || (status >=? 300)
  then throw (Error ("Request failed: " ++ statusText))
  else ret tt.

(** The first statement of [parseEmailBody]: the text with CRLF replaced
    when [html] is [false], the HTML body otherwise. *)
Definition emailBodySource (parsedEmail : ParsedMail.t) : option string :=
  match ParsedMail.html parsedEmail with
  | None =>
      option_map (JsString.replaceCRLF "<br/>")
        (match ParsedMail.textAsHtml parsedEmail with
         | Some t => Some t
         | None => ParsedMail.text parsedEmail
         end)
  | Some html => Some html
  end.

(** [parseEmailBody] *)
Definition parseEmailBody (caps : Capabilities) (parsedEmail : ParsedMail.t)
    : string :=
  match emailBodySource parsedEmail with
  | None => ""
  | Some parsedEmailBody =>
      if negb (JsString.truthy parsedEmailBody) then ""
      else
        let content :=
          match bodyInnerHTML caps parsedEmailBody with
          | Some innerHTML => innerHTML
          | None => parsedEmailBody
          end in
        let content := BrPattern.stripTrailingBr content in
        normalizeNFKD caps content
  end.

Definition getParsedEmailInfo (caps : Capabilities) (parsedEmail : ParsedMail.t)
    : M (ParsedMailbox.t * string) :=
  match parseEmailAddress caps
          (match ParsedMail.from parsedEmail with
           | Some a => AddressObject.text a
           | None => ""
           end) with
  | Some parsedEmailFrom => ret (parsedEmailFrom, parseEmailBody caps parsedEmail)
  | None => throw (NonRetriableError caps "Value is undefined")
  end.

(** One element of the [results] array. *)
Module ResultEntry.
Record t := {
  message : string;
  responded : option bool;
  isAutomatedResponseOrThankYou : option bool;
  gmailMessageId : option string;
  gmailThreadId : option string;
  messageId : option Z;
  conversationSlug : option string }.
End ResultEntry.

Definition numberToString (n : Z) : string :=
  DecimalString.NilZero.string_of_int (Z.to_int n).

Definition skippedMissingIds (message : option GmailMessage.t) : ResultEntry.t :=
  {| ResultEntry.message := "Skipped - missing message ID or thread ID";
     ResultEntry.responded := None;
     ResultEntry.isAutomatedResponseOrThankYou := None;
     ResultEntry.gmailMessageId :=
       match message with Some m => GmailMessage.id m | None => None end;
     ResultEntry.gmailThreadId :=
       match message with Some m => GmailMessage.threadId m | None => None end;
     ResultEntry.messageId := None;
     ResultEntry.conversationSlug := None |}.

Definition skippedAlreadyExists (gmailMessageId gmailThreadId : string)
    : ResultEntry.t :=
  {| ResultEntry.message :=
       "Skipped - message " ++ gmailMessageId ++ " already exists";
     ResultEntry.responded := None;
     ResultEntry.isAutomatedResponseOrThankYou := None;
     ResultEntry.gmailMessageId := Some gmailMessageId;
     ResultEntry.gmailThreadId := Some gmailThreadId;
     ResultEntry.messageId := None;
     ResultEntry.conversationSlug := None |}.

Definition skippedSentFromMailbox (gmailMessageId gmailThreadId : string)
    : ResultEntry.t :=
  {| ResultEntry.message :=
       "Skipped - message " ++ gmailMessageId ++ " sent from mailbox";
     ResultEntry.responded := None;
     ResultEntry.isAutomatedResponseOrThankYou := None;
     ResultEntry.gmailMessageId := Some gmailMessageId;
     ResultEntry.gmailThreadId := Some gmailThreadId;
     ResultEntry.messageId := None;
     ResultEntry.conversationSlug := None |}.

Definition createdMessage (newEmail : ConversationMessage.t)
    (conversation : Conversation.t) (shouldIgnore : bool)
    (isAutomatedResponseOrThankYou : option bool)
    (gmailMessageId gmailThreadId : string) : ResultEntry.t :=
  {| ResultEntry.message :=
       "Created message " ++ numberToString (ConversationMessage.id newEmail);
     ResultEntry.responded := Some (negb shouldIgnore);
     ResultEntry.isAutomatedResponseOrThankYou := isAutomatedResponseOrThankYou;
     ResultEntry.gmailMessageId := Some gmailMessageId;
     ResultEntry.gmailThreadId := Some gmailThreadId;
     ResultEntry.messageId := Some (ConversationMessage.id newEmail);
     ResultEntry.conversationSlug := Some (Conversation.slug conversation) |}.

Definition errorProcessing (gmailMessageId gmailThreadId : string)
    (error : JsError.t) : ResultEntry.t :=
  {| ResultEntry.message :=
       "Error processing message " ++ gmailMessageId ++ ": "
       ++ JsError.toString error;
     ResultEntry.responded := None;
     ResultEntry.isAutomatedResponseOrThankYou := None;
     ResultEntry.gmailMessageId := Some gmailMessageId;
     ResultEntry.gmailThreadId := Some gmailThreadId;
     ResultEntry.messageId := None;
     ResultEntry.conversationSlug := None |}.

(** [db.query.conversationMessages.findFirst({ where: eq(gmailMessageId, id) })] *)
Definition findByGmailMessageId (gmailMessageId : string) (w : World)
    : option ConversationMessage.t :=
  find (fun m => optString_eqb (ConversationMessage.gmailMessageId m) gmailMessageId)
       (conversationMessages w).

(** The first row under [orderBy: desc(createdAt)]; among rows of equal
    [createdAt] the earliest stored one is taken. *)
Fixpoint latest (rows : list ConversationMessage.t)
    : option ConversationMessage.t :=
  match rows with
  | [] => None
  | m :: rest =>
      match latest rest with
      | None => Some m
      | Some m' =>
          if ConversationMessage.createdAt m' <=? ConversationMessage.createdAt m
          then Some m else Some m'
      end
  end.

(** [findFirst({ where: eq(gmailThreadId, id), orderBy: desc(createdAt),
                 with: { conversation } })] *)
Definition findPreviousEmail (gmailThreadId : string) (w : World)
    : option (ConversationMessage.t * option Conversation.t) :=
  match latest (filter (fun m => optString_eqb
                                   (ConversationMessage.gmailThreadId m)
                                   gmailThreadId)
                       (conversationMessages w)) with
  | Some previousEmail =>
      Some (previousEmail,
            findConversation (ConversationMessage.conversationId previousEmail) w)
  | None => None
  end.

(** The values of the insert in the closure [createNewConversation], with
    the identity column and the column defaults filled in. *)
Definition newConversationRow (caps : Capabilities) (mailbox : Mailbox.t)
    (parsedEmail : ParsedMail.t) (parsedEmailFrom : ParsedMailbox.t)
    (shouldIgnore : bool) (id : Z) (time : Timestamp) : Conversation.t :=
  {| Conversation.id := id;
     Conversation.slug := generateSlug caps id;
     Conversation.emailFrom := Some (ParsedMailbox.address parsedEmailFrom);
     Conversation.emailFromName := ParsedMailbox.name parsedEmailFrom;
     Conversation.subject := ParsedMail.subject parsedEmail;
     Conversation.status := if shouldIgnore then closed else open;
     Conversation.closedAt := if shouldIgnore then Some time else None;
     Conversation.conversationProvider := Some "gmail";
     Conversation.source := Some "email";
     Conversation.isPrompt := false;
     Conversation.isVisitor := false;
     Conversation.assignedToId := None;
     Conversation.assignedToAI := isSome (Mailbox.autoRespond mailbox);
     Conversation.anonymousSessionId := None;
     Conversation.lastMessageAt := None;
     Conversation.lastUserEmailCreatedAt := None;
     Conversation.lastReadAt := None;
     Conversation.createdAt := time;
     Conversation.updatedAt := time |}.

(** The closure [createNewConversation] of the job. *)
Definition createNewConversation (caps : Capabilities) (mailbox : Mailbox.t)
    (parsedEmail : ParsedMail.t) (parsedEmailFrom : ParsedMailbox.t)
    (shouldIgnore : bool) : M Conversation.t :=
  fun w =>
    let row :=
      newConversationRow caps mailbox parsedEmail parsedEmailFrom shouldIgnore
        (nextConversationId w) (now w) in
    (Ok row,
     with_nextConversationId (nextConversationId w + 1)
       (with_conversations (conversations w ++ [row]) w)).

(** Lines 313-334: which conversation the message attaches to. *)
Definition resolveConversation (caps : Capabilities) (mailbox : Mailbox.t)
    (parsedEmail : ParsedMail.t) (parsedEmailFrom : ParsedMailbox.t)
    (shouldIgnore : bool) (gmailMessageId gmailThreadId : string)
    : M Conversation.t :=
  if isNewThread gmailMessageId gmailThreadId then
    createNewConversation caps mailbox parsedEmail parsedEmailFrom shouldIgnore
  else
    previousEmail <- gets (findPreviousEmail gmailThreadId) ;;
    match previousEmail with
    | Some (_, Some conversation) => ret conversation
    | _ => createNewConversation caps mailbox parsedEmail parsedEmailFrom
             shouldIgnore
    end.

(** Lines 277-280: the rules that decide without the classifier. *)
Definition ignoredByRule (caps : Capabilities)
    (staffUser : option BasicUserProfile.t) (isFirstMessage : bool)
    (labelIds : list string) (parsedEmailFrom : ParsedMailbox.t) : bool :=
  (isSome staffUser && negb isFirstMessage)
  || existsb (fun id => existsb (String.eqb id) IGNORED_GMAIL_CATEGORIES) labelIds
  || matchesTransactionalEmailAddress caps (ParsedMailbox.address parsedEmailFrom).

(** Lines 277-286: [shouldIgnore] and [isAutomatedResponseOrThankYou]. *)
Definition decideShouldIgnore (caps : Capabilities) (mailbox : Mailbox.t)
    (staffUser : option BasicUserProfile.t) (isFirstMessage : bool)
    (labelIds : list string) (parsedEmailFrom : ParsedMailbox.t)
    (cleanedUpText : string) : M (bool * option bool) :=
  let shouldIgnore :=
    ignoredByRule caps staffUser isFirstMessage labelIds parsedEmailFrom in
  if negb shouldIgnore then
    isAutomatedResponseOrThankYou <-
      isThankYouOrAutoResponse caps mailbox cleanedUpText ;;
    ret (isAutomatedResponseOrThankYou, Some isAutomatedResponseOrThankYou)
  else ret (shouldIgnore, None).

(** Lines 348-354: the reopen condition. *)
Definition shouldReopen (mailbox : Mailbox.t) (conversation : Conversation.t)
    (shouldIgnore : bool) : bool :=
  ConversationStatus_eqb (Conversation.status conversation) closed
  && (negb (Conversation.assignedToAI conversation)
      || match Mailbox.autoRespond mailbox with
         | Some draftMode => true
         | _ => false
         end)
  && negb shouldIgnore.

(** The inline file records of [createAndUploadFile] enter the table. *)
Definition insertInlineFiles (rows : list File.t) : M unit :=
  modify (fun w =>
    with_nextFileId (nextFileId w + Z.of_nat (length rows))
      (with_files
         (files w ++
          map (fun p =>
                 {| File.id := nextFileId w + Z.of_nat (fst p);
                    File.slug := File.slug (snd p);
                    File.messageId := File.messageId (snd p);
                    File.name := File.name (snd p);
                    File.key := File.key (snd p);
                    File.mimetype := File.mimetype (snd p);
                    File.size := File.size (snd p);
                    File.isInline := File.isInline (snd p);
                    File.isPublic := File.isPublic (snd p) |})
              (combine (seq 0 (length rows)) rows)) w)).

(** [fileSlugs.push(file.slug)] *)
Definition slugsOf (rows : list File.t) : list string :=
  flat_map (fun f => match File.slug f with Some s => [s] | None => [] end) rows.

(** Lines 253-257: the message is fetched and parsed; the world is only
    read. *)
Definition fetchParsedEmail (caps : Capabilities)
    (gmailSupportEmail : GmailSupportEmail.t) (gmailMessageId : string)
    : M (ParsedMail.t * (ParsedMailbox.t * string)) :=
  response <- lift (getMessageById caps gmailSupportEmail gmailMessageId) ;;
  assertSuccessResponseOrThrow (MessageResponse.status response)
    (MessageResponse.statusText response) ;;;
  raw <- match MessageResponse.raw response with
         | Some raw => ret raw
         | None => throw (Error "Value is undefined")
         end ;;
  parsedEmail <- lift (simpleParser caps raw) ;;
  info <- getParsedEmailInfo caps parsedEmail ;;
  ret (parsedEmail, info).

(** Line 270: [cleanedUpText]. *)
Definition cleanedUpTextOf (caps : Capabilities)
    (gmailMessageId gmailThreadId processedHtml : string) : string :=
  htmlToText caps
    (if isNewThread gmailMessageId gmailThreadId then processedHtml
     else extractQuotations caps processedHtml).

(** Lines 348-368: the reopening, the auto-response event and the entry
    of the results. *)
Definition afterPersist (mailbox : Mailbox.t) (conversation : Conversation.t)
    (newEmail : ConversationMessage.t) (shouldIgnore : bool)
    (entry : ResultEntry.t) : M ResultEntry.t :=
  when (shouldReopen mailbox conversation shouldIgnore)
    (updateConversation (Conversation.id conversation)
       {| ConversationUpdate.status := Some open;
          ConversationUpdate.assignedToId := None;
          ConversationUpdate.assignedToAI := None;
          ConversationUpdate.lastMessageAt := None;
          ConversationUpdate.lastUserEmailCreatedAt := None;
          ConversationUpdate.lastReadAt := None |}
       None None false ;;; ret tt) ;;;
  when (negb shouldIgnore)
    (triggerEvent conversations_auto_response_create
       (AutoResponseCreate (ConversationMessage.id newEmail)) 0) ;;;
  ret entry.

(** Lines 259-368: the rest of the [try] block, for a parsed message. *)
Definition ingestParsedEmail (caps : Capabilities)
    (gmailSupportEmail : GmailSupportEmail.t) (mailbox : Mailbox.t)
    (gmailMessageId gmailThreadId : string) (labelIds : list string)
    (parsedEmail : ParsedMail.t) (parsedEmailFrom : ParsedMailbox.t)
    (parsedEmailBody : string) : M ResultEntry.t :=
  let emailSentFromMailbox :=
    String.eqb (ParsedMailbox.address parsedEmailFrom)
               (GmailSupportEmail.email gmailSupportEmail) in
  if emailSentFromMailbox then
    ret (skippedSentFromMailbox gmailMessageId gmailThreadId)
  else
    let images := extractAndUploadInlineImages caps parsedEmailBody in
    let processedHtml := fst images in
    let fileSlugs := slugsOf (snd images) in
    insertInlineFiles (snd images) ;;;
    let cleanedUpText :=
      cleanedUpTextOf caps gmailMessageId gmailThreadId processedHtml in
    let staffUser :=
      getBasicProfileByEmail caps (ParsedMailbox.address parsedEmailFrom) in
    let isFirstMessage := isNewThread gmailMessageId gmailThreadId in
    decision <- decideShouldIgnore caps mailbox staffUser isFirstMessage
                  labelIds parsedEmailFrom cleanedUpText ;;
    let shouldIgnore := fst decision in
    let isAutomatedResponseOrThankYou := snd decision in
    conversation <- resolveConversation caps mailbox parsedEmail parsedEmailFrom
                      shouldIgnore gmailMessageId gmailThreadId ;;
    newEmail <- createMessageAndProcessAttachments caps gmailSupportEmail
                  parsedEmail parsedEmailFrom processedHtml cleanedUpText
                  fileSlugs gmailMessageId gmailThreadId conversation staffUser ;;
    afterPersist mailbox conversation newEmail shouldIgnore
      (createdMessage newEmail conversation shouldIgnore
         isAutomatedResponseOrThankYou gmailMessageId gmailThreadId).

(** The body of the [try] block of the message loop (lines 253-368). *)
Definition ingestMessage (caps : Capabilities)
    (gmailSupportEmail : GmailSupportEmail.t) (mailbox : Mailbox.t)
    (gmailMessageId gmailThreadId : string) (labelIds : list string)
    : M ResultEntry.t :=
  parsed <- fetchParsedEmail caps gmailSupportEmail gmailMessageId ;;
  ingestParsedEmail caps gmailSupportEmail mailbox gmailMessageId gmailThreadId
    labelIds (fst parsed) (fst (snd parsed)) (snd (snd parsed)).

(** One iteration of [for (const { message } of messagesAdded)]: it pushes
    one entry to [results], or leaves the handler by an exception. *)
Definition processAddedMessage (caps : Capabilities)
    (gmailSupportEmail : GmailSupportEmail.t) (mailbox : Mailbox.t)
    (added : MessageAdded.t) : M ResultEntry.t :=
  let message := MessageAdded.message added in
  match message with
  | Some m =>
      match GmailMessage.id m, GmailMessage.threadId m with
      | Some gmailMessageId, Some gmailThreadId =>
          if JsString.truthy gmailMessageId && JsString.truthy gmailThreadId then
            let labelIds := orKeep (GmailMessage.labelIds m) [] in
            existingEmail <- gets (findByGmailMessageId gmailMessageId) ;;
            if isSome existingEmail then
              ret (skippedAlreadyExists gmailMessageId gmailThreadId)
            else
              tryCatch
                (ingestMessage caps gmailSupportEmail mailbox gmailMessageId
                   gmailThreadId labelIds)
                (fun error =>
                   captureExceptionAndThrowIfDevelopment caps error ;;;
                   ret (errorProcessing gmailMessageId gmailThreadId error))
          else ret (skippedMissingIds message)
      | _, _ => ret (skippedMissingIds message)
      end
  | None => ret (skippedMissingIds message)
  end.

(** The message loop: the entries of [results], in order. *)
Fixpoint processMessagesAdded (caps : Capabilities)
    (gmailSupportEmail : GmailSupportEmail.t) (mailbox : Mailbox.t)
    (messagesAdded : list MessageAdded.t) : M (list ResultEntry.t) :=
  match messagesAdded with
  | [] => ret []
  | added :: rest =>
      entry <- processAddedMessage caps gmailSupportEmail mailbox added ;;
      entries <- processMessagesAdded caps gmailSupportEmail mailbox rest ;;
      ret (entry :: entries)
  end.

(** [db.update(gmailSupportEmails).set({ historyId }).where(eq(id, ...))] *)
Definition setHistoryId (id : Z) (historyId : Z) : M unit :=
  modify (fun w =>
    with_gmailSupportEmails
      (map (fun g =>
              if GmailSupportEmail.id g =? id
              then GmailSupportEmail.with_historyId (Some historyId) g
              else g) (gmailSupportEmails w)) w).

Inductive HandlerResponse :=
| NotFound (text : string)
| Processed (data : option GmailWebhookData.t) (messages : nat)
    (results : list ResultEntry.t).

(** Lines 200-219: the added messages since the history cursor. *)
Definition fetchMessagesAdded (caps : Capabilities)
    (gmailSupportEmail : GmailSupportEmail.t) (data : GmailWebhookData.t)
    : M (list MessageAdded.t) :=
  let historyId :=
    orKeep (GmailSupportEmail.historyId gmailSupportEmail)
           (GmailWebhookData.historyId data) in
  response <- lift (getMessagesFromHistoryId caps gmailSupportEmail historyId) ;;
  histories <-
    (if negb (HistoryResponse.status response =? 404) then
       assertSuccessResponseOrThrow (HistoryResponse.status response)
         (HistoryResponse.statusText response) ;;;
       ret (orKeep (HistoryResponse.history response) [])
     else
       captureExceptionAndLog (Error "Cached historyId expired") ;;;
       response <- lift (getMessagesFromHistoryId caps gmailSupportEmail
                           (GmailWebhookData.historyId data)) ;;
       assertSuccessResponseOrThrow (HistoryResponse.status response)
         (HistoryResponse.statusText response) ;;;
       ret (orKeep (HistoryResponse.history response) [])) ;;
  ret (flat_map (fun h => orKeep (History.messagesAdded h) []) histories).

(** [Object.fromEntries(entries)]: a later entry of a key replaces the
    value of the earlier one, which keeps its place. *)
Fixpoint setEntry (key value : string) (o : list (string * string))
    : list (string * string) :=
  match o with
  | [] => [(key, value)]
  | (k, v) :: rest =>
      if String.eqb k key then (k, value) :: rest
      else (k, v) :: setEntry key value rest
  end.

Definition fromEntries (entries : list (string * string))
    : list (string * string) :=
  fold_left (fun o kv => setEntry (fst kv) (snd kv) o) entries [].

(** Lines 174-176: the header keys in lower case. *)
Definition normalizeHeaders (headers : list (string * string))
    : list (string * string) :=
  fromEntries
    (map (fun kv => (JsString.toLowerCase (fst kv), snd kv)) headers).

(** [authorizeGmailRequest] *)
Definition authorizeGmailRequest (caps : Capabilities)
    (body : GmailWebhookBody.t) (headers : GmailWebhookHeaders.t)
    : M GmailWebhookData.t :=
  tryCatch
    (idToken <- match nth_error
                        (JsString.split " "%char
                           (GmailWebhookHeaders.authorization headers)) 1 with
                | Some idToken => ret idToken
                | None => throw (Error "Value is undefined")
                end ;;
     claim <- lift (verifyIdToken caps idToken) ;;
     let email :=
       match claim with Some c => TokenPayload.email c | None => None end in
     if negb (JsString.truthyOpt email)
        || negb (optString_eqb email (GOOGLE_PUBSUB_CLAIM_EMAIL caps))
     then throw (Error ("Invalid claim email: "
                        ++ match email with
                           | Some e => e
                           | None => "undefined"
                           end))
     else ret tt)
    (fun error =>
       captureExceptionAndLog error ;;;
       throw (NonRetriableError caps "Invalid token")) ;;;
  lift (parseGmailWebhookData caps
          (PubsubMessage.data (GmailWebhookBody.message body))).

(** Lines 182-385: the delivery, once it is authorized. *)
Definition processDelivery (caps : Capabilities) (data : GmailWebhookData.t)
    : M HandlerResponse :=
  gmailSupportEmail <-
    gets (fun w =>
            find (fun g => String.eqb (GmailSupportEmail.email g)
                             (GmailWebhookData.emailAddress data))
                 (gmailSupportEmails w)) ;;
  let notFound :=
    ret (NotFound ("Valid gmail support email record not found for "
                   ++ GmailWebhookData.emailAddress data)) in
  match gmailSupportEmail with
  | None => notFound
  | Some gmailSupportEmail =>
      match GmailSupportEmail.mailboxes gmailSupportEmail with
      | [] => notFound
      | mailbox :: _ =>
          if negb (JsString.truthyOpt
                     (GmailSupportEmail.accessToken gmailSupportEmail))
             || negb (JsString.truthyOpt
                        (GmailSupportEmail.refreshToken gmailSupportEmail))
          then notFound
          else
            messagesAdded <- fetchMessagesAdded caps gmailSupportEmail data ;;
            results <- processMessagesAdded caps gmailSupportEmail mailbox
                         messagesAdded ;;
            setHistoryId (GmailSupportEmail.id gmailSupportEmail)
              (GmailWebhookData.historyId data) ;;;
            ret (Processed
                   (match NODE_ENV caps with
                    | development => Some data
                    | _ => None
                    end)
                   (length messagesAdded) results)
      end
  end.

Definition handleGmailWebhookEvent (caps : Capabilities)
    (request : WebhookRequest.t) : M HandlerResponse :=
  let normalizedHeaders := normalizeHeaders (WebhookRequest.headers request) in
  body <- lift (parseGmailWebhookBody caps (WebhookRequest.body request)) ;;
  headers <- lift (parseGmailWebhookHeaders caps normalizedHeaders) ;;
  data <- authorizeGmailRequest caps body headers ;;
  processDelivery caps data.

(* ================================================================= *)
(** ** Definitions of the statements *)

(** The classifier's answer as section 4.2 words it: the text, trimmed,
    equals the token "yes" up to letter case. *)
Definition equalsIgnoringCase (a b : string) : bool :=
  String.eqb (JsString.toLowerCase a) (JsString.toLowerCase b).

Definition Spec_answersYes (text : string) : bool :=
  equalsIgnoringCase (JsString.trim text) "yes".

(** The three letters of the token, in either case. *)
Definition isYesToken (t : string) : Prop :=
  exists y e s,
    t = String y (String e (String s EmptyString)) /\
    (y = "y"%char \/ y = "Y"%char) /\
    (e = "e"%char \/ e = "E"%char) /\
    (s = "s"%char \/ s = "S"%char).

(** A computation leaves a component of the world as it found it. *)
Definition preserves {X A : Type} (p : World -> X) (m : M A) : Prop :=
  forall w, p (snd (m w)) = p w.

(** The queue records one [triggerEvent] call sends. *)
Definition payloadsOf (event : EventName) (data : EventData) (sleepSeconds : Z)
    : list Job.t :=
  map (fun job => {| Job.event := event; Job.job := job; Job.data := data;
                     Job.sleepSeconds := sleepSeconds |}) (jobsOf event).

(** The event was triggered: one of the queue records carries its name. *)
Definition triggered (event : EventName) (sent : list Job.t) : Prop :=
  exists j, In j sent /\ Job.event j = event.

(** What [sendEvents] adds to the queue. *)
Definition payloadsOfEvents (caps : Capabilities)
    (message : ConversationMessage.t) : list Job.t :=
  flat_map (fun e =>
              payloadsOf (EventToSend.name e) (EventToSend.data e)
                match EventToSend.sleepSeconds e with
                | Some s => if s =? 0 then 0 else s
                | None => 0
                end)
           (eventsToSend caps message).

(** The identity sequence of [conversations] is ahead of every stored id. *)
Definition conversationIdsBelow (w : World) : Prop :=
  Forall (fun c => Conversation.id c < nextConversationId w) (conversations w).

(** The world after [createNewConversation] stored [row]. *)
Definition withNewConversation (row : Conversation.t) (w : World) : World :=
  with_nextConversationId (nextConversationId w + 1)
    (with_conversations (conversations w ++ [row]) w).

(** [m] belongs to the thread. *)
Definition inThread (gmailThreadId : string) (m : ConversationMessage.t) : Prop :=
  ConversationMessage.gmailThreadId m = Some gmailThreadId.

(** How many persisted messages carry the external id. *)
Definition persistedCount (gmailMessageId : string) (w : World) : nat :=
  length (filter (fun m => optString_eqb (ConversationMessage.gmailMessageId m)
                                         gmailMessageId)
                 (conversationMessages w)).

(** The history entry refers to a message by non-empty ids. *)
Definition refersTo (added : MessageAdded.t) (gmailMessageId gmailThreadId : string)
    : Prop :=
  exists labelIds,
    added = {| MessageAdded.message :=
                 Some {| GmailMessage.id := Some gmailMessageId;
                         GmailMessage.threadId := Some gmailThreadId;
                         GmailMessage.labelIds := labelIds |} |} /\
    gmailMessageId <> "" /\ gmailThreadId <> "".

(** A computation persists no message, or one with the external id. *)
Definition addsAtMostOne {A} (gmailMessageId : string) (m : M A) : Prop :=
  forall w,
    conversationMessages (snd (m w)) = conversationMessages w \/
    exists row,
      conversationMessages (snd (m w)) = (conversationMessages w ++ [row])%list /\
      ConversationMessage.gmailMessageId row = Some gmailMessageId.

(** The ids and statuses of the stored conversations, in table order. *)
Definition statuses (w : World) : list (Z * ConversationStatus) :=
  map (fun c => (Conversation.id c, Conversation.status c)) (conversations w).

(** The ignore decision of lines 277-286 as a value: [shouldIgnore] and
    [isAutomatedResponseOrThankYou]. *)
Definition ignoreDecision (caps : Capabilities) (mailbox : Mailbox.t)
    (staffUser : option BasicUserProfile.t) (isFirstMessage : bool)
    (labelIds : list string) (parsedEmailFrom : ParsedMailbox.t)
    (cleanedUpText : string) : bool * option bool :=
  if ignoredByRule caps staffUser isFirstMessage labelIds parsedEmailFrom
  then (true, None)
  else
    match runAIQuery caps mailbox cleanedUpText with
    | Ok content =>
        let yes := String.eqb (JsString.trim (JsString.toLowerCase content)) "yes" in
        (yes, Some yes)
    | Throw _ => (false, Some false)
    end.

(** The update [assignBasedOnCc] makes for a staff member found in copy. *)
Definition ccAssignment (staffUser : BasicUserProfile.t) : ConversationUpdate.t :=
  {| ConversationUpdate.status := None;
     ConversationUpdate.assignedToId := Some (Some (BasicUserProfile.id staffUser));
     ConversationUpdate.assignedToAI := Some false;
     ConversationUpdate.lastMessageAt := None;
     ConversationUpdate.lastUserEmailCreatedAt := None;
     ConversationUpdate.lastReadAt := None |}.

(** The address has a staff profile. *)
Definition isStaffAddress (caps : Capabilities) (address : string) : bool :=
  isSome (getBasicProfileByEmail caps address).

(** The string contains a CR immediately followed by a LF. *)
Fixpoint hasCRLF (s : string) : bool :=
  match s with
  | EmptyString => false
  | String c t =>
      match t with
      | String d _ =>
          (Ascii.eqb c JsString.CR && Ascii.eqb d JsString.LF) || hasCRLF t
      | EmptyString => false
      end
  end.

(** The two characters of a CRLF line break. *)
Definition CRLF : string :=
  String JsString.CR (String JsString.LF EmptyString).

(** What is read from a position on completes a tag. *)
Definition completes (p : BrPattern.Position) (pre : string) : Prop :=
  match p with
  | BrPattern.AtTagStart => BrPattern.BrTag pre
  | BrPattern.AfterLt => BrPattern.BrTag ("<" ++ pre)
  | BrPattern.AfterB => BrPattern.BrTag ("<b" ++ pre)
  | BrPattern.AfterR => BrPattern.BrTag ("<br" ++ pre)
  | BrPattern.AfterSlash => BrPattern.BrTag ("<br/" ++ pre)
  end.

(** The stored conversation ids and the state of their sequence. *)
Definition conversationIds (w : World) : list Z * Z :=
  (map Conversation.id (conversations w), nextConversationId w).

(** A computation keeps an invariant of the world, also when it throws. *)
Definition maintains {A : Type} (I : World -> Prop) (m : M A) : Prop :=
  forall w, I w -> I (snd (m w)).

(* ================================================================= *)
(** ** A concrete mailbox, used to exercise the statements *)

Module Demo.

Definition mailbox : Mailbox.t :=
  {| Mailbox.id := 1;
     Mailbox.preferences :=
       Some {| Mailbox.autoRespondEmailToChat := Some replyMode |} |}.

Definition supportEmail : GmailSupportEmail.t :=
  {| GmailSupportEmail.id := 1;
     GmailSupportEmail.email := "support@example.com";
     GmailSupportEmail.accessToken := Some "access";
     GmailSupportEmail.refreshToken := Some "refresh";
     GmailSupportEmail.historyId := Some 10;
     GmailSupportEmail.mailboxes := [mailbox] |}.

Definition agent : BasicUserProfile.t :=
  {| BasicUserProfile.id := "user_agent";
     BasicUserProfile.displayName := Some "Agent";
     BasicUserProfile.email := Some "agent@example.com" |}.

(** The mail behind every Gmail id of the scenario: a customer writes, with
    an agent and the mailbox in copy. *)
Definition mail (body : string) : ParsedMail.t :=
  {| ParsedMail.from :=
       Some {| AddressObject.text := "Customer <customer@example.com>" |};
     ParsedMail.to := OneAddress {| AddressObject.text := "support@example.com" |};
     ParsedMail.cc :=
       ManyAddresses [ {| AddressObject.text := "Support@Example.com" |};
                       {| AddressObject.text := "agent@example.com" |} ];
     ParsedMail.bcc := NoAddress;
     ParsedMail.subject := Some "Help";
     ParsedMail.messageId := Some "<1@example.com>";
     ParsedMail.references := NoReferences;
     ParsedMail.html := Some body;
     ParsedMail.textAsHtml := None;
     ParsedMail.text := None;
     ParsedMail.date := Some 900;
     ParsedMail.attachments := [] |}.

Definition added (id thread : string) : MessageAdded.t :=
  {| MessageAdded.message :=
       Some {| GmailMessage.id := Some id;
               GmailMessage.threadId := Some thread;
               GmailMessage.labelIds := Some ["INBOX"] |} |}.

(** What JSDOM gives as [body.innerHTML] for the bodies of the scenario:
    it writes a line-break tag as <br>; the other bodies come back as they
    are. *)
Definition innerHTML (html : string) : option string :=
  if String.eqb html "<p>Hi<br/>there</p>" then Some "<p>Hi<br>there</p>"
  else if String.eqb html "<div>Hi</div><br><br/>"
       then Some "<div>Hi</div><br><br>"
  else Some html.

(** The capabilities of the scenario.  The identity token "token" is the
    one Google signed for the Pub/Sub principal.  Message "broken" cannot be
    fetched; the classifier fails on the text "crash" and says yes to
    "Thanks!". *)
Definition capabilities (throwInDevelopment : bool) : Capabilities :=
  {| NODE_ENV := if throwInDevelopment then development else production;
     developmentThrow := throwInDevelopment;
     parseGmailWebhookBody := fun body =>
       Ok {| GmailWebhookBody.message :=
               {| PubsubMessage.data := body;
                  PubsubMessage.messageId := "1";
                  PubsubMessage.publishTime := "2024-01-01T00:00:00Z" |};
             GmailWebhookBody.subscription := "gmail" |};
     parseGmailWebhookHeaders := fun headers =>
       match find (fun kv => String.eqb (fst kv) "authorization") headers with
       | Some kv =>
           if JsString.truthy (snd kv)
           then Ok {| GmailWebhookHeaders.authorization := snd kv |}
           else Throw {| JsError.name := "ZodError";
                         JsError.message := "authorization: too small" |}
       | None => Throw {| JsError.name := "ZodError";
                          JsError.message := "authorization: required" |}
       end;
     verifyIdToken := fun idToken =>
       if String.eqb idToken "token"
       then Ok (Some {| TokenPayload.email := Some "pubsub@example.com" |})
       else Throw (Error "Wrong number of segments in token");
     GOOGLE_PUBSUB_CLAIM_EMAIL := "pubsub@example.com";
     parseGmailWebhookData := fun _ =>
       Ok {| GmailWebhookData.emailAddress := "support@example.com";
             GmailWebhookData.historyId := 42 |};
     NonRetriableError := fun message =>
       {| JsError.name := "NonRetriableError"; JsError.message := message |};
     getMessagesFromHistoryId := fun _ _ =>
       Ok {| HistoryResponse.status := 200;
             HistoryResponse.statusText := "OK";
             HistoryResponse.history :=
               Some [ {| History.messagesAdded :=
                           Some [added "broken" "broken"; added "m1" "m1"] |} ] |};
     getMessageById := fun _ id =>
       if String.eqb id "broken" then Throw (Error "fetch failed")
       else Ok {| MessageResponse.status := 200;
                  MessageResponse.statusText := "OK";
                  MessageResponse.raw := Some "Can you help?" |};
     simpleParser := fun raw => Ok (mail raw);
     parseEmailAddress := fun _ =>
       Some {| ParsedMailbox.address := "customer@example.com";
               ParsedMailbox.name := Some "Customer" |};
     extractAddresses := fun s =>
       if String.eqb s "Support@Example.com, agent@example.com"
       then ["Support@Example.com"; "agent@example.com"] else [s];
     bodyInnerHTML := innerHTML;
     normalizeNFKD := fun s => s;
     extractAndUploadInlineImages := fun html => (html, []);
     htmlToText := fun html => html;
     extractQuotations := fun html => html;
     getBasicProfileByEmail := fun address =>
       if String.eqb address "agent@example.com" then Some agent else None;
     matchesTransactionalEmailAddress := fun _ => false;
     runAIQuery := fun _ text =>
       if String.eqb text "crash" then Throw (Error "timeout")
       else if String.eqb text "Thanks!" then Ok " Yes "
       else Ok "no, it asks a question";
     generateKey := fun _ name => name;
     uploadFile := fun _ _ => Ok tt;
     generateFilePreview := fun _ => Ok tt;
     generateSlug := fun id => "conversation-" ++ numberToString id;
     EMAIL_UNDO_COUNTDOWN_SECONDS := 15 |}.

Definition caps : Capabilities := capabilities false.

(** An empty store. *)
Definition emptyWorld : World :=
  {| conversations := [];
     conversationMessages := [];
     conversationEvents := [];
     files := [];
     gmailSupportEmails := [supportEmail];
     jobs := [];
     realtime := [];
     captured := [];
     nextConversationId := 1;
     nextMessageId := 1;
     nextFileId := 1;
     now := 1000 |}.

Definition request : WebhookRequest.t :=
  {| WebhookRequest.body := "payload";
     WebhookRequest.headers := [("Authorization", "Bearer token")] |}.

(** The same delivery with a token Google did not sign. *)
Definition forgedRequest : WebhookRequest.t :=
  {| WebhookRequest.body := "payload";
     WebhookRequest.headers := [("Authorization", "Bearer forged")] |}.

(** A closed conversation, assigned to the AI and to no user, holding one
    earlier message of thread "t1". *)
Definition closedConversation : Conversation.t :=
  {| Conversation.id := 1;
     Conversation.slug := "conversation-1";
     Conversation.emailFrom := Some "customer@example.com";
     Conversation.emailFromName := Some "Customer";
     Conversation.subject := Some "Help";
     Conversation.status := closed;
     Conversation.closedAt := Some 500;
     Conversation.conversationProvider := Some "gmail";
     Conversation.source := Some "email";
     Conversation.isPrompt := false;
     Conversation.isVisitor := false;
     Conversation.assignedToId := None;
     Conversation.assignedToAI := true;
     Conversation.anonymousSessionId := None;
     Conversation.lastMessageAt := Some 400;
     Conversation.lastUserEmailCreatedAt := Some 400;
     Conversation.lastReadAt := Some 400;
     Conversation.createdAt := 400;
     Conversation.updatedAt := 500 |}.

Definition firstMessage : ConversationMessage.t :=
  messageRow 1 400
    {| NewConversationMessage.conversationId := 1;
       NewConversationMessage.role := user;
       NewConversationMessage.status := None;
       NewConversationMessage.userId := None;
       NewConversationMessage.gmailMessageId := Some "t1";
       NewConversationMessage.gmailThreadId := Some "t1";
       NewConversationMessage.messageId := None;
       NewConversationMessage.references := None;
       NewConversationMessage.emailFrom := Some "customer@example.com";
       NewConversationMessage.emailTo := None;
       NewConversationMessage.emailCc := None;
       NewConversationMessage.emailBcc := None;
       NewConversationMessage.body := Some "Hello";
       NewConversationMessage.cleanedUpText := Some "Hello";
       NewConversationMessage.isPerfect := false;
       NewConversationMessage.isPinned := None;
       NewConversationMessage.isFlaggedAsBad := false;
       NewConversationMessage.responseToId := None;
       NewConversationMessage.slackChannel := None;
       NewConversationMessage.slackMessageTs := None;
       NewConversationMessage.createdAt := Some 400 |}.

Definition threadWorld : World :=
  with_nextMessageId 2
    (with_nextConversationId 2
       (with_conversationMessages [firstMessage]
          (with_conversations [closedConversation] emptyWorld))).

Definition customer : ParsedMailbox.t :=
  {| ParsedMailbox.address := "customer@example.com";
     ParsedMailbox.name := Some "Customer" |}.

(** The same mailbox with auto-respond in draft mode. *)
Definition draftMailbox : Mailbox.t :=
  {| Mailbox.id := 1;
     Mailbox.preferences :=
       Some {| Mailbox.autoRespondEmailToChat := Some draftMode |} |}.

(** A follow-up of thread "t1" arrives for the closed conversation. *)
Definition followUp (mailbox : Mailbox.t) : Result ResultEntry.t * World :=
  ingestParsedEmail caps supportEmail mailbox "m2" "t1" ["INBOX"]
    (mail "Can you help?") customer "Can you help?" threadWorld.

(** A mail that supplies plain text only, as the mail parser hands it
    over: [html] is [false], and [textAsHtml] is the text with its line
    breaks written as tags. *)
Definition plainMail (text textAsHtml : string) : ParsedMail.t :=
  {| ParsedMail.from :=
       Some {| AddressObject.text := "Customer <customer@example.com>" |};
     ParsedMail.to := OneAddress {| AddressObject.text := "support@example.com" |};
     ParsedMail.cc := NoAddress;
     ParsedMail.bcc := NoAddress;
     ParsedMail.subject := Some "Help";
     ParsedMail.messageId := None;
     ParsedMail.references := NoReferences;
     ParsedMail.html := None;
     ParsedMail.textAsHtml := Some textAsHtml;
     ParsedMail.text := Some text;
     ParsedMail.date := None;
     ParsedMail.attachments := [] |}.

Definition entryOf (r : Result ResultEntry.t * World) : ResultEntry.t :=
  match fst r with
  | Ok entry => entry
  | Throw _ => skippedMissingIds None
  end.

End Demo.

(* ================================================================= *)
(** ** lib/data/conversationMessage.ts: cleaned-up text, drafts, replies *)

(** *** The regular expressions of the file *)

Module JsPattern.
Import JsString.

(** The rest of the input holds a [>]. *)
Fixpoint hasGt (s : string) : bool :=
  match s with
  | EmptyString => false
  | String c t => BrPattern.isGt c || hasGt t
  end.

(** [s.replace(/<[^>]*>/g, "")]: a [<] opens a match when a [>] follows
    somewhere; the match runs to the first [>]. *)
Fixpoint stripTagsFrom (inTag : bool) (s : string) : string :=
  match s with
  | EmptyString => EmptyString
  | String c t =>
      if inTag then
        if BrPattern.isGt c then stripTagsFrom false t else stripTagsFrom true t
      else if BrPattern.isLt c && hasGt t then stripTagsFrom true t
      else String c (stripTagsFrom false t)
  end.

Definition stripTags (s : string) : string := stripTagsFrom false s.

(** [s.replace(/\s+/g, " ")]: every maximal run of white space becomes
    one space; [inRun] says that the previous character was white space. *)
Fixpoint collapseFrom (inRun : bool) (s : string) : string :=
  match s with
  | EmptyString => EmptyString
  | String c t =>
      if isWhiteSpace c then
        if inRun then collapseFrom true t
        else String " "%char (collapseFrom true t)
      else String c (collapseFrom false t)
  end.

Definition collapseWhiteSpace (s : string) : string := collapseFrom false s.

(** [s.split(/\s*\n\s*/)]: the separators are the maximal runs of white
    space that hold a line feed.  [piece] is the current piece, [ws] the
    run of white space read after it and [sawLF] whether that run holds a
    line feed. *)
Fixpoint splitFrom (piece ws : string) (sawLF : bool) (s : string)
    : list string :=
  match s with
  | EmptyString => if sawLF then [piece; EmptyString] else [piece ++ ws]
  | String c t =>
      if isWhiteSpace c then
        splitFrom piece (ws ++ String c EmptyString)
                  (sawLF || Ascii.eqb c LF) t
      else if sawLF then
        piece :: splitFrom (String c EmptyString) EmptyString false t
      else
        splitFrom (piece ++ ws ++ String c EmptyString) EmptyString false t
  end.

Definition splitLines (s : string) : list string :=
  splitFrom EmptyString EmptyString false s.

End JsPattern.

(** What this file consumes from outside. *)
Record MessageCapabilities := {
  (** [htmlToText(html, { formatters: { image }, wordwrap: false })] *)
  htmlToTextUnwrapped : string -> string;
  (** [getNonSupportParticipants] of lib/data/conversation: a query. *)
  getNonSupportParticipants : Conversation.t -> World -> list string }.

Definition cleanupMessage (message : string) : string :=
  let strippedMessage := JsPattern.stripTags message in
  JsString.trim (JsPattern.collapseWhiteSpace strippedMessage).

Definition paragraphSeparator : string :=
  String JsString.LF (String JsString.LF EmptyString).

Definition generateCleanedUpText (mcaps : MessageCapabilities) (html : string)
    : string :=
  if negb (JsString.truthy (JsString.trim html)) then ""
  else
    let paragraphs :=
      filter (fun p => JsString.truthy
                         (JsPattern.collapseWhiteSpace (JsString.trim p)))
             (JsPattern.splitLines (htmlToTextUnwrapped mcaps html)) in
    JsString.join paragraphSeparator paragraphs.

(** The row with one column replaced. *)
Definition withCleanedUpText (text : option string) (m : ConversationMessage.t)
    : ConversationMessage.t :=
  {| ConversationMessage.id := ConversationMessage.id m;
     ConversationMessage.conversationId := ConversationMessage.conversationId m;
     ConversationMessage.role := ConversationMessage.role m;
     ConversationMessage.status := ConversationMessage.status m;
     ConversationMessage.userId := ConversationMessage.userId m;
     ConversationMessage.gmailMessageId := ConversationMessage.gmailMessageId m;
     ConversationMessage.gmailThreadId := ConversationMessage.gmailThreadId m;
     ConversationMessage.messageId := ConversationMessage.messageId m;
     ConversationMessage.references := ConversationMessage.references m;
     ConversationMessage.emailFrom := ConversationMessage.emailFrom m;
     ConversationMessage.emailTo := ConversationMessage.emailTo m;
     ConversationMessage.emailCc := ConversationMessage.emailCc m;
     ConversationMessage.emailBcc := ConversationMessage.emailBcc m;
     ConversationMessage.body := ConversationMessage.body m;
     ConversationMessage.cleanedUpText := text;
     ConversationMessage.isPerfect := ConversationMessage.isPerfect m;
     ConversationMessage.isPinned := ConversationMessage.isPinned m;
     ConversationMessage.isFlaggedAsBad := ConversationMessage.isFlaggedAsBad m;
     ConversationMessage.responseToId := ConversationMessage.responseToId m;
     ConversationMessage.slackChannel := ConversationMessage.slackChannel m;
     ConversationMessage.slackMessageTs := ConversationMessage.slackMessageTs m;
     ConversationMessage.createdAt := ConversationMessage.createdAt m |}.

Definition withStatus (status : option MessageStatus) (m : ConversationMessage.t)
    : ConversationMessage.t :=
  {| ConversationMessage.id := ConversationMessage.id m;
     ConversationMessage.conversationId := ConversationMessage.conversationId m;
     ConversationMessage.role := ConversationMessage.role m;
     ConversationMessage.status := status;
     ConversationMessage.userId := ConversationMessage.userId m;
     ConversationMessage.gmailMessageId := ConversationMessage.gmailMessageId m;
     ConversationMessage.gmailThreadId := ConversationMessage.gmailThreadId m;
     ConversationMessage.messageId := ConversationMessage.messageId m;
     ConversationMessage.references := ConversationMessage.references m;
     ConversationMessage.emailFrom := ConversationMessage.emailFrom m;
     ConversationMessage.emailTo := ConversationMessage.emailTo m;
     ConversationMessage.emailCc := ConversationMessage.emailCc m;
     ConversationMessage.emailBcc := ConversationMessage.emailBcc m;
     ConversationMessage.body := ConversationMessage.body m;
     ConversationMessage.cleanedUpText := ConversationMessage.cleanedUpText m;
     ConversationMessage.isPerfect := ConversationMessage.isPerfect m;
     ConversationMessage.isPinned := ConversationMessage.isPinned m;
     ConversationMessage.isFlaggedAsBad := ConversationMessage.isFlaggedAsBad m;
     ConversationMessage.responseToId := ConversationMessage.responseToId m;
     ConversationMessage.slackChannel := ConversationMessage.slackChannel m;
     ConversationMessage.slackMessageTs := ConversationMessage.slackMessageTs m;
     ConversationMessage.createdAt := ConversationMessage.createdAt m |}.

Definition withIsPerfect (isPerfect : bool) (m : ConversationMessage.t)
    : ConversationMessage.t :=
  {| ConversationMessage.id := ConversationMessage.id m;
     ConversationMessage.conversationId := ConversationMessage.conversationId m;
     ConversationMessage.role := ConversationMessage.role m;
     ConversationMessage.status := ConversationMessage.status m;
     ConversationMessage.userId := ConversationMessage.userId m;
     ConversationMessage.gmailMessageId := ConversationMessage.gmailMessageId m;
     ConversationMessage.gmailThreadId := ConversationMessage.gmailThreadId m;
     ConversationMessage.messageId := ConversationMessage.messageId m;
     ConversationMessage.references := ConversationMessage.references m;
     ConversationMessage.emailFrom := ConversationMessage.emailFrom m;
     ConversationMessage.emailTo := ConversationMessage.emailTo m;
     ConversationMessage.emailCc := ConversationMessage.emailCc m;
     ConversationMessage.emailBcc := ConversationMessage.emailBcc m;
     ConversationMessage.body := ConversationMessage.body m;
     ConversationMessage.cleanedUpText := ConversationMessage.cleanedUpText m;
     ConversationMessage.isPerfect := isPerfect;
     ConversationMessage.isPinned := ConversationMessage.isPinned m;
     ConversationMessage.isFlaggedAsBad := ConversationMessage.isFlaggedAsBad m;
     ConversationMessage.responseToId := ConversationMessage.responseToId m;
     ConversationMessage.slackChannel := ConversationMessage.slackChannel m;
     ConversationMessage.slackMessageTs := ConversationMessage.slackMessageTs m;
     ConversationMessage.createdAt := ConversationMessage.createdAt m |}.

(** [tx.update(conversationMessages).set(...).where(...)] *)
Definition updateMessages (where_ : ConversationMessage.t -> bool)
    (set : ConversationMessage.t -> ConversationMessage.t) : M unit :=
  modify (fun w =>
    with_conversationMessages
      (map (fun m => if where_ m then set m else m) (conversationMessages w)) w).

Definition ensureCleanedUpText (mcaps : MessageCapabilities)
    (message : ConversationMessage.t) : M string :=
  match ConversationMessage.cleanedUpText message with
  | Some cleanedUpText => ret cleanedUpText
  | None =>
      let cleanedUpText :=
        generateCleanedUpText mcaps
          (orKeep (ConversationMessage.body message) "") in
      updateMessages
        (fun m => ConversationMessage.id m =? ConversationMessage.id message)
        (withCleanedUpText (Some cleanedUpText)) ;;;
      ret cleanedUpText
  end.

Definition getConversationMessageById (id : Z)
    : M (option ConversationMessage.t) :=
  gets (fun w => find (fun m => ConversationMessage.id m =? id)
                      (conversationMessages w)).

(** The [where] of [getLastAiGeneratedDraft] and [discardAiGeneratedDrafts]. *)
Definition isAiDraftOf (conversationId : Z) (m : ConversationMessage.t) : bool :=
  (ConversationMessage.conversationId m =? conversationId)
  && MessageRole_eqb (ConversationMessage.role m) ai_assistant
  && statusIs (ConversationMessage.status m) draft.

Definition getLastAiGeneratedDraft (conversationId : Z)
    : M (option ConversationMessage.t) :=
  gets (fun w => latest (filter (isAiDraftOf conversationId)
                                (conversationMessages w))).

Definition getTextWithConversationSubject (mcaps : MessageCapabilities)
    (conversation : Conversation.t) (message : ConversationMessage.t)
    : M string :=
  cleanedUpText <- ensureCleanedUpText mcaps message ;;
  let subject := Conversation.subject conversation in
  ret (match subject with
       | Some subject =>
           if JsString.truthy subject then subject ++ paragraphSeparator else ""
       | None => ""
       end ++ cleanedUpText).

Definition discardAiGeneratedDrafts (conversationId : Z) : M unit :=
  updateMessages (isAiDraftOf conversationId) (withStatus (Some discarded)).

(** [getConversationById] of lib/data/conversation: the row with the id,
    or null. *)
Definition getConversationById (id : Z) : M (option Conversation.t) :=
  gets (findConversation id).

(** [tx0.transaction(body)]: when [body] throws, what it wrote to the
    tables is undone; what went to the job queue, the realtime sink and the
    exception log stays, and so do the identity sequences. *)
Definition transaction {A} (body : M A) : M A :=
  fun w =>
    match body w with
    | (Ok a, w') => (Ok a, w')
    | (Throw e, w') =>
        (Throw e,
         with_conversations (conversations w)
           (with_conversationMessages (conversationMessages w)
              (with_conversationEvents (conversationEvents w)
                 (with_files (files w)
                    (with_gmailSupportEmails (gmailSupportEmails w) w')))))
    end.

(** The argument of [createReply]; the fields with a default are optional. *)
Module ReplyArgs.
Record t := {
  conversationId : Z;
  message : option string;
  user : option BasicUserProfile.t;
  cc : option (list string);
  bcc : option (list string);
  fileSlugs : option (list string);
  close : option bool;
  slack : option (string * string);
  role : option MessageRole;
  responseToId : option Z;
  shouldAutoAssign : option bool }.
End ReplyArgs.

(** The values [createReply] inserts. *)
Definition replyValues (args : ReplyArgs.t) (emailCc : list string)
    : NewConversationMessage.t :=
  {| NewConversationMessage.conversationId := ReplyArgs.conversationId args;
     NewConversationMessage.role := orKeep (ReplyArgs.role args) staff;
     NewConversationMessage.status := Some queueing;
     NewConversationMessage.userId :=
       option_map BasicUserProfile.id (ReplyArgs.user args);
     NewConversationMessage.gmailMessageId := None;
     NewConversationMessage.gmailThreadId := None;
     NewConversationMessage.messageId := None;
     NewConversationMessage.references := None;
     NewConversationMessage.emailFrom := None;
     NewConversationMessage.emailTo := None;
     NewConversationMessage.emailCc := Some emailCc;
     NewConversationMessage.emailBcc := Some (orKeep (ReplyArgs.bcc args) []);
     NewConversationMessage.body := ReplyArgs.message args;
     NewConversationMessage.cleanedUpText := None;
     NewConversationMessage.isPerfect := false;
     NewConversationMessage.isPinned := None;
     NewConversationMessage.isFlaggedAsBad := false;
     NewConversationMessage.responseToId := ReplyArgs.responseToId args;
     NewConversationMessage.slackChannel := option_map fst (ReplyArgs.slack args);
     NewConversationMessage.slackMessageTs := option_map snd (ReplyArgs.slack args);
     NewConversationMessage.createdAt := None |}.

(** [lastAiDraft?.body] is set and the reply says the same once both are
    cleaned up. *)
Definition repliesWithDraft (lastAiDraft : option ConversationMessage.t)
    (message : option string) : bool :=
  match lastAiDraft with
  | Some lastDraft =>
      match ConversationMessage.body lastDraft with
      | Some body =>
          JsString.truthy body
          && match message with
             | Some message =>
                 JsString.truthy message
                 && String.eqb (cleanupMessage body) (cleanupMessage message)
             | None => false
             end
      | None => false
      end
  | None => false
  end.

(** Lines 336-342: an unassigned conversation goes to the replying user. *)
Definition assignOnReply (args : ReplyArgs.t) (conversation : Conversation.t)
    : M unit :=
  match ReplyArgs.user args with
  | Some user_ =>
      when (orKeep (ReplyArgs.shouldAutoAssign args) true
            && negb (JsString.truthyOpt (Conversation.assignedToId conversation)))
        (updateConversation (ReplyArgs.conversationId args)
           {| ConversationUpdate.status := None;
              ConversationUpdate.assignedToId :=
                Some (Some (BasicUserProfile.id user_));
              ConversationUpdate.assignedToAI := Some false;
              ConversationUpdate.lastMessageAt := None;
              ConversationUpdate.lastUserEmailCreatedAt := None;
              ConversationUpdate.lastReadAt := None |}
           None None false ;;; ret tt)
  | None => ret tt
  end.

(** Lines 364-366: the reply closes the conversation, unless it is spam. *)
Definition closeOnReply (args : ReplyArgs.t) (conversation : Conversation.t)
    : M unit :=
  when (orKeep (ReplyArgs.close args) true
        && negb (ConversationStatus_eqb (Conversation.status conversation) spam))
    (updateConversation (ReplyArgs.conversationId args)
       {| ConversationUpdate.status := Some closed;
          ConversationUpdate.assignedToId := None;
          ConversationUpdate.assignedToAI := None;
          ConversationUpdate.lastMessageAt := None;
          ConversationUpdate.lastUserEmailCreatedAt := None;
          ConversationUpdate.lastReadAt := None |}
       (option_map BasicUserProfile.id (ReplyArgs.user args)) None false ;;;
     ret tt).

(** Lines 368-376: the reply that says what the last draft said is
    perfect. *)
Definition markPerfectReply (args : ReplyArgs.t)
    (createdMessage : ConversationMessage.t) : M unit :=
  lastAiDraft <- getLastAiGeneratedDraft (ReplyArgs.conversationId args) ;;
  when (repliesWithDraft lastAiDraft (ReplyArgs.message args))
    (updateMessages
       (fun m => ConversationMessage.id m =? ConversationMessage.id createdMessage)
       (withIsPerfect true)).

(** The body of the transaction of [createReply]. *)
Definition createReplyIn (caps : Capabilities) (mcaps : MessageCapabilities)
    (args : ReplyArgs.t) (conversation : Conversation.t) : M Z :=
  assignOnReply args conversation ;;;
  emailCc <- match ReplyArgs.cc args with
             | Some cc => ret cc
             | None => gets (getNonSupportParticipants mcaps conversation)
             end ;;
  createdMessage <- createConversationMessage caps (replyValues args emailCc) ;;
  finishFileUpload (orKeep (ReplyArgs.fileSlugs args) [])
    (ConversationMessage.id createdMessage) ;;;
  closeOnReply args conversation ;;;
  markPerfectReply args createdMessage ;;;
  discardAiGeneratedDrafts (ReplyArgs.conversationId args) ;;;
  ret (ConversationMessage.id createdMessage).

Definition createReply (caps : Capabilities) (mcaps : MessageCapabilities)
    (args : ReplyArgs.t) : M Z :=
  conversation <- getConversationById (ReplyArgs.conversationId args) ;;
  match conversation with
  | None => throw (Error "Conversation not found")
  | Some conversation => transaction (createReplyIn caps mcaps args conversation)
  end.

(* ================================================================= *)
(** ** Definitions of the statements about texts, drafts and replies *)

(** The string holds a [<] that a [>] follows: something the pattern
    [/<[^>]*>/] matches. *)
Fixpoint hasTag (s : string) : bool :=
  match s with
  | EmptyString => false
  | String c t => (BrPattern.isLt c && JsPattern.hasGt t) || hasTag t
  end.

Fixpoint hasLt (s : string) : bool :=
  match s with
  | EmptyString => false
  | String c t => BrPattern.isLt c || hasLt t
  end.

Definition startsWithWhiteSpace (s : string) : bool :=
  match s with
  | EmptyString => false
  | String c _ => JsString.isWhiteSpace c
  end.

(** Every white space character is a space, and no white space follows
    it. *)
Fixpoint spaced (s : string) : bool :=
  match s with
  | EmptyString => true
  | String c t =>
      (if JsString.isWhiteSpace c
       then Ascii.eqb c " "%char && negb (startsWithWhiteSpace t)
       else true)
      && spaced t
  end.

(** The characters that are not white space, in order. *)
Fixpoint dropWhiteSpace (s : string) : string :=
  match s with
  | EmptyString => EmptyString
  | String c t =>
      if JsString.isWhiteSpace c then dropWhiteSpace t
      else String c (dropWhiteSpace t)
  end.

(** The pieces one after the other. *)
Fixpoint concatAll (pieces : list string) : string :=
  match pieces with
  | [] => EmptyString
  | p :: rest => p ++ concatAll rest
  end.

Fixpoint hasLF (s : string) : bool :=
  match s with
  | EmptyString => false
  | String c t => Ascii.eqb c JsString.LF || hasLF t
  end.

(** The row of the table with the id. *)
Definition storedMessage (id : Z) (w : World) : option ConversationMessage.t :=
  find (fun m => ConversationMessage.id m =? id) (conversationMessages w).

(** The identity sequence of [conversationMessages] is ahead of every
    stored id. *)
Definition messageIdsBelow (w : World) : Prop :=
  Forall (fun m => ConversationMessage.id m < nextMessageId w)
         (conversationMessages w).

(** The record of the support address found has a mailbox and both
    tokens. *)
Definition usableSupportEmail (found : option GmailSupportEmail.t) : bool :=
  match found with
  | Some g =>
      match GmailSupportEmail.mailboxes g with
      | [] => false
      | _ :: _ =>
          JsString.truthyOpt (GmailSupportEmail.accessToken g)
          && JsString.truthyOpt (GmailSupportEmail.refreshToken g)
      end
  | None => false
  end.

(** The values [createMessageAndProcessAttachments] inserts. *)
Definition inboundValues (caps : Capabilities) (parsedEmail : ParsedMail.t)
    (parsedEmailFrom : ParsedMailbox.t) (processedHtml cleanedUpText : string)
    (gmailMessageId gmailThreadId : string) (conversation : Conversation.t)
    (staffUser : option BasicUserProfile.t) : NewConversationMessage.t :=
  let addressList (s : option string) :=
    match s with
    | Some x => if JsString.truthy x then Some (extractAddresses caps x) else None
    | None => None
    end in
  {| NewConversationMessage.conversationId := Conversation.id conversation;
     NewConversationMessage.role := if isSome staffUser then staff else user;
     NewConversationMessage.status := if isSome staffUser then Some sent else None;
     NewConversationMessage.userId := option_map BasicUserProfile.id staffUser;
     NewConversationMessage.gmailMessageId := Some gmailMessageId;
     NewConversationMessage.gmailThreadId := Some gmailThreadId;
     NewConversationMessage.messageId :=
       match ParsedMail.messageId parsedEmail with
       | Some x => if JsString.truthy x then Some x else None
       | None => None
       end;
     NewConversationMessage.references :=
       referencesToString (ParsedMail.references parsedEmail);
     NewConversationMessage.emailFrom := Some (ParsedMailbox.address parsedEmailFrom);
     NewConversationMessage.emailTo := addressesToString (ParsedMail.to parsedEmail);
     NewConversationMessage.emailCc :=
       addressList (addressesToString (ParsedMail.cc parsedEmail));
     NewConversationMessage.emailBcc :=
       addressList (addressesToString (ParsedMail.bcc parsedEmail));
     NewConversationMessage.body := Some processedHtml;
     NewConversationMessage.cleanedUpText := Some cleanedUpText;
     NewConversationMessage.isPerfect := false;
     NewConversationMessage.isPinned := Some false;
     NewConversationMessage.isFlaggedAsBad := false;
     NewConversationMessage.responseToId := None;
     NewConversationMessage.slackChannel := None;
     NewConversationMessage.slackMessageTs := None;
     NewConversationMessage.createdAt := ParsedMail.date parsedEmail |}.

(** The file record [f] is what attachment [a] of the message is stored
    as. *)
Definition storedAs (messageId : Z) (a : Attachment.t) (f : File.t) : Prop :=
  File.messageId f = Some messageId /\
  File.name f = orKeep (Attachment.filename a) "untitled" /\
  File.mimetype f
  = orKeep (Attachment.contentType a) "application/octet-stream" /\
  File.size f = Attachment.size a /\
  File.isInline f = false /\ File.isPublic f = false.

(** A delivery has only added to the stored messages and to the queue:
    the new messages carry a Gmail id, and no added queue record asks for
    an email to be sent. *)
Definition grownFrom (w0 w : World) : Prop :=
  exists added sent,
    conversationMessages w = (conversationMessages w0 ++ added)%list /\
    jobs w = (jobs w0 ++ sent)%list /\
    Forall (fun m => exists id, ConversationMessage.gmailMessageId m = Some id)
           added /\
    Forall (fun j => Job.event j <> conversations_email_enqueued) sent.

(** The capabilities with other answers of the Gmail history and of the
    file store. *)
Definition withGmail
    (history : GmailSupportEmail.t -> Z -> Result HistoryResponse.t)
    (upload : string -> Attachment.t -> Result unit)
    (caps : Capabilities) : Capabilities :=
  {| NODE_ENV := NODE_ENV caps;
     developmentThrow := developmentThrow caps;
     parseGmailWebhookBody := parseGmailWebhookBody caps;
     parseGmailWebhookHeaders := parseGmailWebhookHeaders caps;
     verifyIdToken := verifyIdToken caps;
     GOOGLE_PUBSUB_CLAIM_EMAIL := GOOGLE_PUBSUB_CLAIM_EMAIL caps;
     parseGmailWebhookData := parseGmailWebhookData caps;
     NonRetriableError := NonRetriableError caps;
     getMessagesFromHistoryId := history;
     getMessageById := getMessageById caps;
     simpleParser := simpleParser caps;
     parseEmailAddress := parseEmailAddress caps;
     extractAddresses := extractAddresses caps;
     bodyInnerHTML := bodyInnerHTML caps;
     normalizeNFKD := normalizeNFKD caps;
     extractAndUploadInlineImages := extractAndUploadInlineImages caps;
     htmlToText := htmlToText caps;
     extractQuotations := extractQuotations caps;
     getBasicProfileByEmail := getBasicProfileByEmail caps;
     matchesTransactionalEmailAddress := matchesTransactionalEmailAddress caps;
     runAIQuery := runAIQuery caps;
     generateKey := generateKey caps;
     uploadFile := upload;
     generateFilePreview := generateFilePreview caps;
     generateSlug := generateSlug caps;
     EMAIL_UNDO_COUNTDOWN_SECONDS := EMAIL_UNDO_COUNTDOWN_SECONDS caps |}.

(** Gmail answers the stored cursor 10 with [status], and the cursor of
    the webhook with one added message; the file store is down. *)
Module Outage.

Definition history (status : Z) (_ : GmailSupportEmail.t) (cursor : Z)
    : Result HistoryResponse.t :=
  if cursor =? 10 then
    Ok {| HistoryResponse.status := status;
          HistoryResponse.statusText := "Error";
          HistoryResponse.history := None |}
  else
    Ok {| HistoryResponse.status := 200;
          HistoryResponse.statusText := "OK";
          HistoryResponse.history :=
            Some [ {| History.messagesAdded := Some [Demo.added "m1" "m1"] |} ] |}.

Definition caps (status : Z) : Capabilities :=
  withGmail (history status) (fun _ _ => Throw (Error "store down")) Demo.caps.

Definition attachment : Attachment.t :=
  {| Attachment.filename := None;
     Attachment.contentType := Some "application/pdf";
     Attachment.size := 12;
     Attachment.content := "%PDF" |}.

(** The same outage on a development machine. *)
Definition development : Capabilities :=
  withGmail (history 200) (fun _ _ => Throw (Error "store down"))
    (Demo.capabilities true).

Definition mailWithFile : ParsedMail.t :=
  let m := Demo.mail "Can you help?" in
  {| ParsedMail.from := ParsedMail.from m;
     ParsedMail.to := ParsedMail.to m;
     ParsedMail.cc := ParsedMail.cc m;
     ParsedMail.bcc := ParsedMail.bcc m;
     ParsedMail.subject := ParsedMail.subject m;
     ParsedMail.messageId := ParsedMail.messageId m;
     ParsedMail.references := ParsedMail.references m;
     ParsedMail.html := ParsedMail.html m;
     ParsedMail.textAsHtml := ParsedMail.textAsHtml m;
     ParsedMail.text := ParsedMail.text m;
     ParsedMail.date := ParsedMail.date m;
     ParsedMail.attachments := [attachment] |}.

End Outage.

(** The copy line of a reply: the one given, or else the participants of
    the conversation as the query finds them once the reply is assigned. *)
Definition replyCopyLine (mcaps : MessageCapabilities) (args : ReplyArgs.t)
    (conversation : Conversation.t) (w : World) : list string :=
  match ReplyArgs.cc args with
  | Some cc => cc
  | None =>
      getNonSupportParticipants mcaps conversation
        (snd (assignOnReply args conversation w))
  end.

(** The row [createReply] inserts. *)
Definition replyRow (mcaps : MessageCapabilities) (args : ReplyArgs.t)
    (conversation : Conversation.t) (w : World) : ConversationMessage.t :=
  messageRow (nextMessageId w) (now w)
    (replyValues args (replyCopyLine mcaps args conversation w)).

(** A reply desk, used to exercise the statements: conversation 1 holds a
    customer message without cleaned-up text and an AI draft answering
    it. *)
Module Desk.

Definition mcaps : MessageCapabilities :=
  {| htmlToTextUnwrapped := fun html => html;
     getNonSupportParticipants := fun _ _ => ["customer@example.com"] |}.

Definition openConversation : Conversation.t :=
  {| Conversation.id := 1;
     Conversation.slug := "conversation-1";
     Conversation.emailFrom := Some "customer@example.com";
     Conversation.emailFromName := Some "Customer";
     Conversation.subject := Some "Help";
     Conversation.status := open;
     Conversation.closedAt := None;
     Conversation.conversationProvider := Some "gmail";
     Conversation.source := Some "email";
     Conversation.isPrompt := false;
     Conversation.isVisitor := false;
     Conversation.assignedToId := None;
     Conversation.assignedToAI := true;
     Conversation.anonymousSessionId := None;
     Conversation.lastMessageAt := Some 400;
     Conversation.lastUserEmailCreatedAt := Some 400;
     Conversation.lastReadAt := Some 400;
     Conversation.createdAt := 400;
     Conversation.updatedAt := 400 |}.

Definition question : ConversationMessage.t :=
  withCleanedUpText None
    (messageRow 1 400
       {| NewConversationMessage.conversationId := 1;
          NewConversationMessage.role := user;
          NewConversationMessage.status := None;
          NewConversationMessage.userId := None;
          NewConversationMessage.gmailMessageId := Some "t1";
          NewConversationMessage.gmailThreadId := Some "t1";
          NewConversationMessage.messageId := None;
          NewConversationMessage.references := None;
          NewConversationMessage.emailFrom := Some "customer@example.com";
          NewConversationMessage.emailTo := None;
          NewConversationMessage.emailCc := None;
          NewConversationMessage.emailBcc := None;
          NewConversationMessage.body := Some "How do I reset my password?";
          NewConversationMessage.cleanedUpText := None;
          NewConversationMessage.isPerfect := false;
          NewConversationMessage.isPinned := None;
          NewConversationMessage.isFlaggedAsBad := false;
          NewConversationMessage.responseToId := None;
          NewConversationMessage.slackChannel := None;
          NewConversationMessage.slackMessageTs := None;
          NewConversationMessage.createdAt := Some 400 |}).

Definition aiDraft : ConversationMessage.t :=
  messageRow 2 500
    {| NewConversationMessage.conversationId := 1;
       NewConversationMessage.role := ai_assistant;
       NewConversationMessage.status := Some draft;
       NewConversationMessage.userId := None;
       NewConversationMessage.gmailMessageId := None;
       NewConversationMessage.gmailThreadId := None;
       NewConversationMessage.messageId := None;
       NewConversationMessage.references := None;
       NewConversationMessage.emailFrom := None;
       NewConversationMessage.emailTo := None;
       NewConversationMessage.emailCc := None;
       NewConversationMessage.emailBcc := None;
       NewConversationMessage.body := Some "<p>Use the  <b>reset</b> link.</p>";
       NewConversationMessage.cleanedUpText := Some "Use the reset link.";
       NewConversationMessage.isPerfect := false;
       NewConversationMessage.isPinned := None;
       NewConversationMessage.isFlaggedAsBad := false;
       NewConversationMessage.responseToId := Some 1;
       NewConversationMessage.slackChannel := None;
       NewConversationMessage.slackMessageTs := None;
       NewConversationMessage.createdAt := Some 500 |}.

Definition world : World :=
  with_nextMessageId 3
    (with_nextConversationId 2
       (with_conversationMessages [question; aiDraft]
          (with_conversations [openConversation] Demo.emptyWorld))).

(** The agent sends what the draft says, in other markup. *)
Definition reply : ReplyArgs.t :=
  {| ReplyArgs.conversationId := 1;
     ReplyArgs.message := Some "Use the reset link.";
     ReplyArgs.user := Some Demo.agent;
     ReplyArgs.cc := None;
     ReplyArgs.bcc := None;
     ReplyArgs.fileSlugs := None;
     ReplyArgs.close := None;
     ReplyArgs.slack := None;
     ReplyArgs.role := None;
     ReplyArgs.responseToId := Some 1;
     ReplyArgs.shouldAutoAssign := None |}.

End Desk.

(* ================================================================= *)
(** * Properties *)

(** ** Strings *)

Module JsStringFacts.
Import JsString.

Lemma lowerChar_isWhiteSpace (c : ascii) :
  isWhiteSpace (lowerChar c) = isWhiteSpace c.
Proof.
  destruct c as [[] [] [] [] [] [] [] []]; reflexivity.
Qed.

Lemma lowerChar_y (c : ascii) :
  lowerChar c = "y"%char <-> (c = "y"%char \/ c = "Y"%char).
Proof.
  split.
  - destruct c as [[] [] [] [] [] [] [] []]; cbv; intros H;
      try discriminate H; auto.
  - intros [-> | ->]; reflexivity.
Qed.

Lemma lowerChar_e (c : ascii) :
  lowerChar c = "e"%char <-> (c = "e"%char \/ c = "E"%char).
Proof.
  split.
  - destruct c as [[] [] [] [] [] [] [] []]; cbv; intros H;
      try discriminate H; auto.
  - intros [-> | ->]; reflexivity.
Qed.

Lemma lowerChar_s (c : ascii) :
  lowerChar c = "s"%char <-> (c = "s"%char \/ c = "S"%char).
Proof.
  split.
  - destruct c as [[] [] [] [] [] [] [] []]; cbv; intros H;
      try discriminate H; auto.
  - intros [-> | ->]; reflexivity.
Qed.

Lemma toLowerCase_app (a b : string) :
  toLowerCase (a ++ b) = toLowerCase a ++ toLowerCase b.
Proof.
  induction a as [|c a IH]; simpl; [reflexivity | now rewrite IH].
Qed.

Lemma allWhiteSpace_toLowerCase (s : string) :
  allWhiteSpace (toLowerCase s) = allWhiteSpace s.
Proof.
  induction s as [|c s IH]; simpl; [reflexivity|].
  now rewrite lowerChar_isWhiteSpace, IH.
Qed.

Lemma trimStart_toLowerCase (s : string) :
  trimStart (toLowerCase s) = toLowerCase (trimStart s).
Proof.
  induction s as [|c s IH]; simpl; [reflexivity|].
  rewrite lowerChar_isWhiteSpace.
  destruct (isWhiteSpace c); [exact IH | reflexivity].
Qed.

Lemma trimEnd_toLowerCase (s : string) :
  trimEnd (toLowerCase s) = toLowerCase (trimEnd s).
Proof.
  induction s as [|c s IH]; simpl; [reflexivity|].
  rewrite lowerChar_isWhiteSpace, allWhiteSpace_toLowerCase.
  destruct (isWhiteSpace c && allWhiteSpace s); simpl;
    [reflexivity | now rewrite IH].
Qed.

Lemma trim_toLowerCase (s : string) :
  trim (toLowerCase s) = toLowerCase (trim s).
Proof.
  unfold trim. now rewrite trimStart_toLowerCase, trimEnd_toLowerCase.
Qed.

Lemma trimStart_split (s : string) :
  exists l, s = l ++ trimStart s /\ allWhiteSpace l = true.
Proof.
  induction s as [|c s [l [Hs Hl]]]; simpl.
  - exists EmptyString; auto.
  - destruct (isWhiteSpace c) eqn:Hc.
    + exists (String c l); simpl; rewrite Hc, Hl; split; [congruence | reflexivity].
    + exists EmptyString; auto.
Qed.

Lemma allWhiteSpace_trimEnd (s : string) :
  allWhiteSpace s = true -> trimEnd s = EmptyString.
Proof.
  destruct s as [|c s]; simpl; [reflexivity|].
  intros H. now rewrite H.
Qed.

Lemma trimEnd_split (s : string) :
  exists r, s = trimEnd s ++ r /\ allWhiteSpace r = true.
Proof.
  induction s as [|c s [r [Hs Hr]]]; simpl.
  - exists EmptyString; auto.
  - destruct (isWhiteSpace c && allWhiteSpace s) eqn:Hc.
    + exists (String c s); simpl; auto.
    + exists r; simpl; split; [congruence | assumption].
Qed.

Lemma trim_split (s : string) :
  exists l r, s = l ++ trim s ++ r /\
              allWhiteSpace l = true /\ allWhiteSpace r = true.
Proof.
  destruct (trimStart_split s) as [l [Hs Hl]].
  destruct (trimEnd_split (trimStart s)) as [r [Ht Hr]].
  exists l, r; unfold trim; split; [congruence | auto].
Qed.

Lemma trimStart_skip (l s : string) :
  allWhiteSpace l = true -> trimStart (l ++ s) = trimStart s.
Proof.
  induction l as [|c l IH]; simpl; [reflexivity|].
  intros H; apply andb_true_iff in H as [Hc Hl].
  rewrite Hc; auto.
Qed.

Lemma allWhiteSpace_app (a b : string) :
  allWhiteSpace (a ++ b) = allWhiteSpace a && allWhiteSpace b.
Proof.
  induction a as [|c a IH]; simpl; [reflexivity|].
  now rewrite IH, andb_assoc.
Qed.

Lemma trimEnd_skip (s r : string) :
  allWhiteSpace r = true -> trimEnd (s ++ r) = trimEnd s.
Proof.
  intros Hr; induction s as [|c s IH]; simpl.
  - now apply allWhiteSpace_trimEnd.
  - rewrite allWhiteSpace_app, Hr, andb_true_r, IH; reflexivity.
Qed.

(** A token of three letters that are not white space is what [trim]
    leaves of it, whatever white space surrounds it. *)
Lemma trim_token (l r : string) (a b c : ascii) :
  allWhiteSpace l = true -> allWhiteSpace r = true ->
  isWhiteSpace a = false -> isWhiteSpace c = false ->
  trim (l ++ String a (String b (String c EmptyString)) ++ r)
  = String a (String b (String c EmptyString)).
Proof.
  intros Hl Hr Ha Hc. unfold trim.
  rewrite trimStart_skip by assumption.
  simpl. rewrite Ha.
  change (String a (String b (String c r)))
    with (String a (String b (String c EmptyString)) ++ r).
  rewrite trimEnd_skip by assumption.
  simpl. rewrite Ha, Hc. simpl. rewrite andb_false_r. reflexivity.
Qed.

End JsStringFacts.

(** ** Line breaks and trailing break tags *)

Module PatternFacts.
Import JsString BrPattern.

Lemma string_app_assoc (a b c : string) : (a ++ b) ++ c = a ++ b ++ c.
Proof. induction a as [|x a IH]; simpl; [reflexivity | now rewrite IH]. Qed.

Lemma string_app_nil_r (a : string) : a ++ "" = a.
Proof. induction a as [|x a IH]; simpl; [reflexivity | now rewrite IH]. Qed.

Lemma string_length_app (a b : string) :
  String.length (a ++ b) = (String.length a + String.length b)%nat.
Proof. induction a as [|x a IH]; simpl; [reflexivity | now rewrite IH]. Qed.

(** Induction two characters at a time, as [replaceCRLF] reads. *)
Lemma string_pair_ind (P : string -> Prop) :
  P "" ->
  (forall c, P (String c "")) ->
  (forall c d u, P u -> P (String d u) -> P (String c (String d u))) ->
  forall s, P s.
Proof.
  intros H0 H1 H2 s.
  assert (H : P s /\ forall c, P (String c s)).
  { induction s as [|d u [IHu IHdu]]; split; auto. }
  exact (proj1 H).
Qed.

Lemma replaceCRLF_cons by_ c d u :
  replaceCRLF by_ (String c (String d u))
  = if Ascii.eqb c CR && Ascii.eqb d LF
    then by_ ++ replaceCRLF by_ u
    else String c (replaceCRLF by_ (String d u)).
Proof. reflexivity. Qed.

Lemma hasCRLF_cons c d u :
  hasCRLF (String c (String d u))
  = (Ascii.eqb c CR && Ascii.eqb d LF) || hasCRLF (String d u).
Proof. reflexivity. Qed.

(** Every CRLF is replaced: around one, the two sides are rewritten
    independently. *)
Lemma replaceCRLF_at by_ a b :
  replaceCRLF by_ (a ++ CRLF ++ b)
  = replaceCRLF by_ a ++ by_ ++ replaceCRLF by_ b.
Proof.
  induction a as [| c | c d u IHu IHdu] using string_pair_ind.
  - reflexivity.
  - cbn [append]. unfold CRLF. cbn [append]. rewrite replaceCRLF_cons.
    assert (E : Ascii.eqb CR LF = false) by reflexivity.
    rewrite E, andb_false_r. rewrite replaceCRLF_cons.
    rewrite !Ascii.eqb_refl. reflexivity.
  - cbn [append]. rewrite !replaceCRLF_cons.
    destruct (Ascii.eqb c CR && Ascii.eqb d LF).
    + rewrite IHu. now rewrite string_app_assoc.
    + cbn [append] in IHdu. rewrite IHdu. reflexivity.
Qed.

(** A text without CRLF is left as it is, lone CR and LF included. *)
Lemma replaceCRLF_none by_ s : hasCRLF s = false -> replaceCRLF by_ s = s.
Proof.
  induction s as [| c | c d u IHu IHdu] using string_pair_ind; intros H.
  - reflexivity.
  - reflexivity.
  - rewrite hasCRLF_cons in H. apply orb_false_iff in H as [H1 H2].
    rewrite replaceCRLF_cons, H1, (IHdu H2). reflexivity.
Qed.

Lemma replaceCRLF_head c u :
  (exists rest, replaceCRLF "<br/>" (String c u) = String "<" rest) \/
  (exists rest, replaceCRLF "<br/>" (String c u) = String c rest).
Proof.
  destruct u as [|d u]; [right; eexists; reflexivity|].
  rewrite replaceCRLF_cons.
  destruct (Ascii.eqb c CR && Ascii.eqb d LF);
    [left | right]; eexists; reflexivity.
Qed.

(** No CRLF is left in the rewritten text. *)
Lemma replaceCRLF_complete s : hasCRLF (replaceCRLF "<br/>" s) = false.
Proof.
  induction s as [| c | c d u IHu IHdu] using string_pair_ind.
  - reflexivity.
  - reflexivity.
  - rewrite replaceCRLF_cons.
    destruct (Ascii.eqb c CR && Ascii.eqb d LF) eqn:E.
    + cbn [append]. destruct (replaceCRLF "<br/>" u) as [|x r]; [reflexivity|].
      exact IHu.
    + destruct (replaceCRLF_head d u) as [[rest Hr]|[rest Hr]];
        rewrite Hr in *; rewrite hasCRLF_cons, IHdu, orb_false_r.
      * now rewrite andb_false_r.
      * exact E.
Qed.

(** *** The pattern and its automaton *)

Lemma isChar_eq c n : isChar c n = true -> c = ascii_of_N n.
Proof.
  unfold isChar, code. intros H. apply N.eqb_eq in H.
  rewrite <- H. symmetry. apply ascii_N_embedding.
Qed.

Lemma BrRun_nonempty s : BrRun s -> s <> "".
Proof. induction 1 as [s Ht | s rest Ht _ _]; destruct Ht; discriminate. Qed.

Lemma BrRun_app a b : BrRun a -> BrRun b -> BrRun (a ++ b).
Proof.
  intros Ha Hb. induction Ha as [s Ht | s rest Ht Hrest IH].
  - now apply BrRun_more.
  - rewrite string_app_assoc. now apply BrRun_more.
Qed.

Lemma matchesFrom_whitespace ws x :
  allWhiteSpace ws = true ->
  matchesFrom AfterR (ws ++ x) = matchesFrom AfterR x.
Proof.
  induction ws as [|c ws IH]; simpl; [reflexivity|].
  intros H. apply andb_true_iff in H as [Hc Hws]. rewrite Hc. auto.
Qed.

Lemma isBrRun_tag tag rest :
  BrTag tag -> rest = "" \/ isBrRun rest = true ->
  isBrRun (tag ++ rest) = true.
Proof.
  intros Htag Hrest.
  destruct Htag as [lt b r ws sl gt Hlt Hb Hr Hws Hsl Hgt].
  unfold isBrRun. cbn [append matchesFrom]. rewrite Hlt, Hb, Hr. cbn [andb].
  rewrite !string_app_assoc, matchesFrom_whitespace by assumption.
  assert (Hclose : match rest with
                   | "" => true
                   | String _ _ => matchesFrom AtTagStart rest
                   end = true).
  { destruct rest; [reflexivity|]. destruct Hrest; [discriminate | assumption]. }
  apply isChar_eq in Hgt. subst gt.
  destruct Hsl as [-> | (c & Hc & ->)]; cbn [append matchesFrom].
  - change (isWhiteSpace (ascii_of_N 62)) with false.
    change (isSlash (ascii_of_N 62)) with false.
    change (isGt (ascii_of_N 62)) with true. exact Hclose.
  - apply isChar_eq in Hc. subst c.
    change (isWhiteSpace (ascii_of_N 47)) with false.
    change (isSlash (ascii_of_N 47)) with true.
    change (isGt (ascii_of_N 62)) with true. exact Hclose.
Qed.

Lemma isBrRun_complete s : BrRun s -> isBrRun s = true.
Proof.
  induction 1 as [s Ht | s rest Ht Hrest IH].
  - rewrite <- (string_app_nil_r s). apply isBrRun_tag; auto.
  - apply isBrRun_tag; auto.
Qed.

Lemma BrTag_inv s :
  BrTag s ->
  exists lt b r ws sl gt,
    s = String lt (String b (String r (ws ++ sl ++ String gt ""))) /\
    isLt lt = true /\ isB b = true /\ isR r = true /\
    allWhiteSpace ws = true /\
    (sl = "" \/ exists c, isSlash c = true /\ sl = String c "") /\
    isGt gt = true.
Proof.
  intros [lt b r ws sl gt Hlt Hb Hr Hws Hsl Hgt].
  exists lt, b, r, ws, sl, gt. auto 10.
Qed.

Lemma matchesFrom_sound s :
  forall p, matchesFrom p s = true ->
  exists pre rest,
    s = pre ++ rest /\ completes p pre /\ (rest = "" \/ BrRun rest).
Proof.
  induction s as [|c t IH]; intros p H; [discriminate|].
  assert (Hclose :
    match t with "" => true | String _ _ => matchesFrom AtTagStart t end = true ->
    t = "" \/ BrRun t).
  { intros Ht. destruct t as [|x t']; [now left|]. right.
    destruct (IH AtTagStart Ht) as (pre & rest & -> & Hpre & [-> | Hrest]).
    - rewrite string_app_nil_r. now apply BrRun_one.
    - now apply BrRun_more. }
  destruct p; cbn [matchesFrom] in H.
  - apply andb_true_iff in H as [Hc Ht].
    destruct (IH AfterLt Ht) as (pre & rest & -> & Hpre & Hrest).
    exists (String c pre), rest. split; [reflexivity|]. split; [|exact Hrest].
    apply isChar_eq in Hc. subst c. exact Hpre.
  - apply andb_true_iff in H as [Hc Ht].
    destruct (IH AfterB Ht) as (pre & rest & -> & Hpre & Hrest).
    exists (String c pre), rest. split; [reflexivity|]. split; [|exact Hrest].
    cbn [completes append] in *.
    apply BrTag_inv in Hpre
      as (lt & b & r & ws & sl & gt & E & Hlt & Hb & Hr & Hws & Hsl & Hgt).
    injection E as <- <- ->. now constructor.
  - apply andb_true_iff in H as [Hc Ht].
    destruct (IH AfterR Ht) as (pre & rest & -> & Hpre & Hrest).
    exists (String c pre), rest. split; [reflexivity|]. split; [|exact Hrest].
    cbn [completes append] in *.
    apply BrTag_inv in Hpre
      as (lt & b & r & ws & sl & gt & E & Hlt & Hb & Hr & Hws & Hsl & Hgt).
    injection E as <- <- <- ->. now constructor.
  - destruct (isWhiteSpace c) eqn:Hws.
    + destruct (IH AfterR H) as (pre & rest & -> & Hpre & Hrest).
      exists (String c pre), rest. split; [reflexivity|]. split; [|exact Hrest].
      cbn [completes append] in *.
      apply BrTag_inv in Hpre
        as (lt & b & r & ws & sl & gt & E & Hlt & Hb & Hr & Hw & Hsl & Hgt).
      injection E as <- <- <- ->.
      change (String c (ws ++ sl ++ String gt ""))
        with (String c ws ++ sl ++ String gt "").
      constructor; auto. simpl. now rewrite Hws, Hw.
    + destruct (isSlash c) eqn:Hsl.
      * destruct (IH AfterSlash H) as (pre & rest & -> & Hpre & Hrest).
        exists (String c pre), rest. split; [reflexivity|].
        split; [|exact Hrest].
        apply isChar_eq in Hsl. subst c. exact Hpre.
      * apply andb_true_iff in H as [Hgt Ht].
        exists (String c ""), t. split; [reflexivity|].
        split; [|now apply Hclose].
        cbn [completes append].
        change (String c "") with ("" ++ "" ++ String c "").
        constructor; auto.
  - apply andb_true_iff in H as [Hgt Ht].
    exists (String c ""), t. split; [reflexivity|].
    split; [|now apply Hclose].
    cbn [completes append].
    change (String "/" (String c "")) with ("" ++ "/" ++ String c "").
    constructor; auto. right. exists "/"%char. auto.
Qed.

Lemma isBrRun_sound s : isBrRun s = true -> BrRun s.
Proof.
  intros H.
  destruct (matchesFrom_sound s AtTagStart H) as (pre & rest & -> & Hpre & Hrest).
  destruct Hrest as [-> | Hrest].
  - rewrite string_app_nil_r. now apply BrRun_one.
  - now apply BrRun_more.
Qed.

(** The automaton decides the language of the pattern. *)
Lemma isBrRun_iff s : isBrRun s = true <-> BrRun s.
Proof. split; [apply isBrRun_sound | apply isBrRun_complete]. Qed.

Lemma stripTrailingBr_unfold s :
  stripTrailingBr s
  = if isBrRun s then ""
    else match s with
         | "" => ""
         | String c t => String c (stripTrailingBr t)
         end.
Proof. destruct s; reflexivity. Qed.

(** What is removed is a run of tags, or nothing. *)
Lemma stripTrailingBr_split s :
  exists tail, s = stripTrailingBr s ++ tail /\ (tail = "" \/ BrRun tail).
Proof.
  induction s as [|c t (tail & Ht & Htail)]; rewrite stripTrailingBr_unfold.
  - exists "". auto.
  - destruct (isBrRun (String c t)) eqn:E.
    + exists (String c t). split; [reflexivity|]. right. now apply isBrRun_sound.
    + exists tail. split; [|exact Htail]. cbn [append]. now rewrite <- Ht.
Qed.

(** The match is the leftmost one. *)
Lemma stripTrailingBr_leftmost s pre rest :
  s = pre ++ rest -> BrRun rest ->
  exists q, pre = stripTrailingBr s ++ q.
Proof.
  revert pre. induction s as [|c t IH]; intros pre Hs Hrest;
    rewrite stripTrailingBr_unfold.
  - destruct (isBrRun ""); exists pre; reflexivity.
  - destruct (isBrRun (String c t)) eqn:E; [exists pre; reflexivity|].
    destruct pre as [|x pre].
    + cbn [append] in Hs. subst rest. apply isBrRun_complete in Hrest.
      congruence.
    + cbn [append] in Hs. injection Hs as <- Ht.
      destruct (IH pre Ht Hrest) as [q ->]. exists q. reflexivity.
Qed.

(** What stays does not end with a break tag. *)
Lemma stripTrailingBr_clean s pre suf :
  stripTrailingBr s = pre ++ suf -> ~ BrRun suf.
Proof.
  intros Hs Hsuf.
  destruct (stripTrailingBr_split s) as (tail & Hsplit & Htail).
  assert (Hrun : BrRun (suf ++ tail)).
  { destruct Htail as [-> | Htail];
      [now rewrite string_app_nil_r | now apply BrRun_app]. }
  assert (Hwhole : s = pre ++ suf ++ tail).
  { rewrite Hsplit at 1. rewrite Hs. apply string_app_assoc. }
  destruct (stripTrailingBr_leftmost s pre (suf ++ tail) Hwhole Hrun) as [q Hq].
  rewrite Hs in Hq. apply (f_equal String.length) in Hq.
  rewrite !string_length_app in Hq.
  apply BrRun_nonempty in Hsuf. destruct suf; [congruence | simpl in Hq; lia].
Qed.

End PatternFacts.

(** ** Frame rules of the monad *)

Section Frames.
Context {X : Type} (p : World -> X).

Lemma preserves_ret {A} (a : A) : preserves p (ret a).
Proof. intros w; reflexivity. Qed.

Lemma preserves_throw {A} (e : JsError.t) : preserves p (@throw A e).
Proof. intros w; reflexivity. Qed.

Lemma preserves_lift {A} (r : Result A) : preserves p (lift r).
Proof. intros w; reflexivity. Qed.

Lemma preserves_gets {A} (f : World -> A) : preserves p (gets f).
Proof. intros w; reflexivity. Qed.

Lemma preserves_modify (f : World -> World) :
  (forall w, p (f w) = p w) -> preserves p (modify f).
Proof. intros H w; apply H. Qed.

Lemma preserves_bind {A B} (m : M A) (k : A -> M B) :
  preserves p m -> (forall a, preserves p (k a)) -> preserves p (bind m k).
Proof.
  intros Hm Hk w. unfold bind.
  specialize (Hm w). destruct (m w) as [[a|e] w']; simpl in *.
  - rewrite Hk. exact Hm.
  - exact Hm.
Qed.

Lemma preserves_tryCatch {A} (body : M A) (handler : JsError.t -> M A) :
  preserves p body -> (forall e, preserves p (handler e)) ->
  preserves p (tryCatch body handler).
Proof.
  intros Hm Hk w. unfold tryCatch.
  specialize (Hm w). destruct (body w) as [[a|e] w']; simpl in *.
  - exact Hm.
  - rewrite Hk. exact Hm.
Qed.

Lemma preserves_when (b : bool) (m : M unit) :
  preserves p m -> preserves p (when b m).
Proof. intros H; destruct b; simpl; [exact H | apply preserves_ret]. Qed.

Lemma preserves_promiseAll (tasks : list (M unit)) :
  Forall (preserves p) tasks -> preserves p (promiseAll tasks).
Proof.
  induction 1 as [|t ts Ht _ IH]; simpl.
  - apply preserves_ret.
  - intros w. specialize (Ht w).
    destruct (t w) as [[a|e] w']; simpl in *.
    + rewrite IH. exact Ht.
    + rewrite IH. exact Ht.
Qed.

End Frames.

Create HintDb frames.

(** Decomposes a goal [preserves p m] along the structure of [m]. *)
Ltac frame_step :=
  first
    [ solve [auto 2 with frames]
    | apply preserves_ret
    | apply preserves_throw
    | apply preserves_lift
    | apply preserves_gets
    | apply preserves_modify; intros ?; reflexivity
    | apply preserves_bind; [| intros ?]
    | apply preserves_tryCatch; [| intros ?]
    | apply preserves_when
    | match goal with
      | |- preserves _ (match ?x with _ => _ end) => destruct x
      | |- preserves _ (let (_, _) := ?x in _) => destruct x
      end
    | solve [intros ?; reflexivity] ].

Ltac frame := repeat frame_step.


Lemma captureExceptionAndLog_frame {X} (p : World -> X) (e : JsError.t) :
  (forall x w, p (with_captured x w) = p w) ->
  preserves p (captureExceptionAndLog e).
Proof. intros H. apply preserves_modify. intros w. apply H. Qed.

Lemma captureExceptionAndThrowIfDevelopment_frame {X} (p : World -> X)
    caps (e : JsError.t) :
  (forall x w, p (with_captured x w) = p w) ->
  preserves p (captureExceptionAndThrowIfDevelopment caps e).
Proof.
  intros H. unfold captureExceptionAndThrowIfDevelopment.
  destruct (developmentThrow caps);
    [apply preserves_throw | now apply captureExceptionAndLog_frame].
Qed.

Lemma triggerEvent_frame {X} (p : World -> X) event data sleep :
  (forall x w, p (with_jobs x w) = p w) ->
  preserves p (triggerEvent event data sleep).
Proof. intros H. apply preserves_modify. intros w. apply H. Qed.

Lemma sendEvents_frame {X} (p : World -> X) es :
  (forall x w, p (with_jobs x w) = p w) ->
  preserves p (sendEvents es).
Proof.
  intros H. induction es as [|e es IH]; simpl.
  - apply preserves_ret.
  - apply preserves_bind; [now apply triggerEvent_frame | intros _; exact IH].
Qed.

#[local] Hint Extern 1 (preserves _ (sendEvents _)) =>
  apply sendEvents_frame; intros; reflexivity : frames.
#[local] Hint Extern 1 (preserves _ (captureExceptionAndThrowIfDevelopment _ _)) =>
  apply captureExceptionAndThrowIfDevelopment_frame; intros; reflexivity : frames.

(** ** Running the monad *)

Lemma bind_ret {A B} (a : A) (k : A -> M B) w : bind (ret a) k w = k a w.
Proof. reflexivity. Qed.

Lemma bind_gets {A B} (f : World -> A) (k : A -> M B) w :
  bind (gets f) k w = k (f w) w.
Proof. reflexivity. Qed.

Lemma bind_modify {B} (f : World -> World) (k : unit -> M B) w :
  bind (modify f) k w = k tt (f w).
Proof. reflexivity. Qed.

Lemma bind_lift_Ok {A B} (a : A) (k : A -> M B) w :
  bind (lift (Ok a)) k w = k a w.
Proof. reflexivity. Qed.

Lemma bind_lift_Throw {A B} (e : JsError.t) (k : A -> M B) w :
  bind (lift (Throw e)) k w = (Throw e, w).
Proof. reflexivity. Qed.

Lemma bind_throw {A B} (e : JsError.t) (k : A -> M B) w :
  bind (throw e) k w = (Throw e, w).
Proof. reflexivity. Qed.

Lemma bind_run {A B} (m : M A) (k : A -> M B) w a w' :
  m w = (Ok a, w') -> bind m k w = k a w'.
Proof. intros H. unfold bind. now rewrite H. Qed.

Lemma bind_run_Throw {A B} (m : M A) (k : A -> M B) w e w' :
  m w = (Throw e, w') -> bind m k w = (Throw e, w').
Proof. intros H. unfold bind. now rewrite H. Qed.

Lemma bind_assoc {A B C} (m : M A) (k : A -> M B) (h : B -> M C) w :
  bind (bind m k) h w = bind m (fun a => bind (k a) h) w.
Proof.
  unfold bind. destruct (m w) as [[a|e] w']; reflexivity.
Qed.

(** Rewrites [p (snd (m w))] into [p w] when the frame rules show that
    [m] preserves [p]. *)
Ltac framed p :=
  match goal with
  | |- context [p (snd (?m ?w0))] =>
      let H := fresh "Hframe" in
      assert (H : preserves p m);
      [ | rewrite (H w0); clear H ]
  end.

(** ** The update contract and the message constructor *)

#[local] Hint Unfold triggerEvent publishToRealtime captureExceptionAndLog
  finishFileUpload setHistoryId insertInlineFiles : frames.

Ltac frames := autounfold with frames; frame.

Lemma updateRows_not_found id set time rows :
  find (fun c => Conversation.id c =? id) rows = None ->
  updateRows id set time rows = rows.
Proof.
  induction rows as [|c rows IH]; simpl; [reflexivity|].
  destruct (Conversation.id c =? id); [discriminate|].
  intros H. now rewrite IH.
Qed.

Lemma updateConversation_conversations id set by_ msg skip w :
  conversations (snd (updateConversation id set by_ msg skip w))
  = updateRows id set (now w) (conversations w).
Proof.
  unfold updateConversation. rewrite bind_gets.
  destruct (findConversation id w) as [current|] eqn:Hfind.
  - rewrite bind_gets, bind_modify.
    framed conversations; [frames | reflexivity].
  - simpl. symmetry. now apply updateRows_not_found.
Qed.

Lemma updateConversation_messages id set by_ msg skip :
  preserves conversationMessages (updateConversation id set by_ msg skip).
Proof. unfold updateConversation. frames. Qed.

Lemma updateConversation_supportEmails id set by_ msg skip :
  preserves gmailSupportEmails (updateConversation id set by_ msg skip).
Proof. unfold updateConversation. frames. Qed.

Lemma updateConversation_captured id set by_ msg skip :
  preserves captured (updateConversation id set by_ msg skip).
Proof. unfold updateConversation. frames. Qed.

Lemma updateConversation_now id set by_ msg skip :
  preserves now (updateConversation id set by_ msg skip).
Proof. unfold updateConversation. frames. Qed.

Lemma updateConversation_nextConversationId id set by_ msg skip :
  preserves nextConversationId (updateConversation id set by_ msg skip).
Proof. unfold updateConversation. frames. Qed.

Lemma updateConversation_nextMessageId id set by_ msg skip :
  preserves nextMessageId (updateConversation id set by_ msg skip).
Proof. unfold updateConversation. frames. Qed.

Lemma updateConversation_realtime_skipped id set by_ msg :
  preserves realtime (updateConversation id set by_ msg true).
Proof. unfold updateConversation. frames. Qed.

Lemma ConversationStatus_eqb_refl s : ConversationStatus_eqb s s = true.
Proof. destruct s; reflexivity. Qed.

Lemma ConversationStatus_eqb_eq a b : ConversationStatus_eqb a b = true <-> a = b.
Proof. destruct a, b; simpl; split; congruence. Qed.

(** An update that does not set the status triggers no event. *)
Lemma updateConversation_jobs_no_status id set by_ msg skip :
  ConversationUpdate.status set = None ->
  preserves jobs (updateConversation id set by_ msg skip).
Proof.
  intros Hset. unfold updateConversation.
  apply preserves_bind; [frames | intros [current|]; [|frames]].
  apply preserves_bind; [frames | intros time].
  do 3 (apply preserves_bind; [frames | intros _]).
  apply preserves_bind; [| frames].
  simpl. rewrite Hset. simpl. rewrite ConversationStatus_eqb_refl.
  rewrite andb_false_r. apply preserves_ret.
Qed.

(** Nor does an update that sets it to open. *)
Lemma updateConversation_jobs_open id set by_ msg skip :
  ConversationUpdate.status set = Some open ->
  preserves jobs (updateConversation id set by_ msg skip).
Proof.
  intros Hset. unfold updateConversation.
  apply preserves_bind; [frames | intros [current|]; [|frames]].
  apply preserves_bind; [frames | intros time].
  do 3 (apply preserves_bind; [frames | intros _]).
  apply preserves_bind; [| frames].
  simpl. rewrite Hset. simpl. apply preserves_ret.
Qed.

Lemma updateConversation_events id set by_ msg skip w :
  conversationEvents (snd (updateConversation id set by_ msg skip w))
  = (conversationEvents w ++
    match findConversation id w with
    | Some current =>
        [{| ConversationEvent.conversationId := id;
            ConversationEvent.type := "update";
            ConversationEvent.changes :=
              {| ConversationEvent.status := Some (Conversation.status current);
                 ConversationEvent.assignedToId :=
                   Some (Conversation.assignedToId current);
                 ConversationEvent.assignedToAI :=
                   Some (Conversation.assignedToAI current) |};
            ConversationEvent.byUserId := by_;
            ConversationEvent.reason := msg;
            ConversationEvent.createdAt := now w |}]
    | None => []
    end)%list.
Proof.
  unfold updateConversation. rewrite bind_gets.
  destruct (findConversation id w) as [current|] eqn:Hfind.
  - rewrite bind_gets, bind_modify, bind_modify.
    framed conversationEvents; [frames | reflexivity].
  - simpl. now rewrite app_nil_r.
Qed.

Lemma sendEvents_jobs es w :
  jobs (snd (sendEvents es w))
  = (jobs w ++
     flat_map (fun e =>
                 payloadsOf (EventToSend.name e) (EventToSend.data e)
                   match EventToSend.sleepSeconds e with
                   | Some s => if s =? 0 then 0 else s
                   | None => 0
                   end) es)%list.
Proof.
  revert w. induction es as [|e es IH]; intros w; simpl.
  - now rewrite app_nil_r.
  - unfold sendEvent, triggerEvent at 1. rewrite bind_modify.
    rewrite IH. simpl. now rewrite <- app_assoc.
Qed.

Lemma sendEvents_Ok es w : fst (sendEvents es w) = Ok tt.
Proof.
  revert w. induction es as [|e es IH]; intros w; simpl; [reflexivity|].
  unfold sendEvent, triggerEvent. rewrite bind_modify. apply IH.
Qed.

Lemma updateConversation_Ok id set by_ msg skip w :
  exists r, fst (updateConversation id set by_ msg skip w) = Ok r.
Proof.
  unfold updateConversation. rewrite bind_gets.
  destruct (findConversation id w) as [current|].
  - rewrite bind_gets, bind_modify, bind_modify.
    destruct skip; simpl.
    + rewrite bind_ret.
      match goal with |- context [when ?b ?m] => destruct b end; simpl;
        eexists; reflexivity.
    + unfold publishToRealtime. rewrite bind_assoc, bind_modify.
      match goal with |- context [when ?b (modify ?f)] => destruct b end; simpl;
        match goal with |- context [when ?b ?m] => destruct b end; simpl;
        eexists; reflexivity.
  - eexists; reflexivity.
Qed.

Lemma updateRows_statuses id set time rows :
  ConversationUpdate.status set = None ->
  map (fun c => (Conversation.id c, Conversation.status c))
      (updateRows id set time rows)
  = map (fun c => (Conversation.id c, Conversation.status c)) rows.
Proof.
  intros Hset. unfold updateRows. rewrite map_map. apply map_ext.
  intros c. destruct (Conversation.id c =? id); [|reflexivity].
  simpl. now rewrite Hset.
Qed.

(** An update that does not set the status keeps every status. *)
Lemma updateConversation_statuses id set by_ msg skip :
  ConversationUpdate.status set = None ->
  preserves statuses (updateConversation id set by_ msg skip).
Proof.
  intros Hset w. unfold statuses.
  rewrite updateConversation_conversations.
  now apply updateRows_statuses.
Qed.

Lemma find_updateRows cid id set time rows :
  find (fun c => Conversation.id c =? cid) (updateRows id set time rows)
  = option_map (fun c => if Conversation.id c =? id
                         then applyUpdate set time c else c)
      (find (fun c => Conversation.id c =? cid) rows).
Proof.
  induction rows as [|c rows IH]; simpl; [reflexivity|].
  destruct (Conversation.id c =? id) eqn:E1; simpl;
    destruct (Conversation.id c =? cid) eqn:E2; simpl; rewrite ?E1; auto.
Qed.

Lemma findConversation_statuses cid w w' c :
  statuses w' = statuses w ->
  findConversation cid w = Some c ->
  exists c', findConversation cid w' = Some c' /\
             Conversation.status c' = Conversation.status c.
Proof.
  unfold statuses, findConversation.
  generalize (conversations w') as rows'.
  induction (conversations w) as [|r rows IH]; intros rows' Heq Hfind;
    [discriminate|].
  destruct rows' as [|r' rows']; [discriminate|].
  simpl in Heq. injection Heq as Hid Hst Hrest.
  simpl in *. rewrite Hid.
  destruct (Conversation.id r =? cid).
  - injection Hfind as <-. eauto.
  - now apply IH.
Qed.

#[local] Hint Resolve updateConversation_messages updateConversation_supportEmails
  updateConversation_captured updateConversation_now
  updateConversation_nextConversationId updateConversation_nextMessageId
  updateConversation_realtime_skipped : frames.
#[local] Hint Extern 1 (preserves jobs (updateConversation _ _ _ _ _)) =>
  first [ apply updateConversation_jobs_no_status; reflexivity
        | apply updateConversation_jobs_open; reflexivity ] : frames.
#[local] Hint Extern 1 (preserves statuses (updateConversation _ _ _ _ _)) =>
  apply updateConversation_statuses; reflexivity : frames.

(** *** [createConversationMessage] *)

Lemma bind_insertConversationMessage {B} v (k : ConversationMessage.t -> M B) w :
  bind (insertConversationMessage v) k w
  = k (messageRow (nextMessageId w) (now w) v)
      (with_nextMessageId (nextMessageId w + 1)
         (with_conversationMessages
            (conversationMessages w ++ [messageRow (nextMessageId w) (now w) v])
            w)).
Proof. reflexivity. Qed.

Lemma createConversationMessage_Ok caps v w :
  fst (createConversationMessage caps v w)
  = Ok (messageRow (nextMessageId w) (now w) v).
Proof.
  unfold createConversationMessage.
  rewrite bind_insertConversationMessage, bind_gets.
  match goal with
  | |- context [bind (updateConversation ?i ?s ?b ?m ?k) _ ?w0] =>
      destruct (updateConversation_Ok i s b m k w0) as [r Hr];
      destruct (updateConversation i s b m k w0) as [r' w1] eqn:E
  end.
  simpl in Hr; subst r'.
  rewrite (bind_run _ _ _ _ _ E).
  unfold bind. pose proof (sendEvents_Ok
    (eventsToSend caps (messageRow (nextMessageId w) (now w) v)) w1) as Hs.
  destruct (sendEvents _ w1) as [rs w2]; simpl in Hs; subst rs. reflexivity.
Qed.

Lemma createConversationMessage_messages caps v w :
  conversationMessages (snd (createConversationMessage caps v w))
  = (conversationMessages w ++ [messageRow (nextMessageId w) (now w) v])%list.
Proof.
  unfold createConversationMessage.
  rewrite bind_insertConversationMessage.
  framed conversationMessages; [frames | reflexivity].
Qed.

Lemma createConversationMessage_jobs caps v w :
  jobs (snd (createConversationMessage caps v w))
  = (jobs w ++
     payloadsOfEvents caps (messageRow (nextMessageId w) (now w) v))%list.
Proof.
  unfold createConversationMessage.
  rewrite bind_insertConversationMessage, bind_gets.
  match goal with
  | |- context [bind (updateConversation ?i ?s ?b ?m ?k) _ ?w0] =>
      pose proof (updateConversation_jobs_no_status i s b m k eq_refl w0) as Hj;
      destruct (updateConversation_Ok i s b m k w0) as [r Hr];
      destruct (updateConversation i s b m k w0) as [r' w1] eqn:E
  end.
  simpl in Hr, Hj; subst r'.
  rewrite (bind_run _ _ _ _ _ E).
  pose proof (sendEvents_jobs
    (eventsToSend caps (messageRow (nextMessageId w) (now w) v)) w1) as Hs.
  pose proof (sendEvents_Ok
    (eventsToSend caps (messageRow (nextMessageId w) (now w) v)) w1) as Ho.
  destruct (sendEvents _ w1) as [rs w2] eqn:Es; simpl in Hs, Ho; subst rs.
  rewrite (bind_run _ _ _ _ _ Es). simpl.
  rewrite Hs, Hj. reflexivity.
Qed.

Lemma createConversationMessage_realtime caps v :
  preserves realtime (createConversationMessage caps v).
Proof. unfold createConversationMessage, insertConversationMessage. frames. Qed.

Lemma createConversationMessage_supportEmails caps v :
  preserves gmailSupportEmails (createConversationMessage caps v).
Proof. unfold createConversationMessage, insertConversationMessage. frames. Qed.

Lemma createConversationMessage_captured caps v :
  preserves captured (createConversationMessage caps v).
Proof. unfold createConversationMessage, insertConversationMessage. frames. Qed.

Lemma createConversationMessage_now caps v :
  preserves now (createConversationMessage caps v).
Proof. unfold createConversationMessage, insertConversationMessage. frames. Qed.

Lemma createConversationMessage_nextConversationId caps v :
  preserves nextConversationId (createConversationMessage caps v).
Proof. unfold createConversationMessage, insertConversationMessage. frames. Qed.

Lemma createConversationMessage_conversations caps v w :
  conversations (snd (createConversationMessage caps v w))
  = updateRows (NewConversationMessage.conversationId v)
      {| ConversationUpdate.status := None;
         ConversationUpdate.assignedToId := None;
         ConversationUpdate.assignedToAI := None;
         ConversationUpdate.lastMessageAt := Some (now w);
         ConversationUpdate.lastUserEmailCreatedAt :=
           if MessageRole_eqb (NewConversationMessage.role v) user
           then Some (now w) else None;
         ConversationUpdate.lastReadAt :=
           if MessageRole_eqb (NewConversationMessage.role v) user
           then Some (now w) else None |}
      (now w) (conversations w).
Proof.
  unfold createConversationMessage.
  rewrite bind_insertConversationMessage, bind_gets.
  match goal with
  | |- context [bind (updateConversation ?i ?s ?b ?m ?k) _ ?w0] =>
      pose proof (updateConversation_conversations i s b m k w0) as Hc;
      destruct (updateConversation_Ok i s b m k w0) as [r Hr];
      destruct (updateConversation i s b m k w0) as [r' w1] eqn:E
  end.
  simpl in Hr, Hc; subst r'.
  rewrite (bind_run _ _ _ _ _ E).
  framed conversations; [frames | exact Hc].
Qed.

Lemma createConversationMessage_statuses caps v :
  preserves statuses (createConversationMessage caps v).
Proof. unfold createConversationMessage, insertConversationMessage. frames. Qed.

(** ** Frames of the webhook job *)

#[local] Hint Unfold isThankYouOrAutoResponse decideShouldIgnore
  resolveConversation assignBasedOnCc processAttachment
  assertSuccessResponseOrThrow getParsedEmailInfo fetchParsedEmail : frames.

Lemma assignFirstStaff_frame {X} (p : World -> X) caps conversationId ccs :
  (forall set by_ msg,
     ConversationUpdate.status set = None ->
     preserves p (updateConversation conversationId set by_ msg true)) ->
  preserves p (assignFirstStaff caps conversationId ccs).
Proof.
  intros H. induction ccs as [|a ccs IH]; simpl.
  - apply preserves_ret.
  - destruct (getBasicProfileByEmail caps a) as [u|]; [|exact IH].
    apply preserves_bind; [now apply H | intros _; apply preserves_ret].
Qed.

#[local] Hint Extern 1 (preserves _ (assignFirstStaff _ _ _)) =>
  apply assignFirstStaff_frame; intros;
  first [ solve [auto 2 with frames]
        | apply updateConversation_jobs_no_status; assumption
        | apply updateConversation_statuses; assumption ] : frames.

Lemma processGmailAttachments_frame {X} (p : World -> X) caps slug messageId
    attachments :
  (forall a, preserves p (processAttachment caps slug messageId a)) ->
  preserves p (processGmailAttachments caps slug messageId attachments).
Proof.
  intros H. unfold processGmailAttachments. apply preserves_promiseAll.
  apply Forall_map, Forall_forall. intros a _. apply H.
Qed.

#[local] Hint Extern 1 (preserves _ (processGmailAttachments _ _ _ _)) =>
  apply processGmailAttachments_frame; intros; frames : frames.

Lemma createMessageAndProcessAttachments_messages caps gse parsedEmail
    parsedEmailFrom processedHtml cleanedUpText fileSlugs gmailMessageId
    gmailThreadId conversation staffUser w :
  exists v,
    NewConversationMessage.gmailMessageId v = Some gmailMessageId /\
    NewConversationMessage.conversationId v = Conversation.id conversation /\
    conversationMessages
      (snd (createMessageAndProcessAttachments caps gse parsedEmail
              parsedEmailFrom processedHtml cleanedUpText fileSlugs
              gmailMessageId gmailThreadId conversation staffUser w))
    = (conversationMessages w ++ [messageRow (nextMessageId w) (now w) v])%list /\
    forall newEmail,
      fst (createMessageAndProcessAttachments caps gse parsedEmail
             parsedEmailFrom processedHtml cleanedUpText fileSlugs
             gmailMessageId gmailThreadId conversation staffUser w)
      = Ok newEmail ->
      newEmail = messageRow (nextMessageId w) (now w) v.
Proof.
  unfold createMessageAndProcessAttachments.
  match goal with
  | |- context [createConversationMessage caps ?v0] => exists v0
  end.
  split; [reflexivity|]. split; [reflexivity|].
  match goal with
  | |- context [bind (createConversationMessage caps ?v0) ?k w] =>
      pose proof (createConversationMessage_Ok caps v0 w) as Ho;
      pose proof (createConversationMessage_messages caps v0 w) as Hm;
      destruct (createConversationMessage caps v0 w) as [r w1] eqn:E
  end.
  simpl in Ho, Hm. subst r.
  rewrite (bind_run _ _ _ _ _ E).
  split.
  - framed conversationMessages; [frames | exact Hm].
  - intros newEmail Hn.
    match goal with
    | Hn : fst (bind ?m1 ?k1 w1) = _ |- _ =>
        unfold bind in Hn; destruct (m1 w1) as [[u1|e1] w2]; simpl in Hn;
          [|discriminate]
    end.
    match goal with
    | Hn : fst (match ?m2 ?w2 with _ => _ end) = _ |- _ =>
        destruct (m2 w2) as [[u2|e2] w3]; simpl in Hn; [|discriminate]
    end.
    match goal with
    | Hn : fst (match ?m3 ?w3 with _ => _ end) = _ |- _ =>
        destruct (m3 w3) as [[u3|e3] w4]; simpl in Hn; [|discriminate]
    end.
    congruence.
Qed.

#[local] Hint Resolve createConversationMessage_realtime
  createConversationMessage_supportEmails createConversationMessage_captured
  createConversationMessage_now createConversationMessage_nextConversationId
  createConversationMessage_statuses : frames.

Lemma createMessageAndProcessAttachments_statuses caps gse parsedEmail
    parsedEmailFrom processedHtml cleanedUpText fileSlugs gmailMessageId
    gmailThreadId conversation staffUser :
  preserves statuses
    (createMessageAndProcessAttachments caps gse parsedEmail parsedEmailFrom
       processedHtml cleanedUpText fileSlugs gmailMessageId gmailThreadId
       conversation staffUser).
Proof. unfold createMessageAndProcessAttachments. frames. Qed.

Lemma createMessageAndProcessAttachments_supportEmails caps gse parsedEmail
    parsedEmailFrom processedHtml cleanedUpText fileSlugs gmailMessageId
    gmailThreadId conversation staffUser :
  preserves gmailSupportEmails
    (createMessageAndProcessAttachments caps gse parsedEmail parsedEmailFrom
       processedHtml cleanedUpText fileSlugs gmailMessageId gmailThreadId
       conversation staffUser).
Proof. unfold createMessageAndProcessAttachments. frames. Qed.

Lemma createMessageAndProcessAttachments_realtime caps gse parsedEmail
    parsedEmailFrom processedHtml cleanedUpText fileSlugs gmailMessageId
    gmailThreadId conversation staffUser :
  preserves realtime
    (createMessageAndProcessAttachments caps gse parsedEmail parsedEmailFrom
       processedHtml cleanedUpText fileSlugs gmailMessageId gmailThreadId
       conversation staffUser).
Proof. unfold createMessageAndProcessAttachments. frames. Qed.

#[local] Hint Resolve createMessageAndProcessAttachments_supportEmails : frames.

(** ** Conversation resolution *)

Lemma optString_eqb_eq o s : optString_eqb o s = true <-> o = Some s.
Proof.
  destruct o as [x|]; simpl.
  - rewrite String.eqb_eq. split; congruence.
  - split; discriminate.
Qed.

Lemma latest_In rows m : latest rows = Some m -> In m rows.
Proof.
  revert m. induction rows as [|r rows IH]; simpl; intros m H; [discriminate|].
  destruct (latest rows) as [m'|].
  - destruct (ConversationMessage.createdAt m' <=? ConversationMessage.createdAt r);
      injection H as <-; auto.
  - injection H as <-; auto.
Qed.

Lemma latest_most_recent rows m :
  latest rows = Some m ->
  forall m', In m' rows ->
    ConversationMessage.createdAt m' <= ConversationMessage.createdAt m.
Proof.
  revert m. induction rows as [|r rows IH]; simpl; intros m H m' Hin;
    [contradiction|].
  destruct (latest rows) as [l|] eqn:El.
  - specialize (IH l eq_refl).
    destruct (Z.leb_spec (ConversationMessage.createdAt l)
                         (ConversationMessage.createdAt r)) as [Hle|Hlt];
      injection H as <-; destruct Hin as [<-|Hin]; try lia.
    + specialize (IH m' Hin). lia.
    + apply IH, Hin.
  - injection H as <-. destruct Hin as [<-|Hin]; [lia|].
    destruct rows; [contradiction | simpl in El].
    destruct (latest rows); [destruct (_ <=? _)|]; discriminate.
Qed.

Lemma latest_None rows : latest rows = None -> rows = [].
Proof.
  destruct rows as [|r rows]; simpl; [reflexivity|].
  destruct (latest rows); [destruct (_ <=? _)|]; discriminate.
Qed.

Lemma findConversation_id id w c :
  findConversation id w = Some c -> Conversation.id c = id /\ In c (conversations w).
Proof.
  unfold findConversation. intros H. apply find_some in H as [Hin Heq].
  apply Z.eqb_eq in Heq. auto.
Qed.

Lemma createNewConversation_run caps mailbox parsedEmail parsedEmailFrom
    shouldIgnore w :
  createNewConversation caps mailbox parsedEmail parsedEmailFrom shouldIgnore w
  = (Ok (newConversationRow caps mailbox parsedEmail parsedEmailFrom
           shouldIgnore (nextConversationId w) (now w)),
     withNewConversation
       (newConversationRow caps mailbox parsedEmail parsedEmailFrom
          shouldIgnore (nextConversationId w) (now w)) w).
Proof. reflexivity. Qed.

Lemma fresh_conversation_id w :
  conversationIdsBelow w ->
  forall c, In c (conversations w) -> Conversation.id c <> nextConversationId w.
Proof.
  unfold conversationIdsBelow. rewrite Forall_forall.
  intros H c Hin. specialize (H c Hin). lia.
Qed.

(** The filter of [findPreviousEmail], in words. *)
Lemma In_thread_filter gmailThreadId rows m :
  In m (filter (fun m => optString_eqb (ConversationMessage.gmailThreadId m)
                           gmailThreadId) rows)
  <-> In m rows /\ inThread gmailThreadId m.
Proof.
  rewrite filter_In. unfold inThread. now rewrite optString_eqb_eq.
Qed.

(** C8.  A conversation the pipeline creates is stored closed, with
    [closedAt] the current time, exactly when the message was classified as
    ignorable, and open with no [closedAt] otherwise; its [assignedToAI]
    flag is set exactly when the mailbox's [autoRespondEmailToChat]
    preference is set.  Resolution stores at most this one row. *)
Theorem createNewConversation_defaults caps mailbox parsedEmail parsedEmailFrom
    shouldIgnore gmailMessageId gmailThreadId w :
  exists c,
    createNewConversation caps mailbox parsedEmail parsedEmailFrom shouldIgnore w
    = (Ok c, withNewConversation c w) /\
    conversations (withNewConversation c w) = (conversations w ++ [c])%list /\
    (Conversation.status c = closed /\ Conversation.closedAt c = Some (now w)
     <-> shouldIgnore = true) /\
    (Conversation.status c = open /\ Conversation.closedAt c = None
     <-> shouldIgnore = false) /\
    (Conversation.assignedToAI c = true
     <-> exists mode, Mailbox.autoRespond mailbox = Some mode) /\
    (conversations
       (snd (resolveConversation caps mailbox parsedEmail parsedEmailFrom
               shouldIgnore gmailMessageId gmailThreadId w))
     = conversations w
     \/ conversations
          (snd (resolveConversation caps mailbox parsedEmail parsedEmailFrom
                  shouldIgnore gmailMessageId gmailThreadId w))
        = (conversations w ++ [c])%list).
Proof.
  exists (newConversationRow caps mailbox parsedEmail parsedEmailFrom
            shouldIgnore (nextConversationId w) (now w)).
  split; [apply createNewConversation_run|].
  split; [reflexivity|].
  split; [|split; [|split]].
  - destruct shouldIgnore; simpl; split; try tauto; try discriminate.
    intros [H _]; discriminate.
  - destruct shouldIgnore; simpl; split; try tauto; try discriminate.
    intros [H _]; discriminate.
  - simpl. destruct (Mailbox.autoRespond mailbox) as [mode|]; simpl; split.
    + intros _. now exists mode.
    + reflexivity.
    + discriminate.
    + intros [mode H]. discriminate.
  - unfold resolveConversation.
    destruct (isNewThread gmailMessageId gmailThreadId); [right; reflexivity|].
    rewrite bind_gets.
    destruct (findPreviousEmail gmailThreadId w) as [[m [c|]]|];
      [left | right | right]; reflexivity.
Qed.

(** C2.  A message whose id equals its thread id always gets a conversation
    created for it, whose id no stored conversation has.  Any other message
    adopts the conversation of a persisted message of its thread that no
    other message of the thread is more recent than, the world staying as
    it is; when the thread has no persisted message, a conversation is
    created exactly as for a first message.  The message is then persisted
    under the id of the conversation so determined. *)
Theorem resolveConversation_threading caps mailbox parsedEmail parsedEmailFrom
    shouldIgnore gmailMessageId gmailThreadId w :
  conversationIdsBelow w ->
  let created :=
    newConversationRow caps mailbox parsedEmail parsedEmailFrom shouldIgnore
      (nextConversationId w) (now w) in
  let resolve :=
    resolveConversation caps mailbox parsedEmail parsedEmailFrom shouldIgnore in
  (gmailMessageId = gmailThreadId ->
     resolve gmailMessageId gmailThreadId w
     = (Ok created, withNewConversation created w) /\
     forall c, In c (conversations w) ->
       Conversation.id c <> Conversation.id created) /\
  (gmailMessageId <> gmailThreadId ->
     (exists m0, In m0 (conversationMessages w) /\ inThread gmailThreadId m0) ->
     exists m,
       In m (conversationMessages w) /\ inThread gmailThreadId m /\
       (forall m', In m' (conversationMessages w) -> inThread gmailThreadId m' ->
          ConversationMessage.createdAt m' <= ConversationMessage.createdAt m) /\
       (forall c,
          findConversation (ConversationMessage.conversationId m) w = Some c ->
          resolve gmailMessageId gmailThreadId w = (Ok c, w)) /\
       (findConversation (ConversationMessage.conversationId m) w = None ->
        resolve gmailMessageId gmailThreadId w
        = (Ok created, withNewConversation created w))) /\
  (gmailMessageId <> gmailThreadId ->
     (forall m, In m (conversationMessages w) -> ~ inThread gmailThreadId m) ->
     resolve gmailMessageId gmailThreadId w
     = (Ok created, withNewConversation created w) /\
     resolve gmailMessageId gmailThreadId w
     = resolve gmailThreadId gmailThreadId w) /\
  (forall gse processedHtml cleanedUpText fileSlugs conversation staffUser w2,
     exists row,
       conversationMessages
         (snd (createMessageAndProcessAttachments caps gse parsedEmail
                 parsedEmailFrom processedHtml cleanedUpText fileSlugs
                 gmailMessageId gmailThreadId conversation staffUser w2))
       = (conversationMessages w2 ++ [row])%list /\
       ConversationMessage.gmailMessageId row = Some gmailMessageId /\
       ConversationMessage.conversationId row = Conversation.id conversation).
Proof.
  intros Hwf created resolve. subst resolve. unfold resolveConversation.
  split; [|split; [|split]]; cycle 3.
  { intros gse processedHtml cleanedUpText fileSlugs conversation staffUser w2.
    destruct (createMessageAndProcessAttachments_messages caps gse parsedEmail
                parsedEmailFrom processedHtml cleanedUpText fileSlugs
                gmailMessageId gmailThreadId conversation staffUser w2)
      as (v & Hid & Hconv & Hrows & _).
    eexists. split; [exact Hrows|]. split; [exact Hid | exact Hconv]. }
  - intros ->. unfold isNewThread. rewrite String.eqb_refl.
    split; [reflexivity|].
    intros c Hin. now apply fresh_conversation_id.
  - intros Hneq [m0 [Hin0 Ht0]].
    apply String.eqb_neq in Hneq. unfold isNewThread. rewrite Hneq.
    rewrite bind_gets. unfold findPreviousEmail.
    destruct (latest _) as [m|] eqn:El.
    + pose proof (latest_In _ _ El) as Hin.
      apply In_thread_filter in Hin as [Hin Ht].
      exists m. split; [exact Hin|]. split; [exact Ht|]. split; [|split].
      * intros m' Hin' Ht'. apply (latest_most_recent _ _ El).
        apply In_thread_filter. auto.
      * intros c Hc. rewrite Hc. reflexivity.
      * intros Hc. rewrite Hc. reflexivity.
    + apply latest_None in El.
      assert (Hin : In m0 (filter (fun m => optString_eqb
                                     (ConversationMessage.gmailThreadId m)
                                     gmailThreadId) (conversationMessages w))).
      { apply In_thread_filter. auto. }
      rewrite El in Hin. destruct Hin.
  - intros Hneq Hnone.
    apply String.eqb_neq in Hneq. unfold isNewThread.
    rewrite Hneq, String.eqb_refl. rewrite bind_gets. unfold findPreviousEmail.
    destruct (latest _) as [m|] eqn:El.
    + apply latest_In, In_thread_filter in El as [Hin Ht].
      now elim (Hnone m Hin).
    + split; reflexivity.
Qed.

Lemma resolveConversation_threading_witness :
  resolveConversation Demo.caps Demo.mailbox (Demo.mail "Can you help?")
    Demo.customer false "m2" "t1" Demo.threadWorld
  = (Ok Demo.closedConversation, Demo.threadWorld) /\
  fst (resolveConversation Demo.caps Demo.mailbox (Demo.mail "Can you help?")
         Demo.customer false "t1" "t1" Demo.threadWorld)
  = Ok (newConversationRow Demo.caps Demo.mailbox (Demo.mail "Can you help?")
          Demo.customer false 2 1000).
Proof.
  assert (Hwf : conversationIdsBelow Demo.threadWorld).
  { unfold conversationIdsBelow. simpl. repeat constructor. }
  destruct (resolveConversation_threading Demo.caps Demo.mailbox
              (Demo.mail "Can you help?") Demo.customer false "m2" "t1"
              Demo.threadWorld Hwf) as (_ & Hfollow & _ & _).
  destruct (resolveConversation_threading Demo.caps Demo.mailbox
              (Demo.mail "Can you help?") Demo.customer false "t1" "t1"
              Demo.threadWorld Hwf) as (Hfirst & _ & _ & _).
  split.
  - destruct Hfollow as (m & Hin & _ & _ & Hadopt & _).
    + discriminate.
    + exists Demo.firstMessage. split; [left; reflexivity | reflexivity].
    + destruct Hin as [<- | []]. apply Hadopt. reflexivity.
  - destruct (Hfirst eq_refl) as [-> _]. reflexivity.
Defined.

(** ** The message loop, step by step *)

Lemma bind_Ok_inv {A B} (m : M A) (k : A -> M B) w b w' :
  bind m k w = (Ok b, w') ->
  exists a w1, m w = (Ok a, w1) /\ k a w1 = (Ok b, w').
Proof.
  unfold bind. destruct (m w) as [[a|e] w1]; intros H; [|discriminate].
  now exists a, w1.
Qed.

Lemma addsAtMostOne_preserves {A} id (m : M A) :
  preserves conversationMessages m -> addsAtMostOne id m.
Proof. intros H w. left. apply H. Qed.

Lemma addsAtMostOne_bind_l {A B} id (m : M A) (k : A -> M B) :
  addsAtMostOne id m -> (forall a, preserves conversationMessages (k a)) ->
  addsAtMostOne id (bind m k).
Proof.
  intros Hm Hk w. unfold bind. specialize (Hm w).
  destruct (m w) as [[a|e] w1]; simpl in *; [rewrite !Hk|]; exact Hm.
Qed.

Lemma addsAtMostOne_bind_r {A B} id (m : M A) (k : A -> M B) :
  preserves conversationMessages m -> (forall a, addsAtMostOne id (k a)) ->
  addsAtMostOne id (bind m k).
Proof.
  intros Hm Hk w. unfold bind. specialize (Hm w).
  destruct (m w) as [[a|e] w1]; simpl in *.
  - specialize (Hk a w1). rewrite Hm in Hk. exact Hk.
  - left. exact Hm.
Qed.

Lemma addsAtMostOne_tryCatch {A} id (m : M A) (h : JsError.t -> M A) :
  addsAtMostOne id m -> (forall e, preserves conversationMessages (h e)) ->
  addsAtMostOne id (tryCatch m h).
Proof.
  intros Hm Hk w. unfold tryCatch. specialize (Hm w).
  destruct (m w) as [[a|e] w1]; simpl in *; [|rewrite !Hk]; exact Hm.
Qed.

Lemma createMessageAndProcessAttachments_addsOne caps gse parsedEmail
    parsedEmailFrom processedHtml cleanedUpText fileSlugs gmailMessageId
    gmailThreadId conversation staffUser :
  addsAtMostOne gmailMessageId
    (createMessageAndProcessAttachments caps gse parsedEmail parsedEmailFrom
       processedHtml cleanedUpText fileSlugs gmailMessageId gmailThreadId
       conversation staffUser).
Proof.
  intros w. right.
  destruct (createMessageAndProcessAttachments_messages caps gse parsedEmail
              parsedEmailFrom processedHtml cleanedUpText fileSlugs
              gmailMessageId gmailThreadId conversation staffUser w)
    as (v & Hid & _ & Hm & _).
  eexists. split; [exact Hm | exact Hid].
Qed.

Lemma afterPersist_messages mailbox conversation newEmail shouldIgnore entry :
  preserves conversationMessages
    (afterPersist mailbox conversation newEmail shouldIgnore entry).
Proof. unfold afterPersist. frames. Qed.

(** The shape of [ingestParsedEmail] for a message not sent from the
    mailbox. *)
Lemma ingestParsedEmail_unfold caps gse mailbox gmailMessageId gmailThreadId
    labelIds parsedEmail parsedEmailFrom parsedEmailBody :
  String.eqb (ParsedMailbox.address parsedEmailFrom) (GmailSupportEmail.email gse)
  = false ->
  let images := extractAndUploadInlineImages caps parsedEmailBody in
  let cleanedUpText :=
    cleanedUpTextOf caps gmailMessageId gmailThreadId (fst images) in
  let staffUser :=
    getBasicProfileByEmail caps (ParsedMailbox.address parsedEmailFrom) in
  ingestParsedEmail caps gse mailbox gmailMessageId gmailThreadId labelIds
    parsedEmail parsedEmailFrom parsedEmailBody
  = (insertInlineFiles (snd images) ;;;
     decision <- decideShouldIgnore caps mailbox staffUser
                   (isNewThread gmailMessageId gmailThreadId) labelIds
                   parsedEmailFrom cleanedUpText ;;
     conversation <- resolveConversation caps mailbox parsedEmail
                       parsedEmailFrom (fst decision) gmailMessageId
                       gmailThreadId ;;
     newEmail <- createMessageAndProcessAttachments caps gse parsedEmail
                   parsedEmailFrom (fst images) cleanedUpText (slugsOf (snd images))
                   gmailMessageId gmailThreadId conversation staffUser ;;
     afterPersist mailbox conversation newEmail (fst decision)
       (createdMessage newEmail conversation (fst decision) (snd decision)
          gmailMessageId gmailThreadId))%monad.
Proof.
  intros Hneq. unfold ingestParsedEmail. rewrite Hneq. reflexivity.
Qed.

Lemma ingestParsedEmail_addsOne caps gse mailbox gmailMessageId gmailThreadId
    labelIds parsedEmail parsedEmailFrom parsedEmailBody :
  addsAtMostOne gmailMessageId
    (ingestParsedEmail caps gse mailbox gmailMessageId gmailThreadId labelIds
       parsedEmail parsedEmailFrom parsedEmailBody).
Proof.
  destruct (String.eqb (ParsedMailbox.address parsedEmailFrom)
                       (GmailSupportEmail.email gse)) eqn:Hfrom.
  - unfold ingestParsedEmail. rewrite Hfrom.
    apply addsAtMostOne_preserves. frames.
  - rewrite ingestParsedEmail_unfold by assumption. cbv zeta.
    apply addsAtMostOne_bind_r; [frames | intros _].
    apply addsAtMostOne_bind_r; [frames | intros decision].
    apply addsAtMostOne_bind_r; [frames | intros conversation].
    apply addsAtMostOne_bind_l;
      [apply createMessageAndProcessAttachments_addsOne | intros newEmail].
    apply afterPersist_messages.
Qed.

Lemma ingestMessage_addsOne caps gse mailbox gmailMessageId gmailThreadId
    labelIds :
  addsAtMostOne gmailMessageId
    (ingestMessage caps gse mailbox gmailMessageId gmailThreadId labelIds).
Proof.
  unfold ingestMessage.
  apply addsAtMostOne_bind_r; [frames | intros parsed].
  apply ingestParsedEmail_addsOne.
Qed.

Lemma ingestParsedEmail_created_inv caps gse mailbox gmailMessageId
    gmailThreadId labelIds parsedEmail parsedEmailFrom parsedEmailBody
    w entry w' mid :
  ingestParsedEmail caps gse mailbox gmailMessageId gmailThreadId labelIds
    parsedEmail parsedEmailFrom parsedEmailBody w = (Ok entry, w') ->
  ResultEntry.messageId entry = Some mid ->
  let images := extractAndUploadInlineImages caps parsedEmailBody in
  let cleanedUpText :=
    cleanedUpTextOf caps gmailMessageId gmailThreadId (fst images) in
  let staffUser :=
    getBasicProfileByEmail caps (ParsedMailbox.address parsedEmailFrom) in
  exists decision conversation newEmail w1 w2 w3,
    decideShouldIgnore caps mailbox staffUser
      (isNewThread gmailMessageId gmailThreadId) labelIds parsedEmailFrom
      cleanedUpText (snd (insertInlineFiles (snd images) w))
    = (Ok decision, w1) /\
    resolveConversation caps mailbox parsedEmail parsedEmailFrom (fst decision)
      gmailMessageId gmailThreadId w1 = (Ok conversation, w2) /\
    createMessageAndProcessAttachments caps gse parsedEmail parsedEmailFrom
      (fst images) cleanedUpText (slugsOf (snd images)) gmailMessageId
      gmailThreadId
      conversation staffUser w2 = (Ok newEmail, w3) /\
    afterPersist mailbox conversation newEmail (fst decision) entry w3
    = (Ok entry, w') /\
    entry = createdMessage newEmail conversation (fst decision) (snd decision)
              gmailMessageId gmailThreadId /\
    mid = ConversationMessage.id newEmail.
Proof.
  intros Hrun Hmid.
  destruct (String.eqb (ParsedMailbox.address parsedEmailFrom)
                       (GmailSupportEmail.email gse)) eqn:Hfrom.
  - unfold ingestParsedEmail in Hrun. rewrite Hfrom in Hrun.
    injection Hrun as <- _. discriminate Hmid.
  - rewrite ingestParsedEmail_unfold in Hrun by assumption. cbv zeta in Hrun.
    unfold insertInlineFiles at 1 in Hrun. rewrite bind_modify in Hrun.
    apply bind_Ok_inv in Hrun as (decision & w1 & Hd & Hrun).
    apply bind_Ok_inv in Hrun as (conversation & w2 & Hr & Hrun).
    apply bind_Ok_inv in Hrun as (newEmail & w3 & Hc & Hrun).
    assert (He : entry = createdMessage newEmail conversation (fst decision)
                           (snd decision) gmailMessageId gmailThreadId).
    { unfold afterPersist in Hrun.
      apply bind_Ok_inv in Hrun as (u1 & w4 & _ & Hrun).
      apply bind_Ok_inv in Hrun as (u2 & w5 & _ & Hrun).
      now injection Hrun as <- _. }
    subst entry.
    exists decision, conversation, newEmail, w1, w2, w3.
    simpl in Hmid.
    split; [exact Hd|]. split; [exact Hr|]. split; [exact Hc|].
    split; [exact Hrun|]. split; [reflexivity | congruence].
Qed.

(** *** The ignore decision *)

Lemma isThankYouOrAutoResponse_run caps mailbox emailContent w :
  isThankYouOrAutoResponse caps mailbox emailContent w
  = match runAIQuery caps mailbox emailContent with
    | Ok content =>
        (Ok (String.eqb (JsString.trim (JsString.toLowerCase content)) "yes"), w)
    | Throw error => (Ok false, with_captured (captured w ++ [error]) w)
    end.
Proof.
  unfold isThankYouOrAutoResponse, tryCatch, bind, lift.
  destruct (runAIQuery caps mailbox emailContent); reflexivity.
Qed.

Lemma decideShouldIgnore_fst caps mailbox staffUser isFirstMessage labelIds
    parsedEmailFrom cleanedUpText w :
  fst (decideShouldIgnore caps mailbox staffUser isFirstMessage labelIds
         parsedEmailFrom cleanedUpText w)
  = Ok (ignoreDecision caps mailbox staffUser isFirstMessage labelIds
          parsedEmailFrom cleanedUpText).
Proof.
  unfold decideShouldIgnore, ignoreDecision.
  destruct (ignoredByRule caps staffUser isFirstMessage labelIds parsedEmailFrom);
    simpl; [reflexivity|].
  unfold bind. rewrite isThankYouOrAutoResponse_run.
  destruct (runAIQuery caps mailbox cleanedUpText); reflexivity.
Qed.

Lemma decideShouldIgnore_decision caps mailbox staffUser isFirstMessage labelIds
    parsedEmailFrom cleanedUpText w decision w1 :
  decideShouldIgnore caps mailbox staffUser isFirstMessage labelIds
    parsedEmailFrom cleanedUpText w = (Ok decision, w1) ->
  decision = ignoreDecision caps mailbox staffUser isFirstMessage labelIds
               parsedEmailFrom cleanedUpText.
Proof.
  intros H.
  pose proof (decideShouldIgnore_fst caps mailbox staffUser isFirstMessage
                labelIds parsedEmailFrom cleanedUpText w) as Hf.
  rewrite H in Hf. simpl in Hf. congruence.
Qed.

(** *** Resolution reads the two tables, the sequence and the clock *)

Lemma resolveConversation_fst_cong caps mailbox parsedEmail parsedEmailFrom
    shouldIgnore gmailMessageId gmailThreadId w w1 :
  conversations w1 = conversations w ->
  conversationMessages w1 = conversationMessages w ->
  nextConversationId w1 = nextConversationId w ->
  now w1 = now w ->
  fst (resolveConversation caps mailbox parsedEmail parsedEmailFrom shouldIgnore
         gmailMessageId gmailThreadId w1)
  = fst (resolveConversation caps mailbox parsedEmail parsedEmailFrom
           shouldIgnore gmailMessageId gmailThreadId w).
Proof.
  intros Hc Hm Hn Ht. unfold resolveConversation.
  destruct (isNewThread gmailMessageId gmailThreadId).
  - rewrite !createNewConversation_run. simpl. now rewrite Hn, Ht.
  - rewrite !bind_gets. unfold findPreviousEmail, findConversation.
    rewrite Hc, Hm.
    destruct (latest _) as [m|]; [destruct (find _ _)|];
      rewrite ?createNewConversation_run; simpl; now rewrite ?Hn, ?Ht.
Qed.

(** The resolved conversation is the stored row of its id. *)
Lemma resolveConversation_stored caps mailbox parsedEmail parsedEmailFrom
    shouldIgnore gmailMessageId gmailThreadId w conversation w2 :
  conversationIdsBelow w ->
  resolveConversation caps mailbox parsedEmail parsedEmailFrom shouldIgnore
    gmailMessageId gmailThreadId w = (Ok conversation, w2) ->
  findConversation (Conversation.id conversation) w2 = Some conversation.
Proof.
  intros Hwf Hres.
  assert (Hnew : forall c w',
    createNewConversation caps mailbox parsedEmail parsedEmailFrom shouldIgnore w
    = (Ok c, w') -> findConversation (Conversation.id c) w' = Some c).
  { intros c w' H. rewrite createNewConversation_run in H.
    injection H as <- <-. unfold findConversation, withNewConversation. simpl.
    pose proof (fresh_conversation_id w Hwf) as Hfresh.
    induction (conversations w) as [|r rows IH]; simpl.
    - now rewrite Z.eqb_refl.
    - destruct (Z.eqb_spec (Conversation.id r) (nextConversationId w)) as [E|E].
      + now elim (Hfresh r (or_introl eq_refl)).
      + apply IH. intros c Hin. apply Hfresh. now right. }
  unfold resolveConversation in Hres.
  destruct (isNewThread gmailMessageId gmailThreadId); [now apply Hnew|].
  rewrite bind_gets in Hres. unfold findPreviousEmail in Hres.
  destruct (latest _) as [m|]; [|now apply Hnew].
  destruct (findConversation (ConversationMessage.conversationId m) w)
    as [c|] eqn:Hfind; [|now apply Hnew].
  injection Hres as <- <-.
  destruct (findConversation_id _ _ _ Hfind) as [Hid _].
  rewrite Hid. exact Hfind.
Qed.
(** ** Authorization of a delivery *)

Lemma authorizeGmailRequest_frame {X} (p : World -> X) caps body headers :
  (forall x w, p (with_captured x w) = p w) ->
  preserves p (authorizeGmailRequest caps body headers).
Proof.
  intros H. unfold authorizeGmailRequest.
  apply preserves_bind; [|intros _; apply preserves_lift].
  apply preserves_tryCatch.
  - apply preserves_bind.
    + destruct (nth_error _ 1); [apply preserves_ret | apply preserves_throw].
    + intros idToken. apply preserves_bind; [apply preserves_lift|].
      intros claim. cbv zeta.
      destruct (negb _ || negb _); [apply preserves_throw | apply preserves_ret].
  - intros e. apply preserves_bind; [|intros _; apply preserves_throw].
    now apply captureExceptionAndLog_frame.
Qed.

#[local] Hint Extern 1 (preserves _ (authorizeGmailRequest _ _ _)) =>
  apply authorizeGmailRequest_frame; intros; reflexivity : frames.

(** The token check of [authorizeGmailRequest]: the [try] block. *)
Lemma authorizeGmailRequest_cases caps body headers w :
  (exists cause,
     authorizeGmailRequest caps body headers w
     = (Throw (NonRetriableError caps "Invalid token"),
        with_captured (captured w ++ [cause]) w)) \/
  authorizeGmailRequest caps body headers w
  = (parseGmailWebhookData caps
       (PubsubMessage.data (GmailWebhookBody.message body)), w).
Proof.
  unfold authorizeGmailRequest, tryCatch, bind, lift, throw, ret,
    captureExceptionAndLog, modify.
  destruct (nth_error _ 1) as [idToken|]; [|left; eexists; reflexivity].
  destruct (verifyIdToken caps idToken) as [claim|e];
    [|left; eexists; reflexivity].
  cbv zeta. destruct (negb _ || negb _); [left; eexists; reflexivity|].
  right. destruct (parseGmailWebhookData caps _); reflexivity.
Qed.

(** A delivery that is authorized has written nothing by then. *)
Lemma authorizeGmailRequest_Ok caps body headers w data :
  fst (authorizeGmailRequest caps body headers w) = Ok data ->
  authorizeGmailRequest caps body headers w = (Ok data, w).
Proof.
  destruct (authorizeGmailRequest_cases caps body headers w) as [[c ->] | ->];
    simpl; [discriminate | now intros ->].
Qed.

Lemma handleGmailWebhookEvent_authorized caps request w body headers data :
  parseGmailWebhookBody caps (WebhookRequest.body request) = Ok body ->
  parseGmailWebhookHeaders caps
    (normalizeHeaders (WebhookRequest.headers request)) = Ok headers ->
  fst (authorizeGmailRequest caps body headers w) = Ok data ->
  handleGmailWebhookEvent caps request w = processDelivery caps data w.
Proof.
  intros Hbody Hheaders Hauth. unfold handleGmailWebhookEvent. cbv zeta.
  rewrite Hbody, bind_lift_Ok, Hheaders, bind_lift_Ok.
  now rewrite (bind_run _ _ _ _ _ (authorizeGmailRequest_Ok _ _ _ _ _ Hauth)).
Qed.

(** What holds of the authorized delivery and is not touched by the
    exception log holds of the handler. *)
Lemma handleGmailWebhookEvent_maintains (I : World -> Prop) caps request :
  (forall x w, I w -> I (with_captured x w)) ->
  (forall data, maintains I (processDelivery caps data)) ->
  maintains I (handleGmailWebhookEvent caps request).
Proof.
  intros Hlog Hrest w HI. unfold handleGmailWebhookEvent. cbv zeta.
  unfold bind at 1, lift at 1.
  destruct (parseGmailWebhookBody caps _) as [body|e]; [|exact HI].
  unfold bind at 1, lift at 1.
  destruct (parseGmailWebhookHeaders caps _) as [headers|e]; [|exact HI].
  unfold bind at 1.
  destruct (authorizeGmailRequest_cases caps body headers w) as [[c ->] | ->].
  - simpl. now apply Hlog.
  - destruct (parseGmailWebhookData caps _) as [data|e]; [|exact HI].
    now apply Hrest.
Qed.

(** ** Events of a created message *)

Arguments payloadsOf : simpl never.

Lemma In_payloadsOf j event data sleep :
  In j (payloadsOf event data sleep) ->
  Job.event j = event /\ Job.data j = data /\ Job.sleepSeconds j = sleep.
Proof.
  unfold payloadsOf. rewrite in_map_iff.
  intros [job [<- _]]. simpl. auto.
Qed.

Lemma jobsOf_nonempty event : jobsOf event <> [].
Proof. destruct event; discriminate. Qed.

Lemma triggered_payloadsOf event data sleep :
  triggered event (payloadsOf event data sleep).
Proof.
  unfold triggered, payloadsOf.
  destruct (jobsOf event) as [|job rest] eqn:E.
  - now apply jobsOf_nonempty in E.
  - eexists; split; [left; reflexivity | reflexivity].
Qed.

Lemma triggered_app event a b :
  triggered event (a ++ b) <-> triggered event a \/ triggered event b.
Proof.
  unfold triggered. split.
  - intros [j [Hin He]]. apply in_app_or in Hin as [H|H]; eauto.
  - intros [[j [Hin He]]|[j [Hin He]]]; exists j; split; auto using in_or_app.
Qed.

Lemma triggered_nil event : ~ triggered event [].
Proof. intros [j [[] _]]. Qed.

Lemma MessageStatus_eqb_eq a b : MessageStatus_eqb a b = true <-> a = b.
Proof. destruct a, b; simpl; split; congruence. Qed.

Lemma statusIs_eq o s : statusIs o s = true <-> o = Some s.
Proof.
  destruct o as [x|]; simpl.
  - rewrite MessageStatus_eqb_eq. split; congruence.
  - split; discriminate.
Qed.

Lemma sleepSeconds_passed (s : Z) : (if s =? 0 then 0 else s) = s.
Proof. destruct (Z.eqb_spec s 0); congruence. Qed.

(** The queue records of a created message, by their event name. *)
Lemma In_payloadsOfEvents caps message j :
  In j (payloadsOfEvents caps message) ->
  (Job.event j = conversations_message_created /\
   ConversationMessage.status message <> Some draft /\
   Job.data j = MessageCreated (ConversationMessage.id message)
                  (ConversationMessage.conversationId message) /\
   Job.sleepSeconds j = 0)
  \/ (Job.event j = conversations_send_follower_notification /\
      ConversationMessage.status message <> Some draft)
  \/ (Job.event j = conversations_email_enqueued /\
      ConversationMessage.status message = Some queueing /\
      Job.data j = EmailEnqueued (ConversationMessage.id message) /\
      Job.sleepSeconds j = EMAIL_UNDO_COUNTDOWN_SECONDS caps).
Proof.
  unfold payloadsOfEvents, eventsToSend.
  rewrite flat_map_app, in_app_iff.
  intros [H|H].
  - destruct (statusIs (ConversationMessage.status message) draft) eqn:Hd;
      cbn [negb flat_map] in H; [destruct H|].
    assert (Hnd : ConversationMessage.status message <> Some draft).
    { intros E. apply statusIs_eq in E. congruence. }
    apply in_app_or in H as [H|H].
    + left. apply In_payloadsOf in H as (He & Hdata & Hs). auto.
    + right; left. split; [|exact Hnd].
      destruct (ConversationMessage.userId message) as [u|];
        [|destruct H].
      destruct (JsString.truthy u &&
                (MessageRole_eqb (ConversationMessage.role message) user
                 || MessageRole_eqb (ConversationMessage.role message) staff));
        cbn [flat_map] in H; [|destruct H].
      rewrite app_nil_r in H. now apply In_payloadsOf in H as (He & _).
  - destruct (statusIs (ConversationMessage.status message) queueing) eqn:Hq;
      cbn [flat_map] in H; [|destruct H].
    rewrite app_nil_r in H. apply statusIs_eq in Hq.
    apply In_payloadsOf in H as (He & Hdata & Hs). cbn in He, Hdata, Hs.
    rewrite sleepSeconds_passed in Hs. right; right. auto.
Qed.

Lemma message_created_triggered caps message :
  ConversationMessage.status message <> Some draft ->
  triggered conversations_message_created (payloadsOfEvents caps message).
Proof.
  intros Hnd. unfold payloadsOfEvents, eventsToSend.
  destruct (statusIs (ConversationMessage.status message) draft) eqn:Hd.
  - apply statusIs_eq in Hd. contradiction.
  - cbn [negb]. rewrite flat_map_app. apply triggered_app. left.
    cbn [flat_map]. apply triggered_app. left. apply triggered_payloadsOf.
Qed.

Lemma email_enqueued_triggered caps message :
  ConversationMessage.status message = Some queueing ->
  triggered conversations_email_enqueued (payloadsOfEvents caps message).
Proof.
  intros Hq. unfold payloadsOfEvents, eventsToSend.
  rewrite flat_map_app. apply triggered_app. right.
  apply statusIs_eq in Hq. rewrite Hq. cbn [flat_map].
  apply triggered_app. left. apply triggered_payloadsOf.
Qed.

(** C10.  A message created through [createConversationMessage] is
    returned with the status it was given; what the call adds to the job
    queue contains [conversations/message.created] records exactly when
    that status is not draft, each carrying the message and conversation
    ids, and [conversations/email.enqueued] records exactly when the status
    is queueing, each carrying the message id and delayed by
    [EMAIL_UNDO_COUNTDOWN_SECONDS]. *)
Theorem createConversationMessage_events caps v w :
  exists message sent,
    fst (createConversationMessage caps v w) = Ok message /\
    ConversationMessage.status message = NewConversationMessage.status v /\
    jobs (snd (createConversationMessage caps v w)) = (jobs w ++ sent)%list /\
    (triggered conversations_message_created sent
     <-> ConversationMessage.status message <> Some draft) /\
    (forall j, In j sent -> Job.event j = conversations_message_created ->
       Job.data j = MessageCreated (ConversationMessage.id message)
                      (ConversationMessage.conversationId message)) /\
    (triggered conversations_email_enqueued sent
     <-> ConversationMessage.status message = Some queueing) /\
    (forall j, In j sent -> Job.event j = conversations_email_enqueued ->
       Job.data j = EmailEnqueued (ConversationMessage.id message) /\
       Job.sleepSeconds j = EMAIL_UNDO_COUNTDOWN_SECONDS caps).
Proof.
  exists (messageRow (nextMessageId w) (now w) v).
  exists (payloadsOfEvents caps (messageRow (nextMessageId w) (now w) v)).
  split; [apply createConversationMessage_Ok|].
  split; [reflexivity|].
  split; [apply createConversationMessage_jobs|].
  repeat split.
  - intros [j [Hin He]].
    apply In_payloadsOfEvents in Hin as [H|[H|H]];
      [tauto | destruct H; congruence | destruct H; congruence].
  - apply message_created_triggered.
  - intros j Hin He.
    apply In_payloadsOfEvents in Hin as [H|[H|H]];
      [tauto | destruct H; congruence | destruct H; congruence].
  - intros [j [Hin He]].
    apply In_payloadsOfEvents in Hin as [H|[H|H]];
      [destruct H; congruence | destruct H; congruence | tauto].
  - apply email_enqueued_triggered.
  - apply In_payloadsOfEvents in H as [H|[H|H]];
      [destruct H; congruence | destruct H; congruence | tauto].
  - apply In_payloadsOfEvents in H as [H|[H|H]];
      [destruct H; congruence | destruct H; congruence | tauto].
Qed.

(** An AI draft triggers no [conversations/message.created]. *)
Lemma createAiDraft_no_message_created caps conversationId sanitizedBody body
    responseToId w j :
  In j (jobs (snd (createAiDraft caps conversationId sanitizedBody body
                     responseToId w))) ->
  Job.event j = conversations_message_created ->
  In j (jobs w).
Proof.
  unfold createAiDraft. destruct (responseToId =? 0); [auto|].
  rewrite createConversationMessage_jobs. intros Hin He.
  apply in_app_or in Hin as [H|H]; [exact H|].
  apply In_payloadsOfEvents in H as [H|[H|H]].
  - destruct H as (_ & Hnd & _). now elim Hnd.
  - destruct H; congruence.
  - destruct H; congruence.
Qed.

(** ** Deduplication *)

Lemma truthy_nonempty s : s <> "" -> JsString.truthy s = true.
Proof.
  intros H. unfold JsString.truthy. apply String.eqb_neq in H. now rewrite H.
Qed.

Lemma processAddedMessage_unfold caps gse mailbox added gmailMessageId
    gmailThreadId :
  refersTo added gmailMessageId gmailThreadId ->
  exists labelIds,
    processAddedMessage caps gse mailbox added
    = (existingEmail <- gets (findByGmailMessageId gmailMessageId) ;;
       if isSome existingEmail then
         ret (skippedAlreadyExists gmailMessageId gmailThreadId)
       else
         tryCatch
           (ingestMessage caps gse mailbox gmailMessageId gmailThreadId labelIds)
           (fun error =>
              captureExceptionAndThrowIfDevelopment caps error ;;;
              ret (errorProcessing gmailMessageId gmailThreadId error)))%monad.
Proof.
  intros (labels & -> & Hid & Hthread).
  exists (orKeep labels []). unfold processAddedMessage. simpl.
  now rewrite !truthy_nonempty by assumption.
Qed.

Lemma findByGmailMessageId_persisted gmailMessageId w :
  isSome (findByGmailMessageId gmailMessageId w) = true
  <-> (0 < persistedCount gmailMessageId w)%nat.
Proof.
  unfold findByGmailMessageId, persistedCount.
  induction (conversationMessages w) as [|m rows IH]; simpl.
  - split; [discriminate | lia].
  - destruct (optString_eqb (ConversationMessage.gmailMessageId m) gmailMessageId);
      simpl; [split; [lia | reflexivity] | exact IH].
Qed.

Lemma findByGmailMessageId_none gmailMessageId w :
  persistedCount gmailMessageId w = 0%nat ->
  isSome (findByGmailMessageId gmailMessageId w) = false.
Proof.
  intros H. destruct (isSome _) eqn:E; [|reflexivity].
  apply findByGmailMessageId_persisted in E. lia.
Qed.

Lemma persistedCount_app gmailMessageId w w' row :
  conversationMessages w' = (conversationMessages w ++ [row])%list ->
  ConversationMessage.gmailMessageId row = Some gmailMessageId ->
  persistedCount gmailMessageId w' = S (persistedCount gmailMessageId w).
Proof.
  intros Hm Hrow. unfold persistedCount. rewrite Hm, filter_app, length_app.
  simpl. apply optString_eqb_eq in Hrow. rewrite Hrow. simpl. lia.
Qed.

Lemma persistedCount_same gmailMessageId w w' :
  conversationMessages w' = conversationMessages w ->
  persistedCount gmailMessageId w' = persistedCount gmailMessageId w.
Proof. intros Hm. unfold persistedCount. now rewrite Hm. Qed.

(** A message already persisted is skipped, and the world stays as it is. *)
Lemma processAddedMessage_skips caps gse mailbox added gmailMessageId
    gmailThreadId w :
  refersTo added gmailMessageId gmailThreadId ->
  (0 < persistedCount gmailMessageId w)%nat ->
  processAddedMessage caps gse mailbox added w
  = (Ok (skippedAlreadyExists gmailMessageId gmailThreadId), w).
Proof.
  intros Href Hcount.
  destruct (processAddedMessage_unfold caps gse mailbox _ _ _ Href) as [l ->].
  rewrite bind_gets.
  apply findByGmailMessageId_persisted in Hcount. now rewrite Hcount.
Qed.

Lemma processAddedMessage_addsOne caps gse mailbox added gmailMessageId
    gmailThreadId :
  refersTo added gmailMessageId gmailThreadId ->
  addsAtMostOne gmailMessageId (processAddedMessage caps gse mailbox added).
Proof.
  intros Href.
  destruct (processAddedMessage_unfold caps gse mailbox _ _ _ Href) as [l ->].
  apply addsAtMostOne_bind_r; [frames | intros existing].
  destruct (isSome existing).
  - apply addsAtMostOne_preserves. frames.
  - apply addsAtMostOne_tryCatch; [apply ingestMessage_addsOne | intros e].
    frames.
Qed.

Lemma processAddedMessage_count caps gse mailbox added gmailMessageId
    gmailThreadId w :
  refersTo added gmailMessageId gmailThreadId ->
  (persistedCount gmailMessageId (snd (processAddedMessage caps gse mailbox added w))
   <= S (persistedCount gmailMessageId w))%nat.
Proof.
  intros Href.
  destruct (processAddedMessage_addsOne caps gse mailbox _ _ _ Href w)
    as [Hsame | (row & Happ & Hrow)].
  - rewrite (persistedCount_same _ _ _ Hsame). lia.
  - rewrite (persistedCount_app _ _ _ _ Happ Hrow). lia.
Qed.

(** An entry that names a created message means the message was persisted
    under the external id. *)
Lemma processAddedMessage_created caps gse mailbox added gmailMessageId
    gmailThreadId w entry mid :
  refersTo added gmailMessageId gmailThreadId ->
  fst (processAddedMessage caps gse mailbox added w) = Ok entry ->
  ResultEntry.messageId entry = Some mid ->
  persistedCount gmailMessageId (snd (processAddedMessage caps gse mailbox added w))
  = S (persistedCount gmailMessageId w).
Proof.
  intros Href Hentry Hmid.
  destruct (processAddedMessage_unfold caps gse mailbox _ _ _ Href) as [l E].
  rewrite E in *. clear E. rewrite bind_gets in *.
  destruct (isSome (findByGmailMessageId gmailMessageId w)).
  { simpl in Hentry. injection Hentry as <-. discriminate Hmid. }
  unfold tryCatch in *.
  destruct (ingestMessage caps gse mailbox gmailMessageId gmailThreadId l w)
    as [[entry'|e] w1] eqn:Hing.
  - simpl in Hentry. injection Hentry as ->. simpl.
    unfold ingestMessage in Hing.
    apply bind_Ok_inv in Hing as (parsed & w0 & Hfetch & Hing).
    assert (Hw0 : conversationMessages w0 = conversationMessages w).
    { assert (Hp : preserves conversationMessages
                     (fetchParsedEmail caps gse gmailMessageId)) by frames.
      specialize (Hp w). now rewrite Hfetch in Hp. }
    destruct (ingestParsedEmail_created_inv _ _ _ _ _ _ _ _ _ _ _ _ _ Hing Hmid)
      as (decision & conversation & newEmail & w2 & w3 & w4 &
          Hd & Hr & Hc & Ha & _ & _).
    assert (H2 : conversationMessages w2 = conversationMessages w0).
    { match type of Hd with
      | ?m ?wi = _ =>
          assert (Hp : preserves conversationMessages m) by frames;
          specialize (Hp wi); rewrite Hd in Hp; exact Hp
      end. }
    assert (H3 : conversationMessages w3 = conversationMessages w2).
    { match type of Hr with
      | ?m ?wi = _ =>
          assert (Hp : preserves conversationMessages m) by frames;
          specialize (Hp wi); rewrite Hr in Hp; exact Hp
      end. }
    destruct (createMessageAndProcessAttachments_messages caps gse
                (fst parsed) (fst (snd parsed))
                (fst (extractAndUploadInlineImages caps (snd (snd parsed))))
                (cleanedUpTextOf caps gmailMessageId gmailThreadId
                   (fst (extractAndUploadInlineImages caps (snd (snd parsed)))))
                (slugsOf (snd (extractAndUploadInlineImages caps (snd (snd parsed)))))
                gmailMessageId gmailThreadId conversation
                (getBasicProfileByEmail caps
                   (ParsedMailbox.address (fst (snd parsed)))) w3)
      as (v & Hv & _ & Hm & _).
    rewrite Hc in Hm. simpl in Hm.
    pose proof (afterPersist_messages mailbox conversation newEmail
                  (fst decision) entry w4) as H5.
    rewrite Ha in H5. simpl in H5.
    apply (persistedCount_app gmailMessageId w w1
             (messageRow (nextMessageId w3) (now w3) v)).
    + rewrite H5, Hm, H3, H2, Hw0. reflexivity.
    + exact Hv.
  - unfold bind, captureExceptionAndThrowIfDevelopment in Hentry.
    destruct (developmentThrow caps); simpl in Hentry.
    + discriminate.
    + injection Hentry as <-. discriminate Hmid.
Qed.

(** The entry pushed for a message that is already stored. *)
Lemma skippedAlreadyExists_says gmailMessageId gmailThreadId :
  let skipped := skippedAlreadyExists gmailMessageId gmailThreadId in
  ResultEntry.message skipped
  = "Skipped - message " ++ gmailMessageId ++ " already exists" /\
  ResultEntry.gmailMessageId skipped = Some gmailMessageId /\
  ResultEntry.gmailThreadId skipped = Some gmailThreadId /\
  ResultEntry.messageId skipped = None /\
  ResultEntry.conversationSlug skipped = None /\
  ResultEntry.responded skipped = None /\
  ResultEntry.isAutomatedResponseOrThankYou skipped = None.
Proof. repeat split. Qed.

(** C1.  A history entry whose message id already has a persisted record
    creates nothing: the world stays as it is and the entry pushed to the
    results says "Skipped - message <id> already exists", carrying the
    Gmail ids of the message and nothing else.  Hence, starting with no
    record of the id, two deliveries of the entry leave at most one record;
    and when the first delivery reports the created message, they leave
    exactly one and the second reports the skip, whatever the provider and
    the classifier answer the second time. *)
Theorem ingestion_idempotent caps caps' gse mailbox added gmailMessageId
    gmailThreadId w :
  refersTo added gmailMessageId gmailThreadId ->
  ((0 < persistedCount gmailMessageId w)%nat ->
   exists skipped,
     processAddedMessage caps gse mailbox added w = (Ok skipped, w) /\
     ResultEntry.message skipped
     = "Skipped - message " ++ gmailMessageId ++ " already exists" /\
     ResultEntry.gmailMessageId skipped = Some gmailMessageId /\
     ResultEntry.gmailThreadId skipped = Some gmailThreadId /\
     ResultEntry.messageId skipped = None /\
     ResultEntry.conversationSlug skipped = None /\
     ResultEntry.responded skipped = None /\
     ResultEntry.isAutomatedResponseOrThankYou skipped = None) /\
  (persistedCount gmailMessageId w = 0%nat ->
   let first := processAddedMessage caps gse mailbox added w in
   let second := processAddedMessage caps' gse mailbox added (snd first) in
   (persistedCount gmailMessageId (snd second) <= 1)%nat /\
   forall entry mid,
     fst first = Ok entry -> ResultEntry.messageId entry = Some mid ->
     persistedCount gmailMessageId (snd first) = 1%nat /\
     (exists skipped,
        second = (Ok skipped, snd first) /\
        ResultEntry.message skipped
        = "Skipped - message " ++ gmailMessageId ++ " already exists" /\
        ResultEntry.gmailMessageId skipped = Some gmailMessageId /\
        ResultEntry.gmailThreadId skipped = Some gmailThreadId /\
        ResultEntry.messageId skipped = None /\
        ResultEntry.conversationSlug skipped = None /\
        ResultEntry.responded skipped = None /\
        ResultEntry.isAutomatedResponseOrThankYou skipped = None) /\
     persistedCount gmailMessageId (snd second) = 1%nat).
Proof.
  intros Href. split.
  - intros Hcount.
    exists (skippedAlreadyExists gmailMessageId gmailThreadId).
    split; [now apply processAddedMessage_skips|].
    apply skippedAlreadyExists_says.
  - intros Hzero first second. subst first second. split.
    + pose proof (processAddedMessage_count caps gse mailbox added _ _ w Href)
        as H1.
      destruct (persistedCount gmailMessageId
                  (snd (processAddedMessage caps gse mailbox added w)))
        as [|n] eqn:Hn.
      * pose proof (processAddedMessage_count caps' gse mailbox added _ _
                      (snd (processAddedMessage caps gse mailbox added w)) Href).
        lia.
      * rewrite (processAddedMessage_skips caps' gse mailbox added _ _ _ Href)
          by lia.
        simpl. lia.
    + intros entry mid Hentry Hmid.
      pose proof (processAddedMessage_created caps gse mailbox added _ _ w
                    entry mid Href Hentry Hmid) as Hone.
      rewrite Hzero in Hone.
      rewrite (processAddedMessage_skips caps' gse mailbox added _ _ _ Href)
        by lia.
      split; [exact Hone|]. split; [|exact Hone].
      exists (skippedAlreadyExists gmailMessageId gmailThreadId).
      split; [reflexivity|]. apply skippedAlreadyExists_says.
Qed.

Lemma ingestion_idempotent_witness :
  exists created skipped w1,
    processAddedMessage Demo.caps Demo.supportEmail Demo.mailbox
      (Demo.added "m1" "m1") Demo.emptyWorld = (Ok created, w1) /\
    ResultEntry.messageId created = Some 1 /\
    persistedCount "m1" w1 = 1%nat /\
    processAddedMessage (Demo.capabilities true) Demo.supportEmail Demo.mailbox
      (Demo.added "m1" "m1") w1 = (Ok skipped, w1) /\
    ResultEntry.message skipped = "Skipped - message m1 already exists" /\
    ResultEntry.gmailMessageId skipped = Some "m1" /\
    ResultEntry.gmailThreadId skipped = Some "m1" /\
    ResultEntry.messageId skipped = None.
Proof.
  assert (Href : refersTo (Demo.added "m1" "m1") "m1" "m1").
  { exists (Some ["INBOX"]). repeat split; discriminate. }
  destruct (ingestion_idempotent Demo.caps (Demo.capabilities true)
              Demo.supportEmail Demo.mailbox (Demo.added "m1" "m1") "m1" "m1"
              Demo.emptyWorld Href) as [_ Htwice].
  specialize (Htwice eq_refl). cbv zeta in Htwice.
  destruct Htwice as [_ Hcreated].
  destruct (processAddedMessage Demo.caps Demo.supportEmail Demo.mailbox
              (Demo.added "m1" "m1") Demo.emptyWorld) as [[created|e] w1] eqn:E;
    [|vm_compute in E; discriminate E].
  assert (Hmid : ResultEntry.messageId created = Some 1).
  { vm_compute in E. now injection E as <- _. }
  destruct (Hcreated created 1 eq_refl Hmid)
    as (Hone & (skipped & Hsecond & Hsays & Hid & Hthread & Hnone & _) & _).
  exists created, skipped, w1. cbn [snd] in *. auto 10.
Defined.

(** ** Reopening and the auto-response event *)

Lemma afterPersist_conversations mailbox conversation newEmail shouldIgnore
    entry w :
  conversations
    (snd (afterPersist mailbox conversation newEmail shouldIgnore entry w))
  = if shouldReopen mailbox conversation shouldIgnore
    then updateRows (Conversation.id conversation)
           {| ConversationUpdate.status := Some open;
              ConversationUpdate.assignedToId := None;
              ConversationUpdate.assignedToAI := None;
              ConversationUpdate.lastMessageAt := None;
              ConversationUpdate.lastUserEmailCreatedAt := None;
              ConversationUpdate.lastReadAt := None |}
           (now w) (conversations w)
    else conversations w.
Proof.
  unfold afterPersist.
  destruct (shouldReopen mailbox conversation shouldIgnore); simpl when.
  - rewrite bind_assoc.
    match goal with
    | |- context [bind (updateConversation ?i ?s ?b ?m ?k) _ ?w0] =>
        pose proof (updateConversation_conversations i s b m k w0) as Hc;
        destruct (updateConversation_Ok i s b m k w0) as [r Hr];
        destruct (updateConversation i s b m k w0) as [r' w1] eqn:E
    end.
    simpl in Hr, Hc. subst r'.
    rewrite (bind_run _ _ _ _ _ E).
    framed conversations; [frames | exact Hc].
  - rewrite bind_ret. framed conversations; [frames | reflexivity].
Qed.

Lemma afterPersist_jobs mailbox conversation newEmail shouldIgnore entry w :
  jobs (snd (afterPersist mailbox conversation newEmail shouldIgnore entry w))
  = (jobs w ++
     if negb shouldIgnore
     then payloadsOf conversations_auto_response_create
            (AutoResponseCreate (ConversationMessage.id newEmail)) 0
     else [])%list.
Proof.
  unfold afterPersist.
  match goal with
  | |- context [bind ?m _ w] =>
      assert (Hp : preserves jobs m) by frames;
      assert (Ho : exists w1, m w = (Ok tt, w1))
  end.
  { destruct (shouldReopen mailbox conversation shouldIgnore); simpl when;
      [|eexists; reflexivity].
    match goal with
    | |- context [bind (updateConversation ?i ?s ?b ?m ?k) _ ?w0] =>
        destruct (updateConversation_Ok i s b m k w0) as [r Hr];
        destruct (updateConversation i s b m k w0) as [r' w1] eqn:E
    end.
    simpl in Hr. subst r'. rewrite (bind_run _ _ _ _ _ E). eexists; reflexivity. }
  destruct Ho as [w1 Ho]. specialize (Hp w). rewrite Ho in Hp. simpl in Hp.
  rewrite (bind_run _ _ _ _ _ Ho).
  destruct shouldIgnore; simpl.
  - now rewrite app_nil_r.
  - now rewrite Hp.
Qed.

Lemma shouldReopen_true mailbox conversation shouldIgnore :
  shouldReopen mailbox conversation shouldIgnore = true
  <-> Conversation.status conversation = closed /\
      (Conversation.assignedToAI conversation = false \/
       Mailbox.autoRespond mailbox = Some draftMode) /\
      shouldIgnore = false.
Proof.
  unfold shouldReopen.
  rewrite !andb_true_iff, orb_true_iff, negb_true_iff, negb_true_iff,
    ConversationStatus_eqb_eq.
  destruct (Mailbox.autoRespond mailbox) as [[]|]; intuition congruence.
Qed.

(** C3.  When the entry of the results names the created message, and
    [shouldIgnore] is what lines 277-286 decide for it: if the resolved
    conversation is closed, and it is not AI-assigned or the mailbox's
    auto-respond mode is draft, and the message is not ignorable, the stored
    conversation ends open; if it is closed, AI-assigned, and the mode is
    reply, it ends closed. *)
Theorem reopen_rule caps gse mailbox gmailMessageId gmailThreadId labelIds
    parsedEmail parsedEmailFrom parsedEmailBody w entry w' mid
    shouldIgnore isAutomatedResponseOrThankYou :
  conversationIdsBelow w ->
  ingestParsedEmail caps gse mailbox gmailMessageId gmailThreadId labelIds
    parsedEmail parsedEmailFrom parsedEmailBody w = (Ok entry, w') ->
  ResultEntry.messageId entry = Some mid ->
  fst (decideShouldIgnore caps mailbox
         (getBasicProfileByEmail caps (ParsedMailbox.address parsedEmailFrom))
         (isNewThread gmailMessageId gmailThreadId) labelIds parsedEmailFrom
         (cleanedUpTextOf caps gmailMessageId gmailThreadId
            (fst (extractAndUploadInlineImages caps parsedEmailBody))) w)
  = Ok (shouldIgnore, isAutomatedResponseOrThankYou) ->
  exists conversation,
    fst (resolveConversation caps mailbox parsedEmail parsedEmailFrom
           shouldIgnore gmailMessageId gmailThreadId w) = Ok conversation /\
    (Conversation.status conversation = closed ->
     Conversation.assignedToAI conversation = false \/
     Mailbox.autoRespond mailbox = Some draftMode ->
     shouldIgnore = false ->
     exists stored,
       findConversation (Conversation.id conversation) w' = Some stored /\
       Conversation.status stored = open) /\
    (Conversation.status conversation = closed ->
     Conversation.assignedToAI conversation = true ->
     Mailbox.autoRespond mailbox = Some replyMode ->
     exists stored,
       findConversation (Conversation.id conversation) w' = Some stored /\
       Conversation.status stored = closed).
Proof.
  intros Hwf Hrun Hmid Hdecide.
  rewrite decideShouldIgnore_fst in Hdecide. injection Hdecide as Hdecide.
  destruct (ingestParsedEmail_created_inv _ _ _ _ _ _ _ _ _ _ _ _ _ Hrun Hmid)
    as (decision & conversation & newEmail & w1 & w2 & w3 &
        Hd & Hr & Hc & Ha & _ & _).
  pose proof (decideShouldIgnore_decision _ _ _ _ _ _ _ _ _ _ Hd) as Hdec.
  assert (Hig : fst decision = shouldIgnore) by (now rewrite Hdec, Hdecide).
  rewrite Hig in *. clear Hdec Hig.
  assert (Hframe : conversations w1 = conversations w /\
                   conversationMessages w1 = conversationMessages w /\
                   nextConversationId w1 = nextConversationId w /\
                   now w1 = now w).
  { match type of Hd with
    | ?m ?w0 = _ =>
        assert (P1 : preserves conversations m) by frames;
        assert (P2 : preserves conversationMessages m) by frames;
        assert (P3 : preserves nextConversationId m) by frames;
        assert (P4 : preserves now m) by frames;
        specialize (P1 w0); specialize (P2 w0);
        specialize (P3 w0); specialize (P4 w0)
    end.
    rewrite Hd in P1, P2, P3, P4. simpl in P1, P2, P3, P4. auto. }
  destruct Hframe as (F1 & F2 & F3 & F4).
  assert (Hwf1 : conversationIdsBelow w1).
  { unfold conversationIdsBelow in *. now rewrite F1, F3. }
  pose proof (resolveConversation_stored _ _ _ _ _ _ _ _ _ _ Hwf1 Hr) as Hstored.
  pose proof (createMessageAndProcessAttachments_statuses caps gse parsedEmail
                parsedEmailFrom
                (fst (extractAndUploadInlineImages caps parsedEmailBody))
                (cleanedUpTextOf caps gmailMessageId gmailThreadId
                   (fst (extractAndUploadInlineImages caps parsedEmailBody)))
                (slugsOf (snd (extractAndUploadInlineImages caps parsedEmailBody)))
                gmailMessageId gmailThreadId conversation
                (getBasicProfileByEmail caps
                   (ParsedMailbox.address parsedEmailFrom)) w2) as Hst.
  rewrite Hc in Hst. simpl in Hst.
  destruct (findConversation_statuses _ _ _ _ Hst Hstored)
    as (c3 & Hfind3 & Hstatus3).
  pose proof (afterPersist_conversations mailbox conversation newEmail
                shouldIgnore entry w3) as Hafter.
  rewrite Ha in Hafter. simpl in Hafter.
  exists conversation. split.
  - rewrite <- (resolveConversation_fst_cong _ _ _ _ _ _ _ w w1 F1 F2 F3 F4).
    now rewrite Hr.
  - split.
    + intros Hclosed Hassign Hnot.
      assert (Hre : shouldReopen mailbox conversation shouldIgnore = true)
        by (apply shouldReopen_true; auto).
      rewrite Hre in Hafter.
      unfold findConversation in *. rewrite Hafter, find_updateRows, Hfind3.
      simpl. destruct (findConversation_id _ w3 _ Hfind3) as [Hid _].
      rewrite Hid, Z.eqb_refl. eexists. split; reflexivity.
    + intros Hclosed Hai Hmode.
      assert (Hre : shouldReopen mailbox conversation shouldIgnore = false).
      { unfold shouldReopen. rewrite Hai, Hmode. simpl.
        now rewrite andb_false_r. }
      rewrite Hre in Hafter.
      unfold findConversation in *. rewrite Hafter, Hfind3.
      eexists. split; [reflexivity | congruence].
Qed.

Lemma threadWorld_ids : conversationIdsBelow Demo.threadWorld.
Proof.
  unfold conversationIdsBelow. simpl. repeat constructor.
Qed.

Lemma reopen_rule_witness :
  (exists stored,
     findConversation 1 (snd (Demo.followUp Demo.draftMailbox)) = Some stored /\
     Conversation.status stored = open) /\
  (exists stored,
     findConversation 1 (snd (Demo.followUp Demo.mailbox)) = Some stored /\
     Conversation.status stored = closed).
Proof.
  split.
  - destruct (reopen_rule Demo.caps Demo.supportEmail Demo.draftMailbox
                "m2" "t1" ["INBOX"] (Demo.mail "Can you help?") Demo.customer
                "Can you help?" Demo.threadWorld
                (Demo.entryOf (Demo.followUp Demo.draftMailbox))
                (snd (Demo.followUp Demo.draftMailbox)) 2 false (Some false)
                threadWorld_ids)
      as (conversation & Hres & Hopen & _);
      [vm_compute; reflexivity | vm_compute; reflexivity | reflexivity |].
    vm_compute in Hres. injection Hres as <-.
    apply Hopen; [reflexivity | right; reflexivity | reflexivity].
  - destruct (reopen_rule Demo.caps Demo.supportEmail Demo.mailbox
                "m2" "t1" ["INBOX"] (Demo.mail "Can you help?") Demo.customer
                "Can you help?" Demo.threadWorld
                (Demo.entryOf (Demo.followUp Demo.mailbox))
                (snd (Demo.followUp Demo.mailbox)) 2 false (Some false)
                threadWorld_ids)
      as (conversation & Hres & _ & Hclosed);
      [vm_compute; reflexivity | vm_compute; reflexivity | reflexivity |].
    vm_compute in Hres. injection Hres as <-.
    apply Hclosed; reflexivity.
Defined.

(** C5.  When the entry of the results names the created message, and
    [shouldIgnore] is what lines 277-286 decide for it, the entry's
    [responded] field is the negation of [shouldIgnore], and what the
    processing adds to the job queue contains
    [conversations/auto-response.create] records exactly when the message is
    not ignorable, each carrying the id of the created message. *)
Theorem auto_response_event caps gse mailbox gmailMessageId gmailThreadId
    labelIds parsedEmail parsedEmailFrom parsedEmailBody w entry w' mid
    shouldIgnore isAutomatedResponseOrThankYou :
  ingestParsedEmail caps gse mailbox gmailMessageId gmailThreadId labelIds
    parsedEmail parsedEmailFrom parsedEmailBody w = (Ok entry, w') ->
  ResultEntry.messageId entry = Some mid ->
  fst (decideShouldIgnore caps mailbox
         (getBasicProfileByEmail caps (ParsedMailbox.address parsedEmailFrom))
         (isNewThread gmailMessageId gmailThreadId) labelIds parsedEmailFrom
         (cleanedUpTextOf caps gmailMessageId gmailThreadId
            (fst (extractAndUploadInlineImages caps parsedEmailBody))) w)
  = Ok (shouldIgnore, isAutomatedResponseOrThankYou) ->
  ResultEntry.responded entry = Some (negb shouldIgnore) /\
  exists sent,
    jobs w' = (jobs w ++ sent)%list /\
    (triggered conversations_auto_response_create sent <-> shouldIgnore = false) /\
    (triggered conversations_auto_response_create sent
     <-> ResultEntry.responded entry = Some true) /\
    forall j, In j sent -> Job.event j = conversations_auto_response_create ->
      Job.data j = AutoResponseCreate mid /\ Job.sleepSeconds j = 0.
Proof.
  intros Hrun Hmid Hdecide.
  rewrite decideShouldIgnore_fst in Hdecide. injection Hdecide as Hdecide.
  destruct (ingestParsedEmail_created_inv _ _ _ _ _ _ _ _ _ _ _ _ _ Hrun Hmid)
    as (decision & conversation & newEmail & w1 & w2 & w3 &
        Hd & Hr & Hc & Ha & He & Hid).
  pose proof (decideShouldIgnore_decision _ _ _ _ _ _ _ _ _ _ Hd) as Hdec.
  assert (Hig : fst decision = shouldIgnore) by (now rewrite Hdec, Hdecide).
  rewrite Hig in *. clear Hdec Hig.
  assert (J1 : jobs w1 = jobs w).
  { match type of Hd with
    | ?m ?w0 = _ =>
        assert (P : preserves jobs m) by frames; specialize (P w0);
        rewrite Hd in P; exact P
    end. }
  assert (J2 : jobs w2 = jobs w1).
  { match type of Hr with
    | ?m ?w0 = _ =>
        assert (P : preserves jobs m) by frames; specialize (P w0);
        rewrite Hr in P; exact P
    end. }
  assert (J3 : exists v, jobs w3
                 = (jobs w2 ++ payloadsOfEvents caps
                                 (messageRow (nextMessageId w2) (now w2) v))%list).
  { unfold createMessageAndProcessAttachments in Hc.
    match type of Hc with
    | bind (createConversationMessage caps ?v0) ?k w2 = _ =>
        exists v0;
        pose proof (createConversationMessage_Ok caps v0 w2) as Ho;
        pose proof (createConversationMessage_jobs caps v0 w2) as Hj;
        destruct (createConversationMessage caps v0 w2) as [r wm] eqn:E;
        simpl in Ho, Hj; subst r;
        rewrite (bind_run _ _ _ _ _ E) in Hc
    end.
    match type of Hc with
    | ?m ?w0 = _ =>
        assert (P : preserves jobs m) by frames; specialize (P w0);
        rewrite Hc in P; simpl in P; rewrite P; exact Hj
    end. }
  destruct J3 as [v J3].
  pose proof (afterPersist_jobs mailbox conversation newEmail shouldIgnore
                entry w3) as J4.
  rewrite Ha in J4. simpl in J4.
  split; [rewrite He; reflexivity|].
  eexists. split.
  { rewrite J4, J3, J2, J1, <- app_assoc. reflexivity. }
  assert (Hnone : ~ triggered conversations_auto_response_create
                      (payloadsOfEvents caps
                         (messageRow (nextMessageId w2) (now w2) v))).
  { intros [j [Hin Hev]].
    apply In_payloadsOfEvents in Hin as [H|[H|H]]; destruct H; congruence. }
  assert (Hiff : triggered conversations_auto_response_create
                   (payloadsOfEvents caps
                      (messageRow (nextMessageId w2) (now w2) v) ++
                    (if negb shouldIgnore
                     then payloadsOf conversations_auto_response_create
                            (AutoResponseCreate (ConversationMessage.id newEmail)) 0
                     else []))
                 <-> shouldIgnore = false).
  { rewrite triggered_app. destruct shouldIgnore; simpl; split.
    - intros [H|H]; [contradiction | now apply triggered_nil in H].
    - discriminate.
    - reflexivity.
    - intros _. right. apply triggered_payloadsOf. }
  split; [exact Hiff|]. split.
  - rewrite Hiff, He. simpl. destruct shouldIgnore; simpl; split; congruence.
  - intros j Hin Hev. apply in_app_or in Hin as [Hin|Hin].
    + apply In_payloadsOfEvents in Hin as [H|[H|H]]; destruct H; congruence.
    + destruct (negb shouldIgnore); [|destruct Hin].
      apply In_payloadsOf in Hin as (_ & Hdata & Hs). subst mid. auto.
Qed.

Lemma auto_response_event_witness :
  ResultEntry.responded (Demo.entryOf (Demo.followUp Demo.mailbox)) = Some true /\
  triggered conversations_auto_response_create
    (skipn (length (jobs Demo.threadWorld))
           (jobs (snd (Demo.followUp Demo.mailbox)))).
Proof.
  destruct (auto_response_event Demo.caps Demo.supportEmail Demo.mailbox
              "m2" "t1" ["INBOX"] (Demo.mail "Can you help?") Demo.customer
              "Can you help?" Demo.threadWorld
              (Demo.entryOf (Demo.followUp Demo.mailbox))
              (snd (Demo.followUp Demo.mailbox)) 2 false (Some false))
    as (Hresp & sent & Hjobs & Hiff & _);
    [vm_compute; reflexivity | vm_compute; reflexivity | reflexivity |].
  split; [exact Hresp|].
  rewrite Hjobs, skipn_app, Nat.sub_diag, skipn_all. simpl.
  apply Hiff. reflexivity.
Defined.

(** ** The classifier *)

Lemma answersYes_refines content :
  String.eqb (JsString.trim (JsString.toLowerCase content)) "yes"
  = Spec_answersYes content.
Proof.
  unfold Spec_answersYes, equalsIgnoringCase.
  now rewrite JsStringFacts.trim_toLowerCase.
Qed.

Lemma toLowerCase_yes t :
  JsString.toLowerCase t = "yes" <-> isYesToken t.
Proof.
  split.
  - destruct t as [|a [|b [|c [|d t]]]]; simpl; intros H; try discriminate H.
    injection H as Ha Hb Hc.
    exists a, b, c. split; [reflexivity|].
    now rewrite <- JsStringFacts.lowerChar_y, <- JsStringFacts.lowerChar_e,
      <- JsStringFacts.lowerChar_s.
  - intros (y & e & s & -> & Hy & He & Hs). simpl.
    apply JsStringFacts.lowerChar_y in Hy.
    apply JsStringFacts.lowerChar_e in He.
    apply JsStringFacts.lowerChar_s in Hs.
    now rewrite Hy, He, Hs.
Qed.

Lemma answersYes_iff content :
  Spec_answersYes content = true
  <-> exists l t r,
        content = l ++ t ++ r /\
        JsString.allWhiteSpace l = true /\ JsString.allWhiteSpace r = true /\
        isYesToken t.
Proof.
  unfold Spec_answersYes, equalsIgnoringCase.
  change (JsString.toLowerCase "yes") with "yes".
  rewrite String.eqb_eq, toLowerCase_yes. split.
  - intros Ht.
    destruct (JsStringFacts.trim_split content) as (l & r & Hc & Hl & Hr).
    exists l, (JsString.trim content), r. auto.
  - intros (l & t & r & -> & Hl & Hr & Ht).
    destruct Ht as (y & e & s & -> & Hy & He & Hs).
    rewrite JsStringFacts.trim_token; try assumption.
    + exists y, e, s. auto.
    + destruct Hy as [-> | ->]; reflexivity.
    + destruct Hs as [-> | ->]; reflexivity.
Qed.

(** C4.  [isThankYouOrAutoResponse] answers whether the classifier's text,
    trimmed, is the token "yes" up to letter case, that is, the three
    letters surrounded by white space only; when the classifier fails it
    logs the failure and answers false, and a message the rules did not
    already ignore is then not ignorable. *)
Theorem isThankYouOrAutoResponse_fail_open caps mailbox emailContent w :
  isThankYouOrAutoResponse caps mailbox emailContent w
  = match runAIQuery caps mailbox emailContent with
    | Ok content => (Ok (Spec_answersYes content), w)
    | Throw error => (Ok false, with_captured (captured w ++ [error]) w)
    end /\
  (forall content,
     Spec_answersYes content = true
     <-> exists l t r,
           content = l ++ t ++ r /\
           JsString.allWhiteSpace l = true /\ JsString.allWhiteSpace r = true /\
           isYesToken t) /\
  (forall error staffUser isFirstMessage labelIds parsedEmailFrom,
     runAIQuery caps mailbox emailContent = Throw error ->
     ignoredByRule caps staffUser isFirstMessage labelIds parsedEmailFrom = false ->
     decideShouldIgnore caps mailbox staffUser isFirstMessage labelIds
       parsedEmailFrom emailContent w
     = (Ok (false, Some false), with_captured (captured w ++ [error]) w)).
Proof.
  split; [|split].
  - rewrite isThankYouOrAutoResponse_run.
    destruct (runAIQuery caps mailbox emailContent) as [content|error];
      [now rewrite answersYes_refines | reflexivity].
  - exact answersYes_iff.
  - intros error staffUser isFirstMessage labelIds parsedEmailFrom Hfail Hrule.
    unfold decideShouldIgnore. rewrite Hrule. cbn [negb].
    unfold bind. rewrite isThankYouOrAutoResponse_run, Hfail. reflexivity.
Qed.

Lemma isThankYouOrAutoResponse_fail_open_witness :
  isThankYouOrAutoResponse Demo.caps Demo.mailbox "Thanks!" Demo.emptyWorld
  = (Ok true, Demo.emptyWorld) /\
  decideShouldIgnore Demo.caps Demo.mailbox None true ["INBOX"] Demo.customer
    "crash" Demo.emptyWorld
  = (Ok (false, Some false),
     with_captured (captured Demo.emptyWorld ++ [Error "timeout"]) Demo.emptyWorld).
Proof.
  split.
  - destruct (isThankYouOrAutoResponse_fail_open Demo.caps Demo.mailbox
                "Thanks!" Demo.emptyWorld) as (Hrun & Hyes & _).
    rewrite Hrun. simpl runAIQuery. cbv iota.
    assert (H : Spec_answersYes " Yes " = true).
    { apply Hyes. exists " ", "Yes", " ".
      repeat split. exists "Y"%char, "e"%char, "s"%char. auto. }
    now rewrite H.
  - destruct (isThankYouOrAutoResponse_fail_open Demo.caps Demo.mailbox
                "crash" Demo.emptyWorld) as (_ & _ & Hfail).
    apply Hfail; reflexivity.
Defined.

(** ** Assignment from the copy line *)

Lemma find_first {A} (f : A -> bool) l x :
  find f l = Some x ->
  exists before after,
    l = (before ++ x :: after)%list /\ f x = true /\
    Forall (fun y => f y = false) before.
Proof.
  induction l as [|a l IH]; simpl; [discriminate|].
  destruct (f a) eqn:Ha.
  - intros H. injection H as <-. exists [], l. auto.
  - intros H. destruct (IH H) as (before & after & -> & Hx & Hb).
    exists (a :: before), after. simpl. auto.
Qed.

(** The loop stops at the first address with a staff profile and assigns
    the conversation to it; without one it does nothing. *)
Lemma assignFirstStaff_run caps conversationId ccs w :
  assignFirstStaff caps conversationId ccs w
  = match find (isStaffAddress caps) ccs with
    | Some address =>
        match getBasicProfileByEmail caps address with
        | Some staffUser =>
            (updateConversation conversationId (ccAssignment staffUser) None
               (Some "Auto-assigned based on CC") true ;;; ret tt)%monad w
        | None => (Ok tt, w)
        end
    | None => (Ok tt, w)
    end.
Proof.
  induction ccs as [|a ccs IH]; simpl; [reflexivity|].
  unfold isStaffAddress at 1.
  destruct (getBasicProfileByEmail caps a) as [u|] eqn:Ha; simpl.
  - rewrite Ha. reflexivity.
  - exact IH.
Qed.

Lemma updateConversation_then_ret id set by_ msg skip w :
  exists r,
    (updateConversation id set by_ msg skip ;;; ret tt)%monad w
    = (Ok tt, snd (updateConversation id set by_ msg skip w)) /\
    fst (updateConversation id set by_ msg skip w) = Ok r.
Proof.
  destruct (updateConversation_Ok id set by_ msg skip w) as [r Hr].
  exists r. split; [|exact Hr].
  unfold bind. destruct (updateConversation id set by_ msg skip w) as [r' w1].
  simpl in Hr. subst r'. reflexivity.
Qed.

Lemma createConversationMessage_conversationEvents caps v w :
  conversationEvents (snd (createConversationMessage caps v w))
  = (conversationEvents w ++
     match findConversation (NewConversationMessage.conversationId v) w with
     | Some current =>
         [{| ConversationEvent.conversationId := NewConversationMessage.conversationId v;
             ConversationEvent.type := "update";
             ConversationEvent.changes :=
               {| ConversationEvent.status := Some (Conversation.status current);
                  ConversationEvent.assignedToId :=
                    Some (Conversation.assignedToId current);
                  ConversationEvent.assignedToAI :=
                    Some (Conversation.assignedToAI current) |};
             ConversationEvent.byUserId := None;
             ConversationEvent.reason := None;
             ConversationEvent.createdAt := now w |}]
     | None => []
     end)%list.
Proof.
  unfold createConversationMessage.
  rewrite bind_insertConversationMessage, bind_gets.
  match goal with
  | |- context [bind (updateConversation ?i ?s ?b ?m ?k) _ ?w0] =>
      pose proof (updateConversation_events i s b m k w0) as He;
      destruct (updateConversation_Ok i s b m k w0) as [r Hr];
      destruct (updateConversation i s b m k w0) as [r' w1] eqn:E
  end.
  simpl in Hr, He. subst r'.
  rewrite (bind_run _ _ _ _ _ E).
  framed conversationEvents; [frames | exact He].
Qed.

Lemma assignFirstStaff_Ok caps conversationId ccs w :
  assignFirstStaff caps conversationId ccs w
  = (Ok tt, snd (assignFirstStaff caps conversationId ccs w)).
Proof.
  rewrite assignFirstStaff_run.
  destruct (find (isStaffAddress caps) ccs) as [a|]; [|reflexivity].
  destruct (getBasicProfileByEmail caps a) as [u|]; [|reflexivity].
  destruct (updateConversation_then_ret conversationId (ccAssignment u) None
              (Some "Auto-assigned based on CC") true w) as (r & -> & _).
  reflexivity.
Qed.

(** With addresses in copy, no staff sender and no assignee, the world
    after [createMessageAndProcessAttachments] has the conversations, the
    conversation events and the realtime sink that the loop over the copy
    line leaves. *)
Lemma createMessageAndProcessAttachments_cc caps gse parsedEmail parsedEmailFrom
    processedHtml cleanedUpText fileSlugs gmailMessageId gmailThreadId
    conversation w cc stored :
  addressesToString (ParsedMail.cc parsedEmail) = Some cc ->
  cc <> "" ->
  findConversation (Conversation.id conversation) w = Some stored ->
  Conversation.assignedToId stored = None ->
  exists v,
    NewConversationMessage.conversationId v = Conversation.id conversation /\
    NewConversationMessage.role v = user /\
    let w1 := snd (createConversationMessage caps v w) in
    let w2 := snd (finishFileUpload fileSlugs (nextMessageId w) w1) in
    let w3 := snd (assignFirstStaff caps (Conversation.id conversation)
                     (ccCandidates caps cc gse) w2) in
    let final :=
      snd (createMessageAndProcessAttachments caps gse parsedEmail
             parsedEmailFrom processedHtml cleanedUpText fileSlugs
             gmailMessageId gmailThreadId conversation None w) in
    conversations final = conversations w3 /\
    conversationEvents final = conversationEvents w3 /\
    realtime final = realtime w3.
Proof.
  intros Hcc Hne Hfind Hassign.
  unfold createMessageAndProcessAttachments. rewrite Hcc.
  cbn [isSome negb option_map].
  match goal with
  | |- context [createConversationMessage caps ?v0] =>
      set (v := v0); exists v;
      pose proof (createConversationMessage_Ok caps v w) as Ho;
      pose proof (createConversationMessage_conversations caps v w) as Hc;
      destruct (createConversationMessage caps v w) as [r w1] eqn:E
  end.
  simpl in Ho, Hc. subst r.
  split; [reflexivity|]. split; [reflexivity|].
  cbv zeta. rewrite (bind_run _ _ _ _ _ E).
  unfold finishFileUpload at 1 2 3. rewrite !bind_modify.
  cbn [JsString.truthyOpt]. rewrite (truthy_nonempty _ Hne). cbn [andb when].
  rewrite !bind_assoc, !bind_gets.
  change (ConversationMessage.id (messageRow (nextMessageId w) (now w) v))
    with (nextMessageId w).
  unfold finishFileUpload, modify. cbn [snd].
  match goal with
  | |- context [hasNoAssignee (findConversation ?cid ?W)] =>
      assert (Hno : hasNoAssignee (findConversation cid W) = true)
  end.
  { unfold findConversation in *. cbn [conversations with_files].
    rewrite Hc, find_updateRows, Hfind. simpl.
    destruct (Conversation.id stored =? Conversation.id conversation);
      simpl; now rewrite Hassign. }
  rewrite Hno. cbn [when]. unfold assignBasedOnCc, orKeep.
  match goal with
  | |- context [bind (assignFirstStaff caps ?cid ?ccs) _ ?W] =>
      rewrite !(bind_run _ _ _ _ _ (assignFirstStaff_Ok caps cid ccs W))
  end.
  repeat split.
  - framed conversations; [frames | reflexivity].
  - framed conversationEvents; [frames | reflexivity].
  - repeat (framed realtime; [solve [frames]|]). reflexivity.
Qed.

Lemma find_staff_first caps before address after staffUser :
  (forall a, In a before -> getBasicProfileByEmail caps a = None) ->
  getBasicProfileByEmail caps address = Some staffUser ->
  find (isStaffAddress caps) (before ++ address :: after) = Some address.
Proof.
  intros Hb Ha. induction before as [|b before IH]; simpl.
  - unfold isStaffAddress. now rewrite Ha.
  - unfold isStaffAddress at 1. rewrite (Hb b (or_introl eq_refl)). simpl.
    apply IH. intros a Hin. apply Hb. now right.
Qed.

Lemma find_staff_none caps candidates :
  (forall a, In a candidates -> getBasicProfileByEmail caps a = None) ->
  find (isStaffAddress caps) candidates = None.
Proof.
  intros H. induction candidates as [|b l IH]; simpl; [reflexivity|].
  unfold isStaffAddress at 1. rewrite (H b (or_introl eq_refl)). simpl.
  apply IH. intros a Hin. apply H. now right.
Qed.

Lemma In_ccCandidates caps cc gse a :
  In a (ccCandidates caps cc gse)
  <-> In a (extractAddresses caps cc) /\
      JsString.toLowerCase a <> JsString.toLowerCase (GmailSupportEmail.email gse).
Proof.
  unfold ccCandidates. rewrite filter_In, negb_true_iff, String.eqb_neq.
  reflexivity.
Qed.

(** C7.  For a message with addresses in copy and no staff sender, on a
    conversation whose [assignedToId] is null (whatever its [assignedToAI]):
    the candidates are the copy addresses other than the mailbox's own,
    compared without regard to letter case; the conversation is assigned to
    the staff member of the first candidate that has a staff profile,
    [assignedToAI] is cleared, one conversation event with the reason
    "Auto-assigned based on CC" is appended, and nothing is published to the
    realtime sink; without such a candidate the conversation stays
    unassigned. *)
Theorem cc_auto_assignment caps gse parsedEmail parsedEmailFrom processedHtml
    cleanedUpText fileSlugs gmailMessageId gmailThreadId conversation w cc
    stored :
  addressesToString (ParsedMail.cc parsedEmail) = Some cc ->
  cc <> "" ->
  findConversation (Conversation.id conversation) w = Some stored ->
  Conversation.assignedToId stored = None ->
  let final :=
    snd (createMessageAndProcessAttachments caps gse parsedEmail
           parsedEmailFrom processedHtml cleanedUpText fileSlugs gmailMessageId
           gmailThreadId conversation None w) in
  let candidates := ccCandidates caps cc gse in
  (forall a,
     In a candidates
     <-> In a (extractAddresses caps cc) /\
         JsString.toLowerCase a
         <> JsString.toLowerCase (GmailSupportEmail.email gse)) /\
  realtime final = realtime w /\
  ((forall a, In a candidates -> getBasicProfileByEmail caps a = None) ->
   exists stored',
     findConversation (Conversation.id conversation) final = Some stored' /\
     Conversation.assignedToId stored' = None /\
     Conversation.assignedToAI stored' = Conversation.assignedToAI stored /\
     forall e, In e (conversationEvents final) ->
       ConversationEvent.reason e = Some "Auto-assigned based on CC" ->
       In e (conversationEvents w)) /\
  (forall before address after staffUser,
     candidates = (before ++ address :: after)%list ->
     (forall a, In a before -> getBasicProfileByEmail caps a = None) ->
     getBasicProfileByEmail caps address = Some staffUser ->
     exists stored' earlier e,
       findConversation (Conversation.id conversation) final = Some stored' /\
       Conversation.assignedToId stored' = Some (BasicUserProfile.id staffUser) /\
       Conversation.assignedToAI stored' = false /\
       conversationEvents final
       = (conversationEvents w ++ earlier ++ [e])%list /\
       Forall (fun x => ConversationEvent.reason x = None) earlier /\
       ConversationEvent.reason e = Some "Auto-assigned based on CC" /\
       ConversationEvent.conversationId e = Conversation.id conversation /\
       ConversationEvent.byUserId e = None).
Proof.
  intros Hcc Hne Hfind Hassign final candidates.
  destruct (createMessageAndProcessAttachments_cc caps gse parsedEmail
              parsedEmailFrom processedHtml cleanedUpText fileSlugs
              gmailMessageId gmailThreadId conversation w cc stored
              Hcc Hne Hfind Hassign)
    as (v & Hvid & Hvrole & Hfinal).
  cbv zeta in Hfinal. fold final in Hfinal. fold candidates in Hfinal.
  destruct Hfinal as (Fc & Fe & Fr).
  pose proof (createConversationMessage_conversations caps v w) as C1.
  pose proof (createConversationMessage_conversationEvents caps v w) as E1.
  pose proof (createConversationMessage_realtime caps v w) as R1.
  rewrite Hvid in C1, E1. rewrite Hfind in E1.
  set (w1 := snd (createConversationMessage caps v w)) in *.
  set (w2 := snd (finishFileUpload fileSlugs (nextMessageId w) w1)) in *.
  assert (C2 : conversations w2 = conversations w1) by reflexivity.
  assert (E2 : conversationEvents w2 = conversationEvents w1) by reflexivity.
  assert (R2 : realtime w2 = realtime w1) by reflexivity.
  assert (Hfind2 : exists s2,
             findConversation (Conversation.id conversation) w2 = Some s2 /\
             Conversation.assignedToId s2 = None /\
             Conversation.assignedToAI s2 = Conversation.assignedToAI stored).
  { unfold findConversation in *. rewrite C2, C1, find_updateRows, Hfind.
    simpl. eexists. split; [reflexivity|].
    destruct (Conversation.id stored =? Conversation.id conversation);
      simpl; auto. }
  destruct Hfind2 as (s2 & Hfind2 & Hassign2 & Hai2).
  split; [intros a; apply In_ccCandidates|].
  split.
  { rewrite Fr.
    assert (P : preserves realtime
                  (assignFirstStaff caps (Conversation.id conversation)
                     candidates)) by frames.
    now rewrite P, R2, R1. }
  split.
  - intros Hnone.
    rewrite assignFirstStaff_run, (find_staff_none _ _ Hnone) in Fc, Fe.
    cbn [snd] in Fc, Fe.
    exists s2. unfold findConversation in *. rewrite Fc.
    split; [exact Hfind2|]. split; [exact Hassign2|]. split; [exact Hai2|].
    intros e Hin Hreason. rewrite Fe, E2, E1 in Hin.
    apply in_app_or in Hin as [Hin|[<-|[]]]; [exact Hin | discriminate Hreason].
  - intros before address after staffUser Hsplit Hbefore Haddress.
    rewrite assignFirstStaff_run, Hsplit,
      (find_staff_first _ _ _ _ _ Hbefore Haddress), Haddress in Fc, Fe.
    destruct (updateConversation_then_ret (Conversation.id conversation)
                (ccAssignment staffUser) None
                (Some "Auto-assigned based on CC") true w2) as (r & Hrun & _).
    rewrite Hrun in Fc, Fe. cbn [snd] in Fc, Fe.
    rewrite updateConversation_conversations in Fc.
    rewrite updateConversation_events, Hfind2, E2, E1, <- app_assoc in Fe.
    eexists. eexists. eexists.
    split.
    { unfold findConversation in *. rewrite Fc, find_updateRows, Hfind2.
      simpl. destruct (findConversation_id _ w2 _ Hfind2) as [Hid _].
      rewrite Hid, Z.eqb_refl. reflexivity. }
    split; [reflexivity|]. split; [reflexivity|].
    split; [exact Fe|].
    split; [repeat constructor|]. repeat split.
Qed.

Lemma cc_auto_assignment_witness :
  exists stored',
    findConversation 1
      (snd (createMessageAndProcessAttachments Demo.caps Demo.supportEmail
              (Demo.mail "Can you help?") Demo.customer "Can you help?"
              "Can you help?" [] "m2" "t1" Demo.closedConversation None
              Demo.threadWorld)) = Some stored' /\
    Conversation.assignedToAI Demo.closedConversation = true /\
    Conversation.assignedToId stored' = Some "user_agent" /\
    Conversation.assignedToAI stored' = false.
Proof.
  destruct (cc_auto_assignment Demo.caps Demo.supportEmail
              (Demo.mail "Can you help?") Demo.customer "Can you help?"
              "Can you help?" [] "m2" "t1" Demo.closedConversation
              Demo.threadWorld "Support@Example.com, agent@example.com"
              Demo.closedConversation)
    as (_ & _ & _ & Hassign);
    [reflexivity | discriminate | reflexivity | reflexivity |].
  destruct (Hassign [] "agent@example.com" [] Demo.agent)
    as (stored' & earlier & e & Hfind & Hid & Hai & _);
    [vm_compute; reflexivity | intros a [] | reflexivity |].
  exists stored'. auto.
Defined.

(** ** The batch and the history cursor *)

Lemma afterPersist_supportEmails mailbox conversation newEmail shouldIgnore
    entry :
  preserves gmailSupportEmails
    (afterPersist mailbox conversation newEmail shouldIgnore entry).
Proof. unfold afterPersist. frames. Qed.

Lemma ingestMessage_supportEmails caps gse mailbox gmailMessageId
    gmailThreadId labelIds :
  preserves gmailSupportEmails
    (ingestMessage caps gse mailbox gmailMessageId gmailThreadId labelIds).
Proof.
  unfold ingestMessage.
  apply preserves_bind; [frames | intros parsed].
  destruct (String.eqb (ParsedMailbox.address (fst (snd parsed)))
                       (GmailSupportEmail.email gse)) eqn:Hfrom.
  - unfold ingestParsedEmail. rewrite Hfrom. frames.
  - rewrite ingestParsedEmail_unfold by assumption. cbv zeta.
    apply preserves_bind; [frames | intros _].
    apply preserves_bind; [frames | intros decision].
    apply preserves_bind; [frames | intros conversation].
    apply preserves_bind; [frames | intros newEmail].
    apply afterPersist_supportEmails.
Qed.

Lemma processAddedMessage_supportEmails caps gse mailbox added :
  preserves gmailSupportEmails (processAddedMessage caps gse mailbox added).
Proof.
  unfold processAddedMessage.
  destruct (MessageAdded.message added) as [m|]; [|frames].
  destruct (GmailMessage.id m) as [id|]; [|frames].
  destruct (GmailMessage.threadId m) as [thread|]; [|frames].
  destruct (JsString.truthy id && JsString.truthy thread); [|frames].
  apply preserves_bind; [frames | intros existing].
  destruct (isSome existing); [frames|].
  apply preserves_tryCatch; [apply ingestMessage_supportEmails | intros e].
  frames.
Qed.

Lemma processMessagesAdded_supportEmails caps gse mailbox messagesAdded :
  preserves gmailSupportEmails
    (processMessagesAdded caps gse mailbox messagesAdded).
Proof.
  induction messagesAdded as [|added rest IH]; simpl.
  - apply preserves_ret.
  - apply preserves_bind; [apply processAddedMessage_supportEmails | intros e].
    apply preserves_bind; [exact IH | intros es]. apply preserves_ret.
Qed.

(** Outside development no iteration of the loop leaves by an exception. *)
Lemma processAddedMessage_Ok caps gse mailbox added w :
  developmentThrow caps = false ->
  exists entry, fst (processAddedMessage caps gse mailbox added w) = Ok entry.
Proof.
  intros Hdev. unfold processAddedMessage.
  destruct (MessageAdded.message added) as [m|]; [|eexists; reflexivity].
  destruct (GmailMessage.id m) as [id|]; [|eexists; reflexivity].
  destruct (GmailMessage.threadId m) as [thread|]; [|eexists; reflexivity].
  destruct (JsString.truthy id && JsString.truthy thread);
    [|eexists; reflexivity].
  rewrite bind_gets.
  destruct (isSome (findByGmailMessageId id w)); [eexists; reflexivity|].
  unfold tryCatch.
  destruct (ingestMessage caps gse mailbox id thread
              (orKeep (GmailMessage.labelIds m) []) w) as [[entry|e] w1].
  - eexists; reflexivity.
  - unfold captureExceptionAndThrowIfDevelopment. rewrite Hdev.
    eexists; reflexivity.
Qed.

Lemma processMessagesAdded_Ok caps gse mailbox messagesAdded w :
  developmentThrow caps = false ->
  exists results,
    fst (processMessagesAdded caps gse mailbox messagesAdded w) = Ok results /\
    length results = length messagesAdded.
Proof.
  intros Hdev. revert w.
  induction messagesAdded as [|added rest IH]; intros w; simpl.
  - exists []. auto.
  - destruct (processAddedMessage_Ok caps gse mailbox added w Hdev)
      as [entry He].
    destruct (processAddedMessage caps gse mailbox added w) as [r w1] eqn:E.
    simpl in He. subst r. rewrite (bind_run _ _ _ _ _ E).
    destruct (IH w1) as (entries & Hes & Hlen).
    destruct (processMessagesAdded caps gse mailbox rest w1) as [r w2] eqn:E2.
    simpl in Hes. subst r. rewrite (bind_run _ _ _ _ _ E2).
    exists (entry :: entries). simpl. auto.
Qed.

Lemma processMessagesAdded_app caps gse mailbox before after w :
  processMessagesAdded caps gse mailbox (before ++ after) w
  = (entriesBefore <- processMessagesAdded caps gse mailbox before ;;
     entriesAfter <- processMessagesAdded caps gse mailbox after ;;
     ret (entriesBefore ++ entriesAfter)%list) w.
Proof.
  revert w. induction before as [|added rest IH]; intros w.
  - cbn [app processMessagesAdded]. unfold bind, ret.
    now destruct (processMessagesAdded caps gse mailbox after w) as [[es|e] w'].
  - cbn [app processMessagesAdded]. unfold bind, ret in *.
    destruct (processAddedMessage caps gse mailbox added w) as [[entry|e] w1];
      [|reflexivity].
    rewrite IH.
    destruct (processMessagesAdded caps gse mailbox rest w1) as [[es|e] w2];
      [|reflexivity].
    now destruct (processMessagesAdded caps gse mailbox after w2)
      as [[es'|e] w3].
Qed.

(** The iteration of a message that is not stored yet and whose ingestion
    throws: outside development the exception is captured and the error
    entry is pushed; in development the exception leaves the loop. *)
Lemma processAddedMessage_error caps gse mailbox gmailMessageId gmailThreadId
    labelIds w error w1 :
  gmailMessageId <> "" -> gmailThreadId <> "" ->
  persistedCount gmailMessageId w = 0%nat ->
  ingestMessage caps gse mailbox gmailMessageId gmailThreadId
    (orKeep labelIds []) w = (Throw error, w1) ->
  processAddedMessage caps gse mailbox
    {| MessageAdded.message :=
         Some {| GmailMessage.id := Some gmailMessageId;
                 GmailMessage.threadId := Some gmailThreadId;
                 GmailMessage.labelIds := labelIds |} |} w
  = if developmentThrow caps then (Throw error, w1)
    else (Ok (errorProcessing gmailMessageId gmailThreadId error),
          with_captured (captured w1 ++ [error]) w1).
Proof.
  intros Hid Hthread Hzero Hthrow.
  unfold processAddedMessage. cbn [MessageAdded.message GmailMessage.id
    GmailMessage.threadId GmailMessage.labelIds].
  rewrite !truthy_nonempty by assumption. cbn [andb].
  rewrite bind_gets, (findByGmailMessageId_none _ _ Hzero).
  unfold tryCatch. rewrite Hthrow.
  unfold captureExceptionAndThrowIfDevelopment.
  destruct (developmentThrow caps); reflexivity.
Qed.

Lemma fetchMessagesAdded_supportEmails caps gse data :
  preserves gmailSupportEmails (fetchMessagesAdded caps gse data).
Proof. unfold fetchMessagesAdded. frames. Qed.

Lemma processDelivery_usable caps data w gse mailbox otherMailboxes :
  find (fun g => String.eqb (GmailSupportEmail.email g)
                            (GmailWebhookData.emailAddress data))
       (gmailSupportEmails w) = Some gse ->
  GmailSupportEmail.mailboxes gse = mailbox :: otherMailboxes ->
  JsString.truthyOpt (GmailSupportEmail.accessToken gse) = true ->
  JsString.truthyOpt (GmailSupportEmail.refreshToken gse) = true ->
  processDelivery caps data w
  = (messagesAdded <- fetchMessagesAdded caps gse data ;;
     results <- processMessagesAdded caps gse mailbox messagesAdded ;;
     setHistoryId (GmailSupportEmail.id gse)
       (GmailWebhookData.historyId data) ;;;
     ret (Processed (match NODE_ENV caps with
                     | development => Some data
                     | _ => None
                     end) (length messagesAdded) results)) w.
Proof.
  intros Hfind Hmailbox Haccess Hrefresh. unfold processDelivery.
  rewrite bind_gets, Hfind, Hmailbox, Haccess, Hrefresh. reflexivity.
Qed.

(** The text of the error entry for an exception of name [Error]. *)
Lemma errorProcessing_message gmailMessageId gmailThreadId error :
  JsError.name error = "Error" -> JsError.message error <> "" ->
  ResultEntry.message (errorProcessing gmailMessageId gmailThreadId error)
  = "Error processing message " ++ gmailMessageId ++ ": Error: "
    ++ JsError.message error.
Proof.
  intros Hname Hmessage. unfold errorProcessing, JsError.toString.
  cbn [ResultEntry.message]. rewrite Hname.
  destruct (String.eqb_spec (JsError.message error) ""); [contradiction|].
  reflexivity.
Qed.

(** C6, as the code has it, for a delivery that is authorized, finds its
    support email and has fetched the added messages.

    Where [captureExceptionAndThrowIfDevelopment] does not rethrow
    (outside development), the handler returns one entry per message; a
    message whose ingestion throws, wherever it stands in the batch, is
    recorded as the entry "Error processing message <id>: <exception>"
    with its Gmail ids, the exception is captured, and the messages after
    it are processed from the world it left; the loop leaves the history
    cursor alone, and after the loop the cursor of the support email is set
    to the history id of the webhook, also when messages failed.

    Where it rethrows (in development), the handler ends with the exception
    of the first message whose ingestion throws, in the world that
    ingestion left: the messages after it are not processed, no results
    are returned and the cursor is not written. *)
Theorem batch_failure_semantics caps request w body headers data gse mailbox
    otherMailboxes messagesAdded w0 :
  parseGmailWebhookBody caps (WebhookRequest.body request) = Ok body ->
  parseGmailWebhookHeaders caps
    (normalizeHeaders (WebhookRequest.headers request)) = Ok headers ->
  fst (authorizeGmailRequest caps body headers w) = Ok data ->
  find (fun g => String.eqb (GmailSupportEmail.email g)
                            (GmailWebhookData.emailAddress data))
       (gmailSupportEmails w) = Some gse ->
  GmailSupportEmail.mailboxes gse = mailbox :: otherMailboxes ->
  JsString.truthyOpt (GmailSupportEmail.accessToken gse) = true ->
  JsString.truthyOpt (GmailSupportEmail.refreshToken gse) = true ->
  fetchMessagesAdded caps gse data w = (Ok messagesAdded, w0) ->
  (developmentThrow caps = false ->
   exists results w',
     handleGmailWebhookEvent caps request w
     = (Ok (Processed (match NODE_ENV caps with
                       | development => Some data
                       | _ => None
                       end) (length messagesAdded) results), w') /\
     length results = length messagesAdded /\
     fst (processMessagesAdded caps gse mailbox messagesAdded w0) = Ok results /\
     gmailSupportEmails (snd (processMessagesAdded caps gse mailbox
                                messagesAdded w0))
     = gmailSupportEmails w /\
     gmailSupportEmails w'
     = map (fun g => if GmailSupportEmail.id g =? GmailSupportEmail.id gse
                     then GmailSupportEmail.with_historyId
                            (Some (GmailWebhookData.historyId data)) g
                     else g) (gmailSupportEmails w) /\
     In (GmailSupportEmail.with_historyId
           (Some (GmailWebhookData.historyId data)) gse)
        (gmailSupportEmails w') /\
     forall before gmailMessageId gmailThreadId labelIds rest entries w1 error
            w2,
       messagesAdded
       = (before
          ++ {| MessageAdded.message :=
                  Some {| GmailMessage.id := Some gmailMessageId;
                          GmailMessage.threadId := Some gmailThreadId;
                          GmailMessage.labelIds := labelIds |} |} :: rest)%list ->
       processMessagesAdded caps gse mailbox before w0 = (Ok entries, w1) ->
       gmailMessageId <> "" -> gmailThreadId <> "" ->
       persistedCount gmailMessageId w1 = 0%nat ->
       ingestMessage caps gse mailbox gmailMessageId gmailThreadId
         (orKeep labelIds []) w1 = (Throw error, w2) ->
       exists entry later,
         results = (entries ++ entry :: later)%list /\
         ResultEntry.message entry
         = "Error processing message " ++ gmailMessageId ++ ": "
           ++ JsError.toString error /\
         (JsError.name error = "Error" -> JsError.message error <> "" ->
          ResultEntry.message entry
          = "Error processing message " ++ gmailMessageId ++ ": Error: "
            ++ JsError.message error) /\
         ResultEntry.gmailMessageId entry = Some gmailMessageId /\
         ResultEntry.gmailThreadId entry = Some gmailThreadId /\
         ResultEntry.messageId entry = None /\
         ResultEntry.responded entry = None /\
         fst (processMessagesAdded caps gse mailbox rest
                (with_captured (captured w2 ++ [error]) w2)) = Ok later) /\
  (developmentThrow caps = true ->
   forall before gmailMessageId gmailThreadId labelIds rest entries w1 error
          w2,
     messagesAdded
     = (before
        ++ {| MessageAdded.message :=
                Some {| GmailMessage.id := Some gmailMessageId;
                        GmailMessage.threadId := Some gmailThreadId;
                        GmailMessage.labelIds := labelIds |} |} :: rest)%list ->
     processMessagesAdded caps gse mailbox before w0 = (Ok entries, w1) ->
     gmailMessageId <> "" -> gmailThreadId <> "" ->
     persistedCount gmailMessageId w1 = 0%nat ->
     ingestMessage caps gse mailbox gmailMessageId gmailThreadId
       (orKeep labelIds []) w1 = (Throw error, w2) ->
     handleGmailWebhookEvent caps request w = (Throw error, w2) /\
     gmailSupportEmails w2 = gmailSupportEmails w).
Proof.
  intros Hbody Hheaders Hauth Hfind Hmailbox Haccess Hrefresh Hfetch.
  pose proof (fetchMessagesAdded_supportEmails caps gse data w) as Hpre.
  rewrite Hfetch in Hpre. simpl in Hpre.
  assert (Hrun : handleGmailWebhookEvent caps request w
                 = (results <- processMessagesAdded caps gse mailbox
                                 messagesAdded ;;
                    setHistoryId (GmailSupportEmail.id gse)
                      (GmailWebhookData.historyId data) ;;;
                    ret (Processed (match NODE_ENV caps with
                                    | development => Some data
                                    | _ => None
                                    end) (length messagesAdded) results)) w0).
  { rewrite (handleGmailWebhookEvent_authorized _ _ _ _ _ _ Hbody Hheaders Hauth).
    rewrite (processDelivery_usable _ _ _ _ _ _ Hfind Hmailbox Haccess Hrefresh).
    now rewrite (bind_run _ _ _ _ _ Hfetch). }
  split.
  - intros Hdev.
    destruct (processMessagesAdded_Ok caps gse mailbox messagesAdded w0 Hdev)
      as (results & Hres & Hlen).
    pose proof (processMessagesAdded_supportEmails caps gse mailbox
                  messagesAdded w0) as Hloop.
    rewrite Hpre in Hloop.
    destruct (processMessagesAdded caps gse mailbox messagesAdded w0)
      as [r wl] eqn:Eloop.
    simpl in Hres, Hloop. subst r.
    exists results.
    exists (with_gmailSupportEmails
              (map (fun g => if GmailSupportEmail.id g =? GmailSupportEmail.id gse
                             then GmailSupportEmail.with_historyId
                                    (Some (GmailWebhookData.historyId data)) g
                             else g) (gmailSupportEmails wl)) wl).
    split.
    { rewrite Hrun, (bind_run _ _ _ _ _ Eloop).
      unfold setHistoryId. rewrite bind_modify. reflexivity. }
    split; [exact Hlen|]. split; [reflexivity|]. split; [exact Hloop|].
    split; [simpl; now rewrite Hloop|].
    split.
    { simpl. rewrite Hloop. apply find_some in Hfind as [Hin _].
      apply in_map_iff. exists gse. now rewrite Z.eqb_refl. }
    intros before gmailMessageId gmailThreadId labelIds rest entries w1 error
      w2 -> Hbefore Hid Hthread Hzero Hthrow.
    destruct (processMessagesAdded_Ok caps gse mailbox rest
                (with_captured (captured w2 ++ [error]) w2) Hdev)
      as (later & Hlater & _).
    exists (errorProcessing gmailMessageId gmailThreadId error), later.
    split.
    { pose proof (processAddedMessage_error caps gse mailbox gmailMessageId
                    gmailThreadId labelIds w1 error w2 Hid Hthread Hzero Hthrow)
        as Hone.
      rewrite Hdev in Hone.
      destruct (processMessagesAdded caps gse mailbox rest
                  (with_captured (captured w2 ++ [error]) w2)) as [r w3] eqn:E.
      simpl in Hlater. subst r.
      rewrite processMessagesAdded_app in Eloop.
      rewrite (bind_run _ _ _ _ _ Hbefore) in Eloop.
      cbn [processMessagesAdded] in Eloop.
      assert (Hrest : (entry <- processAddedMessage caps gse mailbox
                         {| MessageAdded.message :=
                              Some {| GmailMessage.id := Some gmailMessageId;
                                      GmailMessage.threadId := Some gmailThreadId;
                                      GmailMessage.labelIds := labelIds |} |} ;;
                       es <- processMessagesAdded caps gse mailbox rest ;;
                       ret (entry :: es)) w1
                      = (Ok (errorProcessing gmailMessageId gmailThreadId error
                             :: later), w3)).
      { now rewrite (bind_run _ _ _ _ _ Hone), (bind_run _ _ _ _ _ E). }
      rewrite (bind_run _ _ _ _ _ Hrest) in Eloop.
      unfold ret in Eloop. now injection Eloop as <- _. }
    split; [reflexivity|].
    split; [apply errorProcessing_message|].
    repeat split; [reflexivity .. | exact Hlater].
  - intros Hdev before gmailMessageId gmailThreadId labelIds rest entries w1
      error w2 -> Hbefore Hid Hthread Hzero Hthrow.
    pose proof (processAddedMessage_error caps gse mailbox gmailMessageId
                  gmailThreadId labelIds w1 error w2 Hid Hthread Hzero Hthrow)
      as Hone.
    rewrite Hdev in Hone.
    split.
    + rewrite Hrun.
      apply bind_run_Throw. rewrite processMessagesAdded_app.
      rewrite (bind_run _ _ _ _ _ Hbefore). cbn [processMessagesAdded].
      now apply bind_run_Throw, bind_run_Throw.
    + pose proof (processMessagesAdded_supportEmails caps gse mailbox before
                    w0) as H1.
      rewrite Hbefore in H1. simpl in H1.
      pose proof (ingestMessage_supportEmails caps gse mailbox gmailMessageId
                    gmailThreadId (orKeep labelIds []) w1) as H2.
      rewrite Hthrow in H2. simpl in H2. congruence.
Qed.

Lemma batch_failure_semantics_witness :
  (exists results w',
     handleGmailWebhookEvent Demo.caps Demo.request Demo.emptyWorld
     = (Ok (Processed None 2 results), w') /\
     map ResultEntry.message results
     = ["Error processing message broken: Error: fetch failed";
        "Created message 1"] /\
     map GmailSupportEmail.historyId (gmailSupportEmails w') = [Some 42]) /\
  handleGmailWebhookEvent (Demo.capabilities true) Demo.request Demo.emptyWorld
  = (Throw (Error "fetch failed"), Demo.emptyWorld).
Proof.
  split.
  - destruct (batch_failure_semantics Demo.caps Demo.request Demo.emptyWorld
                {| GmailWebhookBody.message :=
                     {| PubsubMessage.data := "payload";
                        PubsubMessage.messageId := "1";
                        PubsubMessage.publishTime := "2024-01-01T00:00:00Z" |};
                   GmailWebhookBody.subscription := "gmail" |}
                {| GmailWebhookHeaders.authorization := "Bearer token" |}
                {| GmailWebhookData.emailAddress := "support@example.com";
                   GmailWebhookData.historyId := 42 |}
                Demo.supportEmail Demo.mailbox []
                [Demo.added "broken" "broken"; Demo.added "m1" "m1"]
                Demo.emptyWorld eq_refl eq_refl eq_refl eq_refl eq_refl eq_refl
                eq_refl eq_refl)
      as [Hproduction _].
    destruct (Hproduction eq_refl)
      as (results & w' & Hrun & _ & _ & _ & Hcursor & _ & Herror).
    exists results, w'.
    destruct (Herror [] "broken" "broken" (Some ["INBOX"])
                [Demo.added "m1" "m1"] [] Demo.emptyWorld
                (Error "fetch failed") Demo.emptyWorld)
      as (entry & later & -> & _ & Hmessage & _ & _ & _ & _ & Hlater);
      [reflexivity | reflexivity | discriminate | discriminate | reflexivity
      | reflexivity |].
    vm_compute in Hlater. injection Hlater as <-.
    split; [exact Hrun|]. split.
    + cbn [app map]. rewrite (Hmessage eq_refl); [reflexivity | discriminate].
    + rewrite Hcursor. reflexivity.
  - destruct (batch_failure_semantics (Demo.capabilities true) Demo.request
                Demo.emptyWorld
                {| GmailWebhookBody.message :=
                     {| PubsubMessage.data := "payload";
                        PubsubMessage.messageId := "1";
                        PubsubMessage.publishTime := "2024-01-01T00:00:00Z" |};
                   GmailWebhookBody.subscription := "gmail" |}
                {| GmailWebhookHeaders.authorization := "Bearer token" |}
                {| GmailWebhookData.emailAddress := "support@example.com";
                   GmailWebhookData.historyId := 42 |}
                Demo.supportEmail Demo.mailbox []
                [Demo.added "broken" "broken"; Demo.added "m1" "m1"]
                Demo.emptyWorld eq_refl eq_refl eq_refl eq_refl eq_refl eq_refl
                eq_refl eq_refl)
      as [_ Hdevelopment].
    destruct (Hdevelopment eq_refl [] "broken" "broken" (Some ["INBOX"])
                [Demo.added "m1" "m1"] [] Demo.emptyWorld
                (Error "fetch failed") Demo.emptyWorld)
      as [Hrun _];
      [reflexivity | reflexivity | discriminate | discriminate | reflexivity
      | reflexivity |].
    exact Hrun.
Defined.

(** In development the same delivery leaves the handler by the exception
    of the first message: no results are returned, the message after it is
    not processed, and the cursor stays at 10 although the webhook carries
    the history id 42. *)
Lemma batch_failure_development_counterexample :
  fst (handleGmailWebhookEvent (Demo.capabilities true) Demo.request
         Demo.emptyWorld) = Throw (Error "fetch failed") /\
  persistedCount "m1"
    (snd (handleGmailWebhookEvent (Demo.capabilities true) Demo.request
            Demo.emptyWorld)) = 0%nat /\
  map GmailSupportEmail.historyId
    (gmailSupportEmails
       (snd (handleGmailWebhookEvent (Demo.capabilities true) Demo.request
               Demo.emptyWorld))) = [Some 10] /\
  parseGmailWebhookData (Demo.capabilities true)
    (WebhookRequest.body Demo.request)
  = Ok {| GmailWebhookData.emailAddress := "support@example.com";
          GmailWebhookData.historyId := 42 |}.
Proof. repeat split; vm_compute; reflexivity. Qed.
(** ** Body normalisation *)

(** C9, as the code has it.  When the mail has no HTML body ([html] is
    [false]), the source handed to the HTML parser is [textAsHtml], or
    [text] when there is no [textAsHtml], with every CRLF replaced by the
    tag <br/>: this step writes a line-break tag, not a paragraph break, and
    a source without CRLF is handed over as it is.  When an HTML body is
    present it is the source, unchanged.  A missing or empty source gives
    the empty string.  Otherwise the result is the inner HTML of the body
    of the parsed document (the source itself when the document has no
    body) without its longest trailing run of <br> tags, normalised with
    NFKD. *)
Theorem parseEmailBody_normalization caps parsedEmail :
  (forall plain,
     ParsedMail.html parsedEmail = None ->
     match ParsedMail.textAsHtml parsedEmail with
     | Some t => Some t
     | None => ParsedMail.text parsedEmail
     end = Some plain ->
     emailBodySource parsedEmail = Some (JsString.replaceCRLF "<br/>" plain) /\
     hasCRLF (JsString.replaceCRLF "<br/>" plain) = false /\
     (forall a b, plain = a ++ CRLF ++ b ->
        JsString.replaceCRLF "<br/>" plain
        = JsString.replaceCRLF "<br/>" a ++ "<br/>"
          ++ JsString.replaceCRLF "<br/>" b) /\
     (hasCRLF plain = false -> JsString.replaceCRLF "<br/>" plain = plain)) /\
  (forall html,
     ParsedMail.html parsedEmail = Some html ->
     emailBodySource parsedEmail = Some html) /\
  (emailBodySource parsedEmail = None \/ emailBodySource parsedEmail = Some "" ->
   parseEmailBody caps parsedEmail = "") /\
  (forall source,
     emailBodySource parsedEmail = Some source -> source <> "" ->
     exists content tail,
       content = match bodyInnerHTML caps source with
                 | Some innerHTML => innerHTML
                 | None => source
                 end /\
       content = BrPattern.stripTrailingBr content ++ tail /\
       (tail = "" \/ BrPattern.BrRun tail) /\
       (forall pre suf,
          BrPattern.stripTrailingBr content = pre ++ suf ->
          ~ BrPattern.BrRun suf) /\
       parseEmailBody caps parsedEmail
       = normalizeNFKD caps (BrPattern.stripTrailingBr content)).
Proof.
  split; [|split; [|split]].
  - intros plain Hhtml Hplain. unfold emailBodySource. rewrite Hhtml, Hplain.
    split; [reflexivity|].
    split; [apply PatternFacts.replaceCRLF_complete|].
    split.
    + intros a b ->. apply PatternFacts.replaceCRLF_at.
    + apply PatternFacts.replaceCRLF_none.
  - intros html Hhtml. unfold emailBodySource. now rewrite Hhtml.
  - unfold parseEmailBody. intros [-> | ->]; reflexivity.
  - intros source Hsource Hne. unfold parseEmailBody. rewrite Hsource.
    rewrite (truthy_nonempty _ Hne). cbn [negb].
    set (content := match bodyInnerHTML caps source with
                    | Some innerHTML => innerHTML
                    | None => source
                    end).
    destruct (PatternFacts.stripTrailingBr_split content)
      as (tail & Hsplit & Htail).
    exists content, tail. split; [reflexivity|]. split; [exact Hsplit|].
    split; [exact Htail|]. split; [|reflexivity].
    intros pre suf. apply PatternFacts.stripTrailingBr_clean.
Qed.

Lemma parseEmailBody_normalization_witness :
  parseEmailBody Demo.caps (Demo.mail "<div>Hi</div><br><br/>")
  = "<div>Hi</div>".
Proof.
  destruct (parseEmailBody_normalization Demo.caps
              (Demo.mail "<div>Hi</div><br><br/>"))
    as (_ & Hhtml & _ & Hbody).
  destruct (Hbody _ (Hhtml _ eq_refl))
    as (content & tail & -> & _ & _ & _ & ->); [discriminate|].
  vm_compute. reflexivity.
Defined.

(** A plain-text mail whose text has one line break, as the mail parser
    hands it over: [parseEmailBody] passes [textAsHtml] on as it is, and in
    the body it returns the line break of the text is a line-break tag
    inside one paragraph, not a paragraph break. *)
Lemma parseEmailBody_line_break_counterexample :
  emailBodySource
    (Demo.plainMail ("Hi" ++ String JsString.LF "there") "<p>Hi<br/>there</p>")
  = Some "<p>Hi<br/>there</p>" /\
  parseEmailBody Demo.caps
    (Demo.plainMail ("Hi" ++ String JsString.LF "there") "<p>Hi<br/>there</p>")
  = "<p>Hi<br>there</p>".
Proof. split; vm_compute; reflexivity. Qed.

(** ** The id invariant is kept by the handler *)

Lemma conversationIdsBelow_ids w w' :
  conversationIds w' = conversationIds w ->
  conversationIdsBelow w -> conversationIdsBelow w'.
Proof.
  unfold conversationIds, conversationIdsBelow. intros H Hw.
  injection H as Hids Hnext. rewrite Hnext.
  apply Forall_forall. intros c Hin.
  assert (Hi : In (Conversation.id c) (map Conversation.id (conversations w)))
    by (rewrite <- Hids; now apply in_map).
  apply in_map_iff in Hi as (c0 & <- & Hin0).
  rewrite Forall_forall in Hw. now apply Hw.
Qed.

Lemma maintains_preserves {A} (m : M A) :
  preserves conversationIds m -> maintains conversationIdsBelow m.
Proof. intros H w. apply conversationIdsBelow_ids, H. Qed.

Lemma maintains_bind {A B} I (m : M A) (k : A -> M B) :
  maintains I m -> (forall a, maintains I (k a)) -> maintains I (bind m k).
Proof.
  intros Hm Hk w Hw. unfold bind. specialize (Hm w Hw).
  destruct (m w) as [[a|e] w1]; simpl in *; [now apply Hk | exact Hm].
Qed.

Lemma maintains_tryCatch {A} I (m : M A) (h : JsError.t -> M A) :
  maintains I m -> (forall e, maintains I (h e)) -> maintains I (tryCatch m h).
Proof.
  intros Hm Hk w Hw. unfold tryCatch. specialize (Hm w Hw).
  destruct (m w) as [[a|e] w1]; simpl in *; [exact Hm | now apply Hk].
Qed.

Lemma updateConversation_ids id set by_ msg skip :
  preserves conversationIds (updateConversation id set by_ msg skip).
Proof.
  intros w. unfold conversationIds.
  rewrite updateConversation_conversations,
    (updateConversation_nextConversationId id set by_ msg skip w).
  f_equal. unfold updateRows. rewrite map_map. apply map_ext.
  intros c. now destruct (Conversation.id c =? id).
Qed.

#[local] Hint Resolve updateConversation_ids : frames.

Lemma createNewConversation_ids caps mailbox parsedEmail parsedEmailFrom
    shouldIgnore :
  maintains conversationIdsBelow
    (createNewConversation caps mailbox parsedEmail parsedEmailFrom shouldIgnore).
Proof.
  intros w Hw. rewrite createNewConversation_run.
  unfold conversationIdsBelow, withNewConversation in *. simpl.
  apply Forall_app. split.
  - eapply Forall_impl; [|exact Hw]. intros c Hc. simpl in Hc. lia.
  - repeat constructor. simpl. lia.
Qed.

Lemma resolveConversation_ids caps mailbox parsedEmail parsedEmailFrom
    shouldIgnore gmailMessageId gmailThreadId :
  maintains conversationIdsBelow
    (resolveConversation caps mailbox parsedEmail parsedEmailFrom shouldIgnore
       gmailMessageId gmailThreadId).
Proof.
  unfold resolveConversation.
  destruct (isNewThread gmailMessageId gmailThreadId);
    [apply createNewConversation_ids|].
  apply maintains_bind; [apply maintains_preserves; frames|].
  intros [[m [c|]]|];
    first [ apply createNewConversation_ids
          | apply maintains_preserves; frames ].
Qed.

Lemma createMessageAndProcessAttachments_ids caps gse parsedEmail
    parsedEmailFrom processedHtml cleanedUpText fileSlugs gmailMessageId
    gmailThreadId conversation staffUser :
  preserves conversationIds
    (createMessageAndProcessAttachments caps gse parsedEmail parsedEmailFrom
       processedHtml cleanedUpText fileSlugs gmailMessageId gmailThreadId
       conversation staffUser).
Proof.
  unfold createMessageAndProcessAttachments, createConversationMessage,
    insertConversationMessage.
  frames.
Qed.

Lemma processAddedMessage_ids caps gse mailbox added :
  maintains conversationIdsBelow (processAddedMessage caps gse mailbox added).
Proof.
  unfold processAddedMessage.
  destruct (MessageAdded.message added) as [m|];
    [|apply maintains_preserves; frames].
  destruct (GmailMessage.id m) as [id|]; [|apply maintains_preserves; frames].
  destruct (GmailMessage.threadId m) as [thread|];
    [|apply maintains_preserves; frames].
  destruct (JsString.truthy id && JsString.truthy thread);
    [|apply maintains_preserves; frames].
  apply maintains_bind; [apply maintains_preserves; frames | intros existing].
  destruct (isSome existing); [apply maintains_preserves; frames|].
  apply maintains_tryCatch; [|intros e; apply maintains_preserves; frames].
  unfold ingestMessage.
  apply maintains_bind; [apply maintains_preserves; frames | intros parsed].
  destruct (String.eqb (ParsedMailbox.address (fst (snd parsed)))
                       (GmailSupportEmail.email gse)) eqn:Hfrom.
  - unfold ingestParsedEmail. rewrite Hfrom. apply maintains_preserves. frames.
  - rewrite ingestParsedEmail_unfold by assumption. cbv zeta.
    apply maintains_bind; [apply maintains_preserves; frames | intros _].
    apply maintains_bind; [apply maintains_preserves; frames | intros decision].
    apply maintains_bind; [apply resolveConversation_ids | intros conversation].
    apply maintains_bind;
      [apply maintains_preserves, createMessageAndProcessAttachments_ids|].
    intros newEmail. apply maintains_preserves. unfold afterPersist. frames.
Qed.

Lemma processMessagesAdded_ids caps gse mailbox messagesAdded :
  maintains conversationIdsBelow
    (processMessagesAdded caps gse mailbox messagesAdded).
Proof.
  induction messagesAdded as [|added rest IH]; simpl.
  - apply maintains_preserves. frames.
  - apply maintains_bind; [apply processAddedMessage_ids | intros entry].
    apply maintains_bind; [exact IH | intros entries].
    apply maintains_preserves. frames.
Qed.

(** Whatever a webhook delivery does, the sequence of conversation ids stays
    ahead of the stored ids: the hypothesis of the resolution and reopen
    statements holds in every world the handler reaches from one where it
    holds. *)
Lemma handleGmailWebhookEvent_ids caps request :
  maintains conversationIdsBelow (handleGmailWebhookEvent caps request).
Proof.
  apply handleGmailWebhookEvent_maintains; [intros x w H; exact H | intros data].
  unfold processDelivery.
  apply maintains_bind; [apply maintains_preserves; frames | intros found].
  destruct found as [g|]; [|apply maintains_preserves; frames].
  destruct (GmailSupportEmail.mailboxes g) as [|mailbox others];
    [apply maintains_preserves; frames|].
  destruct (negb _ || negb _); [apply maintains_preserves; frames|].
  apply maintains_bind;
    [apply maintains_preserves; unfold fetchMessagesAdded; frames|].
  intros messagesAdded.
  apply maintains_bind; [apply processMessagesAdded_ids | intros results].
  apply maintains_preserves. frames.
Qed.

(* ================================================================= *)
(** * Further properties *)

(** ** Cleaned-up texts *)

Module TextFacts.
Import JsString JsPattern JsStringFacts PatternFacts.

Lemma whiteSpace_not_mark c :
  isWhiteSpace c = true -> BrPattern.isLt c = false /\ BrPattern.isGt c = false.
Proof.
  destruct c as [[] [] [] [] [] [] [] []]; vm_compute; intros H;
    try discriminate H; auto.
Qed.

Lemma whiteSpace_space : isWhiteSpace " "%char = true.
Proof. reflexivity. Qed.

Lemma LF_whiteSpace c : Ascii.eqb c LF = true -> isWhiteSpace c = true.
Proof. intros H. apply Ascii.eqb_eq in H. now subst c. Qed.

Lemma hasGt_app a b : hasGt (a ++ b) = hasGt a || hasGt b.
Proof.
  induction a as [|c a IH]; simpl; [reflexivity|].
  now rewrite IH, orb_assoc.
Qed.

Lemma allWhiteSpace_hasGt s : allWhiteSpace s = true -> hasGt s = false.
Proof.
  induction s as [|c s IH]; simpl; [reflexivity|].
  intros H. apply andb_true_iff in H as [Hc Hs].
  destruct (whiteSpace_not_mark c Hc) as [_ ->]. now apply IH.
Qed.

Lemma allWhiteSpace_hasTag s : allWhiteSpace s = true -> hasTag s = false.
Proof.
  induction s as [|c s IH]; simpl; [reflexivity|].
  intros H. apply andb_true_iff in H as [Hc Hs].
  destruct (whiteSpace_not_mark c Hc) as [-> _]. now apply IH.
Qed.

(** *** Tags *)

Lemma stripTags_none s : hasTag s = false -> stripTagsFrom false s = s.
Proof.
  induction s as [|c s IH]; simpl; [reflexivity|].
  intros H. apply orb_false_iff in H as [Hc Hs].
  rewrite Hc. now rewrite IH.
Qed.

Lemma stripTagsFrom_hasGt b s :
  hasGt s = false -> hasGt (stripTagsFrom b s) = false.
Proof.
  revert b. induction s as [|c s IH]; intros b; simpl; [reflexivity|].
  intros H. apply orb_false_iff in H as [Hc Hs].
  destruct b.
  - rewrite Hc. now apply IH.
  - rewrite Hs, andb_false_r. simpl. rewrite Hc. now apply IH.
Qed.

Lemma stripTagsFrom_clean b s : hasTag (stripTagsFrom b s) = false.
Proof.
  revert b. induction s as [|c s IH]; intros b; simpl; [reflexivity|].
  destruct b.
  - destruct (BrPattern.isGt c); apply IH.
  - destruct (BrPattern.isLt c && hasGt s) eqn:E; [apply IH|].
    simpl. rewrite IH, orb_false_r.
    apply andb_false_iff in E as [E|E]; [now rewrite E|].
    rewrite (stripTagsFrom_hasGt false s E). apply andb_false_r.
Qed.

Lemma hasGt_collapseFrom b s : hasGt (collapseFrom b s) = hasGt s.
Proof.
  revert b. induction s as [|c s IH]; intros b; simpl; [reflexivity|].
  destruct (isWhiteSpace c) eqn:Hc.
  - destruct (whiteSpace_not_mark c Hc) as [_ ->]. simpl.
    destruct b; simpl; apply IH.
  - simpl. now rewrite IH.
Qed.

Lemma hasTag_collapseFrom b s : hasTag (collapseFrom b s) = hasTag s.
Proof.
  revert b. induction s as [|c s IH]; intros b; simpl; [reflexivity|].
  destruct (isWhiteSpace c) eqn:Hc.
  - destruct (whiteSpace_not_mark c Hc) as [-> _]. simpl.
    destruct b; simpl; apply IH.
  - simpl. now rewrite IH, hasGt_collapseFrom.
Qed.

Lemma hasTag_trimStart s : hasTag (trimStart s) = hasTag s.
Proof.
  induction s as [|c s IH]; simpl; [reflexivity|].
  destruct (isWhiteSpace c) eqn:Hc; [|reflexivity].
  destruct (whiteSpace_not_mark c Hc) as [-> _]. exact IH.
Qed.

Lemma hasGt_trimEnd s : hasGt (trimEnd s) = hasGt s.
Proof.
  induction s as [|c s IH]; simpl; [reflexivity|].
  destruct (isWhiteSpace c && allWhiteSpace s) eqn:E.
  - apply andb_true_iff in E as [Hc Hs].
    destruct (whiteSpace_not_mark c Hc) as [_ ->].
    now rewrite (allWhiteSpace_hasGt s Hs).
  - simpl. now rewrite IH.
Qed.

Lemma hasTag_trimEnd s : hasTag (trimEnd s) = hasTag s.
Proof.
  induction s as [|c s IH]; simpl; [reflexivity|].
  destruct (isWhiteSpace c && allWhiteSpace s) eqn:E.
  - apply andb_true_iff in E as [Hc Hs].
    destruct (whiteSpace_not_mark c Hc) as [-> _].
    now rewrite (allWhiteSpace_hasTag s Hs).
  - simpl. now rewrite IH, hasGt_trimEnd.
Qed.

Lemma hasTag_trim s : hasTag (trim s) = hasTag s.
Proof. unfold trim. now rewrite hasTag_trimEnd, hasTag_trimStart. Qed.

(** *** White space *)

Lemma collapseFrom_start s : startsWithWhiteSpace (collapseFrom true s) = false.
Proof.
  induction s as [|c s IH]; simpl; [reflexivity|].
  destruct (isWhiteSpace c) eqn:Hc; [exact IH | simpl; exact Hc].
Qed.

Lemma spaced_collapseFrom b s : spaced (collapseFrom b s) = true.
Proof.
  revert b. induction s as [|c s IH]; intros b; simpl; [reflexivity|].
  destruct (isWhiteSpace c) eqn:Hc.
  - destruct b; [apply IH|].
    simpl. now rewrite collapseFrom_start, IH.
  - simpl. now rewrite Hc, IH.
Qed.

Lemma spaced_trimStart s : spaced s = true -> spaced (trimStart s) = true.
Proof.
  induction s as [|c s IH]; simpl; [reflexivity|].
  intros H. destruct (isWhiteSpace c) eqn:Hc.
  - apply andb_true_iff in H as [_ Hs]. now apply IH.
  - simpl. now rewrite Hc.
Qed.

Lemma startsWithWhiteSpace_trimEnd s :
  startsWithWhiteSpace s = false -> startsWithWhiteSpace (trimEnd s) = false.
Proof.
  destruct s as [|c s]; simpl; [reflexivity|].
  intros Hc. rewrite Hc. simpl. exact Hc.
Qed.

Lemma spaced_trimEnd s : spaced s = true -> spaced (trimEnd s) = true.
Proof.
  induction s as [|c s IH]; simpl; [reflexivity|].
  intros H. apply andb_true_iff in H as [Hc Hs].
  destruct (isWhiteSpace c && allWhiteSpace s) eqn:E; [reflexivity|].
  simpl. rewrite (IH Hs), andb_true_r.
  destruct (isWhiteSpace c); [|reflexivity].
  apply andb_true_iff in Hc as [Hsp Hst]. rewrite Hsp. simpl.
  apply negb_true_iff in Hst. apply negb_true_iff.
  now apply startsWithWhiteSpace_trimEnd.
Qed.

Lemma trimStart_clean s : startsWithWhiteSpace s = false -> trimStart s = s.
Proof.
  destruct s as [|c s]; simpl; [reflexivity|]. now intros ->.
Qed.

Lemma trimStart_start s : startsWithWhiteSpace (trimStart s) = false.
Proof.
  induction s as [|c s IH]; simpl; [reflexivity|].
  destruct (isWhiteSpace c) eqn:Hc; [exact IH | simpl; exact Hc].
Qed.

Lemma trimEnd_idempotent s : trimEnd (trimEnd s) = trimEnd s.
Proof.
  destruct (trimEnd_split s) as [r [Hs Hr]].
  induction s as [|c s IH] in r, Hs, Hr |- *; simpl; [reflexivity|].
  destruct (isWhiteSpace c && allWhiteSpace s) eqn:E; [reflexivity|].
  simpl. simpl in Hs. rewrite E in Hs. simpl in Hs.
  injection Hs as Hs.
  assert (Ha : allWhiteSpace (trimEnd s) = false \/ isWhiteSpace c = false).
  { destruct (isWhiteSpace c) eqn:Hc; [left | now right].
    simpl in E. destruct (allWhiteSpace (trimEnd s)) eqn:Ht; [|reflexivity].
    rewrite Hs, allWhiteSpace_app, Ht, Hr in E. discriminate E. }
  rewrite (IH r Hs Hr).
  destruct Ha as [Ha|Ha]; rewrite Ha; [now rewrite andb_false_r | reflexivity].
Qed.

Lemma trim_idempotent s : trim (trim s) = trim s.
Proof.
  unfold trim.
  rewrite (trimStart_clean (trimEnd (trimStart s))).
  - apply trimEnd_idempotent.
  - apply startsWithWhiteSpace_trimEnd, trimStart_start.
Qed.

Lemma collapseFrom_spaced b s :
  spaced s = true -> (b = true -> startsWithWhiteSpace s = false) ->
  collapseFrom b s = s.
Proof.
  revert b. induction s as [|c s IH]; intros b; simpl; [reflexivity|].
  intros H Hb. apply andb_true_iff in H as [Hc Hs].
  destruct (isWhiteSpace c) eqn:E.
  - destruct b; [now specialize (Hb eq_refl)|].
    apply andb_true_iff in Hc as [Hsp Hst].
    apply Ascii.eqb_eq in Hsp. subst c.
    rewrite IH; auto. intros _. now apply negb_true_iff.
  - rewrite IH; auto. discriminate.
Qed.

Lemma trim_empty s : trim s = EmptyString <-> allWhiteSpace s = true.
Proof.
  split.
  - intros H. destruct (trim_split s) as (l & r & Hs & Hl & Hr).
    rewrite H in Hs. simpl in Hs. rewrite Hs, allWhiteSpace_app, Hl, Hr.
    reflexivity.
  - intros H. unfold trim.
    destruct (trimStart_split s) as [l [Hs Hl]].
    apply allWhiteSpace_trimEnd.
    rewrite Hs, allWhiteSpace_app in H. now apply andb_true_iff in H as [_ H].
Qed.

Lemma collapseFrom_empty b s :
  collapseFrom b s = EmptyString -> allWhiteSpace s = true.
Proof.
  revert b. induction s as [|c s IH]; intros b; simpl; [reflexivity|].
  destruct (isWhiteSpace c); [|discriminate].
  destruct b; [apply IH | discriminate].
Qed.

(** *** Content *)

Lemma dropWhiteSpace_app a b :
  dropWhiteSpace (a ++ b) = dropWhiteSpace a ++ dropWhiteSpace b.
Proof.
  induction a as [|c a IH]; simpl; [reflexivity|].
  destruct (isWhiteSpace c); simpl; now rewrite IH.
Qed.

Lemma dropWhiteSpace_blank s :
  allWhiteSpace s = true -> dropWhiteSpace s = EmptyString.
Proof.
  induction s as [|c s IH]; simpl; [reflexivity|].
  intros H. apply andb_true_iff in H as [-> Hs]. now apply IH.
Qed.

Lemma hasLF_app a b : hasLF (a ++ b) = hasLF a || hasLF b.
Proof.
  induction a as [|c a IH]; simpl; [reflexivity|].
  now rewrite IH, orb_assoc.
Qed.

End TextFacts.

Module CleanupFacts.
Import JsString JsPattern JsStringFacts PatternFacts TextFacts.

Lemma dropWhiteSpace_collapseFrom b s :
  dropWhiteSpace (collapseFrom b s) = dropWhiteSpace s.
Proof.
  revert b. induction s as [|c s IH]; intros b; simpl; [reflexivity|].
  destruct (isWhiteSpace c) eqn:Hc.
  - destruct b; simpl; apply IH.
  - simpl. now rewrite Hc, IH.
Qed.

Lemma dropWhiteSpace_trim s : dropWhiteSpace (trim s) = dropWhiteSpace s.
Proof.
  destruct (trim_split s) as (l & r & Hs & Hl & Hr).
  rewrite Hs at 2. rewrite !dropWhiteSpace_app.
  rewrite (dropWhiteSpace_blank l Hl), (dropWhiteSpace_blank r Hr).
  simpl. now rewrite string_app_nil_r.
Qed.

(** *** Tags inside a text *)

Lemma hasLt_stripTags a r :
  hasLt a = false -> stripTagsFrom false (a ++ r) = a ++ stripTagsFrom false r.
Proof.
  induction a as [|c a IH]; simpl; [reflexivity|].
  intros H. apply orb_false_iff in H as [Hc Ha].
  rewrite Hc. simpl. now rewrite IH.
Qed.

Lemma stripTagsFrom_inside tag close rest :
  hasGt tag = false -> BrPattern.isGt close = true ->
  stripTagsFrom true (tag ++ String close rest) = stripTagsFrom false rest.
Proof.
  intros Ht Hclose. induction tag as [|c tag IH]; simpl.
  - now rewrite Hclose.
  - simpl in Ht. apply orb_false_iff in Ht as [Hc Ht].
    rewrite Hc. now apply IH.
Qed.

(** What [stripTagsFrom] makes of a prefix depends on the rest only
    through whether a [>] follows. *)
Lemma stripTagsFrom_prefix st a r r' :
  hasGt r = hasGt r' ->
  exists pre st',
    stripTagsFrom st (a ++ r) = pre ++ stripTagsFrom st' r /\
    stripTagsFrom st (a ++ r') = pre ++ stripTagsFrom st' r'.
Proof.
  intros Hr. revert st. induction a as [|c a IH]; intros st; simpl.
  - exists EmptyString, st. auto.
  - destruct st.
    + destruct (BrPattern.isGt c); apply IH.
    + rewrite !hasGt_app, Hr.
      destruct (BrPattern.isLt c && (hasGt a || hasGt r')); [apply IH|].
      destruct (IH false) as (pre & st' & H1 & H2).
      exists (String c pre), st'. simpl. now rewrite H1, H2.
Qed.

Lemma stripTagsFrom_whiteSpace st ws rest :
  allWhiteSpace ws = true ->
  stripTagsFrom st (ws ++ rest)
  = (if st then EmptyString else ws) ++ stripTagsFrom st rest.
Proof.
  intros H. induction ws as [|c ws IH]; simpl.
  - now destruct st.
  - simpl in H. apply andb_true_iff in H as [Hc Hws].
    destruct (whiteSpace_not_mark c Hc) as [Hlt Hgt].
    rewrite Hlt, Hgt. simpl. specialize (IH Hws).
    destruct st; simpl in *; now rewrite IH.
Qed.

(** *** Runs of white space inside a text *)

Lemma collapseFrom_run b ws rest :
  allWhiteSpace ws = true -> ws <> EmptyString ->
  collapseFrom b (ws ++ rest)
  = (if b then EmptyString else " ") ++ collapseFrom true rest.
Proof.
  revert b. induction ws as [|c ws IH]; intros b H Hne; [congruence|].
  simpl in H. apply andb_true_iff in H as [Hc Hws].
  simpl. rewrite Hc.
  destruct ws as [|d ws].
  - simpl. now destruct b.
  - rewrite (IH true Hws) by discriminate. now destruct b.
Qed.

Lemma collapseFrom_run_inside b pre ws ws' rest :
  allWhiteSpace ws = true -> ws <> EmptyString ->
  allWhiteSpace ws' = true -> ws' <> EmptyString ->
  collapseFrom b (pre ++ ws ++ rest) = collapseFrom b (pre ++ ws' ++ rest).
Proof.
  intros H Hne H' Hne'. revert b.
  induction pre as [|c pre IH]; intros b; simpl.
  - now rewrite !collapseFrom_run.
  - destruct (isWhiteSpace c); [destruct b|]; now rewrite IH.
Qed.

(** *** Splitting into paragraphs *)

Lemma splitFrom_noLF piece ws sawLF s :
  hasLF piece = false -> (sawLF = false -> hasLF ws = false) ->
  Forall (fun p => hasLF p = false) (splitFrom piece ws sawLF s).
Proof.
  revert piece ws sawLF. induction s as [|c s IH]; intros piece ws sawLF Hp Hw.
  - simpl. destruct sawLF.
    + repeat constructor. exact Hp.
    + repeat constructor. rewrite hasLF_app, Hp. now apply Hw.
  - simpl. destruct (isWhiteSpace c) eqn:Hc.
    + apply IH; [exact Hp|].
      intros H. apply orb_false_iff in H as [Hs Hlf].
      rewrite hasLF_app, (Hw Hs). simpl. now rewrite Hlf.
    + assert (Hlf : Ascii.eqb c LF = false).
      { destruct (Ascii.eqb c LF) eqn:E; [|reflexivity].
        apply LF_whiteSpace in E. congruence. }
      destruct sawLF.
      * constructor; [exact Hp|]. apply IH; [|reflexivity].
        simpl. now rewrite Hlf.
      * apply IH; [|reflexivity].
        rewrite !hasLF_app, Hp, (Hw eq_refl). simpl. now rewrite Hlf.
Qed.

Lemma splitFrom_content piece ws sawLF s :
  allWhiteSpace ws = true ->
  dropWhiteSpace (concatAll (splitFrom piece ws sawLF s))
  = dropWhiteSpace (piece ++ s).
Proof.
  revert piece ws sawLF. induction s as [|c s IH]; intros piece ws sawLF Hw.
  - simpl. destruct sawLF; simpl.
    + reflexivity.
    + rewrite !string_app_nil_r, dropWhiteSpace_app.
      now rewrite (dropWhiteSpace_blank ws Hw), string_app_nil_r.
  - simpl. destruct (isWhiteSpace c) eqn:Hc.
    + rewrite IH.
      * rewrite !dropWhiteSpace_app. simpl. now rewrite Hc.
      * rewrite allWhiteSpace_app, Hw. simpl. now rewrite Hc.
    + destruct sawLF.
      * simpl. rewrite dropWhiteSpace_app, IH by reflexivity.
        now rewrite (dropWhiteSpace_app piece (String c s)).
      * rewrite IH by reflexivity.
        rewrite !dropWhiteSpace_app, (dropWhiteSpace_blank ws Hw). simpl.
        rewrite Hc. now rewrite string_app_assoc.
Qed.

Lemma splitLines_all_blank s :
  allWhiteSpace s = true ->
  Forall (fun p => allWhiteSpace p = true) (splitLines s).
Proof.
  unfold splitLines.
  assert (H : forall ws sawLF,
            allWhiteSpace ws = true -> allWhiteSpace s = true ->
            Forall (fun p => allWhiteSpace p = true)
                   (splitFrom EmptyString ws sawLF s)).
  { induction s as [|c s IH]; intros ws sawLF Hw Hs; simpl.
    - destruct sawLF; repeat constructor. exact Hw.
    - simpl in Hs. apply andb_true_iff in Hs as [Hc Hs]. rewrite Hc.
      apply IH; [|exact Hs].
      rewrite allWhiteSpace_app, Hw. simpl. now rewrite Hc. }
  intros Hs. now apply H.
Qed.

Lemma nonBlank_test p :
  truthy (collapseWhiteSpace (trim p)) = negb (allWhiteSpace p).
Proof.
  unfold truthy, collapseWhiteSpace.
  destruct (allWhiteSpace p) eqn:Hp.
  - apply trim_empty in Hp. now rewrite Hp.
  - simpl. apply negb_true_iff. apply String.eqb_neq. intros H.
    apply collapseFrom_empty in H. apply trim_empty in H.
    rewrite trim_idempotent in H. apply trim_empty in H. congruence.
Qed.

Lemma concatAll_filter_blank pieces :
  dropWhiteSpace (concatAll (filter (fun p => negb (allWhiteSpace p)) pieces))
  = dropWhiteSpace (concatAll pieces).
Proof.
  induction pieces as [|p pieces IH]; simpl; [reflexivity|].
  destruct (allWhiteSpace p) eqn:Hp; simpl.
  - rewrite dropWhiteSpace_app, (dropWhiteSpace_blank p Hp). exact IH.
  - now rewrite !dropWhiteSpace_app, IH.
Qed.

Lemma dropWhiteSpace_join sep pieces :
  allWhiteSpace sep = true ->
  dropWhiteSpace (join sep pieces) = dropWhiteSpace (concatAll pieces).
Proof.
  intros Hsep. induction pieces as [|p pieces IH]; [reflexivity|].
  destruct pieces as [|q pieces].
  - simpl. now rewrite string_app_nil_r.
  - change (join sep (p :: q :: pieces)) with (p ++ sep ++ join sep (q :: pieces)).
    change (concatAll (p :: q :: pieces)) with (p ++ concatAll (q :: pieces)).
    rewrite !dropWhiteSpace_app, (dropWhiteSpace_blank sep Hsep), IH.
    reflexivity.
Qed.

End CleanupFacts.

Module CleanupResults.
Import JsString JsPattern JsStringFacts PatternFacts TextFacts CleanupFacts.

Lemma cleanupMessage_clean message : hasTag (cleanupMessage message) = false.
Proof.
  unfold cleanupMessage, collapseWhiteSpace, stripTags.
  rewrite hasTag_trim, hasTag_collapseFrom. apply stripTagsFrom_clean.
Qed.

Lemma cleanupMessage_trimmed message :
  trim (cleanupMessage message) = cleanupMessage message.
Proof. unfold cleanupMessage. apply trim_idempotent. Qed.

Lemma cleanupMessage_spaced message : spaced (cleanupMessage message) = true.
Proof.
  unfold cleanupMessage, trim, collapseWhiteSpace.
  apply spaced_trimEnd, spaced_trimStart, spaced_collapseFrom.
Qed.

Lemma cleanupMessage_fixed text :
  hasTag text = false -> trim text = text -> spaced text = true ->
  cleanupMessage text = text.
Proof.
  intros Htag Htrim Hspaced. unfold cleanupMessage, stripTags.
  rewrite (stripTags_none text Htag). unfold collapseWhiteSpace.
  rewrite (collapseFrom_spaced false text Hspaced) by discriminate.
  exact Htrim.
Qed.

Lemma generateCleanedUpText_blank mcaps html :
  allWhiteSpace html = true -> generateCleanedUpText mcaps html = EmptyString.
Proof.
  intros H. unfold generateCleanedUpText.
  apply trim_empty in H. now rewrite H.
Qed.

Lemma generateCleanedUpText_text mcaps html :
  allWhiteSpace html = false ->
  generateCleanedUpText mcaps html
  = join paragraphSeparator
      (filter (fun p => negb (allWhiteSpace p))
              (splitLines (htmlToTextUnwrapped mcaps html))).
Proof.
  intros H. unfold generateCleanedUpText.
  assert (Ht : truthy (trim html) = true).
  { unfold truthy. apply negb_true_iff, String.eqb_neq. intros E.
    apply trim_empty in E. congruence. }
  rewrite Ht. cbn [negb]. f_equal.
  apply filter_ext. intros p. apply nonBlank_test.
Qed.

End CleanupResults.

(** X1.  What [cleanupMessage] returns holds nothing the tag pattern
    matches, has no white space at either end, has only single spaces as
    white space, and keeps, in order, every character of the message that is
    neither white space nor part of a tag. *)
Theorem cleanupMessage_normal_form message :
  hasTag (cleanupMessage message) = false /\
  JsString.trim (cleanupMessage message) = cleanupMessage message /\
  spaced (cleanupMessage message) = true /\
  dropWhiteSpace (cleanupMessage message)
  = dropWhiteSpace (JsPattern.stripTags message).
Proof.
  split; [apply CleanupResults.cleanupMessage_clean|].
  split; [apply CleanupResults.cleanupMessage_trimmed|].
  split; [apply CleanupResults.cleanupMessage_spaced|].
  unfold cleanupMessage, JsPattern.collapseWhiteSpace.
  now rewrite CleanupFacts.dropWhiteSpace_trim,
    CleanupFacts.dropWhiteSpace_collapseFrom.
Qed.

(** X2.  [cleanupMessage] is idempotent: a cleaned-up message is its own
    cleaned-up form, so the comparison [createReply] makes between a draft
    and a reply is a comparison of canonical forms. *)
Theorem cleanupMessage_idempotent message :
  cleanupMessage (cleanupMessage message) = cleanupMessage message.
Proof.
  apply CleanupResults.cleanupMessage_fixed.
  - apply CleanupResults.cleanupMessage_clean.
  - apply CleanupResults.cleanupMessage_trimmed.
  - apply CleanupResults.cleanupMessage_spaced.
Qed.

(** X3.  A tag does not count: where the text before holds no [<] and the
    tag's inside holds no [>], the message with the tag and the message
    without it clean up to the same text. *)
Theorem cleanupMessage_ignores_tag before tag after :
  hasLt before = false -> JsPattern.hasGt tag = false ->
  cleanupMessage (before ++ "<" ++ tag ++ ">" ++ after)
  = cleanupMessage (before ++ after).
Proof.
  intros Hbefore Htag. unfold cleanupMessage, JsPattern.stripTags.
  rewrite (CleanupFacts.hasLt_stripTags before _ Hbefore).
  rewrite (CleanupFacts.hasLt_stripTags before after Hbefore).
  assert (H : JsPattern.stripTagsFrom false ("<" ++ tag ++ ">" ++ after)
              = JsPattern.stripTagsFrom false after).
  { change ("<" ++ tag ++ ">" ++ after)
      with (String "<" (tag ++ String ">" after)).
    cbn [JsPattern.stripTagsFrom].
    rewrite TextFacts.hasGt_app. cbn [JsPattern.hasGt].
    replace (BrPattern.isLt "<") with true by reflexivity.
    replace (BrPattern.isGt ">") with true by reflexivity.
    cbn [orb andb]. rewrite orb_true_r.
    now apply CleanupFacts.stripTagsFrom_inside. }
  now rewrite H.
Qed.

Lemma cleanupMessage_ignores_tag_witness :
  cleanupMessage ("Hello " ++ "<" ++ "b class=x" ++ ">" ++ "world")
  = cleanupMessage ("Hello " ++ "world").
Proof.
  apply (cleanupMessage_ignores_tag "Hello " "b class=x" "world"); reflexivity.
Defined.

(** X4.  The amount and kind of white space do not count: replacing a run
    of white space by another run gives a message that cleans up to the same
    text. *)
Theorem cleanupMessage_ignores_white_space before ws ws' after :
  JsString.allWhiteSpace ws = true -> ws <> "" ->
  JsString.allWhiteSpace ws' = true -> ws' <> "" ->
  cleanupMessage (before ++ ws ++ after)
  = cleanupMessage (before ++ ws' ++ after).
Proof.
  intros Hws Hne Hws' Hne'. unfold cleanupMessage, JsPattern.stripTags.
  destruct (CleanupFacts.stripTagsFrom_prefix false before
              (ws ++ after) (ws' ++ after)) as (pre & st & H1 & H2).
  { rewrite !TextFacts.hasGt_app.
    now rewrite (TextFacts.allWhiteSpace_hasGt ws Hws),
      (TextFacts.allWhiteSpace_hasGt ws' Hws'). }
  rewrite H1, H2.
  rewrite !CleanupFacts.stripTagsFrom_whiteSpace by assumption.
  destruct st; [reflexivity|].
  f_equal. unfold JsPattern.collapseWhiteSpace.
  now apply CleanupFacts.collapseFrom_run_inside.
Qed.

Lemma cleanupMessage_ignores_white_space_witness :
  cleanupMessage ("Hello" ++ " " ++ "world")
  = cleanupMessage ("Hello" ++ String JsString.LF "   " ++ "world").
Proof.
  apply (cleanupMessage_ignores_white_space "Hello" " "
           (String JsString.LF "   ") "world");
    first [reflexivity | discriminate].
Defined.

(** X5.  [generateCleanedUpText] returns paragraphs joined by one empty
    line: no paragraph holds a line feed or is blank, and the characters
    other than white space are those of the converted text, in order; for a
    blank document it returns the empty string. *)
Theorem generateCleanedUpText_paragraphs mcaps html :
  exists paragraphs,
    generateCleanedUpText mcaps html
    = JsString.join paragraphSeparator paragraphs /\
    Forall (fun p => hasLF p = false /\ JsString.allWhiteSpace p = false)
           paragraphs /\
    dropWhiteSpace (generateCleanedUpText mcaps html)
    = (if JsString.allWhiteSpace html then ""
       else dropWhiteSpace (htmlToTextUnwrapped mcaps html)).
Proof.
  destruct (JsString.allWhiteSpace html) eqn:Hblank.
  - exists []. rewrite (CleanupResults.generateCleanedUpText_blank _ _ Hblank).
    repeat split. constructor.
  - rewrite (CleanupResults.generateCleanedUpText_text _ _ Hblank).
    eexists. split; [reflexivity|]. split.
    + apply Forall_forall. intros p Hp. apply filter_In in Hp as [Hin Hp].
      split; [|now apply negb_true_iff].
      pose proof (CleanupFacts.splitFrom_noLF "" "" false
                    (htmlToTextUnwrapped mcaps html) eq_refl (fun _ => eq_refl))
        as Hall.
      rewrite Forall_forall in Hall. now apply Hall.
    + rewrite CleanupFacts.dropWhiteSpace_join by reflexivity.
      rewrite CleanupFacts.concatAll_filter_blank.
      unfold JsPattern.splitLines.
      now rewrite CleanupFacts.splitFrom_content.
Qed.

(** ** Stored texts and drafts *)

#[local] Hint Unfold updateMessages getLastAiGeneratedDraft
  discardAiGeneratedDrafts getConversationById getConversationMessageById
  : frames.

Lemma find_message_map (f : ConversationMessage.t -> ConversationMessage.t)
    id rows :
  (forall m, ConversationMessage.id (f m) = ConversationMessage.id m) ->
  find (fun m => ConversationMessage.id m =? id) (map f rows)
  = option_map f (find (fun m => ConversationMessage.id m =? id) rows).
Proof.
  intros Hf. induction rows as [|r rows IH]; simpl; [reflexivity|].
  rewrite Hf. destruct (ConversationMessage.id r =? id); [reflexivity | exact IH].
Qed.

Lemma updated_ids (where_ : ConversationMessage.t -> bool) set rows :
  (forall m, ConversationMessage.id (set m) = ConversationMessage.id m) ->
  map ConversationMessage.id (map (fun m => if where_ m then set m else m) rows)
  = map ConversationMessage.id rows.
Proof.
  intros Hs. rewrite map_map. apply map_ext. intros m.
  destruct (where_ m); [apply Hs | reflexivity].
Qed.

Lemma updated_others (where_ : ConversationMessage.t -> bool) set rows m :
  In m rows -> where_ m = false ->
  In m (map (fun m => if where_ m then set m else m) rows).
Proof.
  intros Hin Hw. apply in_map_iff. exists m. now rewrite Hw.
Qed.

Lemma withCleanedUpText_same m text :
  ConversationMessage.cleanedUpText m = Some text ->
  withCleanedUpText (Some text) m = m.
Proof. destruct m; simpl; intros ->; reflexivity. Qed.

Lemma map_unchanged {A} (f : A -> A) rows :
  (forall x, In x rows -> f x = x) -> map f rows = rows.
Proof.
  induction rows as [|r rows IH]; simpl; [reflexivity|].
  intros H. rewrite H by auto. rewrite IH; auto.
Qed.

(** X6.  [ensureCleanedUpText] on a stored message returns the stored text
    and writes nothing when there is one, be it empty; otherwise it returns
    the text generated from the body and stores it on that row only, so
    that the row read back carries the text and a second call returns it
    without writing. *)
Theorem ensureCleanedUpText_backfill mcaps message w :
  storedMessage (ConversationMessage.id message) w = Some message ->
  exists text w',
    ensureCleanedUpText mcaps message w = (Ok text, w') /\
    text = match ConversationMessage.cleanedUpText message with
           | Some cached => cached
           | None =>
               generateCleanedUpText mcaps
                 (orKeep (ConversationMessage.body message) "")
           end /\
    (ConversationMessage.cleanedUpText message <> None -> w' = w) /\
    getConversationMessageById (ConversationMessage.id message) w'
    = (Ok (Some (withCleanedUpText (Some text) message)), w') /\
    ensureCleanedUpText mcaps (withCleanedUpText (Some text) message) w'
    = (Ok text, w') /\
    map ConversationMessage.id (conversationMessages w')
    = map ConversationMessage.id (conversationMessages w) /\
    forall other,
      In other (conversationMessages w) ->
      ConversationMessage.id other <> ConversationMessage.id message ->
      In other (conversationMessages w').
Proof.
  intros Hstored. unfold ensureCleanedUpText at 1.
  destruct (ConversationMessage.cleanedUpText message) as [cached|] eqn:Hc.
  - exists cached, w. split; [reflexivity|]. split; [reflexivity|].
    split; [reflexivity|].
    rewrite (withCleanedUpText_same message cached Hc).
    split; [unfold getConversationMessageById, gets; now rewrite <- Hstored|].
    split; [unfold ensureCleanedUpText; now rewrite Hc|].
    split; [reflexivity | auto].
  - eexists. eexists. split; [reflexivity|]. split; [reflexivity|].
    split; [congruence|].
    split.
    { unfold getConversationMessageById, gets. cbn [conversationMessages
        with_conversationMessages snd]. f_equal. f_equal.
      unfold storedMessage in Hstored.
      rewrite find_message_map.
      - rewrite Hstored. simpl. now rewrite Z.eqb_refl.
      - intros m. now destruct (ConversationMessage.id m =? _). }
    split; [reflexivity|]. split.
    { cbn [conversationMessages with_conversationMessages snd].
      apply updated_ids. reflexivity. }
    intros other Hin Hne. cbn [conversationMessages with_conversationMessages snd].
    apply updated_others; [exact Hin|]. now apply Z.eqb_neq.
Qed.

Lemma ensureCleanedUpText_backfill_witness :
  exists w',
    ensureCleanedUpText Desk.mcaps Desk.question Desk.world
    = (Ok "How do I reset my password?", w') /\
    getConversationMessageById 1 w'
    = (Ok (Some (withCleanedUpText (Some "How do I reset my password?")
                   Desk.question)), w') /\
    In Desk.aiDraft (conversationMessages w').
Proof.
  destruct (ensureCleanedUpText_backfill Desk.mcaps Desk.question Desk.world
              eq_refl)
    as (text & w' & Hrun & Htext & _ & Hread & _ & _ & Hothers).
  exists w'. vm_compute in Htext. subst text.
  split; [exact Hrun|]. split; [exact Hread|].
  apply Hothers; [right; left; reflexivity | discriminate].
Defined.

Lemma isAiDraftOf_iff conversationId m :
  isAiDraftOf conversationId m = true
  <-> ConversationMessage.conversationId m = conversationId /\
      ConversationMessage.role m = ai_assistant /\
      ConversationMessage.status m = Some draft.
Proof.
  unfold isAiDraftOf. rewrite !andb_true_iff, Z.eqb_eq, statusIs_eq.
  destruct (ConversationMessage.role m); simpl; intuition congruence.
Qed.

(** X7.  [getLastAiGeneratedDraft] only reads; what it returns is a stored
    draft of the AI assistant in that conversation than which no other such
    draft is more recent, and it returns null exactly when the conversation
    holds no such draft. *)
Theorem getLastAiGeneratedDraft_latest conversationId w :
  exists lastAiDraft,
    getLastAiGeneratedDraft conversationId w = (Ok lastAiDraft, w) /\
    match lastAiDraft with
    | Some found =>
        In found (conversationMessages w) /\
        ConversationMessage.conversationId found = conversationId /\
        ConversationMessage.role found = ai_assistant /\
        ConversationMessage.status found = Some draft /\
        forall other,
          In other (conversationMessages w) ->
          isAiDraftOf conversationId other = true ->
          ConversationMessage.createdAt other
          <= ConversationMessage.createdAt found
    | None =>
        forall m, In m (conversationMessages w) ->
                  isAiDraftOf conversationId m = false
    end.
Proof.
  unfold getLastAiGeneratedDraft, gets.
  destruct (latest (filter (isAiDraftOf conversationId) (conversationMessages w)))
    as [found|] eqn:E; eexists; (split; [reflexivity|]).
  - pose proof (latest_In _ _ E) as Hin. apply filter_In in Hin as [Hin Hd].
    apply isAiDraftOf_iff in Hd as (Hc & Hr & Hs).
    repeat (split; [assumption|]).
    intros other Ho Hd. apply (latest_most_recent _ _ E).
    apply filter_In. auto.
  - apply latest_None in E. intros m Hin.
    destruct (isAiDraftOf conversationId m) eqn:Hd; [|reflexivity].
    assert (Hf : In m (filter (isAiDraftOf conversationId)
                              (conversationMessages w)))
      by (apply filter_In; auto).
    rewrite E in Hf. contradiction.
Qed.

Lemma isAiDraftOf_discarded other m :
  isAiDraftOf other (withStatus (Some discarded) m) = false.
Proof.
  unfold isAiDraftOf. simpl. apply andb_false_r.
Qed.

Lemma filter_discarded conversationId other rows :
  other <> conversationId ->
  filter (isAiDraftOf other)
    (map (fun m => if isAiDraftOf conversationId m
                   then withStatus (Some discarded) m else m) rows)
  = filter (isAiDraftOf other) rows.
Proof.
  intros Hne. induction rows as [|r rows IH]; simpl; [reflexivity|].
  destruct (isAiDraftOf conversationId r) eqn:Hd.
  - rewrite (isAiDraftOf_discarded other r).
    assert (Ho : isAiDraftOf other r = false).
    { apply isAiDraftOf_iff in Hd as (Hc & _).
      unfold isAiDraftOf. apply Z.eqb_neq in Hne.
      rewrite Hc, Z.eqb_sym, Hne. reflexivity. }
    now rewrite Ho.
  - now rewrite IH.
Qed.

Lemma filter_discarded_same conversationId rows :
  filter (isAiDraftOf conversationId)
    (map (fun m => if isAiDraftOf conversationId m
                   then withStatus (Some discarded) m else m) rows)
  = [].
Proof.
  induction rows as [|r rows IH]; simpl; [reflexivity|].
  destruct (isAiDraftOf conversationId r) eqn:Hd.
  - now rewrite (isAiDraftOf_discarded conversationId r).
  - now rewrite Hd.
Qed.

(** X8.  After [discardAiGeneratedDrafts] the conversation has no last AI
    draft; the rows that were drafts of the AI assistant in that
    conversation are the same rows with status discarded, every other row
    is as it was, the last drafts of the other conversations are the ones
    they had, and discarding again changes nothing. *)
Theorem discardAiGeneratedDrafts_effect conversationId w :
  exists w',
    discardAiGeneratedDrafts conversationId w = (Ok tt, w') /\
    getLastAiGeneratedDraft conversationId w' = (Ok None, w') /\
    map ConversationMessage.id (conversationMessages w')
    = map ConversationMessage.id (conversationMessages w) /\
    (forall m, In m (conversationMessages w) ->
       In (if isAiDraftOf conversationId m
           then withStatus (Some discarded) m else m)
          (conversationMessages w')) /\
    (forall other, other <> conversationId ->
       fst (getLastAiGeneratedDraft other w')
       = fst (getLastAiGeneratedDraft other w)) /\
    discardAiGeneratedDrafts conversationId w' = (Ok tt, w') /\
    conversations w' = conversations w /\ jobs w' = jobs w.
Proof.
  eexists. split; [reflexivity|].
  cbn [conversationMessages with_conversationMessages snd].
  split.
  { unfold getLastAiGeneratedDraft, gets.
    cbn [conversationMessages with_conversationMessages].
    now rewrite filter_discarded_same. }
  split; [apply updated_ids; reflexivity|].
  split; [intros m Hin; now apply (in_map (fun m => if isAiDraftOf conversationId m
                                   then withStatus (Some discarded) m else m))|].
  split.
  { intros other Hne. unfold getLastAiGeneratedDraft, gets.
    cbn [fst conversationMessages with_conversationMessages].
    now rewrite filter_discarded. }
  split; [|split; reflexivity].
  unfold discardAiGeneratedDrafts, updateMessages, modify. f_equal.
  cbn [conversationMessages with_conversationMessages].
  rewrite (map_unchanged _ (map _ (conversationMessages w))); [reflexivity|].
  intros m Hin. apply in_map_iff in Hin as (m0 & <- & _).
  destruct (isAiDraftOf conversationId m0) eqn:Hd.
  - now rewrite (isAiDraftOf_discarded conversationId m0).
  - now rewrite Hd.
Qed.

(** ** Replies *)

Lemma run_Ok {A B} (m : M A) (k : A -> M B) w a :
  fst (m w) = Ok a -> bind m k w = k a (snd (m w)).
Proof.
  intros H. unfold bind. destruct (m w) as [r w1]. simpl in H. now subst r.
Qed.

Lemma assignOnReply_run args c w :
  assignOnReply args c w = (Ok tt, snd (assignOnReply args c w)).
Proof.
  unfold assignOnReply. destruct (ReplyArgs.user args) as [u|]; [|reflexivity].
  destruct (orKeep (ReplyArgs.shouldAutoAssign args) true
            && negb (JsString.truthyOpt (Conversation.assignedToId c)));
    [|reflexivity].
  cbn [when].
  match goal with
  | |- bind (updateConversation ?i ?s ?b ?m ?k) _ ?w0 = _ =>
      destruct (updateConversation_then_ret i s b m k w0) as (r & -> & _)
  end.
  reflexivity.
Qed.

Lemma closeOnReply_run args c w :
  closeOnReply args c w = (Ok tt, snd (closeOnReply args c w)).
Proof.
  unfold closeOnReply.
  destruct (orKeep (ReplyArgs.close args) true
            && negb (ConversationStatus_eqb (Conversation.status c) spam));
    [|reflexivity].
  cbn [when].
  match goal with
  | |- bind (updateConversation ?i ?s ?b ?m ?k) _ ?w0 = _ =>
      destruct (updateConversation_then_ret i s b m k w0) as (r & -> & _)
  end.
  reflexivity.
Qed.

Lemma markPerfectReply_run args row w :
  markPerfectReply args row w = (Ok tt, snd (markPerfectReply args row w)).
Proof.
  unfold markPerfectReply, getLastAiGeneratedDraft. rewrite bind_gets.
  destruct (repliesWithDraft _ _); reflexivity.
Qed.

(** The worlds [createReply] goes through, step by step. *)
Lemma createReplyIn_unfold caps mcaps args c w :
  let w1 := snd (assignOnReply args c w) in
  let emailCc :=
    match ReplyArgs.cc args with
    | Some cc => cc
    | None => getNonSupportParticipants mcaps c w1
    end in
  let row := messageRow (nextMessageId w1) (now w1) (replyValues args emailCc) in
  let w3 := snd (createConversationMessage caps (replyValues args emailCc) w1) in
  let w4 := snd (finishFileUpload (orKeep (ReplyArgs.fileSlugs args) [])
                   (ConversationMessage.id row) w3) in
  let w5 := snd (closeOnReply args c w4) in
  let w6 := snd (markPerfectReply args row w5) in
  let w7 := snd (discardAiGeneratedDrafts (ReplyArgs.conversationId args) w6) in
  createReplyIn caps mcaps args c w = (Ok (ConversationMessage.id row), w7).
Proof.
  intros. unfold createReplyIn.
  rewrite (run_Ok _ _ w tt) by (now rewrite assignOnReply_run).
  fold w1.
  assert (Hcc : forall B (k : list string -> M B),
            bind match ReplyArgs.cc args with
                 | Some cc => ret cc
                 | None => gets (getNonSupportParticipants mcaps c)
                 end k w1 = k emailCc w1).
  { intros B k. subst emailCc. now destruct (ReplyArgs.cc args). }
  rewrite Hcc.
  rewrite (run_Ok _ _ w1 row) by apply createConversationMessage_Ok.
  fold w3.
  rewrite (run_Ok _ _ w3 tt) by reflexivity. fold w4.
  rewrite (run_Ok _ _ w4 tt) by (now rewrite closeOnReply_run). fold w5.
  rewrite (run_Ok _ _ w5 tt) by (now rewrite markPerfectReply_run). fold w6.
  rewrite (run_Ok _ _ w6 tt) by reflexivity. reflexivity.
Qed.

#[local] Hint Unfold assignOnReply closeOnReply markPerfectReply : frames.

Lemma assignOnReply_messages args c :
  preserves conversationMessages (assignOnReply args c).
Proof. frames. Qed.

Lemma assignOnReply_nextMessageId args c :
  preserves nextMessageId (assignOnReply args c).
Proof. frames. Qed.

Lemma assignOnReply_now args c : preserves now (assignOnReply args c).
Proof. frames. Qed.

Lemma assignOnReply_jobs args c : preserves jobs (assignOnReply args c).
Proof. frames. Qed.

Lemma closeOnReply_messages args c :
  preserves conversationMessages (closeOnReply args c).
Proof. frames. Qed.

Lemma closeOnReply_now args c : preserves now (closeOnReply args c).
Proof. frames. Qed.

Lemma markPerfectReply_conversations args row :
  preserves conversations (markPerfectReply args row).
Proof. frames. Qed.

Lemma markPerfectReply_jobs args row : preserves jobs (markPerfectReply args row).
Proof. frames. Qed.

Lemma createReply_found caps mcaps args c w :
  findConversation (ReplyArgs.conversationId args) w = Some c ->
  createReply caps mcaps args w = createReplyIn caps mcaps args c w.
Proof.
  intros Hfind. unfold createReply, getConversationById.
  rewrite bind_gets, Hfind. unfold transaction.
  now rewrite createReplyIn_unfold.
Qed.

Lemma markPerfectReply_messages args row w :
  conversationMessages (snd (markPerfectReply args row w))
  = if repliesWithDraft
         (latest (filter (isAiDraftOf (ReplyArgs.conversationId args))
                         (conversationMessages w)))
         (ReplyArgs.message args)
    then map (fun m => if ConversationMessage.id m =? ConversationMessage.id row
                       then withIsPerfect true m else m)
             (conversationMessages w)
    else conversationMessages w.
Proof.
  unfold markPerfectReply, getLastAiGeneratedDraft. rewrite bind_gets.
  destruct (repliesWithDraft _ _); reflexivity.
Qed.

Lemma replyValues_not_draft conversationId args emailCc id time :
  isAiDraftOf conversationId (messageRow id time (replyValues args emailCc))
  = false.
Proof. unfold isAiDraftOf. simpl. apply andb_false_r. Qed.

(** The same, with the worlds named. *)
Lemma createReplyIn_trace caps mcaps args c w :
  exists w1 w3 w4 w5 w6,
    w1 = snd (assignOnReply args c w) /\
    w3 = snd (createConversationMessage caps
                (replyValues args (replyCopyLine mcaps args c w)) w1) /\
    w4 = snd (finishFileUpload (orKeep (ReplyArgs.fileSlugs args) [])
                (nextMessageId w) w3) /\
    w5 = snd (closeOnReply args c w4) /\
    w6 = snd (markPerfectReply args (replyRow mcaps args c w) w5) /\
    createReplyIn caps mcaps args c w
    = (Ok (nextMessageId w),
       snd (discardAiGeneratedDrafts (ReplyArgs.conversationId args) w6)).
Proof.
  pose proof (createReplyIn_unfold caps mcaps args c w) as H. cbv zeta in H.
  rewrite (assignOnReply_nextMessageId args c w) in H.
  rewrite (assignOnReply_now args c w) in H.
  do 5 eexists. repeat (split; [reflexivity|]). exact H.
Qed.

Lemma createReplyIn_messages caps mcaps args c w :
  createReplyIn caps mcaps args c w
  = (Ok (nextMessageId w), snd (createReplyIn caps mcaps args c w)) /\
  conversationMessages (snd (createReplyIn caps mcaps args c w))
  = map (fun m => if isAiDraftOf (ReplyArgs.conversationId args) m
                  then withStatus (Some discarded) m else m)
      (if repliesWithDraft
            (latest (filter (isAiDraftOf (ReplyArgs.conversationId args))
                            (conversationMessages w)))
            (ReplyArgs.message args)
       then map (fun m => if ConversationMessage.id m =? nextMessageId w
                          then withIsPerfect true m else m)
                (conversationMessages w ++ [replyRow mcaps args c w])%list
       else (conversationMessages w ++ [replyRow mcaps args c w])%list).
Proof.
  destruct (createReplyIn_trace caps mcaps args c w)
    as (w1 & w3 & w4 & w5 & w6 & E1 & E3 & E4 & E5 & E6 & H).
  rewrite H. cbn [fst snd]. split; [reflexivity|].
  assert (H1 : conversationMessages w1 = conversationMessages w)
    by (rewrite E1; apply assignOnReply_messages).
  assert (H3 : conversationMessages w3
               = (conversationMessages w ++ [replyRow mcaps args c w])%list).
  { rewrite E3, createConversationMessage_messages, H1, E1.
    unfold replyRow.
    now rewrite (assignOnReply_nextMessageId args c w),
      (assignOnReply_now args c w). }
  assert (H4 : conversationMessages w4 = conversationMessages w3)
    by (rewrite E4; reflexivity).
  assert (H5 : conversationMessages w5 = conversationMessages w4)
    by (rewrite E5; apply closeOnReply_messages).
  change (conversationMessages
            (snd (discardAiGeneratedDrafts (ReplyArgs.conversationId args) w6)))
    with (map (fun m => if isAiDraftOf (ReplyArgs.conversationId args) m
                        then withStatus (Some discarded) m else m)
              (conversationMessages w6)).
  f_equal. rewrite E6, markPerfectReply_messages, H5, H4, H3.
  rewrite filter_app. cbn [filter]. unfold replyRow at 1.
  rewrite replyValues_not_draft, app_nil_r.
  reflexivity.
Qed.

Lemma updateConversation_jobs_closed id set by_ msg skip w :
  ConversationUpdate.status set = Some closed ->
  exists extra,
    jobs (snd (updateConversation id set by_ msg skip w))
    = (jobs w ++ extra)%list /\
    Forall (fun j => Job.event j = conversations_embedding_create) extra.
Proof.
  intros Hset. unfold updateConversation. rewrite bind_gets.
  destruct (findConversation id w) as [current|];
    [|exists []; split; [now rewrite app_nil_r | constructor]].
  rewrite bind_gets, bind_modify, bind_modify.
  cbn [applyUpdate Conversation.status Conversation.slug]. rewrite Hset.
  cbn [orKeep].
  destruct (ConversationStatus_eqb (Conversation.status current) closed);
    destruct skip; cbn;
    first [ exists []; split; [now rewrite app_nil_r | constructor]
          | eexists; split; [reflexivity | repeat constructor] ].
Qed.

Lemma closeOnReply_jobs args c w :
  exists extra,
    jobs (snd (closeOnReply args c w)) = (jobs w ++ extra)%list /\
    Forall (fun j => Job.event j = conversations_embedding_create) extra.
Proof.
  unfold closeOnReply.
  destruct (orKeep (ReplyArgs.close args) true
            && negb (ConversationStatus_eqb (Conversation.status c) spam));
    [|exists []; split; [now rewrite app_nil_r | constructor]].
  cbn [when].
  match goal with
  | |- context [bind (updateConversation ?i ?s ?b ?m ?k) _ ?w0] =>
      destruct (updateConversation_then_ret i s b m k w0) as (r & -> & _);
      destruct (updateConversation_jobs_closed i s b m k w0 eq_refl)
        as (extra & He & Hall)
  end.
  exists extra. split; [exact He | exact Hall].
Qed.

Lemma createReplyIn_jobs caps mcaps args c w :
  exists extra,
    jobs (snd (createReplyIn caps mcaps args c w))
    = (jobs w ++ payloadsOfEvents caps (replyRow mcaps args c w) ++ extra)%list /\
    Forall (fun j => Job.event j = conversations_embedding_create) extra.
Proof.
  destruct (createReplyIn_trace caps mcaps args c w)
    as (w1 & w3 & w4 & w5 & w6 & E1 & E3 & E4 & E5 & E6 & H).
  rewrite H. cbn [snd].
  assert (H1 : jobs w1 = jobs w) by (rewrite E1; apply assignOnReply_jobs).
  assert (H3 : jobs w3
               = (jobs w ++ payloadsOfEvents caps (replyRow mcaps args c w))%list).
  { rewrite E3, createConversationMessage_jobs, H1, E1.
    unfold replyRow.
    now rewrite (assignOnReply_nextMessageId args c w),
      (assignOnReply_now args c w). }
  assert (H4 : jobs w4 = jobs w3) by (rewrite E4; reflexivity).
  destruct (closeOnReply_jobs args c w4) as (extra & H5 & Hall).
  rewrite <- E5 in H5.
  assert (H6 : jobs w6 = jobs w5) by (rewrite E6; apply markPerfectReply_jobs).
  exists extra. split; [|exact Hall].
  change (jobs (snd (discardAiGeneratedDrafts (ReplyArgs.conversationId args) w6)))
    with (jobs w6).
  now rewrite H6, H5, H4, H3, app_assoc.
Qed.

Lemma assignOnReply_conversations args c w :
  conversations (snd (assignOnReply args c w))
  = match ReplyArgs.user args with
    | Some user_ =>
        if orKeep (ReplyArgs.shouldAutoAssign args) true
           && negb (JsString.truthyOpt (Conversation.assignedToId c))
        then updateRows (ReplyArgs.conversationId args)
               {| ConversationUpdate.status := None;
                  ConversationUpdate.assignedToId :=
                    Some (Some (BasicUserProfile.id user_));
                  ConversationUpdate.assignedToAI := Some false;
                  ConversationUpdate.lastMessageAt := None;
                  ConversationUpdate.lastUserEmailCreatedAt := None;
                  ConversationUpdate.lastReadAt := None |}
               (now w) (conversations w)
        else conversations w
    | None => conversations w
    end.
Proof.
  unfold assignOnReply. destruct (ReplyArgs.user args) as [u|]; [|reflexivity].
  destruct (orKeep (ReplyArgs.shouldAutoAssign args) true
            && negb (JsString.truthyOpt (Conversation.assignedToId c)));
    [|reflexivity].
  cbn [when].
  match goal with
  | |- context [bind (updateConversation ?i ?s ?b ?m ?k) _ ?w0] =>
      destruct (updateConversation_then_ret i s b m k w0) as (r & -> & _)
  end.
  cbn [snd]. apply updateConversation_conversations.
Qed.

Lemma closeOnReply_conversations args c w :
  conversations (snd (closeOnReply args c w))
  = if orKeep (ReplyArgs.close args) true
       && negb (ConversationStatus_eqb (Conversation.status c) spam)
    then updateRows (ReplyArgs.conversationId args)
           {| ConversationUpdate.status := Some closed;
              ConversationUpdate.assignedToId := None;
              ConversationUpdate.assignedToAI := None;
              ConversationUpdate.lastMessageAt := None;
              ConversationUpdate.lastUserEmailCreatedAt := None;
              ConversationUpdate.lastReadAt := None |}
           (now w) (conversations w)
    else conversations w.
Proof.
  unfold closeOnReply.
  destruct (orKeep (ReplyArgs.close args) true
            && negb (ConversationStatus_eqb (Conversation.status c) spam));
    [|reflexivity].
  cbn [when].
  match goal with
  | |- context [bind (updateConversation ?i ?s ?b ?m ?k) _ ?w0] =>
      destruct (updateConversation_then_ret i s b m k w0) as (r & -> & _)
  end.
  cbn [snd]. apply updateConversation_conversations.
Qed.

(** The row of the conversation after the reply. *)
Lemma createReplyIn_conversation caps mcaps args c w :
  findConversation (ReplyArgs.conversationId args) w = Some c ->
  exists c',
    findConversation (ReplyArgs.conversationId args)
      (snd (createReplyIn caps mcaps args c w)) = Some c' /\
    Conversation.status c'
    = (if orKeep (ReplyArgs.close args) true
          && negb (ConversationStatus_eqb (Conversation.status c) spam)
       then closed else Conversation.status c) /\
    Conversation.assignedToId c'
    = match ReplyArgs.user args with
      | Some user_ =>
          if orKeep (ReplyArgs.shouldAutoAssign args) true
             && negb (JsString.truthyOpt (Conversation.assignedToId c))
          then Some (BasicUserProfile.id user_)
          else Conversation.assignedToId c
      | None => Conversation.assignedToId c
      end /\
    Conversation.assignedToAI c'
    = match ReplyArgs.user args with
      | Some user_ =>
          if orKeep (ReplyArgs.shouldAutoAssign args) true
             && negb (JsString.truthyOpt (Conversation.assignedToId c))
          then false
          else Conversation.assignedToAI c
      | None => Conversation.assignedToAI c
      end /\
    Conversation.lastMessageAt c' = Some (now w).
Proof.
  intros Hfind.
  destruct (createReplyIn_trace caps mcaps args c w)
    as (w1 & w3 & w4 & w5 & w6 & E1 & E3 & E4 & E5 & E6 & H).
  rewrite H. cbn [snd]. clear H.
  assert (N1 : now w1 = now w) by (rewrite E1; apply assignOnReply_now).
  assert (N3 : now w3 = now w)
    by (rewrite E3, (createConversationMessage_now caps _ w1); exact N1).
  assert (N4 : now w4 = now w) by (rewrite E4; exact N3).
  assert (H1 := assignOnReply_conversations args c w). rewrite <- E1 in H1.
  assert (H3 := createConversationMessage_conversations caps
                  (replyValues args (replyCopyLine mcaps args c w)) w1).
  rewrite <- E3, N1 in H3.
  assert (H4 : conversations w4 = conversations w3) by (rewrite E4; reflexivity).
  assert (H5 := closeOnReply_conversations args c w4).
  rewrite <- E5, N4 in H5.
  assert (H6 : conversations w6 = conversations w5)
    by (rewrite E6; apply markPerfectReply_conversations).
  unfold findConversation in *.
  change (conversations
            (snd (discardAiGeneratedDrafts (ReplyArgs.conversationId args) w6)))
    with (conversations w6).
  rewrite H6, H5, H4, H3, H1.
  cbn [replyValues NewConversationMessage.conversationId
       NewConversationMessage.role].
  pose proof (proj2 (find_some _ _ Hfind)) as Hid. cbv beta in Hid.
  destruct (ReplyArgs.user args) as [u|];
    destruct (orKeep (ReplyArgs.close args) true
              && negb (ConversationStatus_eqb (Conversation.status c) spam));
    try destruct (orKeep (ReplyArgs.shouldAutoAssign args) true
                  && negb (JsString.truthyOpt (Conversation.assignedToId c)));
    rewrite ?find_updateRows, Hfind;
    repeat first [ rewrite Hid
                 | progress cbn [option_map applyUpdate Conversation.id] ];
    eexists; (split; [reflexivity|]); cbn; auto.
Qed.

Lemma find_fresh_message w row :
  messageIdsBelow w ->
  ConversationMessage.id row = nextMessageId w ->
  find (fun m => ConversationMessage.id m =? nextMessageId w)
       (conversationMessages w ++ [row]) = Some row.
Proof.
  unfold messageIdsBelow. intros Hbelow Hid.
  induction (conversationMessages w) as [|r rows IH]; simpl.
  - now rewrite Hid, Z.eqb_refl.
  - inversion Hbelow as [|? ? Hr Hrows]; subst.
    destruct (Z.eqb_spec (ConversationMessage.id r) (nextMessageId w)); [lia|].
    now apply IH.
Qed.

Lemma withStatus_id s m :
  ConversationMessage.id (withStatus s m) = ConversationMessage.id m.
Proof. reflexivity. Qed.

Lemma withIsPerfect_id b m :
  ConversationMessage.id (withIsPerfect b m) = ConversationMessage.id m.
Proof. reflexivity. Qed.

(** The reply as it is stored when [createReply] returns. *)
Lemma createReplyIn_stored caps mcaps args c w :
  messageIdsBelow w ->
  storedMessage (nextMessageId w) (snd (createReplyIn caps mcaps args c w))
  = Some (withIsPerfect
            (repliesWithDraft
               (latest (filter (isAiDraftOf (ReplyArgs.conversationId args))
                               (conversationMessages w)))
               (ReplyArgs.message args))
            (replyRow mcaps args c w)).
Proof.
  intros Hbelow.
  destruct (createReplyIn_messages caps mcaps args c w) as (_ & Hm).
  unfold storedMessage. rewrite Hm.
  rewrite find_message_map
    by (intros m; destruct (isAiDraftOf _ m); reflexivity).
  assert (Hid : ConversationMessage.id (replyRow mcaps args c w)
                = nextMessageId w) by reflexivity.
  assert (Hrow : forall b,
            isAiDraftOf (ReplyArgs.conversationId args)
              (withIsPerfect b (replyRow mcaps args c w)) = false).
  { intros b. unfold isAiDraftOf. simpl. apply andb_false_r. }
  assert (Hrow' : isAiDraftOf (ReplyArgs.conversationId args)
                    (replyRow mcaps args c w) = false)
    by apply replyValues_not_draft.
  destruct (repliesWithDraft _ _).
  - rewrite find_message_map
      by (intros m; destruct (ConversationMessage.id m =? _); reflexivity).
    rewrite find_fresh_message by auto.
    cbn [option_map]. now rewrite Hid, Z.eqb_refl, Hrow.
  - rewrite find_fresh_message by auto.
    cbn [option_map]. rewrite Hrow'. reflexivity.
Qed.

(** X9.  [createReply] throws "Conversation not found" and writes nothing
    when the conversation does not exist.  Otherwise it returns the id of
    the message it stored: a message of the conversation with status
    queueing, the given role or else staff, the reply as body, the replying
    user as author and the given copy line; this sends
    [conversations/message.created] and [conversations/email.enqueued], the
    latter for that message and delayed by [EMAIL_UNDO_COUNTDOWN_SECONDS]. *)
Theorem createReply_message caps mcaps args w :
  messageIdsBelow w ->
  match findConversation (ReplyArgs.conversationId args) w with
  | None =>
      createReply caps mcaps args w
      = (Throw (Error "Conversation not found"), w)
  | Some _ =>
      exists w' stored sent,
        createReply caps mcaps args w = (Ok (nextMessageId w), w') /\
        getConversationMessageById (nextMessageId w) w'
        = (Ok (Some stored), w') /\
        ConversationMessage.conversationId stored
        = ReplyArgs.conversationId args /\
        ConversationMessage.status stored = Some queueing /\
        ConversationMessage.role stored = orKeep (ReplyArgs.role args) staff /\
        ConversationMessage.body stored = ReplyArgs.message args /\
        ConversationMessage.userId stored
        = option_map BasicUserProfile.id (ReplyArgs.user args) /\
        ConversationMessage.responseToId stored = ReplyArgs.responseToId args /\
        (forall cc, ReplyArgs.cc args = Some cc ->
                    ConversationMessage.emailCc stored = Some cc) /\
        jobs w' = (jobs w ++ sent)%list /\
        triggered conversations_message_created sent /\
        triggered conversations_email_enqueued sent /\
        forall j, In j sent -> Job.event j = conversations_email_enqueued ->
          Job.data j = EmailEnqueued (nextMessageId w) /\
          Job.sleepSeconds j = EMAIL_UNDO_COUNTDOWN_SECONDS caps
  end.
Proof.
  intros Hbelow.
  destruct (findConversation (ReplyArgs.conversationId args) w) as [c|] eqn:Hfind.
  - rewrite (createReply_found caps mcaps args c w Hfind).
    destruct (createReplyIn_messages caps mcaps args c w) as (Hrun & _).
    pose proof (createReplyIn_stored caps mcaps args c w Hbelow) as Hstored.
    destruct (createReplyIn_jobs caps mcaps args c w)
      as (extra & Hjobs & Hextra).
    eexists. eexists. eexists. split; [exact Hrun|].
    split; [unfold getConversationMessageById, gets; f_equal; f_equal;
            exact Hstored|].
    do 6 (split; [reflexivity|]).
    split.
    { intros cc Hcc. cbn. unfold replyCopyLine. now rewrite Hcc. }
    split; [exact Hjobs|].
    split.
    { apply triggered_app. left. apply message_created_triggered. discriminate. }
    split.
    { apply triggered_app. left. now apply email_enqueued_triggered. }
    intros j Hin He. apply in_app_or in Hin as [Hin|Hin].
    + apply In_payloadsOfEvents in Hin as [H|[H|H]];
        [destruct H; congruence | destruct H; congruence |].
      destruct H as (_ & _ & Hd & Hs). split; [exact Hd | exact Hs].
    + rewrite Forall_forall in Hextra. specialize (Hextra j Hin). congruence.
  - unfold createReply, getConversationById. rewrite bind_gets, Hfind.
    reflexivity.
Qed.

Lemma desk_ids : messageIdsBelow Desk.world.
Proof. repeat constructor. Qed.

Lemma createReply_message_witness :
  exists w' stored,
    createReply Demo.caps Desk.mcaps Desk.reply Desk.world = (Ok 3, w') /\
    getConversationMessageById 3 w' = (Ok (Some stored), w') /\
    ConversationMessage.status stored = Some queueing /\
    ConversationMessage.role stored = staff /\
    ConversationMessage.userId stored = Some "user_agent".
Proof.
  pose proof (createReply_message Demo.caps Desk.mcaps Desk.reply Desk.world
                desk_ids) as H.
  assert (E : findConversation (ReplyArgs.conversationId Desk.reply) Desk.world
              = Some Desk.openConversation) by reflexivity.
  rewrite E in H.
  destruct H as (w' & stored & sent & Hrun & Hget & _ & Hstatus & Hrole & _
                 & Huser & _).
  exists w', stored. auto.
Defined.

Lemma repliesWithDraft_iff lastAiDraft message :
  repliesWithDraft lastAiDraft message = true
  <-> exists found body text,
        lastAiDraft = Some found /\
        ConversationMessage.body found = Some body /\ body <> "" /\
        message = Some text /\ text <> "" /\
        cleanupMessage body = cleanupMessage text.
Proof.
  unfold repliesWithDraft, JsString.truthy. split.
  - destruct lastAiDraft as [found|]; [|discriminate].
    destruct (ConversationMessage.body found) as [body|] eqn:Hb; [|discriminate].
    destruct message as [text|]; [|now rewrite andb_false_r].
    rewrite !andb_true_iff, !negb_true_iff, !String.eqb_neq, String.eqb_eq.
    intros (Hbody & Htext & Heq). exists found, body, text.
    repeat split; auto.
  - intros (found & body & text & -> & Hb & Hbody & -> & Htext & Heq).
    rewrite Hb, !andb_true_iff, !negb_true_iff, !String.eqb_neq, String.eqb_eq.
    repeat split; auto.
Qed.

(** X10.  When [createReply] returns, the conversation has no AI draft
    left: every message that was a draft of the AI assistant in it is
    stored with status discarded, the other messages are as they were and
    one message, the reply, was added.  The reply is stored as perfect
    exactly when the last AI draft there was had a body, the reply has a
    text, and the two are the same once cleaned up. *)
Theorem createReply_drafts caps mcaps args c w :
  messageIdsBelow w ->
  findConversation (ReplyArgs.conversationId args) w = Some c ->
  exists w' stored lastAiDraft,
    createReply caps mcaps args w = (Ok (nextMessageId w), w') /\
    getLastAiGeneratedDraft (ReplyArgs.conversationId args) w
    = (Ok lastAiDraft, w) /\
    getConversationMessageById (nextMessageId w) w' = (Ok (Some stored), w') /\
    (ConversationMessage.isPerfect stored = true
     <-> exists found body text,
           lastAiDraft = Some found /\
           ConversationMessage.body found = Some body /\ body <> "" /\
           ReplyArgs.message args = Some text /\ text <> "" /\
           cleanupMessage body = cleanupMessage text) /\
    getLastAiGeneratedDraft (ReplyArgs.conversationId args) w' = (Ok None, w') /\
    (forall m, In m (conversationMessages w) ->
       In (if isAiDraftOf (ReplyArgs.conversationId args) m
           then withStatus (Some discarded) m else m)
          (conversationMessages w')) /\
    length (conversationMessages w') = S (length (conversationMessages w)).
Proof.
  intros Hbelow Hfind.
  rewrite (createReply_found caps mcaps args c w Hfind).
  destruct (createReplyIn_messages caps mcaps args c w) as (Hrun & Hm).
  pose proof (createReplyIn_stored caps mcaps args c w Hbelow) as Hstored.
  eexists. eexists. eexists. split; [exact Hrun|].
  split; [reflexivity|].
  split; [unfold getConversationMessageById, gets; f_equal; f_equal;
          exact Hstored|].
  split; [cbn [withIsPerfect ConversationMessage.isPerfect];
          apply repliesWithDraft_iff|].
  split.
  { unfold getLastAiGeneratedDraft, gets. rewrite Hm.
    now rewrite filter_discarded_same. }
  split.
  { intros m Hin. rewrite Hm.
    apply (in_map (fun m => if isAiDraftOf (ReplyArgs.conversationId args) m
                            then withStatus (Some discarded) m else m)).
    assert (Hne : (ConversationMessage.id m =? nextMessageId w) = false).
    { unfold messageIdsBelow in Hbelow. rewrite Forall_forall in Hbelow.
      specialize (Hbelow m Hin). apply Z.eqb_neq. lia. }
    destruct (repliesWithDraft _ _).
    - apply in_map_iff. exists m. rewrite Hne. split; [reflexivity|].
      apply in_or_app. now left.
    - apply in_or_app. now left. }
  rewrite Hm, length_map.
  destruct (repliesWithDraft _ _); rewrite ?length_map, length_app; simpl; lia.
Qed.

Lemma createReply_drafts_witness :
  exists w' stored,
    createReply Demo.caps Desk.mcaps Desk.reply Desk.world = (Ok 3, w') /\
    getConversationMessageById 3 w' = (Ok (Some stored), w') /\
    ConversationMessage.isPerfect stored = true /\
    In (withStatus (Some discarded) Desk.aiDraft) (conversationMessages w').
Proof.
  destruct (createReply_drafts Demo.caps Desk.mcaps Desk.reply
              Desk.openConversation Desk.world desk_ids eq_refl)
    as (w' & stored & lastAiDraft & Hrun & Hlast & Hget & Hperfect & _
        & Hrows & _).
  exists w', stored. split; [exact Hrun|]. split; [exact Hget|]. split.
  - apply Hperfect.
    exists Desk.aiDraft, "<p>Use the  <b>reset</b> link.</p>",
      "Use the reset link.".
    split; [injection Hlast as <-; reflexivity|].
    split; [reflexivity|]. split; [discriminate|].
    split; [reflexivity|]. split; [discriminate|].
    vm_compute. reflexivity.
  - apply (Hrows Desk.aiDraft). right. left. reflexivity.
Defined.

(** X11.  After [createReply] the conversation is closed when the reply
    asks for it (the default) and the conversation was not spam, and has
    the status it had otherwise; it is assigned to the replying user, and
    no longer to the AI, when assignment is asked for (the default), a user
    replies and the conversation had no assignee, and keeps its assignee
    otherwise; its [lastMessageAt] is the time of the reply. *)
Theorem createReply_conversation caps mcaps args c w :
  findConversation (ReplyArgs.conversationId args) w = Some c ->
  exists id w' c',
    createReply caps mcaps args w = (Ok id, w') /\
    findConversation (ReplyArgs.conversationId args) w' = Some c' /\
    Conversation.status c'
    = (if orKeep (ReplyArgs.close args) true
          && negb (ConversationStatus_eqb (Conversation.status c) spam)
       then closed else Conversation.status c) /\
    Conversation.assignedToId c'
    = match ReplyArgs.user args with
      | Some user_ =>
          if orKeep (ReplyArgs.shouldAutoAssign args) true
             && negb (JsString.truthyOpt (Conversation.assignedToId c))
          then Some (BasicUserProfile.id user_)
          else Conversation.assignedToId c
      | None => Conversation.assignedToId c
      end /\
    Conversation.assignedToAI c'
    = match ReplyArgs.user args with
      | Some user_ =>
          if orKeep (ReplyArgs.shouldAutoAssign args) true
             && negb (JsString.truthyOpt (Conversation.assignedToId c))
          then false
          else Conversation.assignedToAI c
      | None => Conversation.assignedToAI c
      end /\
    Conversation.lastMessageAt c' = Some (now w).
Proof.
  intros Hfind.
  rewrite (createReply_found caps mcaps args c w Hfind).
  destruct (createReplyIn_messages caps mcaps args c w) as (Hrun & _).
  destruct (createReplyIn_conversation caps mcaps args c w Hfind)
    as (c' & Hc' & Hrest).
  eexists. eexists. exists c'. split; [exact Hrun|]. split; [exact Hc'|].
  exact Hrest.
Qed.

Lemma createReply_conversation_witness :
  exists id w' c',
    createReply Demo.caps Desk.mcaps Desk.reply Desk.world = (Ok id, w') /\
    findConversation 1 w' = Some c' /\
    Conversation.status c' = closed /\
    Conversation.assignedToId c' = Some "user_agent" /\
    Conversation.assignedToAI c' = false.
Proof.
  destruct (createReply_conversation Demo.caps Desk.mcaps Desk.reply
              Desk.openConversation Desk.world eq_refl)
    as (id & w' & c' & Hrun & Hfind & Hstatus & Hto & Hai & _).
  exists id, w', c'.
  split; [exact Hrun|]. split; [exact Hfind|]. split; [exact Hstatus|].
  split; [exact Hto | exact Hai].
Defined.

(** ** Drafts and notifications of created messages *)

Lemma run_pair {A} (m : M A) w a :
  fst (m w) = Ok a -> m w = (Ok a, snd (m w)).
Proof. destruct (m w) as [r w']. simpl. now intros ->. Qed.

Lemma latest_some rows m : In m rows -> exists l, latest rows = Some l.
Proof.
  intros Hin. destruct (latest rows) as [l|] eqn:E; [now exists l|].
  apply latest_None in E. subst rows. contradiction.
Qed.

(** X12.  [createAiDraft] with a response id stores a draft of the AI
    assistant (status draft, answering that message, the rendered body and
    the raw text as cleaned-up text) and sends no event; reading the last
    AI draft of the conversation back then finds a draft at least as
    recent, and finds the created one when the drafts there were are
    older. *)
Theorem createAiDraft_is_last caps conversationId sanitizedBody body
    responseToId w :
  responseToId <> 0 ->
  exists created w' last,
    createAiDraft caps conversationId sanitizedBody body responseToId w
    = (Ok created, w') /\
    ConversationMessage.conversationId created = conversationId /\
    ConversationMessage.role created = ai_assistant /\
    ConversationMessage.status created = Some draft /\
    ConversationMessage.responseToId created = Some responseToId /\
    ConversationMessage.body created = Some sanitizedBody /\
    ConversationMessage.cleanedUpText created = Some body /\
    jobs w' = jobs w /\
    getLastAiGeneratedDraft conversationId w' = (Ok (Some last), w') /\
    ConversationMessage.createdAt created <= ConversationMessage.createdAt last /\
    ((forall m, In m (conversationMessages w) ->
        isAiDraftOf conversationId m = true ->
        ConversationMessage.createdAt m < now w) ->
     last = created).
Proof.
  intros Hid. unfold createAiDraft.
  apply Z.eqb_neq in Hid. rewrite Hid.
  match goal with
  | |- context [createConversationMessage caps ?v0 w] => set (v := v0)
  end.
  set (row := messageRow (nextMessageId w) (now w) v).
  assert (Hdraft : isAiDraftOf conversationId row = true).
  { unfold isAiDraftOf. simpl. now rewrite Z.eqb_refl. }
  assert (Hm : conversationMessages (snd (createConversationMessage caps v w))
               = (conversationMessages w ++ [row])%list)
    by apply createConversationMessage_messages.
  assert (Hin : In row (filter (isAiDraftOf conversationId)
                          (conversationMessages
                             (snd (createConversationMessage caps v w))))).
  { rewrite Hm. apply filter_In. split; [|exact Hdraft].
    apply in_or_app. right. now left. }
  destruct (latest_some _ _ Hin) as [last Hlast].
  exists row, (snd (createConversationMessage caps v w)), last.
  split; [apply run_pair, createConversationMessage_Ok|].
  do 6 (split; [reflexivity|]).
  split; [rewrite createConversationMessage_jobs; apply app_nil_r|].
  split; [unfold getLastAiGeneratedDraft, gets; now rewrite Hlast|].
  split; [exact (latest_most_recent _ _ Hlast row Hin)|].
  intros Holder.
  pose proof (latest_In _ _ Hlast) as Hl.
  pose proof (latest_most_recent _ _ Hlast row Hin) as Hle.
  rewrite Hm in Hl. apply filter_In in Hl as [Hl Hd].
  apply in_app_or in Hl as [Hl|[Hl|[]]]; [|now symmetry].
  specialize (Holder last Hl Hd).
  change (ConversationMessage.createdAt row) with (now w) in Hle. lia.
Qed.

Lemma createAiDraft_is_last_witness :
  exists created w',
    createAiDraft Demo.caps 1 "<p>Try again.</p>" "Try again." 1 Desk.world
    = (Ok created, w') /\
    getLastAiGeneratedDraft 1 w' = (Ok (Some created), w') /\
    jobs w' = jobs Desk.world.
Proof.
  destruct (createAiDraft_is_last Demo.caps 1 "<p>Try again.</p>" "Try again."
              1 Desk.world)
    as (created & w' & last & Hrun & _ & _ & _ & _ & _ & _ & Hjobs & Hlast
        & _ & Hsame); [discriminate|].
  exists created, w'. split; [exact Hrun|]. split; [|exact Hjobs].
  rewrite <- Hsame; [exact Hlast|].
  intros m [<-|[<-|[]]]; [discriminate | reflexivity].
Defined.

(** The records of the follower notification among what a created
    message sends. *)
Lemma In_follower_notification caps message j :
  In j (payloadsOfEvents caps message) ->
  Job.event j = conversations_send_follower_notification ->
  exists userId,
    ConversationMessage.userId message = Some userId /\ userId <> "" /\
    (ConversationMessage.role message = user
     \/ ConversationMessage.role message = staff) /\
    Job.data j
    = FollowerNotification (ConversationMessage.conversationId message)
        "new_message" userId
        (orUndefined (ConversationMessage.cleanedUpText message)) /\
    Job.sleepSeconds j = 0.
Proof.
  unfold payloadsOfEvents, eventsToSend.
  rewrite flat_map_app, in_app_iff.
  intros [H|H] He.
  - destruct (statusIs (ConversationMessage.status message) draft);
      cbn [negb flat_map] in H; [destruct H|].
    apply in_app_or in H as [H|H].
    + apply In_payloadsOf in H as (Hev & _). cbn in Hev. congruence.
    + destruct (ConversationMessage.userId message) as [u|]; [|destruct H].
      destruct (JsString.truthy u) eqn:Hu; cbn [andb] in H; [|destruct H].
      destruct (MessageRole_eqb (ConversationMessage.role message) user
                || MessageRole_eqb (ConversationMessage.role message) staff)
        eqn:Hr; cbn [flat_map] in H; [|destruct H].
      rewrite app_nil_r in H. apply In_payloadsOf in H as (_ & Hd & Hs).
      cbn in Hd, Hs. exists u. split; [reflexivity|]. split.
      { intros ->. discriminate Hu. }
      split; [|split; assumption].
      destruct (ConversationMessage.role message); simpl in Hr;
        auto; discriminate.
  - destruct (statusIs (ConversationMessage.status message) queueing);
      cbn [flat_map] in H; [|destruct H].
    rewrite app_nil_r in H. apply In_payloadsOf in H as (Hev & _).
    cbn in Hev. congruence.
Qed.

Lemma follower_notification_triggered caps message userId :
  ConversationMessage.status message <> Some draft ->
  ConversationMessage.userId message = Some userId -> userId <> "" ->
  (ConversationMessage.role message = user
   \/ ConversationMessage.role message = staff) ->
  triggered conversations_send_follower_notification
    (payloadsOfEvents caps message).
Proof.
  intros Hnd Hu Hne Hr. unfold payloadsOfEvents, eventsToSend.
  destruct (statusIs (ConversationMessage.status message) draft) eqn:Hd.
  - apply statusIs_eq in Hd. contradiction.
  - cbn [negb]. rewrite flat_map_app. apply triggered_app. left.
    cbn [flat_map]. apply triggered_app. right.
    rewrite Hu.
    assert (Ht : JsString.truthy userId = true).
    { unfold JsString.truthy. now apply negb_true_iff, String.eqb_neq. }
    rewrite Ht.
    assert (Hrole : MessageRole_eqb (ConversationMessage.role message) user
                    || MessageRole_eqb (ConversationMessage.role message) staff
                    = true)
      by (destruct Hr as [-> | ->]; reflexivity).
    rewrite Hrole. cbn [andb flat_map]. rewrite app_nil_r.
    apply triggered_payloadsOf.
Qed.

(** X13.  A message created through [createConversationMessage] sends
    [conversations/send-follower-notification] exactly when its status is
    not draft, it has an author, and its role is user or staff; the
    notification names the conversation, the author and the cleaned-up text
    (none when that is empty), and is not delayed.  Nothing else than this
    event, [conversations/message.created] and
    [conversations/email.enqueued] is sent. *)
Theorem createConversationMessage_follower_notification caps v w :
  exists message sent,
    createConversationMessage caps v w
    = (Ok message, snd (createConversationMessage caps v w)) /\
    jobs (snd (createConversationMessage caps v w)) = (jobs w ++ sent)%list /\
    (triggered conversations_send_follower_notification sent
     <-> ConversationMessage.status message <> Some draft /\
         (exists userId,
            ConversationMessage.userId message = Some userId /\ userId <> "") /\
         (ConversationMessage.role message = user
          \/ ConversationMessage.role message = staff)) /\
    (forall j, In j sent ->
       Job.event j = conversations_send_follower_notification ->
       exists userId,
         ConversationMessage.userId message = Some userId /\
         Job.data j
         = FollowerNotification (ConversationMessage.conversationId message)
             "new_message" userId
             (orUndefined (ConversationMessage.cleanedUpText message)) /\
         Job.sleepSeconds j = 0) /\
    (forall j, In j sent ->
       Job.event j = conversations_message_created
       \/ Job.event j = conversations_send_follower_notification
       \/ Job.event j = conversations_email_enqueued).
Proof.
  exists (messageRow (nextMessageId w) (now w) v).
  exists (payloadsOfEvents caps (messageRow (nextMessageId w) (now w) v)).
  split; [apply run_pair, createConversationMessage_Ok|].
  split; [apply createConversationMessage_jobs|].
  split; [split|split].
  - intros (j & Hin & He).
    pose proof (In_payloadsOfEvents _ _ _ Hin) as Hk.
    destruct (In_follower_notification _ _ _ Hin He)
      as (u & Hu & Hne & Hr & _).
    split; [|split; [exists u; auto | exact Hr]].
    destruct Hk as [H|[H|H]]; [tauto | tauto | destruct H; congruence].
  - intros (Hnd & (u & Hu & Hne) & Hr).
    now apply (follower_notification_triggered caps _ u).
  - intros j Hin He.
    destruct (In_follower_notification _ _ _ Hin He)
      as (u & Hu & _ & _ & Hd & Hs).
    exists u. auto.
  - intros j Hin.
    apply In_payloadsOfEvents in Hin as [H|[H|H]]; tauto.
Qed.

(** ** The webhook job: rejections, the history cursor, attachments *)

Lemma handleGmailWebhookEvent_token caps request w body headers :
  parseGmailWebhookBody caps (WebhookRequest.body request) = Ok body ->
  parseGmailWebhookHeaders caps
    (normalizeHeaders (WebhookRequest.headers request)) = Ok headers ->
  handleGmailWebhookEvent caps request w
  = (data <- authorizeGmailRequest caps body headers ;;
     processDelivery caps data) w.
Proof.
  intros Hbody Hheaders. unfold handleGmailWebhookEvent. cbv zeta.
  now rewrite Hbody, bind_lift_Ok, Hheaders, bind_lift_Ok.
Qed.

Lemma claim_refused (email : option string) (expected : string) :
  (forall e, email = Some e -> e = "" \/ e <> expected) ->
  negb (JsString.truthyOpt email) || negb (optString_eqb email expected) = true.
Proof.
  intros H. destruct email as [e|]; [|reflexivity].
  destruct (H e eq_refl) as [-> | Hne]; [reflexivity|].
  apply orb_true_iff. right. cbn [optString_eqb].
  apply negb_true_iff. now apply String.eqb_neq.
Qed.

(** X14.  A delivery is refused with [NonRetriableError("Invalid token")]
    when its authorization header has no second word, when the identity
    token cannot be verified, or when the token's payload has no email, an
    empty one or one other than [GOOGLE_PUBSUB_CLAIM_EMAIL]; the cause
    (for the last, the error "Invalid claim email: <email>") is captured
    and nothing else is written.  A delivery that is authorized but whose
    address has no support-email record, or one with no mailbox or with a
    missing or empty access or refresh token, returns the text "Valid gmail
    support email record not found for <address>" and writes nothing:
    Gmail is not asked and the history cursor stays. *)
Theorem handleGmailWebhookEvent_rejects caps request w body headers :
  parseGmailWebhookBody caps (WebhookRequest.body request) = Ok body ->
  parseGmailWebhookHeaders caps
    (normalizeHeaders (WebhookRequest.headers request)) = Ok headers ->
  (nth_error (JsString.split " "%char
                (GmailWebhookHeaders.authorization headers)) 1 = None ->
   exists cause,
     handleGmailWebhookEvent caps request w
     = (Throw (NonRetriableError caps "Invalid token"),
        with_captured (captured w ++ [cause]) w)) /\
  (forall idToken cause,
     nth_error (JsString.split " "%char
                  (GmailWebhookHeaders.authorization headers)) 1
     = Some idToken ->
     verifyIdToken caps idToken = Throw cause ->
     handleGmailWebhookEvent caps request w
     = (Throw (NonRetriableError caps "Invalid token"),
        with_captured (captured w ++ [cause]) w)) /\
  (forall idToken claim email,
     nth_error (JsString.split " "%char
                  (GmailWebhookHeaders.authorization headers)) 1
     = Some idToken ->
     verifyIdToken caps idToken = Ok claim ->
     email = match claim with
             | Some payload => TokenPayload.email payload
             | None => None
             end ->
     (forall e, email = Some e ->
                e = "" \/ e <> GOOGLE_PUBSUB_CLAIM_EMAIL caps) ->
     handleGmailWebhookEvent caps request w
     = (Throw (NonRetriableError caps "Invalid token"),
        with_captured
          (captured w
           ++ [Error ("Invalid claim email: "
                      ++ match email with
                         | Some e => e
                         | None => "undefined"
                         end)]) w)) /\
  (forall idToken payload data,
     nth_error (JsString.split " "%char
                  (GmailWebhookHeaders.authorization headers)) 1
     = Some idToken ->
     verifyIdToken caps idToken = Ok (Some payload) ->
     TokenPayload.email payload = Some (GOOGLE_PUBSUB_CLAIM_EMAIL caps) ->
     GOOGLE_PUBSUB_CLAIM_EMAIL caps <> "" ->
     parseGmailWebhookData caps
       (PubsubMessage.data (GmailWebhookBody.message body)) = Ok data ->
     usableSupportEmail
       (find (fun g => String.eqb (GmailSupportEmail.email g)
                                  (GmailWebhookData.emailAddress data))
             (gmailSupportEmails w)) = false ->
     handleGmailWebhookEvent caps request w
     = (Ok (NotFound ("Valid gmail support email record not found for "
                      ++ GmailWebhookData.emailAddress data)), w)).
Proof.
  intros Hbody Hheaders.
  rewrite (handleGmailWebhookEvent_token _ _ _ _ _ Hbody Hheaders).
  unfold authorizeGmailRequest.
  split; [|split; [|split]].
  - intros Hnone. rewrite Hnone. eexists. reflexivity.
  - intros idToken cause Htoken Hverify. rewrite Htoken.
    unfold bind, tryCatch, ret, lift. rewrite Hverify. reflexivity.
  - intros idToken claim email Htoken Hverify -> Hrefused. rewrite Htoken.
    unfold bind, tryCatch, ret, lift. rewrite Hverify. cbv zeta.
    rewrite (claim_refused _ _ Hrefused). reflexivity.
  - intros idToken payload data Htoken Hverify Hemail Hexpected Hdata Hunusable.
    rewrite Htoken.
    unfold bind at 1 2 3 4, tryCatch, ret, lift. rewrite Hverify. cbv zeta.
    rewrite Hemail. cbn [JsString.truthyOpt optString_eqb].
    rewrite (truthy_nonempty _ Hexpected), String.eqb_refl. cbn [negb orb].
    rewrite Hdata. unfold processDelivery. rewrite bind_gets.
    unfold usableSupportEmail in Hunusable.
    destruct (find _ (gmailSupportEmails w)) as [g|]; [|reflexivity].
    destruct (GmailSupportEmail.mailboxes g) as [|mailbox others];
      [reflexivity|].
    apply andb_false_iff in Hunusable as [H|H]; rewrite H;
      [reflexivity | now rewrite orb_true_r].
Qed.

Lemma handleGmailWebhookEvent_rejects_witness :
  handleGmailWebhookEvent Demo.caps Demo.forgedRequest Demo.emptyWorld
  = (Throw {| JsError.name := "NonRetriableError";
              JsError.message := "Invalid token" |},
     with_captured [Error "Wrong number of segments in token"]
       Demo.emptyWorld) /\
  handleGmailWebhookEvent Demo.caps Demo.request
    (with_gmailSupportEmails [] Demo.emptyWorld)
  = (Ok (NotFound
           "Valid gmail support email record not found for support@example.com"),
     with_gmailSupportEmails [] Demo.emptyWorld).
Proof.
  split.
  - destruct (handleGmailWebhookEvent_rejects Demo.caps Demo.forgedRequest
                Demo.emptyWorld
                {| GmailWebhookBody.message :=
                     {| PubsubMessage.data := "payload";
                        PubsubMessage.messageId := "1";
                        PubsubMessage.publishTime := "2024-01-01T00:00:00Z" |};
                   GmailWebhookBody.subscription := "gmail" |}
                {| GmailWebhookHeaders.authorization := "Bearer forged" |}
                eq_refl eq_refl) as (_ & Hforged & _).
    exact (Hforged "forged" (Error "Wrong number of segments in token")
             eq_refl eq_refl).
  - destruct (handleGmailWebhookEvent_rejects Demo.caps Demo.request
                (with_gmailSupportEmails [] Demo.emptyWorld)
                {| GmailWebhookBody.message :=
                     {| PubsubMessage.data := "payload";
                        PubsubMessage.messageId := "1";
                        PubsubMessage.publishTime := "2024-01-01T00:00:00Z" |};
                   GmailWebhookBody.subscription := "gmail" |}
                {| GmailWebhookHeaders.authorization := "Bearer token" |}
                eq_refl eq_refl) as (_ & _ & _ & Hmissing).
    refine (Hmissing "token"
              {| TokenPayload.email := Some "pubsub@example.com" |}
              {| GmailWebhookData.emailAddress := "support@example.com";
                 GmailWebhookData.historyId := 42 |}
              eq_refl eq_refl eq_refl _ eq_refl eq_refl).
    discriminate.
Defined.

Lemma usable_inv g :
  usableSupportEmail (Some g) = true ->
  exists mailbox others,
    GmailSupportEmail.mailboxes g = mailbox :: others /\
    JsString.truthyOpt (GmailSupportEmail.accessToken g) = true /\
    JsString.truthyOpt (GmailSupportEmail.refreshToken g) = true.
Proof.
  unfold usableSupportEmail.
  destruct (GmailSupportEmail.mailboxes g) as [|mailbox others]; [discriminate|].
  intros H. apply andb_true_iff in H as [Ha Hr]. eauto.
Qed.

Lemma assertSuccessResponseOrThrow_fails status statusText w :
  status < 200 \/ 300 <= status ->
  assertSuccessResponseOrThrow status statusText w
  = (Throw (Error ("Request failed: " ++ statusText)), w).
Proof.
  intros H. unfold assertSuccessResponseOrThrow.
  assert (E : (status <? 200) || (status >=? 300) = true).
  { apply orb_true_iff. destruct H; [left; now apply Z.ltb_lt|right].
    rewrite Z.geb_leb. now apply Z.leb_le. }
  now rewrite E.
Qed.

Lemma assertSuccessResponseOrThrow_passes status statusText w :
  200 <= status < 300 ->
  assertSuccessResponseOrThrow status statusText w = (Ok tt, w).
Proof.
  intros H. unfold assertSuccessResponseOrThrow.
  assert (E : (status <? 200) || (status >=? 300) = false).
  { apply orb_false_iff. split; [apply Z.ltb_ge; lia|].
    rewrite Z.geb_leb. apply Z.leb_gt. lia. }
  now rewrite E.
Qed.

(** X15.  When Gmail answers the history request with a status outside
    200..299 other than 404, the delivery throws "Request failed:
    <statusText>" before any message is looked at: nothing is written and
    the history cursor stays where it was. *)
Theorem handleGmailWebhookEvent_history_failure caps request w body headers
    data gse response :
  parseGmailWebhookBody caps (WebhookRequest.body request) = Ok body ->
  parseGmailWebhookHeaders caps
    (normalizeHeaders (WebhookRequest.headers request)) = Ok headers ->
  fst (authorizeGmailRequest caps body headers w) = Ok data ->
  find (fun g => String.eqb (GmailSupportEmail.email g)
                            (GmailWebhookData.emailAddress data))
       (gmailSupportEmails w) = Some gse ->
  usableSupportEmail (Some gse) = true ->
  getMessagesFromHistoryId caps gse
    (orKeep (GmailSupportEmail.historyId gse) (GmailWebhookData.historyId data))
  = Ok response ->
  HistoryResponse.status response <> 404 ->
  HistoryResponse.status response < 200 \/ 300 <= HistoryResponse.status response ->
  handleGmailWebhookEvent caps request w
  = (Throw (Error ("Request failed: " ++ HistoryResponse.statusText response)),
     w).
Proof.
  intros Hbody Hheaders Hauth Hfind Husable Hresponse Hnot Hfail.
  destruct (usable_inv gse Husable) as (mailbox & others & Hm & Ha & Hr).
  rewrite (handleGmailWebhookEvent_authorized _ _ _ _ _ _ Hbody Hheaders Hauth).
  unfold processDelivery.
  rewrite bind_gets, Hfind, Hm, Ha, Hr. cbn [negb orb].
  unfold fetchMessagesAdded. rewrite bind_assoc, Hresponse, bind_lift_Ok.
  apply Z.eqb_neq in Hnot. rewrite Hnot. cbn [negb].
  rewrite !bind_assoc.
  unfold bind at 1.
  now rewrite (assertSuccessResponseOrThrow_fails _ _ w Hfail).
Qed.

Lemma handleGmailWebhookEvent_history_failure_witness :
  handleGmailWebhookEvent (Outage.caps 500) Demo.request Demo.emptyWorld
  = (Throw (Error "Request failed: Error"), Demo.emptyWorld).
Proof.
  apply (handleGmailWebhookEvent_history_failure (Outage.caps 500)
           Demo.request Demo.emptyWorld
           {| GmailWebhookBody.message :=
                {| PubsubMessage.data := "payload";
                   PubsubMessage.messageId := "1";
                   PubsubMessage.publishTime := "2024-01-01T00:00:00Z" |};
              GmailWebhookBody.subscription := "gmail" |}
           {| GmailWebhookHeaders.authorization := "Bearer token" |}
           {| GmailWebhookData.emailAddress := "support@example.com";
              GmailWebhookData.historyId := 42 |}
           Demo.supportEmail
           {| HistoryResponse.status := 500;
              HistoryResponse.statusText := "Error";
              HistoryResponse.history := None |});
    first [reflexivity | discriminate | right; discriminate].
Defined.

(** X16.  When Gmail answers the stored cursor with 404, the expiry is
    logged as "Cached historyId expired" and the history is asked again from
    the history id of the webhook; the added messages are those of that
    second answer, in order. *)
Theorem fetchMessagesAdded_expired_cursor caps gse data w first second :
  getMessagesFromHistoryId caps gse
    (orKeep (GmailSupportEmail.historyId gse) (GmailWebhookData.historyId data))
  = Ok first ->
  HistoryResponse.status first = 404 ->
  getMessagesFromHistoryId caps gse (GmailWebhookData.historyId data)
  = Ok second ->
  200 <= HistoryResponse.status second < 300 ->
  fetchMessagesAdded caps gse data w
  = (Ok (flat_map (fun h => orKeep (History.messagesAdded h) [])
                  (orKeep (HistoryResponse.history second) [])),
     with_captured (captured w ++ [Error "Cached historyId expired"]) w).
Proof.
  intros Hfirst H404 Hsecond Hok.
  unfold fetchMessagesAdded. rewrite Hfirst, bind_lift_Ok, H404.
  cbn [Z.eqb Pos.eqb negb].
  unfold captureExceptionAndLog. rewrite !bind_assoc, bind_modify.
  rewrite bind_assoc, Hsecond, bind_lift_Ok.
  rewrite bind_assoc. unfold bind at 1.
  rewrite (assertSuccessResponseOrThrow_passes _ _ _ Hok).
  reflexivity.
Qed.

Lemma fetchMessagesAdded_expired_cursor_witness :
  fetchMessagesAdded (Outage.caps 404) Demo.supportEmail
    {| GmailWebhookData.emailAddress := "support@example.com";
       GmailWebhookData.historyId := 42 |} Demo.emptyWorld
  = (Ok [Demo.added "m1" "m1"],
     with_captured [Error "Cached historyId expired"] Demo.emptyWorld).
Proof.
  apply (fetchMessagesAdded_expired_cursor (Outage.caps 404) Demo.supportEmail
           {| GmailWebhookData.emailAddress := "support@example.com";
              GmailWebhookData.historyId := 42 |} Demo.emptyWorld
           {| HistoryResponse.status := 404;
              HistoryResponse.statusText := "Error";
              HistoryResponse.history := None |}
           {| HistoryResponse.status := 200;
              HistoryResponse.statusText := "OK";
              HistoryResponse.history :=
                Some [ {| History.messagesAdded :=
                            Some [Demo.added "m1" "m1"] |} ] |});
    first [reflexivity | split; [discriminate | reflexivity]].
Defined.

(** Fetching and parsing a message only reads. *)
Lemma fetchParsedEmail_reads caps gse gmailMessageId :
  preserves (fun w => w) (fetchParsedEmail caps gse gmailMessageId).
Proof. frames. Qed.

(** X17.  A message that is not stored yet and whose sender address is
    the support address itself is skipped: the entry pushed for it says
    "Skipped - message <id> sent from mailbox" and carries the Gmail ids of
    the message and nothing else, and no conversation, message, file or
    queue record is written for it. *)
Theorem processAddedMessage_own_mail caps gse mailbox added gmailMessageId
    gmailThreadId w parsedEmail parsedEmailFrom parsedEmailBody :
  refersTo added gmailMessageId gmailThreadId ->
  persistedCount gmailMessageId w = 0%nat ->
  fst (fetchParsedEmail caps gse gmailMessageId w)
  = Ok (parsedEmail, (parsedEmailFrom, parsedEmailBody)) ->
  ParsedMailbox.address parsedEmailFrom = GmailSupportEmail.email gse ->
  exists entry,
    processAddedMessage caps gse mailbox added w = (Ok entry, w) /\
    ResultEntry.message entry
    = "Skipped - message " ++ gmailMessageId ++ " sent from mailbox" /\
    ResultEntry.gmailMessageId entry = Some gmailMessageId /\
    ResultEntry.gmailThreadId entry = Some gmailThreadId /\
    ResultEntry.messageId entry = None /\
    ResultEntry.conversationSlug entry = None /\
    ResultEntry.responded entry = None /\
    ResultEntry.isAutomatedResponseOrThankYou entry = None.
Proof.
  intros Href Hzero Hfetch Hown.
  exists (skippedSentFromMailbox gmailMessageId gmailThreadId).
  split; [|repeat split].
  destruct (processAddedMessage_unfold caps gse mailbox _ _ _ Href) as [l ->].
  rewrite bind_gets, (findByGmailMessageId_none _ _ Hzero).
  unfold tryCatch, ingestMessage.
  pose proof (fetchParsedEmail_reads caps gse gmailMessageId w) as Hw.
  destruct (fetchParsedEmail caps gse gmailMessageId w) as [r w1] eqn:E.
  simpl in Hfetch, Hw. subst r w1.
  rewrite (bind_run _ _ _ _ _ E). cbn [fst snd].
  unfold ingestParsedEmail. rewrite Hown, String.eqb_refl. reflexivity.
Qed.

Lemma processAddedMessage_own_mail_witness :
  exists entry,
    processAddedMessage Demo.caps
      {| GmailSupportEmail.id := 2;
         GmailSupportEmail.email := "customer@example.com";
         GmailSupportEmail.accessToken := Some "access";
         GmailSupportEmail.refreshToken := Some "refresh";
         GmailSupportEmail.historyId := None;
         GmailSupportEmail.mailboxes := [Demo.mailbox] |}
      Demo.mailbox (Demo.added "m1" "m1") Demo.emptyWorld
    = (Ok entry, Demo.emptyWorld) /\
    ResultEntry.message entry = "Skipped - message m1 sent from mailbox".
Proof.
  destruct (processAddedMessage_own_mail Demo.caps
              {| GmailSupportEmail.id := 2;
                 GmailSupportEmail.email := "customer@example.com";
                 GmailSupportEmail.accessToken := Some "access";
                 GmailSupportEmail.refreshToken := Some "refresh";
                 GmailSupportEmail.historyId := None;
                 GmailSupportEmail.mailboxes := [Demo.mailbox] |}
              Demo.mailbox (Demo.added "m1" "m1") "m1" "m1" Demo.emptyWorld
              (Demo.mail "Can you help?") Demo.customer "Can you help?")
    as (entry & Hrun & Hmessage & _).
  - exists (Some ["INBOX"]). repeat split; discriminate.
  - reflexivity.
  - reflexivity.
  - reflexivity.
  - exists entry. split; [exact Hrun | exact Hmessage].
Defined.

Lemma surjective_pairing_throw {A} (m : M A) w error :
  fst (m w) = Throw error -> m w = (Throw error, snd (m w)).
Proof. destruct (m w) as [r w']. simpl. now intros ->. Qed.

(** *** Attachments *)

Lemma processAttachment_run caps slug messageId attachment w :
  developmentThrow caps = false ->
  exists w',
    processAttachment caps slug messageId attachment w = (Ok tt, w') /\
    files w'
    = (files w
       ++ [{| File.id := nextFileId w; File.slug := None;
              File.messageId := Some messageId;
              File.name := orKeep (Attachment.filename attachment) "untitled";
              File.key :=
                generateKey caps ["attachments"; slug]
                  (orKeep (Attachment.filename attachment) "untitled");
              File.mimetype :=
                orKeep (Attachment.contentType attachment)
                       "application/octet-stream";
              File.size := Attachment.size attachment;
              File.isInline := false; File.isPublic := false |}])%list /\
    nextFileId w' = nextFileId w + 1 /\
    conversationMessages w' = conversationMessages w /\
    jobs w' = jobs w /\
    conversations w' = conversations w.
Proof.
  intros Hdev. unfold processAttachment, tryCatch, insertFile, bind, lift,
    captureExceptionAndThrowIfDevelopment, captureExceptionAndLog, modify.
  rewrite Hdev.
  destruct (uploadFile caps _ attachment) as [[]|e];
    [destruct (generateFilePreview caps (nextFileId w)) as [[]|e]|];
    eexists; (split; [reflexivity|]); cbn; auto.
Qed.

(** The file record an attachment is stored as. *)
Lemma processGmailAttachments_rows caps slug messageId attachments w :
  developmentThrow caps = false ->
  exists w' rows,
    processGmailAttachments caps slug messageId attachments w = (Ok tt, w') /\
    files w' = (files w ++ rows)%list /\
    Forall2 (storedAs messageId) attachments rows /\
    conversationMessages w' = conversationMessages w /\
    jobs w' = jobs w.
Proof.
  intros Hdev. unfold processGmailAttachments. revert w.
  induction attachments as [|a rest IH]; intros w.
  - exists w, []. simpl. rewrite app_nil_r. repeat split; constructor.
  - destruct (processAttachment_run caps slug messageId a w Hdev)
      as (w1 & Hrun & Hfiles & _ & Hm & Hj & _).
    destruct (IH w1) as (w' & rows & Hrest & Hf & Hall & Hm' & Hj').
    eexists w', (_ :: rows).
    split; [cbn [map promiseAll]; now rewrite Hrun|].
    split; [rewrite Hf, Hfiles, <- app_assoc; reflexivity|].
    split; [constructor; [repeat split | exact Hall]|].
    split; congruence.
Qed.

(** X18.  Outside development [processGmailAttachments] returns whatever
    the uploads and the previews do, and stores as many file records as
    there are attachments: every attachment has its record and every record
    its attachment, the record being for the message, neither inline nor
    public, named by the attachment or "untitled" and typed by the
    attachment or "application/octet-stream".  It stores no message and
    sends nothing. *)
Theorem processGmailAttachments_files caps slug messageId attachments w :
  developmentThrow caps = false ->
  exists w' rows,
    processGmailAttachments caps slug messageId attachments w = (Ok tt, w') /\
    files w' = (files w ++ rows)%list /\
    length rows = length attachments /\
    (forall a, In a attachments -> exists f, In f rows /\ storedAs messageId a f) /\
    (forall f, In f rows -> exists a, In a attachments /\ storedAs messageId a f) /\
    conversationMessages w' = conversationMessages w /\
    jobs w' = jobs w.
Proof.
  intros Hdev.
  destruct (processGmailAttachments_rows caps slug messageId attachments w Hdev)
    as (w' & rows & Hrun & Hfiles & Hall & Hm & Hj).
  exists w', rows. split; [exact Hrun|]. split; [exact Hfiles|].
  split; [symmetry; exact (Forall2_length Hall)|].
  split; [|split; [|split; assumption]].
  - clear - Hall. induction Hall as [|a f rest rows Haf _ IH]; intros x Hin;
      [contradiction|].
    destruct Hin as [<-|Hin]; [exists f; split; [now left | exact Haf]|].
    destruct (IH x Hin) as (g & Hg & Hxg). exists g. split; [now right | exact Hxg].
  - clear - Hall. induction Hall as [|a f rest rows Haf _ IH]; intros x Hin;
      [contradiction|].
    destruct Hin as [<-|Hin]; [exists a; split; [now left | exact Haf]|].
    destruct (IH x Hin) as (b & Hb & Hbx). exists b. split; [now right | exact Hbx].
Qed.

Lemma processGmailAttachments_files_witness :
  exists w' row,
    processGmailAttachments (Outage.caps 200) "conversation-1" 7
      [Outage.attachment] Demo.emptyWorld = (Ok tt, w') /\
    files w' = [row] /\
    File.name row = "untitled" /\ File.mimetype row = "application/pdf" /\
    File.messageId row = Some 7.
Proof.
  destruct (processGmailAttachments_files (Outage.caps 200) "conversation-1" 7
              [Outage.attachment] Demo.emptyWorld eq_refl)
    as (w' & rows & Hrun & Hfiles & Hlen & _ & Hrows & _).
  destruct rows as [|row [|r rows]]; try discriminate Hlen.
  exists w', row. split; [exact Hrun|]. split; [exact Hfiles|].
  destruct (Hrows row (or_introl eq_refl)) as (a & [<-|[]] & Hmid & Hname & Htype & _).
  auto.
Defined.

(** *** The message an inbound mail becomes *)

Lemma createMessageAndProcessAttachments_values caps gse parsedEmail
    parsedEmailFrom processedHtml cleanedUpText fileSlugs gmailMessageId
    gmailThreadId conversation staffUser :
  createMessageAndProcessAttachments caps gse parsedEmail parsedEmailFrom
    processedHtml cleanedUpText fileSlugs gmailMessageId gmailThreadId
    conversation staffUser
  = (newEmail <- createConversationMessage caps
                   (inboundValues caps parsedEmail parsedEmailFrom processedHtml
                      cleanedUpText gmailMessageId gmailThreadId conversation
                      staffUser) ;;
     finishFileUpload fileSlugs (ConversationMessage.id newEmail) ;;;
     when (JsString.truthyOpt (addressesToString (ParsedMail.cc parsedEmail))
           && negb (isSome staffUser))
       (conversationRecord <-
          gets (findConversation (Conversation.id conversation)) ;;
        when (hasNoAssignee conversationRecord)
          (assignBasedOnCc caps (Conversation.id conversation)
             (orKeep (addressesToString (ParsedMail.cc parsedEmail)) "")
             gse)) ;;;
     tryCatch
       (processGmailAttachments caps (Conversation.slug conversation)
          (ConversationMessage.id newEmail) (ParsedMail.attachments parsedEmail))
       (captureExceptionAndThrowIfDevelopment caps) ;;;
     ret newEmail)%monad.
Proof. reflexivity. Qed.

Lemma assignBasedOnCc_block_run caps gse conversation cc
    (staffUser : option BasicUserProfile.t) w :
  exists w1,
    when (JsString.truthyOpt cc && negb (isSome staffUser))
      (conversationRecord <-
         gets (findConversation (Conversation.id conversation)) ;;
       when (hasNoAssignee conversationRecord)
         (assignBasedOnCc caps (Conversation.id conversation) (orKeep cc "") gse))
      w = (Ok tt, w1).
Proof.
  destruct (JsString.truthyOpt cc && negb (isSome staffUser));
    [|eexists; reflexivity].
  cbn [when]. rewrite bind_gets.
  destruct (hasNoAssignee _); [|eexists; reflexivity].
  cbn [when]. unfold assignBasedOnCc. rewrite assignFirstStaff_Ok.
  eexists; reflexivity.
Qed.

Lemma createMessageAndProcessAttachments_run caps gse parsedEmail
    parsedEmailFrom processedHtml cleanedUpText fileSlugs gmailMessageId
    gmailThreadId conversation staffUser w :
  developmentThrow caps = false ->
  fst (createMessageAndProcessAttachments caps gse parsedEmail parsedEmailFrom
         processedHtml cleanedUpText fileSlugs gmailMessageId gmailThreadId
         conversation staffUser w)
  = Ok (messageRow (nextMessageId w) (now w)
          (inboundValues caps parsedEmail parsedEmailFrom processedHtml
             cleanedUpText gmailMessageId gmailThreadId conversation
             staffUser)).
Proof.
  intros Hdev. rewrite createMessageAndProcessAttachments_values.
  rewrite (run_Ok _ _ w _ (createConversationMessage_Ok caps _ w)).
  rewrite (run_Ok _ _ _ tt) by reflexivity.
  match goal with
  | |- context [bind (when (JsString.truthyOpt ?cc && _) _) _ ?w0] =>
      destruct (assignBasedOnCc_block_run caps gse conversation cc staffUser w0)
        as [w1 H1]
  end.
  rewrite (bind_run _ _ _ _ _ H1).
  match goal with
  | |- context [bind (tryCatch (processGmailAttachments caps ?s ?i ?a) _) _ w1] =>
      destruct (processGmailAttachments_rows caps s i a w1 Hdev)
        as (w2 & rows & H2 & _)
  end.
  unfold bind at 1. unfold tryCatch. rewrite H2. reflexivity.
Qed.

Lemma createMessageAndProcessAttachments_jobs caps gse parsedEmail
    parsedEmailFrom processedHtml cleanedUpText fileSlugs gmailMessageId
    gmailThreadId conversation staffUser w :
  jobs (snd (createMessageAndProcessAttachments caps gse parsedEmail
               parsedEmailFrom processedHtml cleanedUpText fileSlugs
               gmailMessageId gmailThreadId conversation staffUser w))
  = (jobs w
     ++ payloadsOfEvents caps
          (messageRow (nextMessageId w) (now w)
             (inboundValues caps parsedEmail parsedEmailFrom processedHtml
                cleanedUpText gmailMessageId gmailThreadId conversation
                staffUser)))%list.
Proof.
  rewrite createMessageAndProcessAttachments_values.
  rewrite (run_Ok _ _ w _ (createConversationMessage_Ok caps _ w)).
  framed jobs; [frames|]. apply createConversationMessage_jobs.
Qed.

(** X19.  Outside development an inbound mail is stored whatever its
    attachments do.  The stored message belongs to the resolved
    conversation and carries the Gmail ids, the sender address, the
    processed body and the cleaned-up text; it is dated by the mail, or by
    the clock when the mail has no date; it has role staff and status sent
    when the sender is a staff member, role user and no status otherwise.
    Storing it sends [conversations/message.created], never
    [conversations/email.enqueued], and the follower notification exactly
    when the sender is a staff member with an id. *)
Theorem inbound_message_stored caps gse parsedEmail parsedEmailFrom
    processedHtml cleanedUpText fileSlugs gmailMessageId gmailThreadId
    conversation staffUser w :
  developmentThrow caps = false ->
  exists newEmail w' queued,
    createMessageAndProcessAttachments caps gse parsedEmail parsedEmailFrom
      processedHtml cleanedUpText fileSlugs gmailMessageId gmailThreadId
      conversation staffUser w = (Ok newEmail, w') /\
    conversationMessages w' = (conversationMessages w ++ [newEmail])%list /\
    ConversationMessage.conversationId newEmail = Conversation.id conversation /\
    ConversationMessage.gmailMessageId newEmail = Some gmailMessageId /\
    ConversationMessage.gmailThreadId newEmail = Some gmailThreadId /\
    ConversationMessage.emailFrom newEmail
    = Some (ParsedMailbox.address parsedEmailFrom) /\
    ConversationMessage.body newEmail = Some processedHtml /\
    ConversationMessage.cleanedUpText newEmail = Some cleanedUpText /\
    ConversationMessage.createdAt newEmail
    = orKeep (ParsedMail.date parsedEmail) (now w) /\
    ConversationMessage.role newEmail
    = (if isSome staffUser then staff else user) /\
    ConversationMessage.status newEmail
    = (if isSome staffUser then Some sent else None) /\
    ConversationMessage.userId newEmail
    = option_map BasicUserProfile.id staffUser /\
    jobs w' = (jobs w ++ queued)%list /\
    triggered conversations_message_created queued /\
    ~ triggered conversations_email_enqueued queued /\
    (triggered conversations_send_follower_notification queued
     <-> exists sender,
           staffUser = Some sender /\ BasicUserProfile.id sender <> "").
Proof.
  intros Hdev.
  pose proof (run_pair _ _ _
                (createMessageAndProcessAttachments_run caps gse parsedEmail
                   parsedEmailFrom processedHtml cleanedUpText fileSlugs
                   gmailMessageId gmailThreadId conversation staffUser w Hdev))
    as Hrun.
  destruct (createMessageAndProcessAttachments_messages caps gse parsedEmail
              parsedEmailFrom processedHtml cleanedUpText fileSlugs
              gmailMessageId gmailThreadId conversation staffUser w)
    as (v & _ & _ & Hm & Hv).
  rewrite Hrun in Hv. specialize (Hv _ eq_refl). rewrite <- Hv in Hm.
  set (row := messageRow (nextMessageId w) (now w)
                (inboundValues caps parsedEmail parsedEmailFrom processedHtml
                   cleanedUpText gmailMessageId gmailThreadId conversation
                   staffUser)) in *.
  exists row. eexists. exists (payloadsOfEvents caps row).
  split; [exact Hrun|]. split; [exact Hm|].
  do 10 (split; [reflexivity|]).
  split; [apply createMessageAndProcessAttachments_jobs|].
  assert (Hstatus : ConversationMessage.status row
                    = if isSome staffUser then Some sent else None)
    by reflexivity.
  split.
  { apply message_created_triggered. rewrite Hstatus.
    destruct (isSome staffUser); discriminate. }
  split.
  { intros (j & Hin & He).
    apply In_payloadsOfEvents in Hin as [H|[H|H]];
      [destruct H; congruence | destruct H; congruence |].
    destruct H as (_ & Hq & _). rewrite Hstatus in Hq.
    destruct (isSome staffUser); discriminate. }
  split.
  - intros (j & Hin & He).
    destruct (In_follower_notification _ _ _ Hin He) as (u & Hu & Hne & _).
    change (ConversationMessage.userId row)
      with (option_map BasicUserProfile.id staffUser) in Hu.
    destruct staffUser as [sender|]; [|discriminate].
    exists sender. split; [reflexivity|]. simpl in Hu. congruence.
  - intros (sender & -> & Hne).
    apply (follower_notification_triggered caps row (BasicUserProfile.id sender));
      [discriminate | reflexivity | exact Hne | now right].
Qed.

Lemma inbound_message_stored_witness :
  exists newEmail w',
    createMessageAndProcessAttachments (Outage.caps 200) Demo.supportEmail
      (Demo.mail "Can you help?") Demo.customer "Can you help?"
      "Can you help?" [] "m1" "m1" Desk.openConversation None Desk.world
    = (Ok newEmail, w') /\
    ConversationMessage.role newEmail = user /\
    ConversationMessage.status newEmail = None /\
    ConversationMessage.createdAt newEmail = 900.
Proof.
  destruct (inbound_message_stored (Outage.caps 200) Demo.supportEmail
              (Demo.mail "Can you help?") Demo.customer "Can you help?"
              "Can you help?" [] "m1" "m1" Desk.openConversation None
              Desk.world eq_refl)
    as (newEmail & w' & queued & Hrun & _ & _ & _ & _ & _ & _ & _ & Hat & Hrole
        & Hstatus & _).
  exists newEmail, w'. auto.
Defined.

(** *** Attachments in development *)

Lemma processAttachment_development caps slug messageId attachment w error :
  developmentThrow caps = true ->
  uploadFile caps
    (generateKey caps ["attachments"; slug]
       (orKeep (Attachment.filename attachment) "untitled"))
    attachment = Throw error ->
  exists w1, processAttachment caps slug messageId attachment w = (Throw error, w1).
Proof.
  intros Hdev Hfail.
  unfold processAttachment, tryCatch, insertFile, bind, lift,
    captureExceptionAndThrowIfDevelopment.
  rewrite Hfail, Hdev. eexists; reflexivity.
Qed.

Lemma promiseAll_rejects tasks (task : M unit) :
  In task tasks ->
  (forall w, exists error w1, task w = (Throw error, w1)) ->
  forall w, exists error w1, promiseAll tasks w = (Throw error, w1).
Proof.
  intros Hin Hthrows.
  induction tasks as [|t rest IH]; [contradiction|].
  intros w. cbn [promiseAll].
  destruct (t w) as [[[]|e] w1] eqn:E; [|eexists; eexists; reflexivity].
  destruct Hin as [->|Hin]; [|exact (IH Hin w1)].
  destruct (Hthrows w) as (e & w2 & H). congruence.
Qed.

(** X22.  In development an inbound mail with an attachment whose upload
    fails makes [createMessageAndProcessAttachments] throw, after the
    message has been stored and its events have been sent: the message is
    in the table and [conversations/message.created] is in the queue when
    the exception leaves. *)
Theorem inbound_message_development_failure caps gse parsedEmail parsedEmailFrom
    processedHtml cleanedUpText fileSlugs gmailMessageId gmailThreadId
    conversation staffUser w attachment error :
  developmentThrow caps = true ->
  In attachment (ParsedMail.attachments parsedEmail) ->
  uploadFile caps
    (generateKey caps ["attachments"; Conversation.slug conversation]
       (orKeep (Attachment.filename attachment) "untitled"))
    attachment = Throw error ->
  exists thrown w' stored queued,
    createMessageAndProcessAttachments caps gse parsedEmail parsedEmailFrom
      processedHtml cleanedUpText fileSlugs gmailMessageId gmailThreadId
      conversation staffUser w = (Throw thrown, w') /\
    conversationMessages w' = (conversationMessages w ++ [stored])%list /\
    ConversationMessage.gmailMessageId stored = Some gmailMessageId /\
    jobs w' = (jobs w ++ queued)%list /\
    triggered conversations_message_created queued.
Proof.
  intros Hdev Hin Hfail.
  set (row := messageRow (nextMessageId w) (now w)
                (inboundValues caps parsedEmail parsedEmailFrom processedHtml
                   cleanedUpText gmailMessageId gmailThreadId conversation
                   staffUser)).
  assert (Hthrow : exists thrown,
            fst (createMessageAndProcessAttachments caps gse parsedEmail
                   parsedEmailFrom processedHtml cleanedUpText fileSlugs
                   gmailMessageId gmailThreadId conversation staffUser w)
            = Throw thrown).
  { rewrite createMessageAndProcessAttachments_values.
    rewrite (run_Ok _ _ w _ (createConversationMessage_Ok caps _ w)).
    rewrite (run_Ok _ _ _ tt) by reflexivity.
    match goal with
    | |- context [bind (when (JsString.truthyOpt ?cc && _) _) _ ?w0] =>
        destruct (assignBasedOnCc_block_run caps gse conversation cc staffUser w0)
          as [w1 H1]
    end.
    rewrite (bind_run _ _ _ _ _ H1).
    match goal with
    | |- context [processGmailAttachments caps ?s ?i ?a] =>
        destruct (promiseAll_rejects
                    (map (processAttachment caps s i) a)
                    (processAttachment caps s i attachment)
                    (in_map _ _ _ Hin)
                    (fun w0 => ex_intro _ error
                       (processAttachment_development caps s i attachment w0
                          error Hdev Hfail))
                    w1) as (thrown & w2 & H2)
    end.
    exists thrown. unfold bind at 1. unfold tryCatch, processGmailAttachments.
    rewrite H2. unfold captureExceptionAndThrowIfDevelopment. now rewrite Hdev. }
  destruct Hthrow as [thrown Hthrow].
  destruct (createMessageAndProcessAttachments_messages caps gse parsedEmail
              parsedEmailFrom processedHtml cleanedUpText fileSlugs
              gmailMessageId gmailThreadId conversation staffUser w)
    as (v & Hid & _ & Hm & _).
  exists thrown. eexists. eexists. exists (payloadsOfEvents caps row).
  split; [apply surjective_pairing_throw; exact Hthrow|].
  split; [exact Hm|]. split; [exact Hid|].
  split; [apply createMessageAndProcessAttachments_jobs|].
  apply message_created_triggered.
  change (ConversationMessage.status row)
    with (if isSome staffUser then Some sent else @None MessageStatus).
  destruct (isSome staffUser); discriminate.
Qed.

Lemma inbound_message_development_failure_witness :
  exists thrown w' stored,
    createMessageAndProcessAttachments Outage.development Demo.supportEmail
      Outage.mailWithFile Demo.customer "Can you help?" "Can you help?" []
      "m1" "m1" Desk.openConversation None Desk.world = (Throw thrown, w') /\
    conversationMessages w' = (conversationMessages Desk.world ++ [stored])%list /\
    ConversationMessage.gmailMessageId stored = Some "m1".
Proof.
  destruct (inbound_message_development_failure Outage.development
              Demo.supportEmail Outage.mailWithFile Demo.customer
              "Can you help?" "Can you help?" [] "m1" "m1"
              Desk.openConversation None Desk.world Outage.attachment
              (Error "store down") eq_refl (or_introl eq_refl) eq_refl)
    as (thrown & w' & stored & queued & Hrun & Hm & Hid & _).
  exists thrown, w', stored. auto.
Defined.

(** *** What a delivery never does *)

Lemma grownFrom_refl w : grownFrom w w.
Proof.
  exists [], []. rewrite !app_nil_r. repeat split; constructor.
Qed.

Lemma grownFrom_step w0 w w' added sent :
  conversationMessages w' = (conversationMessages w ++ added)%list ->
  jobs w' = (jobs w ++ sent)%list ->
  Forall (fun m => exists id, ConversationMessage.gmailMessageId m = Some id)
         added ->
  Forall (fun j => Job.event j <> conversations_email_enqueued) sent ->
  grownFrom w0 w -> grownFrom w0 w'.
Proof.
  intros Hm Hj Ha Hs (added0 & sent0 & Hm0 & Hj0 & Ha0 & Hs0).
  exists (added0 ++ added)%list, (sent0 ++ sent)%list.
  rewrite Hm, Hj, Hm0, Hj0, <- !app_assoc.
  repeat split; apply Forall_app; auto.
Qed.

Lemma grown_preserves {A} w0 (m : M A) :
  preserves conversationMessages m -> preserves jobs m ->
  maintains (grownFrom w0) m.
Proof.
  intros Hm Hj w Hw.
  apply (grownFrom_step w0 w _ [] []); rewrite ?app_nil_r; auto.
Qed.

Lemma grown_createMessage w0 caps gse parsedEmail parsedEmailFrom processedHtml
    cleanedUpText fileSlugs gmailMessageId gmailThreadId conversation staffUser :
  maintains (grownFrom w0)
    (createMessageAndProcessAttachments caps gse parsedEmail parsedEmailFrom
       processedHtml cleanedUpText fileSlugs gmailMessageId gmailThreadId
       conversation staffUser).
Proof.
  intros w Hw.
  destruct (createMessageAndProcessAttachments_messages caps gse parsedEmail
              parsedEmailFrom processedHtml cleanedUpText fileSlugs
              gmailMessageId gmailThreadId conversation staffUser w)
    as (v & Hid & _ & Hm & _).
  eapply grownFrom_step;
    [exact Hm | apply createMessageAndProcessAttachments_jobs | | | exact Hw].
  - repeat constructor. exists gmailMessageId. exact Hid.
  - apply Forall_forall. intros j Hin He.
    apply In_payloadsOfEvents in Hin as [H|[H|H]];
      [destruct H; congruence | destruct H; congruence |].
    destruct H as (_ & Hq & _). cbn in Hq.
    destruct (isSome staffUser); discriminate.
Qed.

Lemma grown_afterPersist w0 mailbox conversation newEmail shouldIgnore entry :
  maintains (grownFrom w0)
    (afterPersist mailbox conversation newEmail shouldIgnore entry).
Proof.
  intros w Hw.
  eapply (grownFrom_step w0 w _ []);
    [rewrite app_nil_r; apply afterPersist_messages
    | apply afterPersist_jobs | constructor | | exact Hw].
  destruct shouldIgnore; cbn [negb]; [constructor|].
  apply Forall_forall. intros j Hin He.
  apply In_payloadsOf in Hin as (Hev & _). congruence.
Qed.

Lemma grown_processAddedMessage w0 caps gse mailbox added :
  maintains (grownFrom w0) (processAddedMessage caps gse mailbox added).
Proof.
  unfold processAddedMessage.
  destruct (MessageAdded.message added) as [m|];
    [|apply grown_preserves; frames].
  destruct (GmailMessage.id m) as [id|]; [|apply grown_preserves; frames].
  destruct (GmailMessage.threadId m) as [thread|];
    [|apply grown_preserves; frames].
  destruct (JsString.truthy id && JsString.truthy thread);
    [|apply grown_preserves; frames].
  apply maintains_bind; [apply grown_preserves; frames | intros existing].
  destruct (isSome existing); [apply grown_preserves; frames|].
  apply maintains_tryCatch; [|intros e; apply grown_preserves; frames].
  unfold ingestMessage.
  apply maintains_bind; [apply grown_preserves; frames | intros parsed].
  destruct (String.eqb (ParsedMailbox.address (fst (snd parsed)))
                       (GmailSupportEmail.email gse)) eqn:Hfrom.
  - unfold ingestParsedEmail. rewrite Hfrom. apply grown_preserves; frames.
  - rewrite ingestParsedEmail_unfold by assumption. cbv zeta.
    apply maintains_bind; [apply grown_preserves; frames | intros _].
    apply maintains_bind; [apply grown_preserves; frames | intros decision].
    apply maintains_bind; [apply grown_preserves; frames | intros conversation].
    apply maintains_bind; [apply grown_createMessage | intros newEmail].
    apply grown_afterPersist.
Qed.

Lemma grown_processMessagesAdded w0 caps gse mailbox messagesAdded :
  maintains (grownFrom w0) (processMessagesAdded caps gse mailbox messagesAdded).
Proof.
  induction messagesAdded as [|added rest IH]; simpl.
  - apply grown_preserves; frames.
  - apply maintains_bind; [apply grown_processAddedMessage | intros entry].
    apply maintains_bind; [exact IH | intros entries].
    apply grown_preserves; frames.
Qed.

(** X20.  Whatever a delivery does, whether it returns or throws and in
    development or not, it only adds to the stored messages and to the job
    queue: the messages there were are kept as they were and in place, each
    added message carries a Gmail message id, and no added queue record is
    a [conversations/email.enqueued]: a delivery never asks for an email to
    be sent. *)
Theorem handleGmailWebhookEvent_only_appends caps request w :
  exists added sent,
    conversationMessages (snd (handleGmailWebhookEvent caps request w))
    = (conversationMessages w ++ added)%list /\
    jobs (snd (handleGmailWebhookEvent caps request w)) = (jobs w ++ sent)%list /\
    Forall (fun m => exists id, ConversationMessage.gmailMessageId m = Some id)
           added /\
    Forall (fun j => Job.event j <> conversations_email_enqueued) sent.
Proof.
  assert (H : maintains (grownFrom w) (handleGmailWebhookEvent caps request)).
  { apply handleGmailWebhookEvent_maintains; [intros x w1 Hw; exact Hw|].
    intros data. unfold processDelivery.
    apply maintains_bind; [apply grown_preserves; frames | intros found].
    destruct found as [g|]; [|apply grown_preserves; frames].
    destruct (GmailSupportEmail.mailboxes g) as [|mailbox others];
      [apply grown_preserves; frames|].
    destruct (negb _ || negb _); [apply grown_preserves; frames|].
    apply maintains_bind;
      [apply grown_preserves; unfold fetchMessagesAdded; frames|].
    intros messagesAdded.
    apply maintains_bind; [apply grown_processMessagesAdded | intros results].
    apply grown_preserves; frames. }
  exact (H w (grownFrom_refl w)).
Qed.

(** *** The event catalog *)

Lemma jobsOf_NoDup event : NoDup (jobsOf event).
Proof.
  destruct event; simpl; repeat constructor; simpl; intuition discriminate.
Qed.

Lemma jobsOf_disjoint event other job :
  In job (jobsOf event) -> In job (jobsOf other) -> other = event.
Proof.
  destruct event, other; try reflexivity; simpl; intros H1 H2; exfalso;
    repeat match goal with
           | H : _ \/ _ |- _ => destruct H
           | H : False |- _ => destruct H
           end;
    subst; discriminate.
Qed.

(** X21.  [triggerEvent] adds to the end of the queue one record per job
    of the event, in the order of the catalog, each carrying the event, the
    data and the delay; every event has a job, so something is always
    queued, and no job is listed twice or under two events, so the job
    named by a record tells its event. *)
Theorem triggerEvent_fan_out event data sleepSeconds w :
  exists payloads,
    triggerEvent event data sleepSeconds w
    = (Ok tt, with_jobs (jobs w ++ payloads) w) /\
    payloads <> [] /\
    map Job.job payloads = jobsOf event /\
    Forall (fun j => Job.event j = event /\ Job.data j = data /\
                     Job.sleepSeconds j = sleepSeconds) payloads /\
    NoDup (map Job.job payloads) /\
    forall other job,
      In job (jobsOf other) -> In job (map Job.job payloads) -> other = event.
Proof.
  exists (payloadsOf event data sleepSeconds).
  assert (Hjobs : map Job.job (payloadsOf event data sleepSeconds)
                  = jobsOf event).
  { unfold payloadsOf. rewrite map_map. apply map_id. }
  split; [reflexivity|]. split.
  { intros E. apply (f_equal (map Job.job)) in E. rewrite Hjobs in E.
    now apply jobsOf_nonempty in E. }
  split; [exact Hjobs|]. split.
  { apply Forall_forall. intros j Hin. now apply In_payloadsOf in Hin. }
  rewrite Hjobs. split; [apply jobsOf_NoDup|].
  intros other job Ho He. exact (jobsOf_disjoint event other job He Ho).
Qed.
